(** * delta-rcm: the claim parsers and the analytics, verified

    A shallow embedding of [src/utils/parser.ts] and
    [src/utils/analytics.ts], with what [src/App.tsx], the upload screen,
    the patient page and the summary tables compute from them, and the
    properties proved of them.

    Conventions of the embedding.
    - Text is a [string] of code units below 256.  White space is the
      one JavaScript sees among them (the no-break space included); case
      mapping and digits are those of the ASCII range, and the other code
      units are carried along unchanged.
    - A JavaScript number is a [Num.number]: NaN, a finite value held as
      a rational, or an infinity.  Arithmetic, [Math.round] and
      [parseFloat] round to binary64 ([Num.b64]: 53 significant bits,
      halves to even, subnormal numbers, overflow to an infinity), so the
      values the program computes are values of the format, in lowest
      terms.  The sign of zero is not part of the model; the text of a
      number read back by [parseFloat] is that number.
    - A [Date] is held by its local-time fields.  What only the host knows
      (the text of a number, the general date parser, the time value of a
      date) is a field of [Host.t], over which the parsers are
      parametrized.
    - A [Map] is an association list in insertion order ([JsMap]); an
      object used as a dictionary is modelled the same way.
    - A [for] or [forEach] loop is a recursive function or a left fold
      over the elements, its mutable locals being the accumulator.
    - [throw] is the [Err] constructor of [Parser.result].
    - Decoding the spreadsheet container is the library's: the report
      parser starts from the decoded rows of cells.

    The file has the embedding first ([Str] to [AQLSummaryTable]), then the
    vocabulary of the statements ([Spec]) and the sample inputs
    ([Samples]), then the facts. *)

From Stdlib Require Import ZArith QArith Qround Qabs Qpower Qreduction.
From Stdlib Require Import Bool List Ascii String Lia.
From Stdlib Require Import DecimalString Lqa Permutation Sorted.
Import ListNotations.

Local Open Scope string_scope.
Local Open Scope list_scope.
Local Open Scope bool_scope.

(* ------------------------------------------------------------------ *)
(** ** Characters and the string primitives the sources call *)

Module Str.

Definition TAB : ascii := ascii_of_nat 9.
Definition LF : ascii := ascii_of_nat 10.
Definition CR : ascii := ascii_of_nat 13.
Definition DQUOTE : ascii := ascii_of_nat 34.
Definition COMMA : ascii := ascii_of_nat 44.

Definition code (c : ascii) : nat := nat_of_ascii c.

(** White space as [trim] and the regexp class [\s] see it: the controls
    from tab to carriage return, the space and the no-break space. *)
Definition isWhite (c : ascii) : bool :=
  let n := code c in
  ((9 <=? n) && (n <=? 13))%nat || (n =? 32)%nat || (n =? 160)%nat.

Definition isDigit (c : ascii) : bool :=
  let n := code c in ((48 <=? n) && (n <=? 57))%nat.

Definition isLower (c : ascii) : bool :=
  let n := code c in ((97 <=? n) && (n <=? 122))%nat.

Definition isUpper (c : ascii) : bool :=
  let n := code c in ((65 <=? n) && (n <=? 90))%nat.

Definition upperChar (c : ascii) : ascii :=
  if isLower c then ascii_of_nat (code c - 32) else c.

Definition lowerChar (c : ascii) : ascii :=
  if isUpper c then ascii_of_nat (code c + 32) else c.

Fixpoint map (f : ascii -> ascii) (s : string) : string :=
  match s with
  | EmptyString => EmptyString
  | String c r => String (f c) (map f r)
  end.

Definition toUpperCase : string -> string := map upperChar.
Definition toLowerCase : string -> string := map lowerChar.

Fixpoint existsb (p : ascii -> bool) (s : string) : bool :=
  match s with
  | EmptyString => false
  | String c r => p c || existsb p r
  end.

Fixpoint filter (p : ascii -> bool) (s : string) : string :=
  match s with
  | EmptyString => EmptyString
  | String c r => if p c then String c (filter p r) else filter p r
  end.

Definition includesChar (c : ascii) (s : string) : bool :=
  existsb (Ascii.eqb c) s.

Fixpoint startsWith (p s : string) : bool :=
  match p, s with
  | EmptyString, _ => true
  | String a p', String b s' => Ascii.eqb a b && startsWith p' s'
  | String _ _, EmptyString => false
  end.

(** [s.includes(p)] *)
Fixpoint includes (p s : string) : bool :=
  startsWith p s ||
  match s with
  | EmptyString => false
  | String _ r => includes p r
  end.

Fixpoint rev_onto (s acc : string) : string :=
  match s with
  | EmptyString => acc
  | String c r => rev_onto r (String c acc)
  end.

Definition rev (s : string) : string := rev_onto s EmptyString.

Fixpoint trimStart (s : string) : string :=
  match s with
  | EmptyString => EmptyString
  | String c r => if isWhite c then trimStart r else s
  end.

Definition trimEnd (s : string) : string := rev (trimStart (rev s)).

Definition trim (s : string) : string := trimEnd (trimStart s).

Definition endsWith (p s : string) : bool := startsWith (rev p) (rev s).

Fixpoint drop (n : nat) (s : string) : string :=
  match n, s with
  | O, _ => s
  | S n', String _ r => drop n' r
  | S _, EmptyString => EmptyString
  end.

(** A string is truthy when it is not empty. *)
Definition nonEmpty (s : string) : bool :=
  match s with EmptyString => false | String _ _ => true end.

Definition snoc (s : string) (c : ascii) : string :=
  (s ++ String c EmptyString)%string.

(** [s.replace(c, '')]: the first occurrence of the character is removed. *)
Fixpoint removeFirstChar (c : ascii) (s : string) : string :=
  match s with
  | EmptyString => EmptyString
  | String a r => if Ascii.eqb a c then r else String a (removeFirstChar c r)
  end.

(** [s.replace(new RegExp(p, 'i'), '')] for a pattern [p] of plain
    characters, given in lower case: the first occurrence, whatever its
    case, is removed. *)
Fixpoint removeFirstCI (p : string) (s : string) : string :=
  if startsWith p (toLowerCase s) then drop (String.length p) s
  else match s with
       | EmptyString => EmptyString
       | String a r => String a (removeFirstCI p r)
       end.

End Str.

(* ------------------------------------------------------------------ *)
(** ** Rounding to binary64 *)

Module Binary64.
Local Open Scope Q_scope.

(** [2^k] *)
Definition two (k : Z) : Q := 2 ^ k.

(** The binary exponent of a positive rational: the [k] with
    [2^k <= a < 2^(k+1)]. *)
Definition ilog2 (a : Q) : Z :=
  let k := (Z.log2 (Qnum a) - Z.log2 (Zpos (Qden a)))%Z in
  if Qle_bool (two k) a then k else (k - 1)%Z.

(** The nearest integer, a half going to the even neighbour. *)
Definition rne (s : Q) : Z :=
  let f := Qfloor s in
  match Qcompare (s - inject_Z f) (1 # 2) with
  | Lt => f
  | Gt => (f + 1)%Z
  | Eq => if Z.even f then f else (f + 1)%Z
  end.

(** The exponent of the last place of the format at [a]: 53 significant
    bits, and no exponent below that of the subnormal numbers. *)
Definition expOf (a : Q) : Z := Z.max (ilog2 a - 52) (-1074).

(** The value of the format nearest to a positive rational; [None] when it
    is [2^1024] or more, which the format does not hold. *)
Definition roundPos (a : Q) : option Q :=
  let e := expOf a in
  let v := inject_Z (rne (a / two e)) * two e in
  if Qle_bool (two 1024) v then None else Some (Qred v).

Inductive rounded : Type :=
| Finite (q : Q)
| Overflow (neg : bool).

(** The value of the format nearest to a rational, in lowest terms. *)
Definition nearest (q : Q) : rounded :=
  let r := Qred q in
  match Qnum r with
  | Z0 => Finite 0
  | Zpos _ =>
      match roundPos r with Some v => Finite v | None => Overflow false end
  | Zneg _ =>
      match roundPos (- r) with Some v => Finite (- v) | None => Overflow true end
  end.

End Binary64.

(* ------------------------------------------------------------------ *)
(** ** Numbers *)

Module Num.
Import Str.

(** A JavaScript number: NaN, a finite value or a signed infinity
    ([Inf true] is the negative one). *)
Inductive number : Type :=
| NaN
| Fin (q : Q)
| Inf (neg : bool).

(** The number a rational rounds to: the nearest binary64 value, or an
    infinity beyond the range of the format. *)
Definition b64 (q : Q) : number :=
  match Binary64.nearest q with
  | Binary64.Finite v => Fin v
  | Binary64.Overflow s => Inf s
  end.

(** An operand as the arithmetic reads it, at the precision of the format;
    a number the program has computed is read as it is. *)
Definition operand (n : number) : number :=
  match n with
  | Fin q => b64 q
  | _ => n
  end.

Definition zero : number := Fin 0.
Definition one : number := Fin 1.

(** The literal [0.01]. *)
Definition cent : number := b64 0.01.

Definition isNaN (n : number) : bool :=
  match n with NaN => true | _ => false end.

(** [0] and NaN are the falsy numbers. *)
Definition truthy (n : number) : bool :=
  match n with
  | NaN => false
  | Fin q => negb (Qeq_bool q 0)
  | Inf _ => true
  end.

(** The rational is below zero. *)
Definition Qneg (q : Q) : bool := negb (Qle_bool 0 q).

(** [- n] *)
Definition neg (n : number) : number :=
  match n with
  | NaN => NaN
  | Fin q => Fin (- q)
  | Inf b => Inf (negb b)
  end.

(** [Math.abs] *)
Definition abs (n : number) : number :=
  match n with
  | NaN => NaN
  | Fin q => Fin (Qabs q)
  | Inf _ => Inf false
  end.

(** [a > b]; every comparison with NaN is false. *)
Definition gt (a b : number) : bool :=
  match a, b with
  | NaN, _ | _, NaN => false
  | Fin x, Fin y => negb (Qle_bool x y)
  | Fin _, Inf nb => nb
  | Inf na, Fin _ => negb na
  | Inf na, Inf nb => negb na && nb
  end.

(** [a <= b] *)
Definition leb (a b : number) : bool :=
  match a, b with
  | NaN, _ | _, NaN => false
  | Fin x, Fin y => Qle_bool x y
  | Fin _, Inf nb => negb nb
  | Inf na, Fin _ => na
  | Inf na, Inf nb => na || negb nb
  end.

(** [a + b], rounded; the infinities of opposite sign add up to NaN. *)
Definition add (a b : number) : number :=
  match operand a, operand b with
  | NaN, _ | _, NaN => NaN
  | Fin x, Fin y => b64 (x + y)
  | Fin _, Inf n | Inf n, Fin _ => Inf n
  | Inf na, Inf nb => if Bool.eqb na nb then Inf na else NaN
  end.

(** [a * b], rounded; zero times an infinity is NaN. *)
Definition mul (a b : number) : number :=
  match operand a, operand b with
  | NaN, _ | _, NaN => NaN
  | Fin x, Fin y => b64 (x * y)
  | Fin x, Inf n | Inf n, Fin x =>
      if Qeq_bool x 0 then NaN else Inf (xorb n (Qneg x))
  | Inf na, Inf nb => Inf (xorb na nb)
  end.

(** [a / b], rounded; a zero divisor counts as the positive zero. *)
Definition div (a b : number) : number :=
  match operand a, operand b with
  | NaN, _ | _, NaN => NaN
  | Fin x, Fin y =>
      if Qeq_bool y 0
      then (if Qeq_bool x 0 then NaN else Inf (Qneg x))
      else b64 (x / y)
  | Fin _, Inf _ => Fin 0
  | Inf n, Fin y => Inf (xorb n (Qneg y))
  | Inf _, Inf _ => NaN
  end.

(** [Math.round]: the nearest integer, halves going up.  The integer is a
    value of the format when the operand is one. *)
Definition round (a : number) : number :=
  match operand a with
  | Fin x => b64 (inject_Z (Qfloor (x + (1 # 2))))
  | n => n
  end.

(** The same value: equality of numbers up to the representation of the
    rational. *)
Definition same (a b : number) : Prop :=
  match a, b with
  | NaN, NaN => True
  | Fin x, Fin y => x == y
  | Inf na, Inf nb => na = nb
  | _, _ => False
  end.

(** *** [parseFloat] on text *)

(** The value of a decimal digit. *)
Definition digitVal (c : ascii) : Z := Z.of_nat (code c) - 48.

(** Reads a run of decimal digits: the value accumulated, how many digits
    were read, and the rest of the text. *)
Fixpoint readDigits (s : string) (acc : Z) (n : nat) : Z * nat * string :=
  match s with
  | EmptyString => (acc, n, s)
  | String c r =>
      if isDigit c then readDigits r (10 * acc + digitVal c) (S n)
      else (acc, n, s)
  end.

(** The optional exponent part: [e] or [E], an optional sign and at least
    one digit; anything else is not part of the literal. *)
Definition readExponent (s : string) : Z :=
  match s with
  | String c r =>
      if Ascii.eqb c "e" || Ascii.eqb c "E" then
        let '(sg, r') :=
          match r with
          | String "+" r' => (1%Z, r')
          | String "-" r' => ((-1)%Z, r')
          | _ => (1%Z, r)
          end in
        let '(v, n, _) := readDigits r' 0 0 in
        match n with O => 0%Z | S _ => (sg * v)%Z end
      else 0%Z
  | EmptyString => 0%Z
  end.

(** The unsigned literal: [Infinity], digits with an optional fraction, or a
    fraction alone, rounded to the format (a literal beyond its range
    reads as an infinity).  [None] when no prefix of the text is a
    literal. *)
Definition readUnsigned (s : string) : option number :=
  if startsWith "Infinity" s then Some (Inf false)
  else
    let '(i, ni, r1) := readDigits s 0 0 in
    let '(m, nf, r2) :=
      match r1 with
      | String "." r' =>
          let '(m, nf, r2) := readDigits r' i 0 in
          match ni, nf with
          | O, O => (i, O, r1)
          | _, _ => (m, nf, r2)
          end
      | _ => (i, O, r1)
      end in
    match ni, nf with
    | O, O => None
    | _, _ =>
        Some (b64 (inject_Z m * Qpower 10 (readExponent r2 - Z.of_nat nf)))
    end.

(** [parseFloat(s)]: leading white space is skipped, then the longest
    prefix that is a signed decimal literal is read; NaN when there is
    none. *)
Definition parseFloat (s : string) : number :=
  let t := trimStart s in
  let '(sg, r) :=
    match t with
    | String "+" r => (false, r)
    | String "-" r => (true, r)
    | _ => (false, t)
    end in
  match readUnsigned r with
  | None => NaN
  | Some v => if sg then neg v else v
  end.

End Num.

(* ------------------------------------------------------------------ *)
(** ** Calendar dates *)

Module JsDate.

(** A [Date] read through its local-time getters: [getFullYear],
    [getMonth] (0 is January), [getDate] and the milliseconds since local
    midnight. *)
Record Date := mkDate {
  getFullYear : Z;
  getMonth : Z;
  getDate : Z;
  msInDay : Z
}.

(** Leap years of the Gregorian calendar. *)
Definition isLeap (y : Z) : bool :=
  ((y mod 4 =? 0) && (negb (y mod 100 =? 0) || (y mod 400 =? 0)))%Z.

(** Days of month [m] (0 to 11) of year [y]. *)
Definition daysInMonth (y m : Z) : Z :=
  (if m =? 1 then (if isLeap y then 29 else 28)
   else if (m =? 3) || (m =? 5) || (m =? 8) || (m =? 10) then 30
   else 31)%Z.

(** The month before and the month after month [m] of year [y]. *)
Definition prevMonth (y m : Z) : Z * Z :=
  (if m =? 0 then (y - 1, 11) else (y, m - 1))%Z.

Definition nextMonth (y m : Z) : Z * Z :=
  (if m =? 11 then (y + 1, 0) else (y, m + 1))%Z.

(** A day number outside the month rolls into the neighbouring months, as
    day arithmetic on the first of the month does. *)
Fixpoint carryDays (fuel : nat) (y m d : Z) : Z * Z * Z :=
  match fuel with
  | O => (y, m, d)
  | S f =>
      if (d <? 1)%Z then
        let '(y', m') := prevMonth y m in
        carryDays f y' m' (d + daysInMonth y' m')%Z
      else if (daysInMonth y m <? d)%Z then
        let '(y', m') := nextMonth y m in
        carryDays f y' m' (d - daysInMonth y m)%Z
      else (y, m, d)
  end.

(** [new Date(year, monthIndex, day)] in local time: years 0 to 99 mean
    1900 to 1999, a month index outside 0..11 carries into the year and a
    day outside the month carries into the months. *)
Definition make (year monthIndex day : Z) : Date :=
  let yr := (if (0 <=? year) && (year <=? 99) then 1900 + year else year)%Z in
  let ym := (yr + monthIndex / 12)%Z in
  let mn := (monthIndex mod 12)%Z in
  let '(y, m, d) := carryDays (S (Z.to_nat (Z.abs day))) ym mn day in
  mkDate y m d 0.

End JsDate.

(* ------------------------------------------------------------------ *)
(** ** What the host environment supplies *)

Module Host.
Import Num JsDate.

(** Built-ins whose result the sources only pass along: the text of a
    number, the host's general date parser ([None] for NaN), the [Date] of a
    time value in the local zone and the time value of a [Date]. *)
Record t := mk {
  numberToString : number -> string;
  Date_parse : string -> option Z;
  Date_ofTime : Z -> Date;
  Date_getTime : Date -> Z
}.

End Host.

(* ------------------------------------------------------------------ *)
(** ** Values of type [any] *)

Module Val.
Import Str Num.

(** A cell of a decoded sheet, or the result of indexing a row. *)
Inductive value : Type :=
| VUndefined
| VNull
| VStr (s : string)
| VNum (n : number).

(** [!v] is false *)
Definition truthy (v : value) : bool :=
  match v with
  | VUndefined | VNull => false
  | VStr s => nonEmpty s
  | VNum n => Num.truthy n
  end.

(** [v === the empty string] *)
Definition isEmptyStr (v : value) : bool :=
  match v with VStr EmptyString => true | _ => false end.

Definition isNull (v : value) : bool :=
  match v with VNull => true | _ => false end.

Definition isUndefined (v : value) : bool :=
  match v with VUndefined => true | _ => false end.

Section WithHost.
Variable host : Host.t.

(** [String(v)] *)
Definition toString (v : value) : string :=
  match v with
  | VUndefined => "undefined"
  | VNull => "null"
  | VStr s => s
  | VNum n => Host.numberToString host n
  end.

(** An array element inside [join]: null and undefined give no text. *)
Definition joinItem (v : value) : string :=
  match v with
  | VUndefined | VNull => EmptyString
  | _ => toString v
  end.

(** [row.join(' ')] *)
Fixpoint join (sep : string) (row : list value) : string :=
  match row with
  | [] => EmptyString
  | [v] => joinItem v
  | v :: r => (joinItem v ++ sep ++ join sep r)%string
  end.

(** [parseFloat(v)]: the text of the value is parsed; the text of a number
    reads back as that number. *)
Definition parseFloat (v : value) : number :=
  match v with
  | VNum n => n
  | _ => Num.parseFloat (toString v)
  end.

End WithHost.

(** [row[i]] *)
Definition at_ (row : list value) (i : nat) : value :=
  nth i row VUndefined.

(** [a || b] where [a] is text or undefined. *)
Definition orStr (a : option string) (b : string) : string :=
  match a with
  | Some s => if nonEmpty s then s else b
  | None => b
  end.

Definition ofOption (a : option string) : value :=
  match a with
  | Some s => VStr s
  | None => VUndefined
  end.

End Val.

(* ------------------------------------------------------------------ *)
(** ** The quote-aware tokenizer and the export escaping *)

Module Csv.
Import Str.

(** The four mutable locals of [parseCSVLine]. *)
Record state := mkState {
  rows : list (list string);
  row : list string;
  field : string;
  inQuotes : bool
}.

Definition init : state := mkState [] [] EmptyString false.

(** One pass of the [for] loop over the remaining text.  In a quoted field
    a quote followed by a quote consumes both ([i++]). *)
Fixpoint scan (delim : ascii) (text : string) (st : state) : state :=
  match text with
  | EmptyString => st
  | String c rest =>
      if inQuotes st then
        if Ascii.eqb c DQUOTE then
          match rest with
          | String c' rest' =>
              if Ascii.eqb c' DQUOTE
              then scan delim rest'
                     (mkState (rows st) (row st) (snoc (field st) DQUOTE) true)
              else scan delim rest
                     (mkState (rows st) (row st) (field st) false)
          | EmptyString =>
              scan delim rest (mkState (rows st) (row st) (field st) false)
          end
        else scan delim rest
               (mkState (rows st) (row st) (snoc (field st) c) true)
      else
        if Ascii.eqb c DQUOTE then
          scan delim rest (mkState (rows st) (row st) (field st) true)
        else if Ascii.eqb c delim then
          scan delim rest
            (mkState (rows st) (row st ++ [field st]) EmptyString false)
        else if Ascii.eqb c LF then
          scan delim rest
            (mkState (rows st ++ [row st ++ [field st]]) [] EmptyString false)
        else if negb (Ascii.eqb c CR) then
          scan delim rest
            (mkState (rows st) (row st) (snoc (field st) c) false)
        else scan delim rest st
  end.

(** After the loop: the pending field and row are pushed unless both are
    empty. *)
Definition flush (st : state) : list (list string) :=
  if nonEmpty (field st) || negb (Nat.eqb (List.length (row st)) 0)
  then rows st ++ [row st ++ [field st]]
  else rows st.

Definition parseCSVLine (text : string) (delim : ascii) : list (list string) :=
  flush (scan delim text init).

(** The global [replace] of [escape]: every quote becomes two quotes. *)
Fixpoint doubleQuotes (s : string) : string :=
  match s with
  | EmptyString => EmptyString
  | String c r =>
      if Ascii.eqb c DQUOTE
      then String DQUOTE (String DQUOTE (doubleQuotes r))
      else String c (doubleQuotes r)
  end.

(** The test of [escape]: a comma, a quote or a line feed. *)
Definition needsQuoting (str : string) : bool :=
  includesChar COMMA str || includesChar DQUOTE str || includesChar LF str.

(** [escape] of [downloadCSV], on a text value. *)
Definition escape (str : string) : string :=
  if needsQuoting str
  then String DQUOTE (doubleQuotes str ++ String DQUOTE EmptyString)%string
  else str.

(** [r.map(escape).join(',')] on a row of text values. *)
Definition csvLine (r : list string) : string :=
  String.concat (String COMMA EmptyString) (List.map escape r).

(** [csvContent] of [downloadCSV]: the lines joined by line feeds. *)
Definition csvContent (rows : list (list string)) : string :=
  String.concat (String LF EmptyString) (List.map csvLine rows).

End Csv.

(* ------------------------------------------------------------------ *)
(** ** [parser.ts]: the field normalizers *)

Module Parser.
Import Str Num JsDate Val.

Inductive CodeType : Type := AQL | NUMERIC | OTHER.

Record Claim := mkClaim {
  id : Z;
  provider : string;
  cpt : string;
  codeType : CodeType;
  units : number;
  charge : number;
  paid : number;
  patientId : string;
  patientName : string;
  payer : string;
  dos : option Date;
  dateSort : number;
  isPaid : bool
}.

(** [throw new Error(msg)] *)
Inductive result (A : Type) : Type :=
| Ok (a : A)
| Err (msg : string).
Arguments Ok {A} a.
Arguments Err {A} msg.

(** The character class of the money pattern: dollar, comma, white space. *)
Definition moneyNoise (c : ascii) : bool :=
  Ascii.eqb c "$" || Ascii.eqb c COMMA || isWhite c.

(** [s.slice(1, -1)] *)
Definition slice1m1 (s : string) : string :=
  rev (drop 1 (rev (drop 1 s))).

(** Accounting notation: the text in parentheses becomes the text after a
    minus sign. *)
Definition unparen (s : string) : string :=
  if startsWith "(" s && endsWith ")" s
  then String "-" (slice1m1 s)
  else s.

(** The text handed to [parseFloat]: the noise is deleted, the rest is
    trimmed, and a value in parentheses gets a minus sign instead. *)
Definition moneyText (t : string) : string :=
  unparen (trim (filter (fun c => negb (moneyNoise c)) t)).

(** [normalizeMoney]: falsy input is 0, a number is itself, text is
    cleaned and parsed, and NaN becomes 0. *)
Definition normalizeMoney (str : value) : number :=
  if negb (Val.truthy str) then zero
  else match str with
       | VNum n => n
       | VStr t =>
           let n := Num.parseFloat (moneyText t) in
           if isNaN n then zero else n
       | VUndefined | VNull => zero
       end.

(** Exactly [n] decimal digits: their value and the rest of the text. *)
Fixpoint digitsN (n : nat) (s : string) (acc : Z) : option (Z * string) :=
  match n with
  | O => Some (acc, s)
  | S n' =>
      match s with
      | String c r =>
          if isDigit c then digitsN n' r (10 * acc + digitVal c) else None
      | EmptyString => None
      end
  end.

(** The ISO pattern: four digits, a dash, two digits, a dash, two digits and
    the end of the text. *)
Definition matchISO (s : string) : option (Z * Z * Z) :=
  match digitsN 4 s 0 with
  | Some (y, String "-" r1) =>
      match digitsN 2 r1 0 with
      | Some (m, String "-" r2) =>
          match digitsN 2 r2 0 with
          | Some (d, EmptyString) => Some (y, m, d)
          | _ => None
          end
      | _ => None
      end
  | _ => None
  end.

(** A run of decimal digits of length [lo] to [hi]. *)
Definition digitRun (lo hi : nat) (s : string) : option (Z * string) :=
  let '(v, n, r) := readDigits s 0 0 in
  if (lo <=? n)%nat && (n <=? hi)%nat then Some (v, r) else None.

(** The US pattern: one or two digits, a slash, one or two digits, a slash,
    two to four digits and the end of the text. *)
Definition matchMDY (s : string) : option (Z * Z * Z) :=
  match digitRun 1 2 s with
  | Some (m, String "/" r1) =>
      match digitRun 1 2 r1 with
      | Some (d, String "/" r2) =>
          match digitRun 2 4 r2 with
          | Some (y, EmptyString) => Some (m, d, y)
          | _ => None
          end
      | _ => None
      end
  | _ => None
  end.

(** [normalizePayerName] *)
Definition normalizePayerName (raw : string) : string :=
  if negb (nonEmpty raw) then "Unknown Payer"
  else
    let upper := trim (toUpperCase raw) in
    if includes "UNITED HEALTH" upper
       || includes "UNITEDHEALTH" upper
       || includes "UHC" upper
       || String.eqb upper "UNITED"
    then "UnitedHealthcare"
    else trim raw.

(** [determineCodeType]: the two patterns look at the first character of
    the upper-cased code. *)
Definition determineCodeType (cpt : string) : CodeType :=
  match toUpperCase cpt with
  | String c _ =>
      if Ascii.eqb c "A" || Ascii.eqb c "Q" || Ascii.eqb c "L" then AQL
      else if isDigit c then NUMERIC
      else OTHER
  | EmptyString => OTHER
  end.

(** [text.split] on a line feed with an optional carriage return before
    it. *)
Fixpoint splitLines (text : string) (cur : string) : list string :=
  match text with
  | EmptyString => [cur]
  | String c rest =>
      if Ascii.eqb c LF then cur :: splitLines rest EmptyString
      else if Ascii.eqb c CR then
        match rest with
        | String c' rest' =>
            if Ascii.eqb c' LF then cur :: splitLines rest' EmptyString
            else splitLines rest (snoc cur c)
        | EmptyString => splitLines rest (snoc cur c)
        end
      else splitLines rest (snoc cur c)
  end.

(** [detectDelimiter]: a tab when the first line that is not blank holds
    one, a comma otherwise. *)
Definition detectDelimiter (text : string) : ascii :=
  let firstLine :=
    match List.find (fun l => nonEmpty (trim l)) (splitLines text EmptyString) with
    | Some l => l
    | None => EmptyString
    end in
  if includesChar TAB firstLine then TAB else COMMA.

Section WithHost.
Variable host : Host.t.

(** [parseDOS]; [None] is null. *)
Definition parseDOS (str : value) : option Date :=
  if negb (Val.truthy str) then None
  else
    let s := trim (Val.toString host str) in
    match matchISO s with
    | Some (y, m, d) => Some (JsDate.make y (m - 1) d)
    | None =>
        match matchMDY s with
        | Some (m, d, y) =>
            let y := (if y <? 100 then y + 2000 else y)%Z in
            Some (JsDate.make y (m - 1) d)
        | None =>
            match Host.Date_parse host s with
            | None => None
            | Some t => Some (Host.Date_ofTime host t)
            end
        end
    end.

(** [dos ? dos.getTime() : 0] *)
Definition dateSortOf (d : option Date) : number :=
  match d with
  | Some x => Fin (inject_Z (Host.Date_getTime host x))
  | None => zero
  end.

(** *** The delimited-text parser *)

(** [header.indexOf(cand)] *)
Fixpoint indexOf (header : list string) (cand : string) : option nat :=
  match header with
  | [] => None
  | h :: r =>
      if String.eqb h cand then Some O
      else match indexOf r cand with
           | Some i => Some (S i)
           | None => None
           end
  end.

(** [findIdx]: the index of the first candidate the header holds;
    [None] stands for [-1]. *)
Fixpoint findIdx (header : list string) (candidates : list string)
  : option nat :=
  match candidates with
  | [] => None
  | cand :: r =>
      match indexOf header cand with
      | Some i => Some i
      | None => findIdx header r
      end
  end.

(** [row[i]] on a tokenized row; [None] is undefined. *)
Definition cell (row : list string) (i : option nat) : option string :=
  match i with
  | None => None
  | Some n => nth_error row n
  end.

Record Columns := mkColumns {
  iUnits : option nat;
  iCharges : option nat;
  iPaid : option nat;
  iPatientID : option nat;
  iPatientName : option nat;
  iPayer : option nat;
  iDOS : option nat;
  iProvider : option nat
}.

Definition cptCandidates : list string :=
  ["cpt"; "procedure code"; "proc code"].

Definition resolveColumns (header : list string) : Columns :=
  mkColumns
    (findIdx header ["days_or_units"; "units"; "days"; "qty"])
    (findIdx header ["charges"; "charge"; "billed"])
    (findIdx header ["insurance_payment"; "paid"; "payment"; "ins paid"])
    (findIdx header ["patient_id"; "id"; "mrn"; "account number"])
    (findIdx header ["patient_name"; "patient"; "name"; "patient name"])
    (findIdx header ["insurance provider"; "payer"; "insurance"; "plan";
                     "insurance_name"])
    (findIdx header ["date_of_service"; "dos"; "date"; "service date"])
    (findIdx header ["provider"; "rendering provider"; "rendering_provider";
                     "attending"]).

(** [x || 0] on numbers. *)
Definition orZero (n : number) : number :=
  if Num.truthy n then n else zero.

(** [paid > 0.01] *)
Definition paidFlag (paid : number) : bool := gt paid cent.

(** The body of the row loop: [None] when the row is skipped
    ([continue]), the claim pushed otherwise. *)
Definition csvRowClaim (iCPT : nat) (cols : Columns) (fallbackProvider : string)
    (idCounter : Z) (row : list string) : option Claim :=
  match nth_error row iCPT with
  | None => None
  | Some raw =>
      if negb (nonEmpty raw) then None
      else
        let cpt := trim raw in
        if negb (nonEmpty cpt) then None
        else
          let units :=
            orZero (Val.parseFloat host (ofOption (cell row (iUnits cols)))) in
          let charge := normalizeMoney (ofOption (cell row (iCharges cols))) in
          let paid :=
            Num.abs (normalizeMoney (ofOption (cell row (iPaid cols)))) in
          let provider :=
            orStr (cell row (iProvider cols))
                  (orStr (Some fallbackProvider) "Unknown Provider") in
          let rawPayer := orStr (cell row (iPayer cols)) "Unknown Payer" in
          let payer := normalizePayerName rawPayer in
          let patientId := orStr (cell row (iPatientID cols)) "Unknown ID" in
          let patientName :=
            orStr (cell row (iPatientName cols)) "Unknown Patient" in
          let dos := parseDOS (ofOption (cell row (iDOS cols))) in
          let codeType := determineCodeType cpt in
          Some (mkClaim idCounter provider (toUpperCase cpt) codeType units
                        charge paid patientId patientName payer dos
                        (dateSortOf dos) (paidFlag paid))
  end.

(** The loop over the data rows; each pushed claim takes the counter and
    increments it. *)
Fixpoint csvLoop (iCPT : nat) (cols : Columns) (fallbackProvider : string)
    (dataRows : list (list string)) (idCounter : Z) : list Claim :=
  match dataRows with
  | [] => []
  | row :: rest =>
      match csvRowClaim iCPT cols fallbackProvider idCounter row with
      | Some c => c :: csvLoop iCPT cols fallbackProvider rest (idCounter + 1)
      | None => csvLoop iCPT cols fallbackProvider rest idCounter
      end
  end.

Definition missingCPT : string :=
  "Could not find a 'CPT' column header in CSV.".

Definition parseClaimsData (text : string) (fallbackProvider : string)
  : result (list Claim) :=
  let delim := detectDelimiter text in
  let rawRows := Csv.parseCSVLine text delim in
  if (List.length rawRows <? 2)%nat then Ok []
  else
    let header := List.map (fun h => trim (toLowerCase h)) (List.hd [] rawRows) in
    let dataRows := List.tl rawRows in
    let cols := resolveColumns header in
    match findIdx header cptCandidates with
    | None => Err missingCPT
    | Some iCPT => Ok (csvLoop iCPT cols fallbackProvider dataRows 1)
    end.

(** *** The report-layout parser

    The sheet arrives decoded as rows of cells; the decoding is the
    spreadsheet library's. *)

(** [rows.findIndex(p)] and [row.find(p)] *)
Fixpoint findIndex {A : Type} (p : A -> bool) (l : list A) : option nat :=
  match l with
  | [] => None
  | x :: r =>
      if p x then Some O
      else match findIndex p r with
           | Some i => Some (S i)
           | None => None
           end
  end.

Definition isHeaderCell (c : value) : bool :=
  match c with
  | VStr t =>
      let c := trim (toLowerCase t) in
      String.eqb c "date of service" || String.eqb c "dos"
  | _ => false
  end.

(** [headerMap]: an object used as a map from header text to column; a
    later cell with the same text overwrites the earlier column. *)
Definition HeaderMap := list (string * nat).

Fixpoint hmSet (k : string) (v : nat) (m : HeaderMap) : HeaderMap :=
  match m with
  | [] => [(k, v)]
  | (k', v') :: r =>
      if String.eqb k' k then (k', v) :: r else (k', v') :: hmSet k v r
  end.

Fixpoint hmGet (m : HeaderMap) (k : string) : option nat :=
  match m with
  | [] => None
  | (k', v') :: r => if String.eqb k' k then Some v' else hmGet r k
  end.

Fixpoint buildHeaderMap (headerRow : list value) (index : nat) (m : HeaderMap)
  : HeaderMap :=
  match headerRow with
  | [] => m
  | c :: r =>
      match c with
      | VStr t =>
          if negb (String.eqb (trim t) EmptyString)
          then buildHeaderMap r (S index) (hmSet (toLowerCase (trim t)) index m)
          else buildHeaderMap r (S index) m
      | _ => buildHeaderMap r (S index) m
      end
  end.

(** A string cell whose lower-cased text satisfies [p]. *)
Definition strCell (p : string -> bool) (c : value) : bool :=
  match c with
  | VStr t => p (toLowerCase t)
  | _ => false
  end.

(** [row[headerMap[k]]] when the column exists, [dflt] otherwise. *)
Definition column (hm : HeaderMap) (k : string) (row : list value)
    (dflt : value) : value :=
  match hmGet hm k with
  | Some i => at_ row i
  | None => dflt
  end.

(** **** The applied-payments layout *)

Definition providerOfRow (row : list value) (currentProvider : string)
  : string :=
  match List.find (strCell (includes "provider name:")) row with
  | Some cell =>
      orStr (Some (trim (removeFirstCI "provider name:"
                                       (Val.toString host cell))))
            currentProvider
  | None => currentProvider
  end.

Definition paymentClaim (hm : HeaderMap) (currentProvider : string)
    (idCounter : Z) (row : list value) (dosVal cptVal : value) : Claim :=
  let appliedPayment := normalizeMoney (column hm "applied payments" row VUndefined) in
  let paid := Num.abs appliedPayment in
  let patName :=
    match hmGet hm "patient name" with
    | Some i => Val.toString host (at_ row i)
    | None => "Unknown"
    end in
  let patId :=
    match hmGet hm "patient id" with
    | Some i => Val.toString host (at_ row i)
    | None => "Unknown"
    end in
  let payer :=
    match hmGet hm "payer" with
    | Some i => normalizePayerName (Val.toString host (at_ row i))
    | None => "Unknown Payer"
    end in
  let dos := parseDOS dosVal in
  let cpt := toUpperCase (trim (Val.toString host cptVal)) in
  mkClaim idCounter (orStr (Some currentProvider) "Unknown Provider") cpt
          (determineCodeType cpt) one zero paid patId patName payer dos
          (dateSortOf dos) (paidFlag paid).

(** One row of the applied-payments loop: the provider context after the
    row and the claim pushed, if any. *)
Definition paymentRow (hm : HeaderMap) (currentProvider : string)
    (idCounter : Z) (row : list value) : string * option Claim :=
  if forallb isEmptyStr row then (currentProvider, None)
  else
    let rowStr := toLowerCase (Val.join host " " row) in
    if includes "provider name:" rowStr
    then (providerOfRow row currentProvider, None)
    else
      let dosVal := column hm "dos" row VNull in
      let cptVal := column hm "cpt" row VNull in
      if Val.truthy dosVal && Val.truthy cptVal then
        let isAdj :=
          match hmGet hm "desc." with
          | Some descIdx =>
              includes "adj" (toLowerCase (Val.toString host (at_ row descIdx)))
          | None => false
          end in
        if isAdj then (currentProvider, None)
        else (currentProvider,
              Some (paymentClaim hm currentProvider idCounter row dosVal cptVal))
      else (currentProvider, None).

Fixpoint paymentLoop (hm : HeaderMap) (rows : list (list value))
    (currentProvider : string) (idCounter : Z) : list Claim :=
  match rows with
  | [] => []
  | row :: rest =>
      match paymentRow hm currentProvider idCounter row with
      | (prov, Some c) => c :: paymentLoop hm rest prov (idCounter + 1)
      | (prov, None) => paymentLoop hm rest prov idCounter
      end
  end.

(** **** The patient-visit layout *)

(** [currentPatientInfo]: a property that was never set reads as
    undefined ([None]). *)
Record PatientInfo := mkInfo {
  Patient_Name : option string;
  Patient_ID : option string;
  Insurance : option string;
  Provider : option string
}.

Definition emptyInfo : PatientInfo := mkInfo None None None None.

(** The forward scan of [findValueByKeyword] for the next cell holding
    something. *)
Fixpoint nextValue (cells : list value) : string :=
  match cells with
  | [] => EmptyString
  | c :: r =>
      if negb (isEmptyStr c) && negb (isNull c) && negb (isUndefined c)
      then trim (Val.toString host c)
      else nextValue r
  end.

Definition findValueByKeyword (row : list value) (keyword : string) : string :=
  let keywordLower := removeFirstChar ":" (toLowerCase keyword) in
  match findIndex (strCell (includes keywordLower)) row with
  | None => EmptyString
  | Some cellIndex =>
      let cellText := Val.toString host (at_ row cellIndex) in
      let potentialValue :=
        trim (removeFirstChar ":"
                (removeFirstCI (toLowerCase keyword) cellText)) in
      if nonEmpty potentialValue then potentialValue
      else nextValue (List.skipn (S cellIndex) row)
  end.

(** The slashed date pattern at the head of the text: one or two digits,
    a slash, one or two digits, a slash, four digits. *)
Definition oneOrTwoDigitsSlash (s : string) : option string :=
  match s with
  | String a (String "/" r) => if isDigit a then Some r else None
  | String a (String b (String "/" r)) =>
      if isDigit a && isDigit b then Some r else None
  | _ => None
  end.

Definition slashedDateAt (s : string) : bool :=
  match oneOrTwoDigitsSlash s with
  | Some r1 =>
      match oneOrTwoDigitsSlash r1 with
      | Some r2 =>
          match digitsN 4 r2 0 with
          | Some _ => true
          | None => false
          end
      | None => false
      end
  | None => false
  end.

(** The pattern is not anchored: it may match anywhere in the text. *)
Fixpoint hasSlashedDate (s : string) : bool :=
  slashedDateAt s ||
  match s with
  | EmptyString => false
  | String _ r => hasSlashedDate r
  end.

Definition isoShaped (s : string) : bool :=
  match matchISO s with Some _ => true | None => false end.

(** [(idx !== undefined && row[idx]) ? String(row[idx]).trim() : ''] *)
Definition cellText (hm : HeaderMap) (k : string) (row : list value) : string :=
  match hmGet hm k with
  | Some i =>
      if Val.truthy (at_ row i) then trim (Val.toString host (at_ row i))
      else EmptyString
  | None => EmptyString
  end.

Definition visitClaim (hm : HeaderMap) (fallbackProvider : string)
    (info : PatientInfo) (idCounter : Z) (row : list value)
    (dateOfService cptCode : string) : Claim :=
  let units :=
    orZero (Val.parseFloat host (column hm "days or units" row VUndefined)) in
  let charges := normalizeMoney (column hm "charges" row VUndefined) in
  let insPayment := normalizeMoney (column hm "insurance payment" row VUndefined) in
  let paid := Num.abs insPayment in
  let provider :=
    orStr (Provider info) (orStr (Some fallbackProvider) "Unknown Provider") in
  let payer := normalizePayerName (orStr (Insurance info) "Unknown Payer") in
  let dos := parseDOS (VStr dateOfService) in
  let codeType := determineCodeType cptCode in
  mkClaim idCounter provider (toUpperCase cptCode) codeType units charges paid
          (orStr (Patient_ID info) "Unknown ID")
          (orStr (Patient_Name info) "Unknown Patient")
          payer dos (dateSortOf dos) (paidFlag paid).

(** What the loop body does with a row. *)
Inductive RowKind : Type :=
| Skipped
| PatientRow
| InsuranceRow
| OtherRow.

Definition visitRowKind (row : list value) : RowKind :=
  if forallb (fun c => isEmptyStr c || isNull c) row then Skipped
  else
    let rowAsString := toLowerCase (Val.join host " " row) in
    if includes "sub total" rowAsString || includes "page:" rowAsString
    then Skipped
    else if List.existsb (strCell (startsWith "patient:")) row then PatientRow
    else if List.existsb (strCell (startsWith "insurance:")) row
    then InsuranceRow
    else OtherRow.

(** One row of the patient-visit loop: the context after the row and the
    claim pushed, if any. *)
Definition visitRow (hm : HeaderMap) (fallbackProvider : string)
    (info : PatientInfo) (idCounter : Z) (row : list value)
  : PatientInfo * option Claim :=
  match visitRowKind row with
  | Skipped => (info, None)
  | PatientRow =>
      (mkInfo (Some (findValueByKeyword row "Patient:"))
              (Some (findValueByKeyword row "Patient ID:"))
              None None,
       None)
  | InsuranceRow =>
      (mkInfo (Patient_Name info) (Patient_ID info)
              (Some (findValueByKeyword row "Insurance:"))
              (Some (findValueByKeyword row "Provider:")),
       None)
  | OtherRow =>
      let dateOfService := cellText hm "date of service" row in
      let cptCode := cellText hm "cpt" row in
      if (hasSlashedDate dateOfService || isoShaped dateOfService)
         && nonEmpty cptCode
      then (info,
            Some (visitClaim hm fallbackProvider info idCounter row
                             dateOfService cptCode))
      else (info, None)
  end.

Fixpoint visitLoop (hm : HeaderMap) (fallbackProvider : string)
    (rows : list (list value)) (info : PatientInfo) (idCounter : Z)
  : list Claim :=
  match rows with
  | [] => []
  | row :: rest =>
      match visitRow hm fallbackProvider info idCounter row with
      | (info', Some c) =>
          c :: visitLoop hm fallbackProvider rest info' (idCounter + 1)
      | (info', None) => visitLoop hm fallbackProvider rest info' idCounter
      end
  end.

Definition missingDOS : string :=
  "Could not find 'Date of Service' or 'DOS' header in Excel file.".

(** [parseExcelReport] from the decoded rows of the first sheet on. *)
Definition parseExcelReport (rows : list (list value))
    (fallbackProvider : string) : result (list Claim) :=
  match findIndex (List.existsb isHeaderCell) rows with
  | None => Err missingDOS
  | Some headerRowIndex =>
      let headerRow := nth headerRowIndex rows [] in
      let headerMap := buildHeaderMap headerRow 0 [] in
      let body := List.skipn (S headerRowIndex) rows in
      match hmGet headerMap "applied payments" with
      | Some _ => Ok (paymentLoop headerMap body fallbackProvider 1)
      | None => Ok (visitLoop headerMap fallbackProvider body emptyInfo 1)
      end
  end.

End WithHost.

End Parser.

(* ------------------------------------------------------------------ *)
(** ** [Map] with text keys *)

Module JsMap.

Section WithValue.
Context {V : Type}.

(** The entries in insertion order; [set] keeps a key at most once. *)
Definition t := list (string * V).

Definition empty : t := [].

Fixpoint get (m : t) (k : string) : option V :=
  match m with
  | [] => None
  | (k', v) :: r => if String.eqb k' k then Some v else get r k
  end.

Definition has (m : t) (k : string) : bool :=
  match get m k with Some _ => true | None => false end.

(** [m.set(k, v)]: an existing key keeps its place. *)
Fixpoint set (k : string) (v : V) (m : t) : t :=
  match m with
  | [] => [(k, v)]
  | (k', v') :: r =>
      if String.eqb k' k then (k', v) :: r else (k', v') :: set k v r
  end.

Definition values (m : t) : list V := List.map snd m.

Definition keys (m : t) : list string := List.map fst m.

End WithValue.

Arguments t V : clear implicits.

End JsMap.

(* ------------------------------------------------------------------ *)
(** ** [analytics.ts] *)

Module Analytics.
Import Str Num JsDate Parser.

Inductive Method : Type := Mode | Max | NoMethod.

Record ReimbursementRate := mkRate {
  rPayer : string;
  rCpt : string;
  expectedRate : number;
  method : Method;
  frequency : nat
}.

Record PayerDenialStats := mkDenial {
  dPayer : string;
  deniedUnits : number;
  deniedValue : number;
  projectedValue : number
}.

Record PatientStat := mkPatient {
  sPatientName : string;
  sPatientId : string;
  totalVisits : nat;
  totalRevenue : number;
  lastVisit : option Date;
  sPayer : string
}.

(** *** Reimbursement rates *)

(** The filter of [calculateReimbursementRates]. *)
Definition qualifies (c : Claim) : bool :=
  isPaid c && gt (paid c) zero && gt (units c) zero.

(** [Math.round(ratePerUnit * 100) / 100] *)
Definition round2 (x : number) : number :=
  div (round (mul x (Fin 100))) (Fin 100).

Definition roundedRate (c : Claim) : number :=
  round2 (div (paid c) (units c)).

Definition History := JsMap.t (JsMap.t (list number)).

(** The body of the first [forEach]. *)
Definition recordRate (ph : History) (c : Claim) : History :=
  let ph1 := if JsMap.has ph (payer c) then ph
             else JsMap.set (payer c) JsMap.empty ph in
  let payerMap :=
    match JsMap.get ph1 (payer c) with Some m => m | None => JsMap.empty end in
  let payerMap1 := if JsMap.has payerMap (cpt c) then payerMap
                   else JsMap.set (cpt c) [] payerMap in
  let rates :=
    match JsMap.get payerMap1 (cpt c) with Some l => l | None => [] end in
  JsMap.set (payer c)
            (JsMap.set (cpt c) (rates ++ [roundedRate c]) payerMap1) ph1.

Definition pricingHistory (claims : list Claim) : History :=
  fold_left recordRate (List.filter qualifies claims) JsMap.empty.

(** Two numbers name the same property of the [frequency] object when
    they have the same text. *)
Definition sameKey (a b : number) : bool :=
  match a, b with
  | NaN, NaN => true
  | Fin x, Fin y => Qeq_bool x y
  | Inf na, Inf nb => Bool.eqb na nb
  | _, _ => false
  end.

(** [frequency]: the properties in creation order with their counts. *)
Definition Frequency := list (number * nat).

(** [frequency[r] = (frequency[r] || 0) + 1] *)
Fixpoint bump (r : number) (f : Frequency) : Frequency :=
  match f with
  | [] => [(r, 1%nat)]
  | (k, n) :: rest =>
      if sameKey k r then (k, S n) :: rest else (k, n) :: bump r rest
  end.

(** The [rates.forEach] that fills [frequency] and tracks [maxRate]. *)
Definition tally (rates : list number) : Frequency * number :=
  fold_left
    (fun '(f, maxRate) r => (bump r f, if gt r maxRate then r else maxRate))
    rates ([], zero).

(** A property name that is an array index: the text of an integer from 0
    to 2^32 - 2.  [Object.entries] lists these first, in ascending order. *)
Definition indexKey (r : number) : option Z :=
  match r with
  | Fin q =>
      let q' := Qred q in
      if Pos.eqb (Qden q') 1 && (0 <=? Qnum q')%Z && (Qnum q' <? 4294967295)%Z
      then Some (Qnum q') else None
  | _ => None
  end.

Fixpoint insertByIndex (i : Z) (e : number * nat) (l : list (Z * (number * nat)))
  : list (Z * (number * nat)) :=
  match l with
  | [] => [(i, e)]
  | (j, e') :: r =>
      if (i <=? j)%Z then (i, e) :: l else (j, e') :: insertByIndex i e r
  end.

Fixpoint indexEntries (f : Frequency) : list (Z * (number * nat)) :=
  match f with
  | [] => []
  | e :: r =>
      match indexKey (fst e) with
      | Some i => insertByIndex i e (indexEntries r)
      | None => indexEntries r
      end
  end.

Definition isIndexKey (e : number * nat) : bool :=
  match indexKey (fst e) with Some _ => true | None => false end.

(** [Object.entries(frequency)]; the key read back by [parseFloat] is the
    rate itself. *)
Definition entries (f : Frequency) : list (number * nat) :=
  List.map snd (indexEntries f) ++ List.filter (fun e => negb (isIndexKey e)) f.

(** The body of the [for ... of] loop over the entries. *)
Definition modeStep (st : number * nat) (e : number * nat) : number * nat :=
  let '(modeRate, maxFreq) := st in
  let '(r, freq) := e in
  if (maxFreq <? freq)%nat then (r, freq)
  else if (freq =? maxFreq)%nat && gt r modeRate then (r, maxFreq)
  else (modeRate, maxFreq).

Definition modeOf (f : Frequency) : number * nat :=
  fold_left modeStep (entries f) (zero, O).

(** The entry computed for one payer and code from its rates. *)
Definition rateEntry (payer cpt : string) (rates : list number)
  : ReimbursementRate :=
  let '(frequency, maxRate) := tally rates in
  let '(modeRate, maxFreq) := modeOf frequency in
  let distinctRates := List.length frequency in
  if (2 <? distinctRates)%nat
  then mkRate payer cpt modeRate Mode maxFreq
  else mkRate payer cpt maxRate Max maxFreq.

Definition RateTable := JsMap.t (JsMap.t ReimbursementRate).

(** The inner [cptMap.forEach]. *)
Definition fillPayer (payer : string) (cptMap : JsMap.t (list number))
    (results : RateTable) : RateTable :=
  fold_left
    (fun res '(cpt, rates) =>
       let inner :=
         match JsMap.get res payer with Some m => m | None => JsMap.empty end in
       JsMap.set payer (JsMap.set cpt (rateEntry payer cpt rates) inner) res)
    cptMap results.

(** The outer [pricingHistory.forEach]. *)
Definition fillResults (ph : History) : RateTable :=
  fold_left
    (fun res '(payer, cptMap) =>
       let res1 := if JsMap.has res payer then res
                   else JsMap.set payer JsMap.empty res in
       fillPayer payer cptMap res1)
    ph JsMap.empty.

Definition calculateReimbursementRates (claims : list Claim) : RateTable :=
  fillResults (pricingHistory claims).

(** [rates.get(payer)?.get(cpt)] *)
Definition lookupRate (rates : RateTable) (payer cpt : string)
  : option ReimbursementRate :=
  match JsMap.get rates payer with
  | Some m => JsMap.get m cpt
  | None => None
  end.

(** *** Denial opportunity *)

(** The body of the [forEach] over the unpaid claims. *)
Definition recordDenial (rates : RateTable)
    (stats : JsMap.t PayerDenialStats) (c : Claim) : JsMap.t PayerDenialStats :=
  let stats1 := if JsMap.has stats (payer c) then stats
                else JsMap.set (payer c) (mkDenial (payer c) zero zero zero) stats in
  let stat :=
    match JsMap.get stats1 (payer c) with
    | Some x => x
    | None => mkDenial (payer c) zero zero zero
    end in
  let du := add (deniedUnits stat) (units c) in
  let dv := add (deniedValue stat) (charge c) in
  let pv :=
    match lookupRate rates (payer c) (cpt c) with
    | Some rateObj => add (projectedValue stat) (mul (units c) (expectedRate rateObj))
    | None => projectedValue stat
    end in
  JsMap.set (payer c) (mkDenial (dPayer stat) du dv pv) stats1.

Definition calculateDenialOpportunity (claims : list Claim) (rates : RateTable)
  : list PayerDenialStats :=
  JsMap.values
    (fold_left (recordDenial rates)
               (List.filter (fun c => negb (isPaid c)) claims) JsMap.empty).

(** *** Patients *)

Section WithHost.
Variable host : Host.t.

(** [a > b] on dates compares their time values. *)
Definition laterThan (a b : Date) : bool :=
  (Host.Date_getTime host b <? Host.Date_getTime host a)%Z.

(** The body of the first [forEach] of [analyzePatients]. *)
Definition recordPatient (patients : JsMap.t PatientStat) (c : Claim)
  : JsMap.t PatientStat :=
  let patients1 :=
    if JsMap.has patients (patientId c) then patients
    else JsMap.set (patientId c)
           (mkPatient (patientName c) (patientId c) O zero None (payer c))
           patients in
  let p :=
    match JsMap.get patients1 (patientId c) with
    | Some x => x
    | None => mkPatient (patientName c) (patientId c) O zero None (payer c)
    end in
  let revenue := add (totalRevenue p) (paid c) in
  let last :=
    match dos c with
    | Some d =>
        match lastVisit p with
        | None => Some d
        | Some l => if laterThan d l then Some d else Some l
        end
    | None => lastVisit p
    end in
  JsMap.set (patientId c)
            (mkPatient (sPatientName p) (sPatientId p) (totalVisits p) revenue
                       last (sPayer p))
            patients1.

(** The template string of the visit key: the patient, a bar and the time
    value of the date. *)
Definition visitKey (c : Claim) : string :=
  (patientId c ++ "|" ++
   match dos c with
   | Some d => Host.numberToString host (Fin (inject_Z (Host.Date_getTime host d)))
   | None => "undefined"
   end)%string.

(** [distinctVisits.add(key)] *)
Definition setAdd (s : list string) (k : string) : list string :=
  if List.existsb (String.eqb k) s then s else s ++ [k].

(** [key.split('|')[0]] *)
Fixpoint beforeBar (s : string) : string :=
  match s with
  | EmptyString => EmptyString
  | String c r => if Ascii.eqb c "|" then EmptyString else String c (beforeBar r)
  end.

(** [visitCounts[pid] = (visitCounts[pid] || 0) + 1].  The object is read
    through its own properties: an identifier that is the name of an
    inherited property (such as [constructor]) is outside the model. *)
Definition countVisit (visitCounts : JsMap.t nat) (key : string) : JsMap.t nat :=
  let pid := beforeBar key in
  JsMap.set pid
    (match JsMap.get visitCounts pid with Some n => S n | None => 1%nat end)
    visitCounts.

Definition analyzePatients (claims : list Claim) : list PatientStat :=
  let patients := fold_left recordPatient claims JsMap.empty in
  let distinctVisits := fold_left setAdd (List.map visitKey claims) [] in
  let visitCounts := fold_left countVisit distinctVisits JsMap.empty in
  List.map
    (fun p =>
       mkPatient (sPatientName p) (sPatientId p)
                 (match JsMap.get visitCounts (sPatientId p) with
                  | Some n => n
                  | None => O
                  end)
                 (totalRevenue p) (lastVisit p) (sPayer p))
    (JsMap.values patients).

End WithHost.

End Analytics.

(* ------------------------------------------------------------------ *)
(** ** [parser.ts]: the content of the export *)

Module Exporter.
Import Str Num JsDate Val Parser.

(** [headers] of [downloadCSV]. *)
Definition headers : list string :=
  ["Claim ID"; "Provider"; "Payer"; "Patient Name"; "Patient ID"; "CPT";
   "Units"; "DOS"; "Charge"; "Paid"; "Status"].

Section WithHost.
Variable host : Host.t.

(** Two more built-ins whose result is only passed along: the day part of
    [toISOString], as [d.toISOString().split('T')[0]] gives it, and
    [n.toFixed(2)]. *)
Variable isoDay : Date -> string.
Variable toFixed2 : number -> string.

(** The row of a claim, each value as [String(val ?? '')] gives it to
    [escape]. *)
Definition row (c : Claim) : list string :=
  [Host.numberToString host (Fin (inject_Z (id c)));
   provider c;
   payer c;
   patientName c;
   patientId c;
   cpt c;
   Host.numberToString host (units c);
   match dos c with Some d => isoDay d | None => EmptyString end;
   toFixed2 (charge c);
   toFixed2 (paid c);
   if isPaid c then "Paid" else "Unpaid"].

(** [csvContent] of [downloadCSV]: the header line and one line for each
    claim. *)
Definition csvContent (claims : list Claim) : string :=
  Csv.csvContent (headers :: List.map row claims).

End WithHost.

End Exporter.

(* ------------------------------------------------------------------ *)
(** ** [App.tsx] and the upload screen: what they compute from the claims *)

Module App.
Import Str Num JsDate Val Parser Analytics.

(** [a - b] *)
Definition sub (a b : number) : number := add a (neg b).

(** The body of the loop of [payerDenials]: the record of the payer, or a
    fresh one, with the units and the charge added. *)
Definition denialStep (map : JsMap.t PayerDenialStats) (c : Claim)
  : JsMap.t PayerDenialStats :=
  let existing :=
    match JsMap.get map (payer c) with
    | Some e => e
    | None => mkDenial (payer c) zero zero zero
    end in
  JsMap.set (payer c)
    (mkDenial (dPayer existing)
              (add (deniedUnits existing) (units c))
              (add (deniedValue existing) (charge c))
              (projectedValue existing))
    map.

(** [payerDenials]: the denial counts of the chart. *)
Definition payerDenials (claims : list Claim) : list PayerDenialStats :=
  JsMap.values
    (fold_left denialStep (List.filter (fun c => negb (isPaid c)) claims)
               JsMap.empty).

Record KPI := mkKPI {
  totalCollected : number;
  totalEncounters : nat;
  totalUnits : number;
  paidUnits : number;
  denialRate : number;
  projectedOpportunity : number
}.

(** [claims.reduce((acc, c) => acc + f(c), 0)] *)
Definition total {A : Type} (f : A -> number) (l : list A) : number :=
  fold_left (fun acc c => add acc (f c)) l zero.

Section WithHost.

(** [d.toISOString()], a built-in whose result is only compared. *)
Variable toISOString : Date -> string.

(** The key of an encounter, [c.patientId + (c.dos?.toISOString() || '')]:
    the patient and the text of the date, or nothing for no date. *)
Definition encounterKey (c : Claim) : string :=
  (patientId c ++
   match dos c with
   | Some d => toISOString d
   | None => EmptyString
   end)%string.

(** [kpis], with [rates] the rate table of the same claims. *)
Definition kpis (claims : list Claim) : KPI :=
  let rates := calculateReimbursementRates claims in
  let totalCollected := total paid claims in
  let totalEncounters :=
    List.length (fold_left setAdd (List.map encounterKey claims) []) in
  let totalUnits := total units claims in
  let paidUnits := total units (List.filter isPaid claims) in
  let denialRate :=
    if Num.truthy totalUnits
    then mul (div (sub totalUnits paidUnits) totalUnits) (Fin 100)
    else zero in
  let deniedStats := calculateDenialOpportunity claims rates in
  let projectedOpportunity := total projectedValue deniedStats in
  mkKPI totalCollected totalEncounters totalUnits paidUnits denialRate
        projectedOpportunity.

End WithHost.

End App.

Module UploadScreen.
Import Str Num JsDate Val Parser.

(** [{...c, id: n}] *)
Definition withId (c : Claim) (n : Z) : Claim :=
  mkClaim n (provider c) (cpt c) (codeType c) (units c) (charge c) (paid c)
          (patientId c) (patientName c) (payer c) (dos c) (dateSort c)
          (isPaid c).

(** [combinedClaims.map((c, i) => ({...c, id: i + 1}))], from index [i]
    on. *)
Fixpoint reindexFrom (i : Z) (l : list Claim) : list Claim :=
  match l with
  | [] => []
  | c :: r => withId c (i + 1) :: reindexFrom (i + 1) r
  end.

(** The claims of the files, one list after the other
    ([combinedClaims = [...combinedClaims, ...fileClaims]]). *)
Definition combine (results : list (list Claim)) : list Claim :=
  fold_left (fun combined fileClaims => combined ++ fileClaims) results [].

(** What [processFiles] hands on when every file was parsed: the combined
    claims renumbered. *)
Definition reindexed (results : list (list Claim)) : list Claim :=
  reindexFrom 0 (combine results).

End UploadScreen.

(* ------------------------------------------------------------------ *)
(** ** [App.tsx]: the monthly trend *)

Module Trend.
Import Str Num JsDate Val Parser Analytics.

Record MonthlyStat := mkMonthly {
  month : string;
  mPaid : number;
  mUnits : number
}.

(** [s.padStart(2, '0')] *)
Definition padStart2 (s : string) : string :=
  match String.length s with
  | O => "00"
  | S O => String "0" s
  | _ => s
  end.

Section WithHost.
Variable host : Host.t.

(** The key of a month: the year, a dash and the number of the month in
    two digits. *)
Definition monthKey (d : Date) : string :=
  (Host.numberToString host (Fin (inject_Z (getFullYear d)))
   ++ "-"
   ++ padStart2 (Host.numberToString host (Fin (inject_Z (getMonth d + 1)))))%string.

(** The body of the loop of [monthlyData]: a claim without a date is
    passed over; another adds its paid amount and its units to the record
    of its month, or to a fresh one. *)
Definition monthlyStep (map : JsMap.t MonthlyStat) (c : Claim)
  : JsMap.t MonthlyStat :=
  match dos c with
  | None => map
  | Some d =>
      let key := monthKey d in
      let existing :=
        match JsMap.get map key with
        | Some e => e
        | None => mkMonthly key zero zero
        end in
      JsMap.set key
        (mkMonthly (month existing)
                   (add (mPaid existing) (paid c))
                   (add (mUnits existing) (units c)))
        map
  end.

(** [monthlyData] *)
Definition monthlyData (claims : list Claim) : list MonthlyStat :=
  JsMap.values (fold_left monthlyStep claims JsMap.empty).

End WithHost.

End Trend.

(* ------------------------------------------------------------------ *)
(** ** Sorting an array *)

Module JsArray.

(** [Array.prototype.sort] with a comparator.  [before a b] tells that the
    comparator gives for [a] and [b] a result that is not above 0, so
    that [a] is not moved behind [b].  The sort is stable; when the
    comparator orders the elements consistently, its result is the one of
    the insertion sort. *)
Fixpoint insertSorted {A : Type} (before : A -> A -> bool) (x : A)
    (l : list A) : list A :=
  match l with
  | [] => [x]
  | y :: r => if before x y then x :: y :: r else y :: insertSorted before x r
  end.

Definition sort {A : Type} (before : A -> A -> bool) (l : list A) : list A :=
  fold_right (insertSorted before) [] l.

End JsArray.

(* ------------------------------------------------------------------ *)
(** ** [App.tsx]: the provider of the report *)

Module AppLoad.
Import Str Num JsDate Val Parser Analytics.

(** The body of the loop that counts the claims of each provider,
    [counts[c.provider] = (counts[c.provider] || 0) + 1].  The object
    [counts] is a map in insertion order when no provider is an array
    index or the name of an inherited property. *)
Definition countProvider (counts : JsMap.t nat) (c : Claim) : JsMap.t nat :=
  JsMap.set (provider c)
            (match JsMap.get counts (provider c) with
             | Some n => n
             | None => O
             end + 1)%nat
            counts.

(** [counts[k]] for a key of [counts]. *)
Definition countOf (counts : JsMap.t nat) (k : string) : nat :=
  match JsMap.get counts k with
  | Some n => n
  | None => O
  end.

(** [topProv]: the first of the keys sorted by [counts[b] - counts[a]]. *)
Definition topProv (loadedClaims : list Claim) : option string :=
  let counts := fold_left countProvider loadedClaims JsMap.empty in
  List.hd_error
    (JsArray.sort (fun a b => Nat.leb (countOf counts b) (countOf counts a))
                  (JsMap.keys counts)).

(** [handleDataLoaded]: the provider name it sets, none when it stops at
    the alert for no claims. *)
Definition handleDataLoaded (loadedClaims : list Claim)
    (inputProvider : string) : option string :=
  match loadedClaims with
  | [] => None
  | _ :: _ =>
      Some (if nonEmpty inputProvider then inputProvider
            else match topProv loadedClaims with
                 | Some p => if nonEmpty p then p else "Unknown Provider"
                 | None => "Unknown Provider"
                 end)
  end.

End AppLoad.

(* ------------------------------------------------------------------ *)
(** ** [PatientAnalytics.tsx]: the top patients *)

Module PatientAnalytics.
Import Str Num JsDate Val Parser Analytics.

(** The result [v] of a comparator is not above 0; NaN counts as 0. *)
Definition notAbove0 (v : number) : bool :=
  match v with
  | NaN => true
  | _ => leb v zero
  end.

(** [[...patients].sort((a, b) => b.totalRevenue - a.totalRevenue)
    .slice(0, 10)] *)
Definition topByRevenue (patients : list PatientStat) : list PatientStat :=
  List.firstn 10
    (JsArray.sort
       (fun a b => notAbove0 (App.sub (totalRevenue b) (totalRevenue a)))
       patients).

(** [[...patients].sort((a, b) => b.totalVisits - a.totalVisits)
    .slice(0, 10)] *)
Definition topByVisits (patients : list PatientStat) : list PatientStat :=
  List.firstn 10
    (JsArray.sort (fun a b => Nat.leb (totalVisits b) (totalVisits a))
                  patients).

End PatientAnalytics.

(* ------------------------------------------------------------------ *)
(** ** The upload screen: from the files to the claims *)

Module Upload.
Import Str Num JsDate Val Parser UploadScreen.

(** A file as the screen reads it: its name, its text as [file.text()]
    gives it, and the rows of its first sheet as the spreadsheet library
    decodes them from [file.arrayBuffer()]. *)
Record File := mkFile {
  fileName : string;
  fileText : string;
  fileRows : list (list value)
}.

(** The parser that the name of a file selects. *)
Inductive Kind := Excel | Delimited | Unsupported.

Definition kindOf (f : File) : Kind :=
  let name := toLowerCase (fileName f) in
  if endsWith ".xls" name || endsWith ".xlsx" name then Excel
  else if endsWith ".csv" name || endsWith ".tsv" name
          || endsWith ".txt" name then Delimited
  else Unsupported.

Definition unsupportedType (f : File) : string :=
  ("Unsupported file type: " ++ fileName f)%string.

Definition tooManyFiles : string :=
  "Maximum limit reached. Please upload up to 12 files at a time.".

Definition noValidClaims : string :=
  "No valid claims data found in the uploaded files. Please check the file formats.".

Definition noPastedClaims : string := "No valid claims found in pasted text.".

(** What a handler of the screen does: nothing at all; [setError] with a
    message; [setError] after a file has failed, with the message of one
    of the files that fail (the one that fails first in time); or
    [onDataLoaded] with the claims and the provider name. *)
Inductive Outcome :=
| Nothing
| Refused (msg : string)
| Failed (msgs : list string)
| Loaded (claims : list Claim) (providerName : string).

Section WithHost.
Variable host : Host.t.

(** The promise of one file. *)
Definition parseFile (providerName : string) (f : File)
  : result (list Claim) :=
  match kindOf f with
  | Excel => parseExcelReport host (fileRows f) providerName
  | Delimited => parseClaimsData host (fileText f) providerName
  | Unsupported => Err (unsupportedType f)
  end.

(** The messages of the promises that are rejected. *)
Fixpoint rejections (results : list (result (list Claim))) : list string :=
  match results with
  | [] => []
  | Ok _ :: r => rejections r
  | Err m :: r => m :: rejections r
  end.

(** The values of the promises that are fulfilled. *)
Fixpoint fulfilled (results : list (result (list Claim)))
  : list (list Claim) :=
  match results with
  | [] => []
  | Ok a :: r => a :: fulfilled r
  | Err _ :: r => fulfilled r
  end.

(** [processFiles] *)
Definition processFiles (files : list File) (providerName : string)
  : Outcome :=
  match files with
  | [] => Nothing
  | _ :: _ =>
      if (12 <? List.length files)%nat then Refused tooManyFiles
      else
        let results := List.map (parseFile providerName) files in
        match rejections results with
        | _ :: _ =>
            Failed (List.map (fun m => ("Failed to process files: " ++ m)%string)
                             (rejections results))
        | [] =>
            match combine (fulfilled results) with
            | [] => Refused noValidClaims
            | combinedClaims => Loaded (reindexFrom 0 combinedClaims) providerName
            end
        end
  end.

(** [handleManualAnalyze] *)
Definition handleManualAnalyze (textInput providerName : string) : Outcome :=
  if negb (nonEmpty (trim textInput)) then Nothing
  else
    match parseClaimsData host textInput providerName with
    | Err m => Refused ("Parsing error: Error: " ++ m)%string
    | Ok [] => Refused noPastedClaims
    | Ok claims => Loaded claims providerName
    end.

End WithHost.

End Upload.

(* ------------------------------------------------------------------ *)
(** ** The denial table of the summary page *)

Module DenialAnalyticsTable.
Import Str Num JsDate Val Parser Analytics.

(** A row of the table.  The two objects of the component, [map] and
    [codes], are maps in insertion order, which is what they are read as
    here when no key is the name of an inherited property. *)
Record DenialStat := mkStat {
  tUnits : number;
  tCharges : number;
  tProjected : number;
  codes : JsMap.t number
}.

(** [rates.get(c.payer)?.get(c.cpt)?.expectedRate || 0] *)
Definition expected (rates : RateTable) (c : Claim) : number :=
  match lookupRate rates (payer c) (cpt c) with
  | Some r => orZero (expectedRate r)
  | None => zero
  end.

(** The body of the [forEach] over the unpaid claims. *)
Definition tableStep (rates : RateTable) (map : JsMap.t DenialStat)
    (c : Claim) : JsMap.t DenialStat :=
  let map1 :=
    if JsMap.has map (payer c) then map
    else JsMap.set (payer c) (mkStat zero zero zero JsMap.empty) map in
  let row :=
    match JsMap.get map1 (payer c) with
    | Some r => r
    | None => mkStat zero zero zero JsMap.empty
    end in
  let seen :=
    match JsMap.get (codes row) (cpt c) with
    | Some n => orZero n
    | None => zero
    end in
  JsMap.set (payer c)
    (mkStat (add (tUnits row) (units c))
            (add (tCharges row) (charge c))
            (add (tProjected row) (mul (units c) (expected rates c)))
            (JsMap.set (cpt c) (add seen (units c)) (codes row)))
    map1.

(** [analytics], with the rate table that the component computes from
    the same claims. *)
Definition analytics (claims : list Claim) : JsMap.t DenialStat :=
  let rates := calculateReimbursementRates claims in
  fold_left (tableStep rates)
            (List.filter (fun c => negb (isPaid c)) claims) JsMap.empty.

End DenialAnalyticsTable.

(* ------------------------------------------------------------------ *)
(** ** The summary of the A, Q and L codes *)

Module AQLSummaryTable.
Import Str Num JsDate Val Parser Analytics.

Record AQLStats := mkAQL {
  qUnits : number;
  qPaid : number;
  qUnpaid : number;
  qAmount : number
}.

(** [summary], with its three keys. *)
Record Summary := mkSummary {
  bucketA : AQLStats;
  bucketQ : AQLStats;
  bucketL : AQLStats
}.

Definition fresh : AQLStats := mkAQL zero zero zero zero.

(** The four updates of a bucket. *)
Definition bump (s : AQLStats) (c : Claim) : AQLStats :=
  mkAQL (add (qUnits s) (units c))
        (if isPaid c then add (qPaid s) (units c) else qPaid s)
        (if isPaid c then qUnpaid s else add (qUnpaid s) (units c))
        (add (qAmount s) (paid c)).

(** [c.codeType === CodeType.AQL] *)
Definition isAQL (c : Claim) : bool :=
  match codeType c with
  | AQL => true
  | _ => false
  end.

(** [c.cpt.charAt(0).toUpperCase()] *)
Definition letter (c : Claim) : string :=
  match cpt c with
  | String a _ => String (upperChar a) EmptyString
  | EmptyString => EmptyString
  end.

(** The body of the [forEach]: a claim whose letter is no key of the
    summary is passed over. *)
Definition summaryStep (s : Summary) (c : Claim) : Summary :=
  if String.eqb (letter c) "A"
  then mkSummary (bump (bucketA s) c) (bucketQ s) (bucketL s)
  else if String.eqb (letter c) "Q"
  then mkSummary (bucketA s) (bump (bucketQ s) c) (bucketL s)
  else if String.eqb (letter c) "L"
  then mkSummary (bucketA s) (bucketQ s) (bump (bucketL s) c)
  else s.

(** [data] *)
Definition data (claims : list Claim) : Summary :=
  fold_left summaryStep (List.filter isAQL claims)
            (mkSummary fresh fresh fresh).

Definition totalAQLUnits (claims : list Claim) : number :=
  add (add (qUnits (bucketA (data claims))) (qUnits (bucketQ (data claims))))
      (qUnits (bucketL (data claims))).

(** The table is rendered: [totalAQLUnits === 0] does not hold. *)
Definition rendered (claims : list Claim) : bool :=
  match totalAQLUnits claims with
  | Fin q => negb (Qeq_bool q 0)
  | _ => true
  end.

End AQLSummaryTable.

(* ------------------------------------------------------------------ *)
(** ** A host for the examples *)

Module SampleHost.
Import Num JsDate.

(** Days from 1970-01-01 to the given civil date ([m] from 0). *)
Definition daysFromCivil (y m d : Z) : Z :=
  let y' := (if m <? 2 then y - 1 else y)%Z in
  let era := (y' / 400)%Z in
  let yoe := (y' - era * 400)%Z in
  let mp := ((m + 10) mod 12)%Z in
  let doy := ((153 * mp + 2) / 5 + d - 1)%Z in
  let doe := (yoe * 365 + yoe / 4 - yoe / 100 + doy)%Z in
  (era * 146097 + doe - 719468)%Z.

Definition civilFromDays (z : Z) : Z * Z * Z :=
  let z := (z + 719468)%Z in
  let era := (z / 146097)%Z in
  let doe := (z - era * 146097)%Z in
  let yoe := ((doe - doe / 1460 + doe / 36524 - doe / 146096) / 365)%Z in
  let doy := (doe - (365 * yoe + yoe / 4 - yoe / 100))%Z in
  let mp := ((5 * doy + 2) / 153)%Z in
  let d := (doy - (153 * mp + 2) / 5 + 1)%Z in
  let m := ((mp + 2) mod 12)%Z in
  ((if m <? 2 then yoe + era * 400 + 1 else yoe + era * 400)%Z, m, d).

Definition msPerDay : Z := 86400000.

Definition getTimeUTC (d : Date) : Z :=
  (daysFromCivil (getFullYear d) (getMonth d) (getDate d) * msPerDay
   + msInDay d)%Z.

Definition ofTimeUTC (t : Z) : Date :=
  let '(y, m, d) := civilFromDays (t / msPerDay) in
  mkDate y m d (t mod msPerDay).

Definition showZ (z : Z) : string :=
  DecimalString.NilZero.string_of_int (Z.to_int z).

(** The text of a number: as JavaScript prints it when the number is an
    integer below 10^21; a fraction is cut off here. *)
Definition showNumber (n : number) : string :=
  match n with
  | NaN => "NaN"
  | Inf false => "Infinity"
  | Inf true => "-Infinity"
  | Fin q => showZ (Qfloor q)
  end.

(** A host in the UTC zone whose general date parser accepts nothing. *)
Definition utc : Host.t :=
  Host.mk showNumber (fun _ => None) ofTimeUTC getTimeUTC.

End SampleHost.


(* ------------------------------------------------------------------ *)
(** ** The vocabulary of the statements *)

Module Spec.
Import Str Num JsDate Val Parser JsMap Analytics.

(** *** Money *)

(** A character the money normalizer keeps. *)
Definition keep (c : ascii) : bool := negb (moneyNoise c).

(** The text begins with a decimal digit. *)
Definition startsWithDigit (s : string) : bool :=
  match s with
  | String c _ => isDigit c
  | EmptyString => false
  end.

(** *** Quoting *)

(** A field the tokenizer reads back: it is quoted by [escape], or it holds
    no carriage return. *)
Definition safeField (f : string) : Prop :=
  Csv.needsQuoting f = true \/ includesChar CR f = false.

(** The text does not begin with a quote. *)
Definition noQuoteAhead (s : string) : bool :=
  match s with
  | String c _ => negb (Ascii.eqb c DQUOTE)
  | EmptyString => true
  end.

(** *** Patients *)

(** The first claim of the input that belongs to the patient. *)
Definition firstClaimOf (pid : string) (claims : list Claim) : option Claim :=
  List.find (fun c => String.eqb (patientId c) pid) claims.

(** What holds of the running map after the claims [done] were processed:
    each record has the identifier it is stored under and the payer of the
    first claim of that patient, and a patient without record has no claim
    yet. *)
Definition tracks (m : JsMap.t PatientStat) (done : list Claim) : Prop :=
  (forall k p, In (k, p) m ->
     sPatientId p = k /\
     exists c, firstClaimOf k done = Some c /\ sPayer p = payer c)
  /\ (forall k, get m k = None -> firstClaimOf k done = None).

(** *** Denials *)

(** A sum as the loop computes it: from 0, adding in input order. *)
Definition sumOf (l : list number) : number := fold_left add l zero.

(** The claims of payer [p] in a list. *)
Definition ofPayer (p : string) (l : list Claim) : list Claim :=
  List.filter (fun c => String.eqb (payer c) p) l.

(** The claims the denial aggregator looks at. *)
Definition unpaid (claims : list Claim) : list Claim :=
  List.filter (fun c => negb (isPaid c)) claims.

(** The rate table has an entry for the payer and code of the claim. *)
Definition hasRate (rates : RateTable) (c : Claim) : bool :=
  match lookupRate rates (payer c) (cpt c) with
  | Some _ => true
  | None => false
  end.

(** [units * expectedRate] for a claim whose payer and code have a rate. *)
Definition projected (rates : RateTable) (c : Claim) : number :=
  match lookupRate rates (payer c) (cpt c) with
  | Some r => mul (units c) (expectedRate r)
  | None => zero
  end.

(** The record the claim describes for payer [p], from its unpaid claims
    [l]. *)
Definition denialOf (rates : RateTable) (p : string) (l : list Claim)
  : PayerDenialStats :=
  mkDenial p (sumOf (List.map units l)) (sumOf (List.map charge l))
           (sumOf (List.map (projected rates) (List.filter (hasRate rates) l))).

(** The running map after the unpaid claims [done]: a payer without a claim
    has no record, another has the record of its claims so far. *)
Definition statOf (rates : RateTable) (k : string) (done : list Claim)
  : option PayerDenialStats :=
  match ofPayer k done with
  | [] => None
  | _ :: _ => Some (denialOf rates k (ofPayer k done))
  end.

(** The running map holds exactly those records, each key once. *)
Definition settled (rates : RateTable) (m : JsMap.t PayerDenialStats)
    (done : list Claim) : Prop :=
  NoDup (keys m) /\ forall k, get m k = statOf rates k done.

(** *** The rate table *)

(** The claims of one payer and code, in input order. *)
Definition group (p c : string) (l : list Claim) : list Claim :=
  List.filter (fun x => String.eqb (payer x) p && String.eqb (cpt x) c) l.

(** The rounded unit rates of the group. *)
Definition groupRates (p c : string) (claims : list Claim) : list number :=
  List.map roundedRate (group p c (List.filter qualifies claims)).

(** The array the pricing history holds for a payer and code after the
    qualifying claims [done]: none when the group is empty. *)
Definition ratesOf (p c : string) (done : list Claim) : option (list number) :=
  match group p c done with
  | [] => None
  | l => Some (List.map roundedRate l)
  end.

(** [pricingHistory.get(p)?.get(c)] *)
Definition lookupHist (ph : History) (p c : string) : option (list number) :=
  match get ph p with
  | Some m => get m c
  | None => None
  end.

(** The pricing history after the qualifying claims [done]. *)
Definition recorded (ph : History) (done : list Claim) : Prop :=
  NoDup (keys ph)
  /\ forall p,
       match get ph p with
       | None => forall c, group p c done = []
       | Some m => NoDup (keys m) /\ forall c, get m c = ratesOf p c done
       end.

(** The entry the second pass computes from the history. *)
Definition entryOf (ph : History) (p c : string) : option ReimbursementRate :=
  match lookupHist ph p c with
  | Some rates => Some (rateEntry p c rates)
  | None => None
  end.

(** How often the rate [r] occurs among [rates]. *)
Definition occ (r : number) (rates : list number) : nat :=
  List.length (List.filter (fun x => sameKey x r) rates).

(** Adds a rate to the distinct rates seen so far, kept in order of first
    occurrence. *)
Definition addKey (ks : list number) (r : number) : list number :=
  if List.existsb (fun k => sameKey k r) ks then ks else ks ++ [r].

(** The distinct values of a list of rates, each once. *)
Definition distinctValues (rates : list number) : list number :=
  fold_left addKey rates [].

(** How many distinct values the rates have. *)
Definition numDistinct (rates : list number) : nat :=
  List.length (distinctValues rates).

(** The count the histogram holds for [r]. *)
Definition freqOf (f : Frequency) (r : number) : nat :=
  match List.find (fun e => sameKey (fst e) r) f with
  | Some e => snd e
  | None => O
  end.

(** A number proper: anything but NaN. *)
Definition isNumber (r : number) : Prop := isNaN r = false.

(** No two keys of the list have the same text. *)
Fixpoint distinctKeys (ks : list number) : Prop :=
  match ks with
  | [] => True
  | k :: r => (forall k', In k' r -> sameKey k k' = false) /\ distinctKeys r
  end.

(** An entry is no better than another: it has a lower count, or the same
    count and a rate that is not higher. *)
Definition noBetter (a b : number * nat) : Prop :=
  (snd a < snd b)%nat \/ (snd a = snd b /\ leb (fst a) (fst b) = true).

(** The unit price of a claim that passes the filter is a number. *)
Definition pricedClaim (c : Claim) : Prop :=
  qualifies c = true -> isNumber (div (paid c) (units c)).

(** The count [n] is the highest number of occurrences of a rate. *)
Definition maxFrequency (rates : list number) (n : nat) : Prop :=
  (exists r, In r rates /\ occ r rates = n)
  /\ forall r, In r rates -> (occ r rates <= n)%nat.

(** The rate [m] is the mode: no rate occurs more often, and a rate that
    occurs as often is not higher. *)
Definition isModeRate (rates : list number) (m : number) : Prop :=
  In m rates
  /\ (forall r, In r rates -> (occ r rates <= occ m rates)%nat)
  /\ (forall r, In r rates -> occ r rates = occ m rates -> leb r m = true).

(** The rate [M] is the highest rate observed. *)
Definition isMaxRate (rates : list number) (M : number) : Prop :=
  (exists r, In r rates /\ same r M)
  /\ forall r, In r rates -> leb r M = true.

(** *** The delimited-text parser *)

(** The rows of the text as [parseClaimsData] tokenizes it. *)
Definition rawRowsOf (text : string) : list (list string) :=
  Csv.parseCSVLine text (detectDelimiter text).

(** The header as it is resolved: each cell in lower case and trimmed. *)
Definition headerOf (text : string) : list string :=
  List.map (fun h => trim (toLowerCase h)) (List.hd [] (rawRowsOf text)).

(** The rows below the header. *)
Definition dataRowsOf (text : string) : list (list string) :=
  List.tl (rawRowsOf text).

(** The procedure-code cell of the row is there and is not empty once
    trimmed. *)
Definition keptRow (iCPT : nat) (row : list string) : bool :=
  match nth_error row iCPT with
  | Some raw => nonEmpty (trim raw)
  | None => false
  end.

(** The code of a kept row: the cell trimmed and upper-cased. *)
Definition codeOfRow (iCPT : nat) (row : list string) : string :=
  match nth_error row iCPT with
  | Some raw => toUpperCase (trim raw)
  | None => EmptyString
  end.

(** *** Claim invariants *)

(** The invariants both parsers keep: paid is not negative, the code is in
    upper case, the code class is the class of the code, and the paid flag
    is the comparison with one cent. *)
Definition wellFormed (c : Claim) : Prop :=
  leb zero (paid c) = true
  /\ toUpperCase (cpt c) = cpt c
  /\ codeType c = determineCodeType (cpt c)
  /\ isPaid c = gt (paid c) cent.

(** The same with a code that is not empty. *)
Definition wellFormedWithCode (c : Claim) : Prop :=
  wellFormed c /\ nonEmpty (cpt c) = true.

(** Which layout [parseExcelReport] takes the rows for: [Some true] for the
    applied-payments layout, [None] when no header row is found. *)
Definition layoutOf (rows : list (list value)) : option bool :=
  match findIndex (List.existsb isHeaderCell) rows with
  | None => None
  | Some i =>
      match hmGet (buildHeaderMap (nth i rows []) 0 []) "applied payments" with
      | Some _ => Some true
      | None => Some false
      end
  end.

(** *** Dates *)

(** The year the [Date] constructor takes a year argument for. *)
Definition ctorYear (y : Z) : Z :=
  (if (0 <=? y) && (y <=? 99) then 1900 + y else y)%Z.

(** The year of a US date: two-digit years are in the 2000s. *)
Definition usYear (y : Z) : Z := (if y <? 100 then y + 2000 else y)%Z.

(** Every character of the text is a decimal digit. *)
Definition allDigits (s : string) : bool :=
  negb (existsb (fun c => negb (isDigit c)) s).

(** The number a text of decimal digits denotes, after the digits [acc]. *)
Fixpoint decimalOf (s : string) (acc : Z) : Z :=
  match s with
  | EmptyString => acc
  | String c r => decimalOf r (10 * acc + digitVal c)
  end.

(** The text does not begin with a decimal digit. *)
Definition noDigitAhead (s : string) : bool :=
  match s with
  | String c _ => negb (isDigit c)
  | EmptyString => true
  end.

(** *** Amounts *)

(** The text of a decimal amount: the digits [i] of the integer part, then
    a point and the digits [f] of the fraction when there are any. *)
Definition plainAmount (i f : string) : string :=
  match f with
  | EmptyString => i
  | _ => (i ++ String "." f)%string
  end.

(** The rational the amount denotes. *)
Definition amount (i f : string) : Q :=
  (inject_Z (decimalOf (i ++ f)%string 0)
   * Qpower 10 (- Z.of_nat (String.length f)))%Q.

(** Year, month and day joined by dashes; month, day and year joined by
    slashes. *)
Definition isoText (y m d : string) : string :=
  (y ++ String "-" (m ++ String "-" d))%string.

Definition usText (m d y : string) : string :=
  (m ++ String "/" (d ++ String "/" y))%string.

(** Month index [mi] (0 to 11) and day [d] name a day of year [y]. *)
Definition validDay (y mi d : Z) : Prop :=
  (0 <= mi <= 11 /\ 1 <= d <= daysInMonth y mi)%Z.

(** *** The context of the patient-visit layout *)

(** The context holds no insurance and no provider. *)
Definition noInsurance (info : PatientInfo) : Prop :=
  Insurance info = None /\ Provider info = None.

(** Payer and provider of a claim emitted without insurance context. *)
Definition defaulted (fb : string) (c : Claim) : Prop :=
  payer c = "Unknown Payer"
  /\ provider c = (if nonEmpty fb then fb else "Unknown Provider").

Section WithHost.
Variable host : Host.t.

(** The context and the counter after the loop has gone through [rows]. *)
Fixpoint visitState (hm : HeaderMap) (fb : string) (rows : list (list value))
    (info : PatientInfo) (n : Z) : PatientInfo * Z :=
  match rows with
  | [] => (info, n)
  | row :: rest =>
      match visitRow host hm fb info n row with
      | (info', Some _) => visitState hm fb rest info' (n + 1)
      | (info', None) => visitState hm fb rest info' n
      end
  end.

(** The context a patient row leaves behind. *)
Definition resetBy (prow : list value) : PatientInfo :=
  mkInfo (Some (findValueByKeyword host prow "Patient:"))
         (Some (findValueByKeyword host prow "Patient ID:"))
         None None.

End WithHost.

End Spec.

(* ------------------------------------------------------------------ *)
(** ** Sample inputs *)

Module Samples.
Import Str Num JsDate Val Parser Analytics.

(** The field [a,"b"] followed by a line feed. *)
Definition sampleField : string :=
  String "a" (String COMMA (String DQUOTE (String "b" (String DQUOTE
    (String LF EmptyString))))).

(** The amount [$ 1,080.25] with a no-break space after the dollar sign. *)
Definition nbspAmount : string :=
  String "$" (String (ascii_of_nat 160) "1,080.25").

(** A paid claim of the given patient and payer. *)
Definition sampleClaim (pid payer : string) : Claim :=
  mkClaim 1 "Dr" "99213" NUMERIC one (Fin 100) (Fin 80) pid "Pat" payer None
          zero true.

(** Two claims of patient [P1]: the first paid by Aetna, the last by
    Cigna. *)
Definition twoPayers : list Claim :=
  [sampleClaim "P1" "Aetna"; sampleClaim "P1" "Cigna"].

(** A claim of Aetna for the given code and units. *)
Definition denialClaim (code : string) (u : Q) (paidFlag : bool) : Claim :=
  mkClaim 1 "Dr" code NUMERIC (Fin u) (Fin 100) (Fin 0) "P1" "Pat" "Aetna"
          None zero paidFlag.

(** Two unpaid claims of Aetna, one with a known rate, and a paid one. *)
Definition denialSample : list Claim :=
  [denialClaim "99213" 2 false; denialClaim "99214" 3 false;
   denialClaim "99213" 5 true].

(** A rate table with one entry. *)
Definition rateSample : RateTable :=
  [("Aetna", [("99213", mkRate "Aetna" "99213" (Fin 40) Mode 3)])].

(** A claim of payer [P] and code [C]: one unit, paid the given amount. *)
Definition paidClaim (amount : Q) : Claim :=
  mkClaim 1 "Dr" "C" OTHER (Fin 1) (Fin 0) (Fin amount) "P1" "Pat" "P" None
          zero true.

(** One such claim for each amount. *)
Definition paidSample (amounts : list Q) : list Claim :=
  List.map paidClaim amounts.

(** Two distinct rates: 10 twice and 50 once. *)
Definition coupledSample : list Claim := paidSample [10; 10; 50].

(** A claim of payer [P] and code [C] paid the given amount for the given
    units. *)
Definition perUnitClaim (amount u : Q) : Claim :=
  mkClaim 1 "Dr" "C" OTHER (Fin u) (Fin 0) (Fin amount) "P1" "Pat" "P" None
          zero true.

(** 201 paid for 200 units, twice, and 3 paid for 2 units. *)
Definition roundingSample : list Claim :=
  [perUnitClaim 201 200; perUnitClaim 3 2; perUnitClaim 201 200].

(** A header, a data row, a row with a blank code and a row that is too
    short. *)
Definition csvSample : string :=
  ("Units,CPT" ++ String LF "2,a4550" ++ String LF "3,  " ++ String LF "4")%string.

(** A header that names no procedure-code column, and no data row. *)
Definition headerOnly : string := "Patient,Units".

(** A row with negative units and a charge in parentheses. *)
Definition negativeSample : string :=
  ("cpt,units,charges,paid" ++ String LF "a1,-2,(500),(80)")%string.

(** The rows of a report in the patient-visit layout. *)
Definition headerRow : list value :=
  [VStr "Date of Service"; VStr "CPT"; VStr "Charges"; VStr "Insurance Payment"].

Definition insuranceRow : list value :=
  [VStr "Insurance: Aetna"; VStr "Provider: Dr X"].

Definition dataRow : list value :=
  [VStr "01/02/2024"; VStr "99213"; VStr "100.00"; VStr "80.00"].

(** The header, an insurance row, a patient row and a data row. *)
Definition visitSample : list (list value) :=
  [headerRow; insuranceRow; [VStr "Patient: Bob"; VStr "Patient ID: 7"];
   dataRow].

(** The same report with a patient row that also holds a page number. *)
Definition pagedSample : list (list value) :=
  [headerRow; insuranceRow; [VStr "Patient: Bob"; VStr "Page: 2"]; dataRow].

(** The header and the data row of the end-to-end scenario. *)
Definition scenarioText : string :=
  ("cpt,units,charges,insurance_payment,patient_id,payer,date_of_service"
   ++ String LF "A1000,2,100.00,80.00,P1,Aetna,2024-01-15")%string.

(** A report in the applied-payments layout whose only data row has a
    procedure-code cell of blanks. *)
Definition blankCodeReport : list (list value) :=
  [[VStr "DOS"; VStr "CPT"; VStr "Applied Payments"];
   [VStr "01/02/2024"; VStr "  "; VStr "50.00"]].

(** Two exported rows: an empty field, a field with a comma and quotes,
    and a field with a carriage return and a line feed. *)
Definition exportSample : list (list string) :=
  [["Claim ID"; EmptyString; sampleField];
   [String "x" (String CR (String LF "y")); "Paid"; EmptyString]].

End Samples.

(* ------------------------------------------------------------------ *)
(** ** More vocabulary: the parsers *)

Module ParserProps.
Import Str Num JsDate Val Parser Spec.

(** The identifiers are 1, 2, 3 and so on, in this order. *)
Definition numbered (claims : list Claim) : Prop :=
  List.map id claims
  = List.map (fun k => (1 + Z.of_nat k)%Z) (List.seq 0 (List.length claims)).

(** No row of the sheet holds a header cell. *)
Definition noHeaderRow (rows : list (list value)) : bool :=
  negb (List.existsb (List.existsb isHeaderCell) rows).

(** The text is its own trim. *)
Definition trimmed (s : string) : Prop := trim s = s.

(** Provider and payer of a claim: the provider is not empty and the payer
    has no white space around it. *)
Definition labelled (c : Claim) : Prop :=
  nonEmpty (provider c) = true /\ trimmed (payer c).

(** The patient of a claim: neither the identifier nor the name is
    empty. *)
Definition identified (c : Claim) : Prop :=
  nonEmpty (patientId c) = true /\ nonEmpty (patientName c) = true.

(** The provider a claim gets from the text [name]. *)
Definition providerOr (name : string) : string :=
  if nonEmpty name then name else "Unknown Provider".

(** What a claim holds for the columns the header does not name. *)
Definition defaultsFor (cols : Columns) (fb : string) (c : Claim) : Prop :=
  (iUnits cols = None -> units c = zero)
  /\ (iCharges cols = None -> charge c = zero)
  /\ (iPaid cols = None -> paid c = zero /\ isPaid c = false)
  /\ (iPatientID cols = None -> patientId c = "Unknown ID")
  /\ (iPatientName cols = None -> patientName c = "Unknown Patient")
  /\ (iPayer cols = None -> payer c = "Unknown Payer")
  /\ (iDOS cols = None -> dos c = None /\ dateSort c = zero)
  /\ (iProvider cols = None -> provider c = providerOr fb).

(** The text begins, or is empty, with a character that is not white
    space. *)
Definition headOk (s : string) : bool :=
  match s with
  | EmptyString => true
  | String c _ => negb (isWhite c)
  end.

Section WithHost.
Variable host : Host.t.

(** The flattened text of a row, in lower case. *)
Definition rowText (row : list value) : string :=
  toLowerCase (Val.join host " " row).

(** A row of the applied-payments layout names a provider. *)
Definition namesProvider (row : list value) : bool :=
  negb (forallb isEmptyStr row) && includes "provider name:" (rowText row).

(** The description cell of a row marks an adjustment. *)
Definition isAdjustment (hm : HeaderMap) (row : list value) : bool :=
  match hmGet hm "desc." with
  | Some i => includes "adj" (toLowerCase (Val.toString host (at_ row i)))
  | None => false
  end.

(** A row of the applied-payments layout that yields a claim: it is not
    blank, does not name a provider, has something in the date and code
    cells, and is no adjustment. *)
Definition paymentKept (hm : HeaderMap) (row : list value) : bool :=
  negb (forallb isEmptyStr row)
  && negb (includes "provider name:" (rowText row))
  && (Val.truthy (column hm "dos" row VNull)
      && Val.truthy (column hm "cpt" row VNull))
  && negb (isAdjustment hm row).

(** The code of such a row. *)
Definition paymentCode (hm : HeaderMap) (row : list value) : string :=
  toUpperCase (trim (Val.toString host (column hm "cpt" row VNull))).

(** A row of the patient-visit layout that yields a claim: it is neither
    skipped nor a patient or insurance row, its date cell holds a slashed
    date or is an ISO date, and its code cell is not empty once trimmed. *)
Definition visitKept (hm : HeaderMap) (row : list value) : bool :=
  match visitRowKind host row with
  | OtherRow =>
      (hasSlashedDate (cellText host hm "date of service" row)
       || isoShaped (cellText host hm "date of service" row))
      && nonEmpty (cellText host hm "cpt" row)
  | _ => false
  end.

(** The code of such a row. *)
Definition visitCode (hm : HeaderMap) (row : list value) : string :=
  toUpperCase (cellText host hm "cpt" row).

(** The provider context and the counter after the applied-payments loop
    has gone through [rows]. *)
Fixpoint paymentState (hm : HeaderMap) (rows : list (list value))
    (currentProvider : string) (n : Z) : string * Z :=
  match rows with
  | [] => (currentProvider, n)
  | row :: rest =>
      match paymentRow host hm currentProvider n row with
      | (prov, Some _) => paymentState hm rest prov (n + 1)
      | (prov, None) => paymentState hm rest prov n
      end
  end.

End WithHost.

End ParserProps.

Module ParserSamples.
Import Str Num JsDate Val Parser Spec.

(** An applied-payments report: a title row above the header, a provider
    row, a payment, an adjustment and a row without a date. *)
Definition paymentSample : list (list value) :=
  [[VStr "Applied Payments Report"];
   [VStr "DOS"; VStr "CPT"; VStr "Desc."; VStr "Applied Payments"];
   [VStr "Provider Name: Dr Lee"; VStr EmptyString; VStr EmptyString;
    VStr EmptyString];
   [VStr "01/02/2024"; VStr "a4550"; VStr "Payment"; VStr "50.00"];
   [VStr "01/02/2024"; VStr "a4550"; VStr "Adjustment"; VStr "-5.00"];
   [VStr EmptyString; VStr "99213"; VStr "Payment"; VStr "10.00"]].

(** A sheet without a header row. *)
Definition noHeaderSample : list (list value) :=
  [[VStr "Report"]; [VStr "01/02/2024"; VStr "99213"]].

(** A header with two payment columns, the less preferred one first. *)
Definition twoPaidColumns : list string := ["paid"; "cpt"; "insurance_payment"].

(** A text whose header names the code column only. *)
Definition codeOnly : string := ("CPT" ++ String LF "99213")%string.

End ParserSamples.

(* ------------------------------------------------------------------ *)
(** ** More vocabulary: the tokenizer and the export *)

Module TokenProps.
Import Str Num JsDate Val Csv Parser Spec.

(** The text without its carriage returns. *)
Definition stripCR (s : string) : string :=
  filter (fun c => negb (Ascii.eqb c CR)) s.

(** What the tokenizer reads back of an exported field: the field itself
    when [escape] quotes it, the field without its carriage returns when
    it is left bare. *)
Definition readBack (f : string) : string :=
  if needsQuoting f then f else stripCR f.

(** A field that holds no delimiter, line feed or carriage return. *)
Definition plainField (delim : ascii) (f : string) : bool :=
  negb (existsb (fun c => Ascii.eqb c delim || Ascii.eqb c LF
                          || Ascii.eqb c CR) f).

(** The fields of a row, each followed by the delimiter. *)
Fixpoint delimited (delim : ascii) (r : list string) : string :=
  match r with
  | [] => EmptyString
  | f :: r' => (f ++ String delim (delimited delim r'))%string
  end.

(** The fields of a row joined by the delimiter, and a line feed. *)
Definition lineOf (delim : ascii) (r : list string) : string :=
  (String.concat (String delim EmptyString) r ++ String LF EmptyString)%string.

(** The rows written out again, one line each. *)
Fixpoint unsplit (delim : ascii) (rows : list (list string)) : string :=
  match rows with
  | [] => EmptyString
  | r :: rows' => (lineOf delim r ++ unsplit delim rows')%string
  end.

(** The last character of the text is a line feed. *)
Definition endsInLF (s : string) : bool :=
  match rev s with
  | String c _ => Ascii.eqb c LF
  | EmptyString => false
  end.

(** The text with a final line feed, added when the text is not empty and
    has none. *)
Definition terminated (s : string) : string :=
  if nonEmpty s && negb (endsInLF s)
  then (s ++ String LF EmptyString)%string else s.

(** The line holds a character that is not white space. *)
Definition notBlank (l : string) : bool :=
  existsb (fun c => negb (isWhite c)) l.

(** A claim whose texts come back from an export as they are: a code that
    is not empty, trimmed and in upper case, a provider and a patient name
    that are not empty, a payer that the canonicalizer leaves alone, and
    none of them with a carriage return outside quotes. *)
Definition exportable (c : Claim) : Prop :=
  (nonEmpty (cpt c) = true /\ trim (cpt c) = cpt c
   /\ toUpperCase (cpt c) = cpt c /\ readBack (cpt c) = cpt c)
  /\ (nonEmpty (provider c) = true /\ readBack (provider c) = provider c)
  /\ (nonEmpty (patientName c) = true
      /\ readBack (patientName c) = patientName c)
  /\ (nonEmpty (payer c) = true /\ normalizePayerName (payer c) = payer c
      /\ readBack (payer c) = payer c).

(** The texts of a claim that an export and import can carry. *)
Definition textsOf (c : Claim) : string * string * string * string :=
  (cpt c, provider c, patientName c, payer c).

(** All that the tokenizer has taken in: the rows pushed, the row under
    way and the field under way. *)
Definition written (delim : ascii) (st : state) : string :=
  (unsplit delim (rows st) ++ delimited delim (row st) ++ field st)%string.

(** Every field taken in so far is plain. *)
Definition clean (delim : ascii) (st : state) : Prop :=
  Forall (Forall (fun f => plainField delim f = true)) (rows st)
  /\ Forall (fun f => plainField delim f = true) (row st)
  /\ plainField delim (field st) = true.

End TokenProps.

Module TokenSamples.
Import Str Num JsDate Val Csv Parser Spec Samples.

(** Two lines with a carriage return before each line feed, the second
    line without a line feed. *)
Definition plainSample : string :=
  ("a,,b" ++ String CR (String LF ("c" ++ String CR EmptyString)))%string.

(** A blank line, then a line with commas and a tab, then a third line. *)
Definition tabbedSample : string :=
  ("  " ++ String LF ("a,b" ++ String TAB ("c" ++ String LF "d")))%string.

(** A claim whose provider holds a comma and a quote. *)
Definition exportedClaim : Claim :=
  mkClaim 7 (String "L" (String "e" (String "e" (String COMMA
            (String " " (String DQUOTE (String "J" (String DQUOTE
            EmptyString))))))))
          "A4550" AQL (Fin 2) (Fin 100) (Fin 80) "P-17" "Pat" "Aetna"
          (Some (mkDate 2024 0 15 0)) (Fin (inject_Z 1705276800000)) true.

End TokenSamples.

(* ------------------------------------------------------------------ *)
(** ** More vocabulary: the aggregators *)

Module AnalyticsProps.
Import Str Num JsDate Val Parser JsMap Analytics Spec.

(** The distinct texts of a list, each at the place of its first
    occurrence. *)
Fixpoint firstOccurrences (l : list string) : list string :=
  match l with
  | [] => []
  | x :: r =>
      x :: List.filter (fun y => negb (String.eqb y x)) (firstOccurrences r)
  end.

(** The text is none of the given ones. *)
Definition notAmong (ks : list string) (k : string) : bool :=
  negb (List.existsb (String.eqb k) ks).

(** The claims of one patient, in input order. *)
Definition claimsOf (pid : string) (l : list Claim) : list Claim :=
  List.filter (fun c => String.eqb (patientId c) pid) l.

(** The dates of service that are known. *)
Fixpoint datesOf (l : list Claim) : list Date :=
  match l with
  | [] => []
  | c :: r =>
      match dos c with
      | Some d => d :: datesOf r
      | None => datesOf r
      end
  end.

(** The names the object [visitCounts] inherits from its prototype. *)
Definition inheritedName (k : string) : bool :=
  List.existsb (String.eqb k)
    ["constructor"; "hasOwnProperty"; "isPrototypeOf";
     "propertyIsEnumerable"; "toLocaleString"; "toString"; "valueOf";
     "__proto__"; "__defineGetter__"; "__defineSetter__";
     "__lookupGetter__"; "__lookupSetter__"].

(** A patient identifier that the visit count can tell apart: it holds no
    bar and is not the name of an inherited property. *)
Definition countable (pid : string) : bool :=
  negb (includesChar "|" pid) && negb (inheritedName pid).

Section WithHost.
Variable host : Host.t.

(** The later of a running latest date and the next date, as the loop of
    [analyzePatients] takes it. *)
Definition later (acc : option Date) (d : Date) : option Date :=
  match acc with
  | None => Some d
  | Some l => if laterThan host d l then Some d else Some l
  end.

(** The latest of a list of dates, the first one among equals. *)
Definition latest (ds : list Date) : option Date := fold_left later ds None.

(** The record of the first pass for the claims of one patient. *)
Definition recordOf (pid : string) (cs : list Claim) : option PatientStat :=
  match cs with
  | [] => None
  | c :: _ =>
      Some (mkPatient (patientName c) pid O
                      (sumOf (List.map paid cs)) (latest (datesOf cs))
                      (payer c))
  end.

(** The running map of the first pass after the claims [done]. *)
Definition gathered (m : JsMap.t PatientStat) (done : list Claim) : Prop :=
  NoDup (keys m) /\ forall k, get m k = recordOf k (claimsOf k done).

(** The running visit counts after the keys [done] of the set: for each
    patient part the number of keys with that part. *)
Definition counted (m : JsMap.t nat) (done : list string) : Prop :=
  forall pid,
    get m pid
    = match List.filter (fun k => String.eqb (beforeBar k) pid) done with
      | [] => None
      | ks => Some (List.length ks)
      end.

End WithHost.

(** *** The rate table *)

(** A number in canonical form: the rational reduced. *)
Definition canon (r : number) : number :=
  match r with
  | Fin q => Fin (Qred q)
  | _ => r
  end.

(** Two optional entries agree: both are absent, or both are there with
    the same method, the same frequency and the same expected rate. *)
Definition agree (a b : option ReimbursementRate) : Prop :=
  match a, b with
  | None, None => True
  | Some e, Some e' =>
      method e = method e' /\ frequency e = frequency e'
      /\ same (expectedRate e) (expectedRate e')
  | _, _ => False
  end.

End AnalyticsProps.

Module AnalyticsSamples.
Import Str Num JsDate Val Parser Analytics Spec Samples.

(** A claim of the given patient with a date of service, or none, and a
    paid amount. *)
Definition visit (pid : string) (d : option Date) (amount : Q) : Claim :=
  mkClaim 1 "Dr" "99213" NUMERIC one (Fin 100) (Fin amount) pid "Pat" "Aetna"
          d zero true.

(** Patient [P1] on January 15 twice and on January 10 once, patient [P2]
    without a date, in between. *)
Definition visitsSample : list Claim :=
  [visit "P1" (Some (mkDate 2024 0 15 0)) 80;
   visit "P2" None 10;
   visit "P1" (Some (mkDate 2024 0 10 0)) 20;
   visit "P1" (Some (mkDate 2024 0 15 0)) 5].

(** A patient whose identifier holds a bar. *)
Definition barSample : list Claim :=
  [visit "A|B" (Some (mkDate 2024 0 15 0)) 80; visit "A" None 10].

End AnalyticsSamples.

(* ------------------------------------------------------------------ *)
(** ** More vocabulary: the figures of the dashboard *)

Module AppProps.
Import Str Num JsDate Val Parser JsMap Analytics Spec.

(** A number that is finite and not negative. *)
Definition countNumber (n : number) : Prop :=
  exists q : Q, n = Fin q /\ 0 <= q.

(** A finite number: a rational that is a value of the format. *)
Definition finite (n : number) : Prop :=
  exists q : Q, n = Fin q /\ b64 q = Fin q.

(** A record with the projected value put back to 0. *)
Definition unprojected (s : PayerDenialStats) : PayerDenialStats :=
  mkDenial (dPayer s) (deniedUnits s) (deniedValue s) zero.

(** A claim without its identifier. *)
Definition contentOf (c : Claim) :=
  (provider c, cpt c, codeType c, units c, charge c, paid c, patientId c,
   patientName c, payer c, dos c, dateSort c, isPaid c).

(** The value of a finite number, 0 for the others. *)
Definition valueOf (n : number) : Q :=
  match n with
  | Fin q => q
  | _ => 0
  end.

(** The sum of rationals. *)
Fixpoint Qsum (l : list Q) : Q :=
  match l with
  | [] => 0
  | x :: r => x + Qsum r
  end.

(** The claims whose key, as [key] reads it, is [k]. *)
Definition keyed (key : Claim -> string) (k : string) (l : list Claim)
  : list Claim :=
  List.filter (fun c => String.eqb (key c) k) l.

End AppProps.

Module AppSamples.
Import Str Num JsDate Val Parser Analytics Spec Samples.

(** Claims of code [C] for payer [P]: paid ones at one unit, and unpaid
    ones with the given units. *)
Definition unpaidClaim (u : Q) : Claim :=
  mkClaim 1 "Dr" "C" OTHER (Fin u) (Fin 100) (Fin 0) "P1" "Pat" "P" None zero
          false.

Definition mixedSample : list Claim :=
  [paidClaim 10; unpaidClaim 3; paidClaim 10; unpaidClaim 1].

End AppSamples.

(* ------------------------------------------------------------------ *)
(** ** More vocabulary: the monthly trend *)

Module TrendProps.
Import Str Num JsDate Val Parser JsMap Analytics Spec AppProps Trend.

(** The claims with a date of service. *)
Definition dated (claims : list Claim) : list Claim :=
  List.filter (fun c => match dos c with Some _ => true | None => false end)
              claims.

Section WithHost.
Variable host : Host.t.

(** The month of a claim, the empty text for no date. *)
Definition monthOf (c : Claim) : string :=
  match dos c with
  | Some d => monthKey host d
  | None => EmptyString
  end.

(** The record of month [k] for its claims [l]. *)
Definition monthRecord (k : string) (l : list Claim) : option MonthlyStat :=
  match l with
  | [] => None
  | _ :: _ =>
      Some (mkMonthly k (sumOf (List.map paid l)) (sumOf (List.map units l)))
  end.

(** The running map after the dated claims [done]. *)
Definition tallied (m : JsMap.t MonthlyStat) (done : list Claim) : Prop :=
  NoDup (keys m)
  /\ forall k, get m k = monthRecord k (keyed monthOf k done).

End WithHost.

End TrendProps.

Module TrendSamples.
Import Str Num JsDate Val Parser Analytics Spec Samples AnalyticsSamples.

(** Two claims of January 2024, one without a date, one of December. *)
Definition trendSample : list Claim :=
  [visit "P1" (Some (mkDate 2024 0 15 0)) 80;
   visit "P2" None 10;
   visit "P3" (Some (mkDate 2023 11 2 0)) 20;
   visit "P1" (Some (mkDate 2024 0 31 0)) 5].

End TrendSamples.

(* ------------------------------------------------------------------ *)
(** ** More vocabulary: rankings *)

Module RankProps.
Import Str Num JsDate Val Parser JsMap Analytics Spec AnalyticsProps AppProps.

(** The number of claims with key [k]. *)
Definition occurrences (key : Claim -> string) (k : string)
    (claims : list Claim) : nat :=
  List.length (keyed key k claims).

(** A key that an object keeps in insertion order: it holds a character
    that is not a digit, and is not the name of an inherited property. *)
Definition ordinaryKey (k : string) : bool :=
  existsb (fun c => negb (isDigit c)) k && negb (inheritedName k).

(** The revenue of a record, when it is finite. *)
Definition revenueOf (p : PatientStat) : Q := valueOf (totalRevenue p).

End RankProps.

Module RankSamples.
Import Str Num JsDate Val Parser Analytics Spec Samples AnalyticsSamples.

Definition claimBy (prov : string) : Claim :=
  mkClaim 1 prov "99213" NUMERIC one (Fin 100) (Fin 80) "P1" "Pat" "Aetna"
          None zero true.

(** Two providers with two claims each, and one with a single claim that
    comes first. *)
Definition providersSample : list Claim :=
  [claimBy "Dr C"; claimBy "Dr B"; claimBy "Dr A"; claimBy "Dr A"; claimBy "Dr B"].

End RankSamples.

(* ------------------------------------------------------------------ *)
(** ** More vocabulary: uploads *)

Module UploadSamples.
Import Str Num JsDate Val Parser Spec Samples Upload.

(** A delimited text with a claim, under a name in upper case. *)
Definition goodFile : File := mkFile "CLAIMS.CSV" scenarioText [].

(** A file of a type that the screen does not read. *)
Definition pdfFile : File := mkFile "scan.pdf" scenarioText [].

End UploadSamples.

(* ------------------------------------------------------------------ *)
(** ** More vocabulary: the denial table *)

Module TableProps.
Import Str Num JsDate Val Parser JsMap Analytics Spec AppProps
       DenialAnalyticsTable.

(** The running table after the unpaid claims [done]: a payer without a
    claim has no row, another has the sums of its claims so far. *)
Definition tabled (rates : RateTable) (m : JsMap.t DenialStat)
    (done : list Claim) : Prop :=
  NoDup (keys m)
  /\ forall k,
       match ofPayer k done with
       | [] => get m k = None
       | l =>
           exists row,
             get m k = Some row
             /\ tUnits row = sumOf (List.map units l)
             /\ tCharges row = sumOf (List.map charge l)
             /\ tProjected row
                = sumOf (List.map (fun c => mul (units c) (expected rates c)) l)
       end.

End TableProps.

(* ------------------------------------------------------------------ *)
(** ** More vocabulary: the summary of the A, Q and L codes *)

Module SummaryProps.
Import Str Num JsDate Val Parser Analytics Spec AppProps AQLSummaryTable.

(** The claims of the A, Q and L class whose code begins with the letter
    [x], in either case. *)
Definition lettered (x : string) (claims : list Claim) : list Claim :=
  List.filter (fun c => String.eqb (letter c) x) (List.filter isAQL claims).

(** The bucket of the claims [l]. *)
Definition bucketOf (l : list Claim) : AQLStats :=
  mkAQL (sumOf (List.map units l))
        (sumOf (List.map units (List.filter isPaid l)))
        (sumOf (List.map units (List.filter (fun c => negb (isPaid c)) l)))
        (sumOf (List.map paid l)).

End SummaryProps.

Module SummarySamples.
Import Str Num JsDate Val Parser Analytics Spec Samples.

Definition coded (code : string) (u : Q) (isPaid : bool) : Claim :=
  mkClaim 1 "Dr" code (determineCodeType code) (Fin u) (Fin 100)
          (if isPaid then Fin 50 else Fin 0) "P1" "Pat" "Aetna" None zero
          isPaid.

Definition codesSample : list Claim :=
  [coded "A4550" 2 true; coded "99213" 1 true; coded "Q4101" 3 false;
   coded "A6021" 4 false].

End SummarySamples.

(* ------------------------------------------------------------------ *)
(** ** More vocabulary: labelled cells *)

Module LabelProps.
Import Str Num JsDate Val Parser Spec.

(** A character that stands for itself in a pattern: a letter, a digit or
    a blank. *)
Definition plainChar (c : ascii) : bool :=
  isLower c || isUpper c || isDigit c || Ascii.eqb c " ".

(** A keyword made of such characters. *)
Definition plainWord (s : string) : bool :=
  negb (existsb (fun c => negb (plainChar c)) s).

(** The keyword with its colon, as the callers write it. *)
Definition withColon (base : string) : string :=
  (base ++ String ":" EmptyString)%string.

(** No string cell holds the text, whatever the case. *)
Definition noneHolds (kw : string) (cells : list value) : Prop :=
  forall c, In c cells -> strCell (includes kw) c = false.

End LabelProps.

Module LabelSamples.
Import Str Num JsDate Val Parser Spec.

(** A patient row with the identifier before the name. *)
Definition swappedRow : list value :=
  [VStr "Patient ID: 7"; VStr "Patient: Bob"].

(** A row with the label in one cell and the value two cells on. *)
Definition spreadRow : list value :=
  [VStr "x"; VStr "INSURANCE:"; VStr EmptyString; VNull; VStr " Aetna "].

End LabelSamples.

(* ------------------------------------------------------------------ *)
(** ** Proof automation *)

Module Tactics.
Import Num Analytics Spec.

(** Splits every number of the context into NaN, finite, plus and minus
    infinity, computes the comparisons, and drops the cases that are
    impossible or hold by computation. *)
Ltac number_cases :=
  repeat match goal with
         | n : number |- _ => destruct n as [|?|[]]
         end;
  unfold isNumber; cbn [isNaN leb gt sameKey same Bool.eqb negb andb orb];
  try discriminate; try reflexivity.

End Tactics.

(* ------------------------------------------------------------------ *)
(** ** Rounding to binary64: the facts the arithmetic rests on *)

Module Binary64Facts.
Import Binary64.
Local Open Scope Q_scope.

Lemma two_pos k : 0 < two k.
Proof. apply Qpower_0_lt. reflexivity. Qed.

Lemma two_nz k : ~ two k == 0.
Proof. pose proof (two_pos k). lra. Qed.

Lemma two_add a b : two (a + b) == two a * two b.
Proof. apply Qpower_plus. discriminate. Qed.

Lemma two_sub a b : two (a - b) == two a / two b.
Proof. apply Qpower_minus. discriminate. Qed.

Lemma two_lt a b : (a < b)%Z -> two a < two b.
Proof. intro H. apply Qpower_lt_compat_l; [exact H | reflexivity]. Qed.

Lemma two_le a b : (a <= b)%Z -> two a <= two b.
Proof. intro H. apply Qpower_le_compat_l; [exact H | discriminate]. Qed.

Lemma two_lt_inv a b : two a < two b -> (a < b)%Z.
Proof.
  intro H. destruct (Z_lt_le_dec a b) as [L | L]; [exact L |].
  apply two_le in L. lra.
Qed.

Lemma two_Z n : (0 <= n)%Z -> two n == inject_Z (2 ^ n).
Proof. intro H. unfold two. rewrite Zpower_Qpower by exact H. reflexivity. Qed.

Lemma Zlog2_two (n : Z) : (0 < n)%Z ->
  two (Z.log2 n) <= inject_Z n /\ inject_Z n < two (Z.log2 n + 1).
Proof.
  intro H. destruct (Z.log2_spec n H) as [L U].
  pose proof (Z.log2_nonneg n) as P.
  rewrite (two_Z (Z.log2 n)) by exact P.
  rewrite (two_Z (Z.log2 n + 1)) by lia.
  split.
  - rewrite <- Zle_Qle. exact L.
  - rewrite <- Zlt_Qlt. replace (Z.log2 n + 1)%Z with (Z.succ (Z.log2 n)) by lia. exact U.
Qed.

Lemma ilog2_spec (a : Q) : 0 < a -> two (ilog2 a) <= a /\ a < two (ilog2 a + 1).
Proof.
  intro H. destruct a as [n d].
  assert (Hn : (0 < n)%Z).
  { unfold Qlt in H. simpl in H. lia. }
  destruct (Zlog2_two n Hn) as [Ln Un].
  destruct (Zlog2_two (Zpos d) eq_refl) as [Ld Ud].
  assert (E : n # d == inject_Z n / inject_Z (Zpos d)) by apply Qmake_Qdiv.
  assert (Dp : 0 < inject_Z (Zpos d)) by reflexivity.
  unfold ilog2. cbn [Qnum Qden].
  set (ln := Z.log2 n) in *. set (ld := Z.log2 (Zpos d)) in *.
  assert (U : n # d < two (ln - ld + 1)).
  { rewrite E. apply Qlt_shift_div_r; [exact Dp |].
    replace (ln - ld + 1)%Z with ((ln + 1) - ld)%Z by lia.
    rewrite two_sub.
    pose proof (two_pos ld) as P1. pose proof (two_pos (ln + 1)) as P2.
    assert (R : 0 < two (ln + 1) / two ld) by (apply Qlt_shift_div_l; [exact P1 | lra]).
    assert (X : two (ln + 1) / two ld * two ld == two (ln + 1)).
    { field. apply two_nz. }
    assert (Y : two (ln + 1) / two ld * two ld
                <= two (ln + 1) / two ld * inject_Z (Zpos d)).
    { apply Qmult_le_l; assumption. }
    lra. }
  assert (L : two (ln - ld - 1) <= n # d).
  { rewrite E. apply Qle_shift_div_l; [exact Dp |].
    replace (ln - ld - 1)%Z with (ln - (ld + 1))%Z by lia.
    rewrite two_sub.
    pose proof (two_pos (ld + 1)) as P1. pose proof (two_pos ln) as P2.
    assert (R : 0 < two ln / two (ld + 1)) by (apply Qlt_shift_div_l; [exact P1 | lra]).
    assert (X : two ln / two (ld + 1) * two (ld + 1) == two ln).
    { field. apply two_nz. }
    assert (Y : two ln / two (ld + 1) * inject_Z (Zpos d)
                <= two ln / two (ld + 1) * two (ld + 1)).
    { apply Qmult_le_l; [assumption | lra]. }
    lra. }
  destruct (Qle_bool (two (ln - ld)) (n # d)) eqn:B.
  - apply Qle_bool_iff in B. split; assumption.
  - assert (B' : n # d < two (ln - ld)).
    { apply Qnot_le_lt. intro C. apply Qle_bool_iff in C. congruence. }
    split; [exact L |].
    replace (ln - ld - 1 + 1)%Z with (ln - ld)%Z by lia. exact B'.
Qed.

Lemma ilog2_unique (a : Q) (k : Z) :
  two k <= a -> a < two (k + 1) -> ilog2 a = k.
Proof.
  intros L U.
  assert (P : 0 < a) by (pose proof (two_pos k); lra).
  destruct (ilog2_spec a P) as [L' U'].
  assert (A : (k < ilog2 a + 1)%Z) by (apply two_lt_inv; lra).
  assert (B : (ilog2 a < k + 1)%Z) by (apply two_lt_inv; lra).
  lia.
Qed.

Lemma ilog2_comp (a b : Q) : 0 < a -> a == b -> ilog2 a = ilog2 b.
Proof.
  intros P E. symmetry. destruct (ilog2_spec a P) as [L U].
  apply ilog2_unique; rewrite <- E; assumption.
Qed.

Lemma rne_Z (z : Z) : rne (inject_Z z) = z.
Proof.
  unfold rne. rewrite Qfloor_Z.
  assert (E : Qcompare (inject_Z z - inject_Z z) (1 # 2) = Lt).
  { apply Qlt_alt. setoid_replace (inject_Z z - inject_Z z) with 0 by ring. reflexivity. }
  rewrite E. reflexivity.
Qed.

Lemma rne_comp (s t : Q) : s == t -> rne s = rne t.
Proof.
  intro E. unfold rne. rewrite (Qfloor_comp s t E).
  assert (C : Qcompare (s - inject_Z (Qfloor t)) (1 # 2)
              = Qcompare (t - inject_Z (Qfloor t)) (1 # 2)).
  { apply Qcompare_comp; [rewrite E; reflexivity | reflexivity]. }
  rewrite C. reflexivity.
Qed.

Lemma rne_floor (s : Q) : (Qfloor s <= rne s <= Qfloor s + 1)%Z.
Proof.
  unfold rne. destruct (Qcompare _ _); [destruct (Z.even _) | |]; lia.
Qed.

Lemma rne_mono (s t : Q) : s <= t -> (rne s <= rne t)%Z.
Proof.
  intro H. pose proof (Qfloor_resp_le s t H) as F.
  pose proof (rne_floor s) as Rs. pose proof (rne_floor t) as Rt.
  destruct (Z.eq_dec (Qfloor s) (Qfloor t)) as [E | N].
  2: { assert (Qfloor s + 1 <= Qfloor t)%Z by lia. lia. }
  unfold rne. rewrite <- E.
  destruct (Qcompare_spec (s - inject_Z (Qfloor s)) (1 # 2)) as [A | A | A];
  destruct (Qcompare_spec (t - inject_Z (Qfloor s)) (1 # 2)) as [B | B | B];
  try destruct (Z.even (Qfloor s)); try lia; lra.
Qed.

Lemma rne_near (s : Q) : Qabs (inject_Z (rne s) - s) <= 1 # 2.
Proof.
  pose proof (Qfloor_le s) as L. pose proof (Qlt_floor s) as U.
  rewrite inject_Z_plus in U. change (inject_Z 1) with 1 in U.
  unfold rne.
  destruct (Qcompare_spec (s - inject_Z (Qfloor s)) (1 # 2)) as [A | A | A].
  - destruct (Z.even (Qfloor s)).
    + apply Qabs_Qle_condition. generalize dependent (inject_Z (Qfloor s)).
      intros f L U A. split; simpl; lra.
    + rewrite inject_Z_plus. change (inject_Z 1) with 1.
      apply Qabs_Qle_condition. generalize dependent (inject_Z (Qfloor s)).
      intros f L U A. split; simpl; lra.
  - apply Qabs_Qle_condition. generalize dependent (inject_Z (Qfloor s)).
    intros f L U A. split; simpl; lra.
  - rewrite inject_Z_plus. change (inject_Z 1) with 1.
    apply Qabs_Qle_condition. generalize dependent (inject_Z (Qfloor s)).
    intros f L U A. split; simpl; lra.
Qed.

Lemma expOf_ge (a : Q) : (-1074 <= expOf a)%Z.
Proof. unfold expOf. lia. Qed.

Lemma Qdiv_two (a : Q) (e : Z) : a / two e * two e == a.
Proof. field. apply two_nz. Qed.

Lemma Qdiv_lt_two (a : Q) (e k : Z) : a < two (k + e) -> a / two e < two k.
Proof.
  intro H. apply Qlt_shift_div_r; [apply two_pos |].
  rewrite <- two_add. exact H.
Qed.

Lemma Qdiv_ge_two (a : Q) (e k : Z) : two (k + e) <= a -> two k <= a / two e.
Proof.
  intro H. apply Qle_shift_div_l; [apply two_pos |].
  rewrite <- two_add. exact H.
Qed.

Lemma scaled_lt (a : Q) : 0 < a -> a / two (expOf a) < two 53.
Proof.
  intro P. destruct (ilog2_spec a P) as [_ U].
  apply Qdiv_lt_two.
  apply Qlt_le_trans with (1 := U). apply two_le. unfold expOf. lia.
Qed.

Lemma scaled_ge (a : Q) :
  0 < a -> (-1074 <= ilog2 a - 52)%Z -> two 52 <= a / two (expOf a).
Proof.
  intros P N. destruct (ilog2_spec a P) as [L _].
  apply Qdiv_ge_two.
  apply Qle_trans with (2 := L). apply two_le. unfold expOf. lia.
Qed.

Lemma scaled_pos (a : Q) : 0 < a -> 0 < a / two (expOf a).
Proof. intro P. apply Qlt_shift_div_l; [apply two_pos | lra]. Qed.

Lemma rne_two (k : Z) : (0 <= k)%Z -> rne (two k) = (2 ^ k)%Z.
Proof. intro H. rewrite (rne_comp _ _ (two_Z k H)). apply rne_Z. Qed.

Lemma mant_le (a : Q) : 0 < a -> (rne (a / two (expOf a)) <= 2 ^ 53)%Z.
Proof.
  intro P. rewrite <- (rne_two 53) by lia. apply rne_mono.
  apply Qlt_le_weak. apply scaled_lt. exact P.
Qed.

Lemma mant_ge (a : Q) :
  0 < a -> (-1074 <= ilog2 a - 52)%Z -> (2 ^ 52 <= rne (a / two (expOf a)))%Z.
Proof.
  intros P N. rewrite <- (rne_two 52) by lia. apply rne_mono.
  apply scaled_ge; assumption.
Qed.

Lemma mant_nonneg (a : Q) : 0 < a -> (0 <= rne (a / two (expOf a)))%Z.
Proof.
  intro P. change 0%Z with (rne (inject_Z 0)) at 1.
  - apply rne_mono. apply Qlt_le_weak. apply scaled_pos. exact P.
Qed.

Lemma mant_small (a : Q) :
  0 < a -> (rne (a / two (expOf a)) < 2 ^ 52)%Z -> expOf a = (-1074)%Z.
Proof.
  intros P S. unfold expOf.
  destruct (Z_le_gt_dec (-1074) (ilog2 a - 52)) as [N | N]; [| lia].
  pose proof (mant_ge a P N). lia.
Qed.

(** A value [m * 2^e] of the format is its own nearest value. *)
Lemma roundPos_fix (a : Q) (m e : Z) :
  (-1074 <= e)%Z -> (0 < m <= 2 ^ 53)%Z -> ((m < 2 ^ 52)%Z -> e = (-1074)%Z) ->
  inject_Z m * two e < two 1024 ->
  a == inject_Z m * two e ->
  roundPos a = Some (Qred (inject_Z m * two e)).
Proof.
  intros He Hm Hs Hv Ea.
  assert (Mp : 0 < inject_Z m) by (change 0 with (inject_Z 0); rewrite <- Zlt_Qlt; lia).
  assert (Pa : 0 < a).
  { rewrite Ea. apply Qmult_lt_0_compat; [exact Mp | apply two_pos]. }
  assert (Done : forall e' m', expOf a = e' -> inject_Z m' * two e' == a ->
            roundPos a = Some (Qred (inject_Z m * two e))).
  { intros e' m' Ee Em. unfold roundPos. rewrite Ee.
    assert (S : a / two e' == inject_Z m').
    { rewrite <- Em. field. apply two_nz. }
    rewrite (rne_comp _ _ S), rne_Z.
    assert (B : Qle_bool (two 1024) (inject_Z m' * two e') = false).
    { destruct (Qle_bool _ _) eqn:B; [| reflexivity].
      apply Qle_bool_iff in B. rewrite Em, Ea in B. lra. }
    rewrite B. f_equal. apply Qred_complete. rewrite Em, Ea. reflexivity. }
  destruct (Z_lt_le_dec m (2 ^ 52)) as [Small | Big].
  - specialize (Hs Small). subst e.
    apply (Done (-1074)%Z m); [| symmetry; exact Ea].
    unfold expOf.
    assert (U : a < two (-1022)).
    { rewrite Ea. change (-1022)%Z with (52 + -1074)%Z. rewrite two_add.
      apply Qmult_lt_compat_r; [apply two_pos |].
      rewrite (two_Z 52) by lia. rewrite <- Zlt_Qlt. exact Small. }
    destruct (ilog2_spec a Pa) as [L _].
    assert (ilog2 a < -1022)%Z by (apply two_lt_inv; lra). lia.
  - destruct (Z.eq_dec m (2 ^ 53)) as [Top | NotTop].
    + apply (Done (e + 1)%Z (2 ^ 52)%Z).
      * assert (I : ilog2 a = (e + 53)%Z).
        { apply ilog2_unique; rewrite Ea; subst m.
          - rewrite <- (two_Z 53) by lia. rewrite <- two_add.
            apply two_le. lia.
          - rewrite <- (two_Z 53) by lia. rewrite <- two_add.
            apply two_lt. lia. }
        unfold expOf. rewrite I. lia.
      * rewrite Ea. subst m. rewrite <- (two_Z 52), <- (two_Z 53) by lia.
        rewrite <- !two_add. replace (52 + (e + 1))%Z with (53 + e)%Z by lia.
        reflexivity.
    + apply (Done e m); [| symmetry; exact Ea].
      assert (I : ilog2 a = (e + 52)%Z).
      { apply ilog2_unique; rewrite Ea.
        - replace (e + 52)%Z with (52 + e)%Z by lia. rewrite two_add.
          apply Qmult_le_compat_r; [| apply Qlt_le_weak, two_pos].
          rewrite (two_Z 52) by lia. rewrite <- Zle_Qle. exact Big.
        - replace (e + 52 + 1)%Z with (53 + e)%Z by lia. rewrite two_add.
          apply Qmult_lt_compat_r; [apply two_pos |].
          rewrite (two_Z 53) by lia. rewrite <- Zlt_Qlt. lia. }
      unfold expOf. rewrite I. lia.
Qed.

Lemma roundPos_value (a v : Q) :
  roundPos a = Some v ->
  v = Qred (inject_Z (rne (a / two (expOf a))) * two (expOf a)) /\
  inject_Z (rne (a / two (expOf a))) * two (expOf a) < two 1024.
Proof.
  unfold roundPos. destruct (Qle_bool _ _) eqn:B; [discriminate |].
  intro H. injection H as <-. split; [reflexivity |].
  apply Qnot_le_lt. intro C. apply Qle_bool_iff in C. congruence.
Qed.

Lemma roundPos_idem (a v : Q) :
  0 < a -> roundPos a = Some v ->
  v = 0 \/ (0 < v /\ roundPos v = Some v).
Proof.
  intros P H. destruct (roundPos_value a v H) as [Ev Lt].
  pose proof (mant_nonneg a P) as M0. pose proof (mant_le a P) as M1.
  pose proof (mant_small a P) as M2. pose proof (expOf_ge a) as E0.
  set (m := rne (a / two (expOf a))) in *. set (e := expOf a) in *.
  destruct (Z.eq_dec m 0) as [Z | NZ].
  - left. rewrite Ev, Z. change 0 with (Qred 0). apply Qred_complete. ring.
  - right.
    assert (V : v == inject_Z m * two e) by (rewrite Ev; apply Qred_correct).
    split.
    + rewrite V. apply Qmult_lt_0_compat; [| apply two_pos].
      change 0 with (inject_Z 0). rewrite <- Zlt_Qlt. lia.
    + rewrite Ev at 2. apply roundPos_fix; try assumption. lia.
Qed.

Lemma roundPos_nonneg (a v : Q) : 0 < a -> roundPos a = Some v -> 0 <= v.
Proof.
  intros P H. destruct (roundPos_idem a v P H) as [-> | [L _]]; lra.
Qed.

Lemma roundPos_comp (a b : Q) : 0 < a -> a == b -> roundPos a = roundPos b.
Proof.
  intros P E. unfold roundPos, expOf. rewrite (ilog2_comp a b P E).
  set (e := Z.max _ _).
  assert (S : a / two e == b / two e) by (rewrite E; reflexivity).
  rewrite (rne_comp _ _ S). reflexivity.
Qed.

(** The values of the format are whole multiples of the least one. *)
Lemma roundPos_grid (a v : Q) :
  roundPos a = Some v -> exists k : Z, v == inject_Z k * two (-1074).
Proof.
  intros H. destruct (roundPos_value a v H) as [-> _].
  pose proof (expOf_ge a) as E.
  exists (rne (a / two (expOf a)) * 2 ^ (expOf a + 1074))%Z.
  rewrite Qred_correct, inject_Z_mult.
  rewrite <- (two_Z (expOf a + 1074)) by lia.
  rewrite <- Qmult_assoc, <- two_add.
  replace (expOf a + 1074 + -1074)%Z with (expOf a) by lia.
  reflexivity.
Qed.

(** Nothing from the least value of the format up rounds to 0. *)
Lemma roundPos_pos (a v : Q) :
  two (-1074) <= a -> roundPos a = Some v -> 0 < v.
Proof.
  intros L H.
  assert (P : 0 < a) by (pose proof (two_pos (-1074)); lra).
  destruct (roundPos_value a v H) as [-> _]. rewrite Qred_correct.
  apply Qmult_lt_0_compat; [|apply two_pos].
  change 0 with (inject_Z 0). rewrite <- Zlt_Qlt.
  destruct (Z_le_gt_dec (-1074) (ilog2 a - 52)) as [N|N].
  - pose proof (mant_ge a P N) as M.
    assert (0 < 2 ^ 52)%Z by reflexivity. lia.
  - assert (E : expOf a = (-1074)%Z) by (unfold expOf; lia).
    rewrite E.
    assert (S : 1 <= a / two (-1074)).
    { apply Qle_shift_div_l; [apply two_pos|]. lra. }
    pose proof (rne_mono _ _ S) as M.
    change 1 with (inject_Z 1) in M at 1. rewrite rne_Z in M. lia.
Qed.

End Binary64Facts.

(* ------------------------------------------------------------------ *)
(** ** Facts about the arithmetic *)

Module NumFacts.
Import Num Binary64 Binary64Facts.
Local Open Scope Q_scope.

Lemma Qred_Qred (q : Q) : Qred (Qred q) = Qred q.
Proof. apply Qred_complete, Qred_correct. Qed.

Lemma Qnum_pos (q : Q) (p : positive) : Qnum q = Zpos p -> 0 < q.
Proof. destruct q as [n d]. cbn [Qnum]. intros ->. reflexivity. Qed.

Lemma Qnum_neg (q : Q) (p : positive) : Qnum q = Zneg p -> 0 < - q.
Proof. destruct q as [n d]. cbn [Qnum]. intros ->. reflexivity. Qed.

Lemma Qopp_opp (q : Q) : - - q = q.
Proof. destruct q as [n d]. unfold Qopp. cbn [Qnum Qden]. now rewrite Z.opp_involutive. Qed.

Lemma roundPos_reduced (a v : Q) : roundPos a = Some v -> Qred v = v.
Proof.
  intros H. destruct (roundPos_value a v H) as [-> _]. apply Qred_Qred.
Qed.

Lemma nearest_comp (q q' : Q) : q == q' -> nearest q = nearest q'.
Proof. intros E. unfold nearest. now rewrite (Qred_complete q q' E). Qed.

Lemma nearest_pos (v : Q) :
  0 < v -> Qred v = v -> roundPos v = Some v -> nearest v = Finite v.
Proof.
  intros P R F. unfold nearest. rewrite R.
  destruct v as [n d]. cbn [Qnum]. unfold Qlt in P. cbn [Qnum Qden] in P.
  destruct n as [|n|n]; try lia. now rewrite F.
Qed.

(** A value of the format rounds to itself. *)
Lemma nearest_idem (q v : Q) : nearest q = Finite v -> nearest v = Finite v.
Proof.
  unfold nearest at 1. destruct (Qnum (Qred q)) as [|n|n] eqn:N.
  - intros [= <-]. reflexivity.
  - pose proof (Qnum_pos _ _ N) as P.
    destruct (roundPos (Qred q)) as [w|] eqn:R; [|discriminate].
    intros [= <-].
    destruct (roundPos_idem _ _ P R) as [->|[L F]]; [reflexivity|].
    apply nearest_pos; [exact L| |exact F].
    exact (roundPos_reduced _ _ R).
  - pose proof (Qnum_neg _ _ N) as P.
    destruct (roundPos (- Qred q)) as [w|] eqn:R; [|discriminate].
    intros [= <-].
    destruct (roundPos_idem _ _ P R) as [->|[L F]]; [reflexivity|].
    pose proof (roundPos_reduced _ _ R) as Rw.
    unfold nearest. rewrite Qred_opp, Rw.
    destruct w as [n' d']. unfold Qlt in L. cbn [Qnum Qden] in L.
    destruct n' as [|n'|n']; try lia.
    cbn [Qopp Qnum Qden Z.opp].
    rewrite Qopp_opp. now rewrite F.
Qed.

(** What is not negative rounds to what is not negative. *)
Lemma nearest_nonneg (q : Q) :
  0 <= q ->
  nearest q = Overflow false \/ exists v, nearest q = Finite v /\ 0 <= v.
Proof.
  intros P. unfold nearest.
  assert (Pr : 0 <= Qred q) by (rewrite Qred_correct; exact P).
  destruct (Qnum (Qred q)) as [|n|n] eqn:N.
  - right. exists 0. split; [reflexivity|apply Qle_refl].
  - destruct (roundPos (Qred q)) as [w|] eqn:R; [|now left].
    right. exists w. split; [reflexivity|].
    apply (roundPos_nonneg _ _ (Qnum_pos _ _ N) R).
  - exfalso. pose proof (Qnum_neg _ _ N). lra.
Qed.

Lemma b64_comp (q q' : Q) : q == q' -> b64 q = b64 q'.
Proof. intros E. unfold b64. now rewrite (nearest_comp q q' E). Qed.

Lemma b64_idem (q v : Q) : b64 q = Fin v -> b64 v = Fin v.
Proof.
  unfold b64. destruct (nearest q) as [w|b] eqn:E; [|discriminate].
  intros [= <-]. now rewrite (nearest_idem q w E).
Qed.

Lemma b64_number (q : Q) : isNaN (b64 q) = false.
Proof. unfold b64. now destruct (nearest q). Qed.

Lemma operand_b64 (q : Q) : operand (b64 q) = b64 q.
Proof.
  destruct (b64 q) as [|v|b] eqn:E; [reflexivity| |reflexivity].
  cbn [operand]. exact (b64_idem q v E).
Qed.

(** Reading an operand twice is reading it once. *)
Lemma operand_idem (n : number) : operand (operand n) = operand n.
Proof. destruct n as [|q|b]; [reflexivity| |reflexivity]. apply operand_b64. Qed.

Lemma operand_NaN (n : number) : isNaN (operand n) = isNaN n.
Proof. destruct n as [|q|b]; [reflexivity| |reflexivity]. apply b64_number. Qed.

(** The operations read their operands at the precision of the format. *)
Lemma add_operand_l (a b : number) : add (operand a) b = add a b.
Proof. unfold add. now rewrite operand_idem. Qed.

Lemma add_operand_r (a b : number) : add a (operand b) = add a b.
Proof. unfold add. now rewrite operand_idem. Qed.

Lemma mul_operand_l (a b : number) : mul (operand a) b = mul a b.
Proof. unfold mul. now rewrite operand_idem. Qed.

Lemma mul_operand_r (a b : number) : mul a (operand b) = mul a b.
Proof. unfold mul. now rewrite operand_idem. Qed.

Lemma div_operand_l (a b : number) : div (operand a) b = div a b.
Proof. unfold div. now rewrite operand_idem. Qed.

Lemma div_operand_r (a b : number) : div a (operand b) = div a b.
Proof. unfold div. now rewrite operand_idem. Qed.

Lemma round_operand (a : number) : round (operand a) = round a.
Proof. unfold round. now rewrite operand_idem. Qed.

(** The results are values of the format. *)
Lemma operand_add (a b : number) : operand (add a b) = add a b.
Proof.
  unfold add. destruct (operand a) as [|x|s], (operand b) as [|y|t];
    try reflexivity; [apply operand_b64|now destruct (Bool.eqb s t)].
Qed.

Lemma operand_mul (a b : number) : operand (mul a b) = mul a b.
Proof.
  unfold mul. destruct (operand a) as [|x|s], (operand b) as [|y|t];
    try reflexivity; [apply operand_b64| |]; now destruct (Qeq_bool _ 0).
Qed.

Lemma operand_div (a b : number) : operand (div a b) = div a b.
Proof.
  unfold div. destruct (operand a) as [|x|s], (operand b) as [|y|t];
    try reflexivity.
  destruct (Qeq_bool y 0); [now destruct (Qeq_bool x 0)|apply operand_b64].
Qed.

Lemma operand_round (a : number) : operand (round a) = round a.
Proof.
  unfold round. destruct (operand a) as [|x|s] eqn:E; try reflexivity.
  apply operand_b64.
Qed.

(** Rounding commutes with the change of sign. *)
Lemma b64_opp (q : Q) : b64 (- q) = neg (b64 q).
Proof.
  unfold b64, nearest. rewrite Qred_opp.
  destruct (Qred q) as [n d]. destruct n as [|n|n]; cbn [Qopp Qnum Qden Z.opp].
  - reflexivity.
  - rewrite Qopp_opp. now destruct (roundPos (Z.pos n # d)).
  - destruct (roundPos (- (Z.neg n # d))) as [v|]; cbn [neg negb];
      [|reflexivity].
    now rewrite Qopp_opp.
Qed.

Lemma operand_neg (n : number) : operand (neg n) = neg (operand n).
Proof. destruct n as [|q|b]; [reflexivity| |reflexivity]. apply b64_opp. Qed.

(** The finite values of the format are whole multiples of the least one. *)
Lemma b64_grid (q v : Q) :
  b64 q = Fin v -> exists k : Z, v == inject_Z k * two (-1074).
Proof.
  unfold b64, nearest. destruct (Qnum (Qred q)) as [|n|n].
  - intros [= <-]. exists 0%Z. ring.
  - destruct (roundPos (Qred q)) as [w|] eqn:R; [|discriminate].
    intros [= <-]. exact (roundPos_grid _ _ R).
  - destruct (roundPos (- Qred q)) as [w|] eqn:R; [|discriminate].
    intros [= <-]. destruct (roundPos_grid _ _ R) as [k K].
    exists (- k)%Z. rewrite K, inject_Z_opp. ring.
Qed.

(** Nothing from the least value of the format up rounds to 0. *)
Lemma b64_pos (q : Q) :
  two (-1074) <= q ->
  b64 q = Inf false \/ exists v, b64 q = Fin v /\ 0 < v.
Proof.
  intros L. pose proof (two_pos (-1074)) as T.
  assert (Lr : two (-1074) <= Qred q) by (rewrite Qred_correct; exact L).
  unfold b64, nearest. destruct (Qnum (Qred q)) as [|n|n] eqn:N.
  - exfalso. destruct (Qred q) as [a d]. cbn [Qnum] in N. subst a.
    assert (Z : (0 # d) == 0) by reflexivity. lra.
  - destruct (roundPos (Qred q)) as [w|] eqn:R; [|now left].
    right. exists w. split; [reflexivity|]. exact (roundPos_pos _ _ Lr R).
  - exfalso. pose proof (Qnum_neg _ _ N). lra.
Qed.

(** *** Signs *)

(** The numbers from 0 up, the positive infinity included. *)
Lemma nonneg_cases (n : number) :
  leb zero n = true <-> n = Inf false \/ exists q, n = Fin q /\ 0 <= q.
Proof.
  destruct n as [|q|[]]; cbn [leb zero negb]; split;
    try discriminate; try (intros [H|[q' [H _]]]; discriminate).
  - intros H. right. exists q. split; [reflexivity|now apply Qle_bool_iff].
  - intros [H|[q' [[= <-] H]]]; [discriminate|now apply Qle_bool_iff].
  - now left.
  - reflexivity.
Qed.

Lemma b64_nonneg (q : Q) : 0 <= q -> leb zero (b64 q) = true.
Proof.
  intros P. unfold b64.
  destruct (nearest_nonneg q P) as [->|[v [-> V]]]; [reflexivity|].
  cbn [leb zero]. now apply Qle_bool_iff.
Qed.

Lemma operand_nonneg (n : number) : leb zero n = true -> leb zero (operand n) = true.
Proof.
  intros H. apply nonneg_cases in H as [->|[q [-> P]]]; [reflexivity|].
  now apply b64_nonneg.
Qed.

Lemma Qneg_nonneg (q : Q) : 0 <= q -> Qneg q = false.
Proof. intros H. unfold Qneg. apply negb_false_iff. now apply Qle_bool_iff. Qed.

Lemma b64_hundred : b64 100 = Fin 100.
Proof. vm_compute. reflexivity. Qed.

Lemma b64_one : b64 1 = Fin 1.
Proof. vm_compute. reflexivity. Qed.

Lemma b64_zero : b64 0 = Fin 0.
Proof. reflexivity. Qed.

(** The literal [0.01] is a positive number. *)
Lemma cent_pos : exists v, cent = Fin v /\ 0 < v.
Proof. eexists. split; [vm_compute; reflexivity|reflexivity]. Qed.

(** Dividing by 1 changes nothing. *)
Lemma div_one (x : number) : div x one = operand x.
Proof.
  unfold div, one. cbn [operand]. rewrite b64_one.
  destruct (operand x) as [|v|s] eqn:E; [reflexivity| |].
  - replace (Qeq_bool 1 0) with false by reflexivity.
    rewrite (b64_comp (v / 1) v) by field.
    rewrite <- E, <- (operand_idem x), E. reflexivity.
  - replace (Qneg 1) with false by reflexivity. now destruct s.
Qed.

(** A quotient of numbers that are not negative is not negative, when it
    is a number at all. *)
Lemma div_nonneg (a b : number) :
  leb zero a = true -> leb zero b = true -> isNaN (div a b) = false ->
  leb zero (div a b) = true.
Proof.
  intros A B. apply operand_nonneg in A. apply operand_nonneg in B.
  unfold div. apply nonneg_cases in A as [->|[x [-> X]]];
    apply nonneg_cases in B as [->|[y [-> Y]]]; try discriminate.
  - intros _. cbn [xorb]. now rewrite (Qneg_nonneg y Y).
  - intros _. reflexivity.
  - destruct (Qeq_bool y 0) eqn:Z.
    + destruct (Qeq_bool x 0); [discriminate|].
      intros _. now rewrite (Qneg_nonneg x X).
    + intros _. apply b64_nonneg.
      assert (Yp : 0 < y).
      { destruct (Qlt_le_dec 0 y) as [L|L]; [exact L|].
        assert (E : y == 0) by lra. apply Qeq_bool_iff in E. congruence. }
      apply Qle_shift_div_l; [exact Yp|lra].
Qed.

(** A product by a positive value of the format. *)
Lemma mul_nonneg_by (a : number) (k : Q) :
  0 < k -> b64 k = Fin k ->
  leb zero a = true -> leb zero (mul a (Fin k)) = true.
Proof.
  intros K Ek A. apply operand_nonneg in A. unfold mul. cbn [operand]. rewrite Ek.
  apply nonneg_cases in A as [->|[x [-> X]]].
  - assert (Z : Qeq_bool k 0 = false).
    { destruct (Qeq_bool k 0) eqn:Z; [|reflexivity].
      apply Qeq_bool_iff in Z. lra. }
    rewrite Z. cbn [xorb]. rewrite (Qneg_nonneg k) by lra. reflexivity.
  - apply b64_nonneg. apply Qmult_le_0_compat; lra.
Qed.

Lemma div_nonneg_by (a : number) (k : Q) :
  0 < k -> b64 k = Fin k ->
  leb zero a = true -> leb zero (div a (Fin k)) = true.
Proof.
  intros K Ek A. apply operand_nonneg in A. unfold div. cbn [operand]. rewrite Ek.
  assert (Z : Qeq_bool k 0 = false).
  { destruct (Qeq_bool k 0) eqn:Z; [|reflexivity].
    apply Qeq_bool_iff in Z. lra. }
  apply nonneg_cases in A as [->|[x [-> X]]].
  - cbn [xorb]. rewrite (Qneg_nonneg k) by lra. reflexivity.
  - rewrite Z. apply b64_nonneg. apply Qle_shift_div_l; [exact K|lra].
Qed.

Lemma b64_nonpos (q : Q) : q <= 0 -> leb (b64 q) zero = true.
Proof.
  intros P. assert (N : 0 <= - q) by lra.
  rewrite <- (Qopp_opp q), b64_opp.
  pose proof (b64_nonneg _ N) as H.
  apply nonneg_cases in H as [->|[v [-> V]]]; [reflexivity|].
  cbn [neg leb zero]. apply Qle_bool_iff. lra.
Qed.

(** The difference of two finite values of the format has the sign of the
    exact difference: it does not round to 0. *)
Lemma difference_sign (x y : Q) :
  b64 x = Fin x -> b64 y = Fin y ->
  leb (b64 (y + - x)) zero = Qle_bool y x.
Proof.
  intros X Y. destruct (Qle_bool y x) eqn:L.
  - apply Qle_bool_iff in L. apply b64_nonpos. lra.
  - assert (L' : x < y).
    { apply Qnot_le_lt. intros C. apply Qle_bool_iff in C. congruence. }
    destruct (b64_grid _ _ X) as [kx Kx]. destruct (b64_grid _ _ Y) as [ky Ky].
    pose proof (two_pos (-1074)) as T.
    assert (D : two (-1074) <= y + - x).
    { rewrite Kx, Ky.
      assert (K : (kx < ky)%Z).
      { destruct (Z_lt_le_dec kx ky) as [K|K]; [exact K|exfalso].
        rewrite Kx, Ky in L'. rewrite Zle_Qle in K.
        assert (inject_Z ky * two (-1074) <= inject_Z kx * two (-1074)).
        { apply Qmult_le_compat_r; [exact K|lra]. }
        lra. }
      assert (K1 : (1 <= ky - kx)%Z) by lia.
      rewrite Zle_Qle in K1. unfold Zminus in K1.
      rewrite inject_Z_plus, inject_Z_opp in K1.
      change (inject_Z 1) with 1 in K1.
      setoid_replace (inject_Z ky * two (-1074) + - (inject_Z kx * two (-1074)))
        with ((inject_Z ky + - inject_Z kx) * two (-1074)) by ring.
      setoid_replace (two (-1074)) with (1 * two (-1074)) at 1 by ring.
      apply Qmult_le_compat_r; [exact K1|lra]. }
    destruct (b64_pos _ D) as [->|[v [-> V]]]; [reflexivity|].
    cbn [leb zero]. destruct (Qle_bool v 0) eqn:Z; [|reflexivity].
    apply Qle_bool_iff in Z. lra.
Qed.

(** Adding 0 to a value of the format changes nothing. *)
Lemma add_zero_r (a : number) : operand a = a -> add a zero = a.
Proof.
  intros H. unfold add. rewrite H. cbn [operand zero]. rewrite b64_zero.
  destruct a as [|x|s]; [reflexivity| |reflexivity].
  cbn [operand] in H. rewrite (b64_comp (x + 0) x) by ring. exact H.
Qed.

(** A finite number times 0 is 0. *)
Lemma mul_zero_r (q : Q) : b64 q = Fin q -> mul (Fin q) zero = zero.
Proof.
  intros H. unfold mul. cbn [operand zero]. rewrite H, b64_zero.
  rewrite (b64_comp (q * 0) 0) by ring. apply b64_zero.
Qed.

(** A rate that counts as 0 multiplies as 0 does. *)
Lemma mul_falsy (u e : number) :
  isNaN e = false -> Num.truthy e = false -> mul u e = mul u zero.
Proof.
  intros N T. destruct e as [|q|s]; [discriminate| |discriminate].
  cbn [Num.truthy] in T. apply negb_false_iff in T. apply Qeq_bool_iff in T.
  unfold mul. cbn [operand zero]. now rewrite (b64_comp q 0 T).
Qed.

Lemma round_nonneg (a : number) :
  leb zero a = true -> leb zero (round a) = true.
Proof.
  intros A. apply operand_nonneg in A. unfold round.
  apply nonneg_cases in A as [->|[x [-> X]]]; [reflexivity|].
  apply b64_nonneg. change 0 with (inject_Z 0). rewrite <- Zle_Qle.
  change 0%Z with (Qfloor 0). apply Qfloor_resp_le. lra.
Qed.

End NumFacts.

(* ------------------------------------------------------------------ *)
(** ** Facts about the string primitives *)

Module StrFacts.
Import Str.

Lemma app_nil_r (a : string) : (a ++ EmptyString)%string = a.
Proof. induction a as [|x a IH]; simpl; [reflexivity|now rewrite IH]. Qed.

Lemma app_assoc (a b c : string) :
  ((a ++ b) ++ c = a ++ (b ++ c))%string.
Proof. induction a as [|x a IH]; simpl; [reflexivity|now rewrite IH]. Qed.

Lemma rev_onto_app (s acc : string) :
  rev_onto s acc = (rev s ++ acc)%string.
Proof.
  unfold rev. revert acc.
  induction s as [|c s IH]; intros acc; simpl; [reflexivity|].
  rewrite (IH (String c acc)), (IH (String c EmptyString)).
  now rewrite app_assoc.
Qed.

Lemma rev_cons (c : ascii) (s : string) :
  rev (String c s) = (rev s ++ String c EmptyString)%string.
Proof. unfold rev at 1. simpl. apply rev_onto_app. Qed.

Lemma rev_app (a b : string) : rev (a ++ b) = (rev b ++ rev a)%string.
Proof.
  induction a as [|x a IH]; simpl.
  - now rewrite app_nil_r.
  - now rewrite !rev_cons, IH, app_assoc.
Qed.

Lemma rev_involutive (s : string) : rev (rev s) = s.
Proof.
  induction s as [|c s IH]; [reflexivity|].
  rewrite rev_cons, rev_app, IH. reflexivity.
Qed.

Lemma existsb_app (p : ascii -> bool) (a b : string) :
  existsb p (a ++ b) = existsb p a || existsb p b.
Proof.
  induction a as [|x a IH]; simpl; [reflexivity|].
  now rewrite IH, orb_assoc.
Qed.

Lemma existsb_rev (p : ascii -> bool) (s : string) :
  existsb p (rev s) = existsb p s.
Proof.
  induction s as [|c s IH]; [reflexivity|].
  rewrite rev_cons, existsb_app, IH. simpl.
  rewrite orb_false_r. apply orb_comm.
Qed.

Lemma trimStart_clean (s : string) :
  existsb isWhite s = false -> trimStart s = s.
Proof.
  destruct s as [|c s]; [reflexivity|]. simpl.
  intros H. apply orb_false_iff in H as [H _]. now rewrite H.
Qed.

(** Text without white space is its own trim. *)
Lemma trim_clean (s : string) : existsb isWhite s = false -> trim s = s.
Proof.
  intros H. unfold trim, trimEnd.
  rewrite (trimStart_clean s H).
  rewrite trimStart_clean by now rewrite existsb_rev.
  apply rev_involutive.
Qed.

Lemma filter_app (p : ascii -> bool) (a b : string) :
  filter p (a ++ b) = (filter p a ++ filter p b)%string.
Proof.
  induction a as [|x a IH]; simpl; [reflexivity|].
  rewrite IH. now destruct (p x).
Qed.

Lemma filter_idem (p : ascii -> bool) (s : string) :
  filter p (filter p s) = filter p s.
Proof.
  induction s as [|c s IH]; simpl; [reflexivity|].
  destruct (p c) eqn:E; simpl; [now rewrite E, IH|exact IH].
Qed.

Lemma existsb_filter_false (p q : ascii -> bool) (s : string) :
  (forall c, p c = true -> q c = false) -> existsb q (filter p s) = false.
Proof.
  intros H. induction s as [|c s IH]; simpl; [reflexivity|].
  destruct (p c) eqn:E; simpl; [|exact IH].
  now rewrite (H c E), IH.
Qed.

Lemma upperChar_idem (c : ascii) : upperChar (upperChar c) = upperChar c.
Proof.
  destruct c as [[] [] [] [] [] [] [] []]; reflexivity.
Qed.

Lemma toUpperCase_idem (s : string) :
  toUpperCase (toUpperCase s) = toUpperCase s.
Proof.
  unfold toUpperCase. induction s as [|c s IH]; simpl; [reflexivity|].
  now rewrite upperChar_idem, IH.
Qed.

Lemma toUpperCase_nonEmpty (s : string) :
  nonEmpty (toUpperCase s) = nonEmpty s.
Proof. now destruct s. Qed.

(** No character of upper-cased text is a lower-case letter. *)
Lemma toUpperCase_no_lower (s : string) :
  existsb isLower (toUpperCase s) = false.
Proof.
  unfold toUpperCase. induction s as [|c s IH]; simpl; [reflexivity|].
  rewrite IH, orb_false_r.
  destruct c as [[] [] [] [] [] [] [] []]; reflexivity.
Qed.

End StrFacts.

(* ------------------------------------------------------------------ *)
(** ** Properties of the tokenizer *)

Module CsvFacts.
Import Str Csv.

Lemma snoc_app (a : string) (c : ascii) (r : string) :
  (snoc a c ++ r = a ++ String c r)%string.
Proof.
  unfold snoc. induction a as [|x a IH]; simpl; [reflexivity|].
  now rewrite IH.
Qed.

Lemma app_empty_r (a : string) : (a ++ EmptyString)%string = a.
Proof. induction a as [|x a IH]; simpl; [reflexivity|now rewrite IH]. Qed.

(** Inside quotes the doubled text followed by the closing quote is read
    back as the text itself. *)
Lemma scan_quoted (delim : ascii) (s : string) :
  forall rs r acc,
    scan delim (doubleQuotes s ++ String DQUOTE EmptyString)%string
         (mkState rs r acc true)
    = mkState rs r (acc ++ s)%string false.
Proof.
  induction s as [|c s IH]; intros rs r acc.
  - simpl. now rewrite app_empty_r.
  - simpl doubleQuotes. destruct (Ascii.eqb c DQUOTE) eqn:E.
    + apply Ascii.eqb_eq in E. subst c.
      cbn [append scan inQuotes rows row field].
      rewrite Ascii.eqb_refl. rewrite IH. now rewrite snoc_app.
    + cbn [append scan inQuotes rows row field].
      rewrite E. rewrite IH. now rewrite snoc_app.
Qed.

(** Outside quotes a run of ordinary characters is appended unchanged. *)
Lemma scan_plain (delim : ascii) (s : string) :
  existsb (fun c => Ascii.eqb c DQUOTE || Ascii.eqb c delim
                    || Ascii.eqb c LF || Ascii.eqb c CR) s = false ->
  forall rs r acc,
    scan delim s (mkState rs r acc false)
    = mkState rs r (acc ++ s)%string false.
Proof.
  induction s as [|c s IH]; intros H rs r acc.
  - simpl. now rewrite app_empty_r.
  - simpl in H. apply orb_false_iff in H as [Hc Hs].
    repeat (apply orb_false_iff in Hc as [Hc ?]).
    cbn [scan inQuotes rows row field].
    rewrite Hc, H, H0, H1. cbn [negb].
    rewrite IH by assumption. now rewrite snoc_app.
Qed.

End CsvFacts.

(* ------------------------------------------------------------------ *)
(** ** The quoting round trip *)

Module QuotingFacts.
Import Str Csv CsvFacts Spec Samples.

Lemma existsb_orb (p q : ascii -> bool) (s : string) :
  existsb (fun c => p c || q c) s = existsb p s || existsb q s.
Proof.
  induction s as [|c s IH]; simpl; [reflexivity|].
  rewrite IH. destruct (p c), (q c), (existsb p s), (existsb q s); reflexivity.
Qed.

Lemma existsb_ext (p q : ascii -> bool) (s : string) :
  (forall c, p c = q c) -> existsb p s = existsb q s.
Proof.
  intros E. induction s as [|c s IH]; simpl; [reflexivity|].
  now rewrite E, IH.
Qed.

(** A field that [escape] leaves bare and that holds no carriage return
    has no character the tokenizer treats specially. *)
Lemma bare_is_plain (f : string) :
  needsQuoting f = false -> includesChar CR f = false ->
  existsb (fun c => Ascii.eqb c DQUOTE || Ascii.eqb c COMMA
                    || Ascii.eqb c LF || Ascii.eqb c CR) f = false.
Proof.
  unfold needsQuoting, includesChar. intros H Hcr.
  apply orb_false_iff in H as [H Hlf]. apply orb_false_iff in H as [Hco Hq].
  rewrite !existsb_orb.
  rewrite (existsb_ext (fun c => Ascii.eqb c DQUOTE) (Ascii.eqb DQUOTE))
    by (intros; apply Ascii.eqb_sym).
  rewrite (existsb_ext (fun c => Ascii.eqb c COMMA) (Ascii.eqb COMMA))
    by (intros; apply Ascii.eqb_sym).
  rewrite (existsb_ext (fun c => Ascii.eqb c LF) (Ascii.eqb LF))
    by (intros; apply Ascii.eqb_sym).
  rewrite (existsb_ext (fun c => Ascii.eqb c CR) (Ascii.eqb CR))
    by (intros; apply Ascii.eqb_sym).
  now rewrite Hq, Hco, Hlf, Hcr.
Qed.

Lemma needsQuoting_nonEmpty (f : string) :
  needsQuoting f = true -> nonEmpty f = true.
Proof. destruct f; [discriminate|reflexivity]. Qed.

Lemma flush_single (f : string) :
  nonEmpty f = true -> flush (mkState [] [] f false) = [[f]].
Proof. intros H. unfold flush. simpl. now rewrite H. Qed.

(** C8 (as amended): a field that holds a comma, a quote or a line feed, and
    also a non-empty field that holds none of them and no carriage return,
    is read back unchanged, as the only field of the only row, when its
    escaped form is tokenized with the comma as delimiter. *)
Theorem quoting_round_trip (f : string) :
  needsQuoting f = true \/ (nonEmpty f = true /\ includesChar CR f = false) ->
  parseCSVLine (escape f) COMMA = [[f]].
Proof.
  intros H. unfold parseCSVLine, escape.
  destruct (needsQuoting f) eqn:Q.
  - cbn [scan init inQuotes rows row field].
    replace (Ascii.eqb DQUOTE DQUOTE) with true by reflexivity.
    rewrite scan_quoted. cbn [append].
    apply flush_single. now apply needsQuoting_nonEmpty.
  - destruct H as [H|[Hne Hcr]]; [discriminate|].
    unfold init. rewrite scan_plain by now apply bare_is_plain.
    cbn [append]. now apply flush_single.
Qed.

Lemma quoting_round_trip_witness :
  needsQuoting sampleField = true
  /\ parseCSVLine (escape sampleField) COMMA = [[sampleField]].
Proof.
  split; [reflexivity|].
  apply (quoting_round_trip sampleField). left. reflexivity.
Defined.

(** The claim as first stated, for every text: a bare carriage return is
    dropped by the tokenizer, and the empty field gives no row at all. *)
Lemma quoting_round_trip_counterexample :
  exists f : string,
    f = String "a" (String CR (String "b" EmptyString))
    /\ parseCSVLine (escape f) COMMA = [["ab"]]
    /\ parseCSVLine (escape f) COMMA <> [[f]]
    /\ parseCSVLine (escape EmptyString) COMMA = []
    /\ parseCSVLine (escape EmptyString) COMMA <> [[EmptyString]].
Proof.
  eexists. split; [reflexivity|].
  repeat split; discriminate.
Qed.

End QuotingFacts.

(* ------------------------------------------------------------------ *)
(** ** Runs of decimal digits *)

Module DigitFacts.
Import Str Num Spec.

Lemma allDigits_cons (c : ascii) (r : string) :
  allDigits (String c r) = isDigit c && allDigits r.
Proof.
  unfold allDigits. cbn [existsb]. rewrite negb_orb. now rewrite negb_involutive.
Qed.

Lemma readDigits_all (s rest : string) :
  allDigits s = true -> noDigitAhead rest = true ->
  forall acc n,
    readDigits (s ++ rest) acc n
    = (decimalOf s acc, (n + String.length s)%nat, rest).
Proof.
  intros H Hrest. induction s as [|c s IH]; intros acc n.
  - cbn [append decimalOf String.length]. rewrite Nat.add_0_r.
    destruct rest as [|c' rest']; [reflexivity|].
    cbn [noDigitAhead] in Hrest. apply negb_true_iff in Hrest.
    cbn [readDigits]. now rewrite Hrest.
  - rewrite allDigits_cons in H. apply andb_true_iff in H as [Hc Hs].
    cbn [append readDigits decimalOf String.length]. rewrite Hc.
    rewrite (IH Hs). f_equal. f_equal. lia.
Qed.

Lemma decimalOf_app (a b : string) (acc : Z) :
  decimalOf (a ++ b) acc = decimalOf b (decimalOf a acc).
Proof.
  revert acc. induction a as [|c a IH]; intros acc; [reflexivity|].
  cbn [append decimalOf]. apply IH.
Qed.

Lemma append_empty (s : string) : (s ++ EmptyString)%string = s.
Proof. induction s as [|c s IH]; [reflexivity|]. cbn [append]. now rewrite IH. Qed.

(** A run of digits that ends the text. *)
Lemma readDigits_end (s : string) (acc : Z) (n : nat) :
  allDigits s = true ->
  readDigits s acc n = (decimalOf s acc, (n + String.length s)%nat, EmptyString).
Proof.
  intros H. rewrite <- (append_empty s) at 1.
  now apply readDigits_all.
Qed.

End DigitFacts.

(* ------------------------------------------------------------------ *)
(** ** The money normalizer *)

Module MoneyFacts.
Import Str Num Val Parser StrFacts Spec Samples DigitFacts NumFacts.

Lemma keep_not_white (c : ascii) : keep c = true -> isWhite c = false.
Proof.
  unfold keep, moneyNoise. intros H. apply negb_true_iff in H.
  now apply orb_false_iff in H as [_ H].
Qed.

Lemma cleaned_trim (t : string) : trim (filter keep t) = filter keep t.
Proof.
  apply trim_clean. apply existsb_filter_false. exact keep_not_white.
Qed.

Lemma moneyText_filter (t : string) : moneyText (filter keep t) = moneyText t.
Proof. unfold moneyText. fold keep. now rewrite filter_idem. Qed.

Lemma moneyText_empty_of_filter (t : string) :
  filter keep t = EmptyString -> moneyText t = EmptyString.
Proof. unfold moneyText. fold keep. intros ->. reflexivity. Qed.

(** Deleting the noise first does not change the amount. *)
Lemma normalizeMoney_strip (t : string) :
  normalizeMoney (VStr t) = normalizeMoney (VStr (filter keep t)).
Proof.
  unfold normalizeMoney. cbn [Val.truthy].
  rewrite moneyText_filter.
  destruct t as [|c t]; [reflexivity|].
  cbn [nonEmpty negb].
  destruct (filter keep (String c t)) as [|c' t'] eqn:E; [|reflexivity].
  now rewrite (moneyText_empty_of_filter _ E).
Qed.

Lemma endsWith_paren (t : string) :
  endsWith ")" (String "(" (t ++ ")")) = true.
Proof.
  unfold endsWith. rewrite (rev_cons "(" (t ++ ")")), rev_app. reflexivity.
Qed.

Lemma slice_paren (t : string) : slice1m1 (String "(" (t ++ ")")) = t.
Proof.
  unfold slice1m1. cbn [drop]. rewrite rev_app. cbn [rev rev_onto append drop].
  apply rev_involutive.
Qed.

(** A value in parentheses is the same text with a minus sign in front. *)
Lemma moneyText_paren (t : string) :
  moneyText (String "(" (t ++ ")")) = moneyText (String "-" t).
Proof.
  unfold moneyText. fold keep. rewrite !cleaned_trim.
  change (filter keep (String "(" (t ++ ")")))
    with (String "(" (filter keep (t ++ ")"))).
  change (filter keep (String "-" t)) with (String "-" (filter keep t)).
  rewrite filter_app. change (filter keep ")") with ")".
  unfold unparen.
  rewrite endsWith_paren, slice_paren. reflexivity.
Qed.

Lemma normalizeMoney_not_NaN (v : value) : isNaN (normalizeMoney v) = false.
Proof.
  unfold normalizeMoney.
  destruct v as [| |t|n]; cbn [Val.truthy negb]; try reflexivity.
  - destruct (nonEmpty t); cbn [negb]; [|reflexivity].
    destruct (isNaN (Num.parseFloat (moneyText t))) eqn:E; [reflexivity|exact E].
  - destruct n as [|q|b]; cbn [Num.truthy negb]; try reflexivity.
    destruct (Qeq_bool q 0); reflexivity.
Qed.

Lemma parseFloat_minus (t : string) :
  startsWithDigit t = true ->
  Num.parseFloat (String "-" t) = neg (Num.parseFloat t).
Proof.
  destruct t as [|c r]; [discriminate|]. cbn [startsWithDigit]. intros D.
  unfold Num.parseFloat.
  change (trimStart (String "-" (String c r))) with (String "-" (String c r)).
  assert (W : trimStart (String c r) = String c r).
  { cbn [trimStart].
    destruct c as [[] [] [] [] [] [] [] []]; try discriminate D; reflexivity. }
  rewrite W.
  assert (S : (match String c r with
               | String "+" r0 => (false, r0)
               | String "-" r0 => (true, r0)
               | _ => (false, String c r)
               end) = (false, String c r)).
  { destruct c as [[] [] [] [] [] [] [] []]; try discriminate D; reflexivity. }
  rewrite S.
  destruct (readUnsigned (String c r)); reflexivity.
Qed.

(** Text that starts with a digit has no parentheses to undo. *)
Lemma moneyText_digits (u : string) :
  startsWithDigit (filter keep u) = true -> moneyText u = filter keep u.
Proof.
  intros Du. unfold moneyText. fold keep. rewrite cleaned_trim.
  unfold unparen. destruct (filter keep u) as [|c r]; [discriminate|].
  cbn [startsWithDigit] in Du. cbn [startsWith].
  destruct c as [[] [] [] [] [] [] [] []]; try discriminate Du; reflexivity.
Qed.

(** On an amount that starts with a digit the parentheses negate. *)
Lemma normalizeMoney_paren_neg (t : string) :
  startsWithDigit (filter keep t) = true ->
  normalizeMoney (VStr (String "(" (t ++ ")")))
  = neg (normalizeMoney (VStr t)).
Proof.
  intros D. unfold normalizeMoney. cbn [Val.truthy nonEmpty negb].
  rewrite moneyText_paren.
  assert (Ht : nonEmpty t = true).
  { destruct t; [discriminate D|reflexivity]. }
  rewrite Ht. cbn [negb].
  rewrite (moneyText_digits t D).
  assert (M' : moneyText (String "-" t) = String "-" (filter keep t)).
  { unfold moneyText. fold keep. rewrite cleaned_trim. reflexivity. }
  rewrite M', (parseFloat_minus _ D).
  destruct (Num.parseFloat (filter keep t)); reflexivity.
Qed.

(** The text is cleaned, a pair of parentheses becomes a minus sign, and
    [parseFloat] reads the rest. *)
Lemma normalizeMoney_reads (t : string) :
  normalizeMoney (VStr t)
  = (let n := Num.parseFloat (unparen (filter keep t)) in
     if isNaN n then zero else n).
Proof.
  unfold normalizeMoney, moneyText. fold keep. rewrite cleaned_trim.
  cbn [Val.truthy].
  destruct t as [|c t]; [reflexivity|]. reflexivity.
Qed.

Lemma plainAmount_head (i f : string) :
  nonEmpty i = true -> allDigits i = true ->
  exists c r, plainAmount i f = String c r /\ isDigit c = true.
Proof.
  intros N D. destruct i as [|c i]; [discriminate N|].
  rewrite allDigits_cons in D. apply andb_true_iff in D as [Dc _].
  destruct f as [|d f].
  - exists c, i. now split.
  - exists c, (i ++ String "." (String d f))%string. now split.
Qed.

Lemma digit_not_literal_head (c : ascii) (r : string) :
  isDigit c = true -> startsWith "Infinity" (String c r) = false.
Proof.
  intros D. cbn [startsWith].
  destruct c as [[] [] [] [] [] [] [] []]; try discriminate D; reflexivity.
Qed.

(** [parseFloat] on a decimal amount gives the number nearest to it. *)
Lemma readUnsigned_amount (i f : string) :
  nonEmpty i = true -> allDigits i = true -> allDigits f = true ->
  readUnsigned (plainAmount i f) = Some (b64 (amount i f)).
Proof.
  intros N Di Df. unfold readUnsigned.
  destruct (plainAmount_head i f N Di) as [c [r [E Dc]]].
  rewrite E, (digit_not_literal_head c r Dc), <- E. clear E Dc c r.
  assert (L : exists k, String.length i = S k).
  { destruct i as [|c i]; [discriminate N|]. now exists (String.length i). }
  destruct L as [k L].
  destruct f as [|d f]; cbn [plainAmount].
  - rewrite (readDigits_end i 0 0 Di). cbn [Nat.add]. rewrite L.
    cbn [readExponent]. unfold amount. rewrite append_empty.
    reflexivity.
  - rewrite (readDigits_all i (String "." (String d f)) Di eq_refl 0 0).
    cbn [Nat.add]. rewrite L.
    rewrite (readDigits_end (String d f) (decimalOf i 0) 0 Df).
    cbn [Nat.add String.length readExponent].
    unfold amount. rewrite decimalOf_app. cbn [String.length].
    reflexivity.
Qed.

Lemma parseFloat_amount (i f : string) :
  nonEmpty i = true -> allDigits i = true -> allDigits f = true ->
  Num.parseFloat (plainAmount i f) = b64 (amount i f).
Proof.
  intros N Di Df.
  destruct (plainAmount_head i f N Di) as [c [r [E Dc]]].
  unfold Num.parseFloat. rewrite E.
  assert (W : trimStart (String c r) = String c r).
  { cbn [trimStart].
    destruct c as [[] [] [] [] [] [] [] []]; try discriminate Dc; reflexivity. }
  rewrite W.
  assert (S : (match String c r with
               | String "+" r0 => (false, r0)
               | String "-" r0 => (true, r0)
               | _ => (false, String c r)
               end) = (false, String c r)).
  { destruct c as [[] [] [] [] [] [] [] []]; try discriminate Dc; reflexivity. }
  rewrite S, <- E, (readUnsigned_amount i f N Di Df). reflexivity.
Qed.

(** A decimal amount among the noise reads as the number nearest to it. *)
Lemma normalizeMoney_amount (t i f : string) :
  nonEmpty i = true -> allDigits i = true -> allDigits f = true ->
  filter keep t = plainAmount i f ->
  normalizeMoney (VStr t) = b64 (amount i f).
Proof.
  intros N Di Df E. rewrite normalizeMoney_reads, E.
  destruct (plainAmount_head i f N Di) as [c [r [E' Dc]]].
  assert (U : unparen (plainAmount i f) = plainAmount i f).
  { rewrite E'. unfold unparen. cbn [startsWith].
    destruct c as [[] [] [] [] [] [] [] []]; try discriminate Dc; reflexivity. }
  rewrite U. cbv zeta. rewrite (parseFloat_amount i f N Di Df).
  now rewrite b64_number.
Qed.

(** The same amount between parentheses reads as its opposite. *)
Lemma normalizeMoney_paren_amount (t i f : string) :
  nonEmpty i = true -> allDigits i = true -> allDigits f = true ->
  filter keep t = String "(" (plainAmount i f ++ ")") ->
  normalizeMoney (VStr t) = neg (b64 (amount i f)).
Proof.
  intros N Di Df E. rewrite normalizeMoney_reads, E.
  unfold unparen. rewrite endsWith_paren, slice_paren.
  cbn [startsWith]. replace (Ascii.eqb "(" "(") with true by reflexivity.
  cbn [andb]. cbv zeta.
  destruct (plainAmount_head i f N Di) as [c [r [E' Dc]]].
  rewrite (parseFloat_minus (plainAmount i f))
    by (rewrite E'; exact Dc).
  rewrite (parseFloat_amount i f N Di Df).
  pose proof (b64_number (amount i f)) as B.
  destruct (b64 (amount i f)); [discriminate B|reflexivity|reflexivity].
Qed.

(** C6: the money normalizer is a total function whose result is never
    NaN.  A number cell is returned as it is, 0 standing for the falsy
    ones.  Text is cleaned of the dollar sign, commas and white space (the
    no-break space included), a pair of parentheses around it is replaced
    by a minus sign, and [parseFloat] reads the rest: a decimal amount
    gives the number nearest to it, the same amount in parentheses its
    opposite, and any text in parentheses that starts with a digit the
    opposite of what it gives without them.  Empty input (the empty text,
    undefined, null) and text that [parseFloat] cannot read give 0.  The
    four sample amounts of the spec come out as stated; the result is an
    infinity when the amount is beyond the range of the numbers. *)
Theorem normalizeMoney_total :
  (forall v, isNaN (normalizeMoney v) = false)
  /\ (forall n, normalizeMoney (VNum n) = if Num.truthy n then n else zero)
  /\ (forall t, normalizeMoney (VStr t)
                = (let n := Num.parseFloat
                              (unparen
                                 (filter (fun c => negb (Ascii.eqb c "$"
                                                         || Ascii.eqb c COMMA
                                                         || isWhite c)) t)) in
                   if isNaN n then zero else n))
  /\ (forall t, normalizeMoney (VStr t)
                = normalizeMoney
                    (VStr (filter (fun c => negb (Ascii.eqb c "$"
                                                  || Ascii.eqb c COMMA
                                                  || isWhite c)) t)))
  /\ (forall t i f,
        nonEmpty i = true -> allDigits i = true -> allDigits f = true ->
        filter keep t = plainAmount i f ->
        normalizeMoney (VStr t) = b64 (amount i f))
  /\ (forall t i f,
        nonEmpty i = true -> allDigits i = true -> allDigits f = true ->
        filter keep t = String "(" (plainAmount i f ++ ")") ->
        normalizeMoney (VStr t) = neg (b64 (amount i f)))
  /\ (forall t, normalizeMoney (VStr (String "(" (t ++ ")")))
                = normalizeMoney (VStr (String "-" t)))
  /\ (forall t, startsWithDigit
                  (filter (fun c => negb (moneyNoise c)) t) = true ->
                normalizeMoney (VStr (String "(" (t ++ ")")))
                = neg (normalizeMoney (VStr t)))
  /\ (forall v, Val.truthy v = false -> normalizeMoney v = zero)
  /\ (forall t, Num.parseFloat (moneyText t) = NaN ->
                normalizeMoney (VStr t) = zero)
  /\ normalizeMoney (VStr "$1,234.56") = b64 1234.56
  /\ normalizeMoney (VStr "(500)") = Fin (-500)
  /\ normalizeMoney (VStr EmptyString) = Fin 0
  /\ normalizeMoney (VStr "abc") = Fin 0
  /\ normalizeMoney (VStr "1e400") = Inf false.
Proof.
  split; [exact normalizeMoney_not_NaN|].
  split.
  { intros n. unfold normalizeMoney. cbn [Val.truthy].
    now destruct (Num.truthy n). }
  split; [exact normalizeMoney_reads|].
  split; [exact normalizeMoney_strip|].
  split; [exact normalizeMoney_amount|].
  split; [exact normalizeMoney_paren_amount|].
  split.
  { intros t. unfold normalizeMoney. cbn [Val.truthy nonEmpty negb].
    now rewrite moneyText_paren. }
  split; [exact normalizeMoney_paren_neg|].
  split.
  { intros v H. unfold normalizeMoney. now rewrite H. }
  split.
  { intros t H. unfold normalizeMoney. rewrite H.
    now destruct (negb (Val.truthy (VStr t))). }
  repeat split; vm_compute; reflexivity.
Qed.

(** The conditional parts at concrete inputs: [$ 1,080.25] with a no-break
    space after the dollar sign, the amount [$ 12.50] in parentheses, the
    amount [80] in parentheses, null, and the text [n/a]. *)
Lemma normalizeMoney_total_witness :
  normalizeMoney (VStr nbspAmount) = b64 1080.25
  /\ normalizeMoney (VStr "($ 12.50)") = neg (b64 12.50)
  /\ normalizeMoney (VStr "(80)") = neg (normalizeMoney (VStr "80"))
  /\ normalizeMoney VNull = zero
  /\ normalizeMoney (VStr "n/a") = zero.
Proof.
  split; [|split; [|split; [|split]]].
  - rewrite (proj1 (proj2 (proj2 (proj2 (proj2 normalizeMoney_total))))
               nbspAmount "1080" "25"); reflexivity.
  - rewrite (proj1 (proj2 (proj2 (proj2 (proj2 (proj2 normalizeMoney_total)))))
               "($ 12.50)" "12" "50"); reflexivity.
  - apply (proj1 (proj2 (proj2 (proj2 (proj2 (proj2 (proj2 (proj2
             normalizeMoney_total))))))) "80").
    reflexivity.
  - apply (proj1 (proj2 (proj2 (proj2 (proj2 (proj2 (proj2 (proj2 (proj2
             normalizeMoney_total))))))))).
    reflexivity.
  - apply (proj1 (proj2 (proj2 (proj2 (proj2 (proj2 (proj2 (proj2 (proj2 (proj2
             normalizeMoney_total)))))))))).
    reflexivity.
Defined.

End MoneyFacts.

(* ------------------------------------------------------------------ *)
(** ** Facts about [JsMap] *)

Module JsMapFacts.
Import JsMap.

Section WithValue.
Context {V : Type}.
Implicit Types (m : JsMap.t V) (k : string) (v : V).

Lemma get_set_same m k v : get (set k v m) k = Some v.
Proof.
  induction m as [|[k' v'] m IH]; simpl.
  - now rewrite String.eqb_refl.
  - destruct (String.eqb k' k) eqn:E; simpl; rewrite E; [reflexivity|exact IH].
Qed.

Lemma get_set_other m k k' v :
  String.eqb k k' = false -> get (set k v m) k' = get m k'.
Proof.
  intros N. induction m as [|[k0 v0] m IH]; simpl.
  - now rewrite N.
  - destruct (String.eqb k0 k) eqn:E; simpl.
    + apply String.eqb_eq in E. subst k0. now rewrite N.
    + now rewrite IH.
Qed.

Lemma get_set m k k' v :
  get (set k v m) k' = if String.eqb k k' then Some v else get m k'.
Proof.
  destruct (String.eqb k k') eqn:E.
  - apply String.eqb_eq in E. subst. apply get_set_same.
  - now apply get_set_other.
Qed.

Lemma get_In m k v : get m k = Some v -> In (k, v) m.
Proof.
  induction m as [|[k' v'] m IH]; simpl; [discriminate|].
  destruct (String.eqb k' k) eqn:E.
  - apply String.eqb_eq in E. intros [= ->]. subst. now left.
  - intros H. right. now apply IH.
Qed.

Lemma In_set m k v k' v' :
  In (k', v') (set k v m) -> (k' = k /\ v' = v) \/ In (k', v') m.
Proof.
  induction m as [|[k0 v0] m IH]; simpl.
  - intros [[= <- <-]|[]]. now left.
  - destruct (String.eqb k0 k) eqn:E; simpl.
    + apply String.eqb_eq in E. subst k0.
      intros [[= <- <-]|H]; [now left|right; now right].
    + intros [H|H]; [right; now left|].
      destruct (IH H) as [H'|H']; [now left|right; now right].
Qed.

Lemma has_get m k : has m k = true <-> exists v, get m k = Some v.
Proof.
  unfold has. destruct (get m k) as [v|].
  - split; [now exists v|reflexivity].
  - split; [discriminate|intros [v [=]]].
Qed.

Lemma has_false m k : has m k = false <-> get m k = None.
Proof. unfold has. destruct (get m k); split; congruence. Qed.

Lemma In_values m v : In v (values m) -> exists k, In (k, v) m.
Proof.
  unfold values. intros H. apply in_map_iff in H as [[k v'] [E H]].
  simpl in E. subst. now exists k.
Qed.

Lemma values_In m k v : In (k, v) m -> In v (values m).
Proof. intros H. unfold values. apply in_map_iff. now exists (k, v). Qed.

Lemma keys_set m k v :
  keys (set k v m) = if has m k then keys m else keys m ++ [k].
Proof.
  unfold has. induction m as [|[k' v'] m IH]; simpl; [reflexivity|].
  destruct (String.eqb k' k) eqn:E; simpl; [reflexivity|].
  rewrite IH. now destruct (get m k).
Qed.

Lemma get_None_keys m k : get m k = None -> ~ In k (keys m).
Proof.
  induction m as [|[k' v'] m IH]; simpl; [tauto|].
  destruct (String.eqb k' k) eqn:E; [discriminate|].
  intros H [->|HI]; [now rewrite String.eqb_refl in E|now apply IH].
Qed.

Lemma NoDup_keys_set m k v : NoDup (keys m) -> NoDup (keys (set k v m)).
Proof.
  intros N. rewrite keys_set. destruct (has m k) eqn:H; [exact N|].
  apply has_false in H. apply get_None_keys in H.
  apply NoDup_app; [exact N|repeat constructor; tauto|].
  intros x Hx [<-|[]]. tauto.
Qed.

Lemma NoDup_In_get m k v : NoDup (keys m) -> In (k, v) m -> get m k = Some v.
Proof.
  induction m as [|[k' v'] m IH]; simpl; [tauto|].
  intros N [[= -> ->]|H].
  - now rewrite String.eqb_refl.
  - inversion N as [|? ? Hn N']; subst.
    destruct (String.eqb k' k) eqn:E; [|now apply IH].
    apply String.eqb_eq in E. subst k'. exfalso. apply Hn.
    unfold keys. apply in_map_iff. now exists (k, v).
Qed.

End WithValue.

End JsMapFacts.

(* ------------------------------------------------------------------ *)
(** ** The patient aggregator *)

Module PatientFacts.
Import Str Num JsDate Parser Analytics JsMap JsMapFacts Spec Samples.

Section WithHost.
Variable host : Host.t.

Lemma firstClaimOf_snoc_found pid done c x :
  firstClaimOf pid done = Some x -> firstClaimOf pid (done ++ [c]) = Some x.
Proof.
  unfold firstClaimOf. induction done as [|d done IH]; simpl; [discriminate|].
  destruct (String.eqb (patientId d) pid); [trivial|exact IH].
Qed.

Lemma firstClaimOf_snoc_new pid done c :
  firstClaimOf pid done = None ->
  firstClaimOf pid (done ++ [c])
  = if String.eqb (patientId c) pid then Some c else None.
Proof.
  unfold firstClaimOf. induction done as [|d done IH]; simpl; [trivial|].
  destruct (String.eqb (patientId d) pid); [discriminate|exact IH].
Qed.

Lemma tracks_step m done c :
  tracks m done -> tracks (recordPatient host m c) (done ++ [c]).
Proof.
  intros [Hin Hnone]. unfold recordPatient.
  destruct (has m (patientId c)) eqn:Hhas.
  - (* the patient already has a record: only revenue and last visit move *)
    apply has_get in Hhas as [p Hp]. rewrite Hp.
    destruct (Hin _ _ (get_In _ _ _ Hp)) as [Hid [x [Hx Hpay]]].
    split.
    + intros k q Hq. apply In_set in Hq as [[-> ->]|Hq]; simpl.
      * split; [exact Hid|]. exists x. split; [|exact Hpay].
        now apply firstClaimOf_snoc_found.
      * destruct (Hin _ _ Hq) as [Hk [y [Hy Hpy]]].
        split; [exact Hk|]. exists y. split; [|exact Hpy].
        now apply firstClaimOf_snoc_found.
    + intros k Hk. rewrite get_set in Hk.
      destruct (String.eqb (patientId c) k) eqn:E; [discriminate|].
      rewrite firstClaimOf_snoc_new by now apply Hnone.
      now rewrite E.
  - (* the first claim of this patient creates the record *)
    apply has_false in Hhas. rewrite get_set_same.
    cbn [sPatientName sPatientId totalVisits totalRevenue lastVisit sPayer].
    split.
    + intros k q Hq. apply In_set in Hq as [[-> ->]|Hq]; simpl.
      * split; [reflexivity|]. exists c. split; [|reflexivity].
        rewrite firstClaimOf_snoc_new by now apply Hnone.
        now rewrite String.eqb_refl.
      * apply In_set in Hq as [[-> ->]|Hq]; simpl.
        -- split; [reflexivity|]. exists c. split; [|reflexivity].
           rewrite firstClaimOf_snoc_new by now apply Hnone.
           now rewrite String.eqb_refl.
        -- destruct (Hin _ _ Hq) as [Hk [y [Hy Hpy]]].
           split; [exact Hk|]. exists y. split; [|exact Hpy].
           now apply firstClaimOf_snoc_found.
    + intros k Hk. rewrite !get_set in Hk.
      destruct (String.eqb (patientId c) k) eqn:E; [discriminate|].
      rewrite firstClaimOf_snoc_new by now apply Hnone.
      now rewrite E.
Qed.

Lemma tracks_fold claims :
  forall m done, tracks m done ->
    tracks (fold_left (recordPatient host) claims m) (done ++ claims).
Proof.
  induction claims as [|c claims IH]; intros m done H; simpl.
  - now rewrite app_nil_r.
  - replace (done ++ c :: claims) with ((done ++ [c]) ++ claims)
      by now rewrite <- app_assoc.
    apply IH. now apply tracks_step.
Qed.

Lemma tracks_all claims :
  tracks (fold_left (recordPatient host) claims JsMap.empty) claims.
Proof.
  apply (tracks_fold claims JsMap.empty []).
  split; [intros k p []|reflexivity].
Qed.

(** C9 (as amended): every stat record returned by [analyzePatients]
    carries the payer of the first claim of the input that belongs to its
    patient, and every patient with a claim has such a record. *)
Theorem analyzePatients_payer_first (claims : list Claim) :
  (forall p, In p (analyzePatients host claims) ->
     exists c, firstClaimOf (sPatientId p) claims = Some c
               /\ sPayer p = payer c)
  /\ (forall c, In c claims ->
        exists p, In p (analyzePatients host claims)
                  /\ sPatientId p = patientId c).
Proof.
  destruct (tracks_all claims) as [Hin Hnone]. split.
  - intros p Hp. unfold analyzePatients in Hp.
    apply in_map_iff in Hp as [q [<- Hq]]. cbn [sPatientId sPayer].
    apply In_values in Hq as [k Hq].
    destruct (Hin _ _ Hq) as [-> H]. exact H.
  - intros c Hc.
    destruct (get (fold_left (recordPatient host) claims JsMap.empty)
                  (patientId c)) as [q|] eqn:G.
    + destruct (Hin _ _ (get_In _ _ _ G)) as [Hid _].
      eexists. split.
      * unfold analyzePatients. apply in_map_iff. exists q. split; [reflexivity|].
        eapply values_In. eapply get_In. exact G.
      * exact Hid.
    + apply Hnone in G. unfold firstClaimOf in G.
      exfalso. eapply find_none in G; [|exact Hc].
      simpl in G. now rewrite String.eqb_refl in G.
Qed.

End WithHost.

Lemma analyzePatients_payer_first_witness :
  In (mkPatient "Pat" "P1" 1 (Fin (0 + 80 + 80)) None "Aetna")
     (analyzePatients SampleHost.utc twoPayers)
  /\ exists c, firstClaimOf "P1" twoPayers = Some c /\ "Aetna" = payer c.
Proof.
  split; [now left|].
  apply (proj1 (analyzePatients_payer_first SampleHost.utc twoPayers)
               (mkPatient "Pat" "P1" 1 (Fin (0 + 80 + 80)) None "Aetna")).
  now left.
Defined.

(** The claim as first stated: the record of [P1] carries Aetna, while the
    last claim processed for [P1] was paid by Cigna. *)
Lemma analyzePatients_payer_counterexample :
  List.map sPayer (analyzePatients SampleHost.utc twoPayers) = ["Aetna"]
  /\ List.map payer (List.filter (fun c => String.eqb (patientId c) "P1")
                                 twoPayers)
     = ["Aetna"; "Cigna"]
  /\ "Aetna" <> "Cigna".
Proof. repeat split. discriminate. Qed.

End PatientFacts.

(* ------------------------------------------------------------------ *)
(** ** The denial aggregator *)

Module DenialFacts.
Import Num Parser Analytics JsMap JsMapFacts Spec Samples.

Lemma sumOf_snoc (l : list number) (x : number) : sumOf (l ++ [x]) = add (sumOf l) x.
Proof. unfold sumOf. now rewrite fold_left_app. Qed.

Lemma ofPayer_snoc (p : string) (l : list Claim) (c : Claim) :
  ofPayer p (l ++ [c])
  = ofPayer p l ++ (if String.eqb (payer c) p then [c] else []).
Proof. unfold ofPayer. rewrite filter_app. reflexivity. Qed.

Lemma denialOf_snoc rates k l c :
  denialOf rates k (l ++ [c])
  = mkDenial k (add (sumOf (List.map units l)) (units c))
               (add (sumOf (List.map charge l)) (charge c))
               (match lookupRate rates (payer c) (cpt c) with
                | Some r =>
                    add (sumOf (List.map (projected rates)
                                       (List.filter (hasRate rates) l)))
                        (mul (units c) (expectedRate r))
                | None =>
                    sumOf (List.map (projected rates)
                                  (List.filter (hasRate rates) l))
                end).
Proof.
  unfold denialOf. rewrite !map_app. cbn [List.map].
  rewrite !sumOf_snoc, filter_app.
  cbn [List.filter]. unfold hasRate at 2.
  destruct (lookupRate rates (payer c) (cpt c)) as [r|] eqn:E.
  - rewrite map_app. cbn [List.map]. rewrite sumOf_snoc.
    unfold projected at 2. now rewrite E.
  - now rewrite app_nil_r.
Qed.

Lemma settled_step rates m done c :
  settled rates m done ->
  settled rates (recordDenial rates m c) (done ++ [c]).
Proof.
  intros [N G]. unfold recordDenial.
  set (m1 := if has m (payer c) then m
             else set (payer c) (mkDenial (payer c) zero zero zero) m).
  assert (N1 : NoDup (keys m1)).
  { unfold m1. destruct (has m (payer c)); [exact N|now apply NoDup_keys_set]. }
  split; [now apply NoDup_keys_set|].
  intros k. rewrite get_set. unfold statOf. rewrite ofPayer_snoc.
  destruct (String.eqb (payer c) k) eqn:E.
  - apply String.eqb_eq in E. subst k.
    assert (S : match get m1 (payer c) with
                | Some x => x
                | None => mkDenial (payer c) zero zero zero
                end
                = denialOf rates (payer c) (ofPayer (payer c) done)).
    { unfold m1. destruct (has m (payer c)) eqn:H.
      - apply has_get in H as [x Hx]. rewrite Hx.
        rewrite G in Hx. unfold statOf in Hx.
        destruct (ofPayer (payer c) done); [discriminate|]. now injection Hx.
      - rewrite get_set_same. apply has_false in H.
        rewrite G in H. unfold statOf in H.
        destruct (ofPayer (payer c) done); [reflexivity|discriminate]. }
    rewrite S. rewrite denialOf_snoc.
    cbn [dPayer deniedUnits deniedValue projectedValue denialOf].
    destruct (ofPayer (payer c) done ++ [c]) eqn:A.
    + now apply app_eq_nil in A as [_ [=]].
    + reflexivity.
  - rewrite app_nil_r.
    assert (G1 : get m1 k = get m k).
    { unfold m1. destruct (has m (payer c)); [reflexivity|].
      now apply get_set_other. }
    rewrite G1. apply G.
Qed.

Lemma settled_fold rates l :
  forall m done, settled rates m done ->
    settled rates (fold_left (recordDenial rates) l m) (done ++ l).
Proof.
  induction l as [|c l IH]; intros m done H; simpl.
  - now rewrite app_nil_r.
  - replace (done ++ c :: l) with ((done ++ [c]) ++ l)
      by now rewrite <- app_assoc.
    apply IH. now apply settled_step.
Qed.

Lemma settled_all rates l :
  settled rates (fold_left (recordDenial rates) l JsMap.empty) l.
Proof.
  apply (settled_fold rates l JsMap.empty []).
  split; [constructor|reflexivity].
Qed.

(** C3: the records of [calculateDenialOpportunity] are exactly, for each
    payer with an unpaid claim, the record with the sum of the units and of
    the billed charges of that payer's unpaid claims and, as projected
    value, the sum of units times expected rate over those of them whose
    payer and code have an entry in the rate table; the claims without an
    entry are not in that sum, and when none has an entry the projected
    value is 0. *)
Theorem denial_totals (claims : list Claim) (rates : RateTable) :
  (forall s, In s (calculateDenialOpportunity claims rates) <->
     exists p, ofPayer p (unpaid claims) <> []
               /\ s = denialOf rates p (ofPayer p (unpaid claims)))
  /\ (forall s, In s (calculateDenialOpportunity claims rates) ->
        (forall c, In c (ofPayer (dPayer s) (unpaid claims)) ->
                   lookupRate rates (payer c) (cpt c) = None) ->
        projectedValue s = zero).
Proof.
  destruct (settled_all rates (unpaid claims)) as [N G].
  assert (A : forall s, In s (calculateDenialOpportunity claims rates) <->
     exists p, ofPayer p (unpaid claims) <> []
               /\ s = denialOf rates p (ofPayer p (unpaid claims))).
  { intros s. unfold calculateDenialOpportunity. fold (unpaid claims). split.
    - intros H. apply In_values in H as [k H].
      apply (NoDup_In_get _ _ _ N) in H. rewrite G in H. unfold statOf in H.
      exists k. destruct (ofPayer k (unpaid claims)) eqn:E; [discriminate|].
      split; [discriminate|]. now injection H.
    - intros [p [Hne ->]].
      apply values_In with (k := p). apply get_In. rewrite G. unfold statOf.
      destruct (ofPayer p (unpaid claims)); [contradiction|reflexivity]. }
  split; [exact A|].
  intros s Hs Hnone. apply A in Hs as [p [_ ->]].
  cbn [dPayer projectedValue denialOf] in *.
  replace (List.filter (hasRate rates) (ofPayer p (unpaid claims))) with
    (@nil Claim); [reflexivity|].
  symmetry. induction (ofPayer p (unpaid claims)) as [|c l IH]; [reflexivity|].
  cbn [List.filter]. unfold hasRate at 1.
  rewrite (Hnone c (or_introl eq_refl)).
  apply IH. intros c' Hc'. apply Hnone. now right.
Qed.

Lemma denial_totals_witness :
  In (mkDenial "Aetna" (Fin (0 + 2 + 3)) (Fin (0 + 100 + 100))
               (Fin (0 + 2 * 40)))
     (calculateDenialOpportunity denialSample rateSample)
  /\ projectedValue
       (denialOf [] "Aetna" (ofPayer "Aetna" (unpaid denialSample))) = zero.
Proof.
  split.
  - apply (proj1 (denial_totals denialSample rateSample)).
    exists "Aetna". split; [discriminate|reflexivity].
  - apply (proj2 (denial_totals denialSample [])).
    + now left.
    + intros c _. reflexivity.
Defined.

End DenialFacts.

(* ------------------------------------------------------------------ *)
(** ** The rate table: which claims feed which entry *)

Module HistoryFacts.
Import Num Parser Analytics JsMap JsMapFacts Spec Samples.

Lemma group_snoc p c l x :
  group p c (l ++ [x])
  = group p c l
    ++ (if String.eqb (payer x) p && String.eqb (cpt x) c then [x] else []).
Proof. unfold group. now rewrite filter_app. Qed.

Lemma ratesOf_snoc_other p c l x :
  String.eqb (payer x) p && String.eqb (cpt x) c = false ->
  ratesOf p c (l ++ [x]) = ratesOf p c l.
Proof.
  intros H. unfold ratesOf. rewrite group_snoc, H. now rewrite app_nil_r.
Qed.

Lemma ratesOf_snoc_same l x :
  ratesOf (payer x) (cpt x) (l ++ [x])
  = Some (List.map roundedRate (group (payer x) (cpt x) l) ++ [roundedRate x]).
Proof.
  unfold ratesOf. rewrite group_snoc, !String.eqb_refl. cbn [andb].
  rewrite <- (map_app roundedRate _ [x]).
  destruct (group (payer x) (cpt x) l ++ [x]) eqn:E; [|reflexivity].
  now apply app_eq_nil in E as [_ [=]].
Qed.

Lemma ratesOf_value p c l :
  match ratesOf p c l with Some r => r | None => [] end
  = List.map roundedRate (group p c l).
Proof. unfold ratesOf. now destruct (group p c l). Qed.

Lemma recorded_step ph done x :
  recorded ph done -> recorded (recordRate ph x) (done ++ [x]).
Proof.
  intros [N G]. unfold recordRate.
  set (ph1 := if has ph (payer x) then ph else set (payer x) empty ph).
  set (pm := match get ph1 (payer x) with Some m => m | None => empty end).
  set (pm1 := if has pm (cpt x) then pm else set (cpt x) [] pm).
  assert (N1 : NoDup (keys ph1)).
  { unfold ph1. destruct (has ph (payer x)); [exact N|now apply NoDup_keys_set]. }
  assert (Hpm : NoDup (keys pm)
                /\ forall c, get pm c = ratesOf (payer x) c done).
  { unfold pm, ph1. specialize (G (payer x)).
    destruct (has ph (payer x)) eqn:H.
    - apply has_get in H as [m Hm]. rewrite Hm in G |- *. exact G.
    - rewrite get_set_same. apply has_false in H. rewrite H in G.
      split; [constructor|]. intros c. unfold ratesOf. now rewrite G. }
  destruct Hpm as [Npm Gpm].
  assert (N2 : NoDup (keys pm1)).
  { unfold pm1. destruct (has pm (cpt x)); [exact Npm|now apply NoDup_keys_set]. }
  assert (R : match get pm1 (cpt x) with Some l => l | None => [] end
              = List.map roundedRate (group (payer x) (cpt x) done)).
  { rewrite <- ratesOf_value. unfold pm1.
    destruct (has pm (cpt x)) eqn:H.
    - now rewrite Gpm.
    - rewrite get_set_same. apply has_false in H. rewrite Gpm in H.
      now rewrite H. }
  rewrite R.
  split; [now apply NoDup_keys_set|].
  intros p. rewrite get_set.
  destruct (String.eqb (payer x) p) eqn:E.
  - apply String.eqb_eq in E. subst p.
    split; [now apply NoDup_keys_set|].
    intros c. rewrite get_set.
    destruct (String.eqb (cpt x) c) eqn:E'.
    + apply String.eqb_eq in E'. subst c. now rewrite ratesOf_snoc_same.
    + rewrite ratesOf_snoc_other by now rewrite E', andb_false_r.
      rewrite <- Gpm. unfold pm1.
      destruct (has pm (cpt x)); [reflexivity|now apply get_set_other].
  - assert (G1 : get ph1 p = get ph p).
    { unfold ph1. destruct (has ph (payer x)); [reflexivity|].
      now apply get_set_other. }
    rewrite G1. specialize (G p). destruct (get ph p) as [m|].
    + destruct G as [Nm Gm]. split; [exact Nm|].
      intros c. rewrite ratesOf_snoc_other by now rewrite E. apply Gm.
    + intros c. rewrite group_snoc, E. cbn [andb]. rewrite app_nil_r. apply G.
Qed.

Lemma recorded_fold l :
  forall ph done, recorded ph done ->
    recorded (fold_left recordRate l ph) (done ++ l).
Proof.
  induction l as [|x l IH]; intros ph done H; simpl.
  - now rewrite app_nil_r.
  - replace (done ++ x :: l) with ((done ++ [x]) ++ l)
      by now rewrite <- app_assoc.
    apply IH. now apply recorded_step.
Qed.

Lemma recorded_all claims :
  recorded (pricingHistory claims) (List.filter qualifies claims).
Proof.
  apply (recorded_fold _ empty []). split; [constructor|].
  intros p. cbn. intros c. reflexivity.
Qed.

Lemma lookupHist_pricingHistory claims p c :
  lookupHist (pricingHistory claims) p c
  = ratesOf p c (List.filter qualifies claims).
Proof.
  destruct (recorded_all claims) as [_ G]. specialize (G p).
  unfold lookupHist. destruct (get (pricingHistory claims) p) as [m|].
  - apply G.
  - unfold ratesOf. now rewrite G.
Qed.

(** The second pass copies the history entry by entry. *)
Lemma fillPayer_other payer cptMap :
  forall res p', String.eqb payer p' = false ->
    get (fillPayer payer cptMap res) p' = get res p'.
Proof.
  unfold fillPayer.
  induction cptMap as [|[c r] cm IH]; intros res p' H; simpl; [reflexivity|].
  rewrite IH by exact H. now apply get_set_other.
Qed.

Lemma fillPayer_same payer cptMap :
  NoDup (keys cptMap) ->
  forall res inner0, get res payer = Some inner0 ->
    exists inner,
      get (fillPayer payer cptMap res) payer = Some inner
      /\ forall c, get inner c
                   = match get cptMap c with
                     | Some rates => Some (rateEntry payer c rates)
                     | None => get inner0 c
                     end.
Proof.
  unfold fillPayer.
  induction cptMap as [|[c1 r1] cm IH]; intros N res inner0 H; simpl.
  - now exists inner0.
  - inversion N as [|? ? Hn N']; subst. rewrite H.
    destruct (IH N' (set payer (set c1 (rateEntry payer c1 r1) inner0) res)
                 (set c1 (rateEntry payer c1 r1) inner0))
      as [inner [Hi Hg]]; [apply get_set_same|].
    exists inner. split; [exact Hi|].
    intros c. rewrite Hg, get_set.
    destruct (String.eqb c1 c) eqn:E; [|reflexivity].
    apply String.eqb_eq in E. subst c.
    destruct (get cm c1) eqn:G; [|reflexivity].
    exfalso. apply Hn. apply get_In in G.
    unfold keys. apply in_map_iff. now exists (c1, l).
Qed.

Lemma fillResults_fold l :
  NoDup (keys l) ->
  (forall p cm, In (p, cm) l -> NoDup (keys cm)) ->
  forall res, (forall p cm, In (p, cm) l -> get res p = None) ->
    forall p c,
      lookupRate
        (fold_left
           (fun res '(payer, cptMap) =>
              let res1 := if has res payer then res
                          else set payer empty res in
              fillPayer payer cptMap res1)
           l res) p c
      = match get l p with
        | Some _ => entryOf l p c
        | None => lookupRate res p c
        end.
Proof.
  induction l as [|[p1 cm1] l IH]; intros N Ninner res Hres p c; simpl;
    [reflexivity|].
  inversion N as [|? ? Hn N']; subst.
  assert (H1 : has res p1 = false).
  { apply has_false. apply (Hres p1 cm1). now left. }
  rewrite H1.
  destruct (fillPayer_same p1 cm1 (Ninner p1 cm1 (or_introl eq_refl))
              (set p1 empty res) empty (get_set_same _ _ _))
    as [inner [Hi Hg]].
  rewrite IH; [|exact N'|intros; eapply Ninner; right; eassumption|].
  - destruct (String.eqb p1 p) eqn:E.
    + apply String.eqb_eq in E. subst p.
      assert (G : get l p1 = None).
      { destruct (get l p1) eqn:G; [|reflexivity]. exfalso. apply Hn.
        apply get_In in G. unfold keys. apply in_map_iff. now exists (p1, t0). }
      rewrite G. unfold lookupRate. rewrite Hi, Hg.
      unfold entryOf, lookupHist. cbn [get]. rewrite String.eqb_refl.
      now destruct (get cm1 c).
    + assert (L : forall res', get res' p = get res p ->
                    lookupRate res' p c = lookupRate res p c).
      { intros res' H. unfold lookupRate. now rewrite H. }
      unfold entryOf, lookupHist. cbn [get]. rewrite E.
      destruct (get l p) eqn:G; [reflexivity|].
      apply L. rewrite fillPayer_other by exact E. now apply get_set_other.
  - intros p' cm' Hin.
    assert (E : String.eqb p1 p' = false).
    { apply String.eqb_neq. intros ->. apply Hn.
      unfold keys. apply in_map_iff. now exists (p', cm'). }
    rewrite fillPayer_other by exact E.
    rewrite get_set_other by exact E.
    apply (Hres p' cm'). now right.
Qed.

Lemma lookup_fillResults ph :
  NoDup (keys ph) ->
  (forall p cm, In (p, cm) ph -> NoDup (keys cm)) ->
  forall p c, lookupRate (fillResults ph) p c = entryOf ph p c.
Proof.
  intros N Ni p c. unfold fillResults.
  rewrite (fillResults_fold ph N Ni empty) by reflexivity.
  unfold entryOf, lookupHist. now destruct (get ph p).
Qed.

(** The entry of a payer and code is computed from the rounded rates of
    the qualifying claims of that payer and code, and from nothing else;
    without such a claim there is no entry. *)
Lemma lookup_rates claims p c :
  lookupRate (calculateReimbursementRates claims) p c
  = match groupRates p c claims with
    | [] => None
    | rates => Some (rateEntry p c rates)
    end.
Proof.
  unfold calculateReimbursementRates.
  destruct (recorded_all claims) as [N G].
  rewrite lookup_fillResults.
  - unfold entryOf. rewrite lookupHist_pricingHistory.
    unfold ratesOf, groupRates.
    now destruct (group p c (List.filter qualifies claims)).
  - exact N.
  - intros q cm H. specialize (G q).
    rewrite (NoDup_In_get _ _ _ N H) in G. apply G.
Qed.

End HistoryFacts.

(* ------------------------------------------------------------------ *)
(** ** The histogram of a group *)

Module HistogramFacts.
Import Num Analytics Spec Samples.

Lemma sameKey_refl a : sameKey a a = true.
Proof.
  destruct a as [|q|b]; simpl; [reflexivity| |apply Bool.eqb_reflx].
  apply Qeq_bool_iff. reflexivity.
Qed.

Lemma sameKey_sym a b : sameKey a b = sameKey b a.
Proof.
  destruct a as [|x|na], b as [|y|nb]; simpl; try reflexivity.
  - destruct (Qeq_bool x y) eqn:E, (Qeq_bool y x) eqn:E'; try reflexivity.
    + apply Qeq_bool_iff in E. symmetry in E. apply Qeq_bool_iff in E.
      congruence.
    + apply Qeq_bool_iff in E'. symmetry in E'. apply Qeq_bool_iff in E'.
      congruence.
  - now destruct na, nb.
Qed.

Lemma sameKey_trans a b c :
  sameKey a b = true -> sameKey b c = true -> sameKey a c = true.
Proof.
  destruct a as [|x|na], b as [|y|nb], c as [|z|nc]; simpl;
    try discriminate; try reflexivity.
  - rewrite !Qeq_bool_iff. intros H1 H2. now rewrite H1.
  - destruct na, nb, nc; simpl; congruence.
Qed.

Lemma sameKey_congr a b c :
  sameKey a b = true -> sameKey a c = sameKey b c.
Proof.
  intros H. destruct (sameKey b c) eqn:E.
  - now apply sameKey_trans with b.
  - destruct (sameKey a c) eqn:E'; [|reflexivity].
    rewrite sameKey_sym in H.
    now rewrite (sameKey_trans _ _ _ H E') in E.
Qed.

(** *** Filling the histogram *)

Lemma tally_split (rates : list number) :
  tally rates
  = (fold_left (fun f r => bump r f) rates [],
     fold_left (fun m r => if gt r m then r else m) rates zero).
Proof.
  unfold tally. generalize (@nil (number * nat)) zero.
  induction rates as [|r rates IH]; intros f m; simpl; [reflexivity|].
  apply IH.
Qed.

Lemma keys_bump r f : List.map fst (bump r f) = addKey (List.map fst f) r.
Proof.
  unfold addKey. induction f as [|[k n] f IH]; simpl; [reflexivity|].
  destruct (sameKey k r); simpl; [reflexivity|].
  rewrite IH. now destruct (List.existsb (fun k0 => sameKey k0 r) (List.map fst f)).
Qed.

Lemma keys_hist rates :
  forall f, List.map fst (fold_left (fun f r => bump r f) rates f)
            = fold_left addKey rates (List.map fst f).
Proof.
  induction rates as [|r rates IH]; intros f; simpl; [reflexivity|].
  now rewrite IH, keys_bump.
Qed.

Lemma freqOf_bump r f k :
  freqOf (bump r f) k
  = if sameKey r k then S (freqOf f k) else freqOf f k.
Proof.
  unfold freqOf. induction f as [|[k0 n] f IH]; simpl.
  - now destruct (sameKey r k).
  - destruct (sameKey k0 r) eqn:E; simpl.
    + rewrite (sameKey_congr _ _ k E).
      now destruct (sameKey r k).
    + destruct (sameKey k0 k) eqn:E'; [|exact IH].
      destruct (sameKey r k) eqn:E''; [|reflexivity].
      rewrite sameKey_sym in E''.
      now rewrite (sameKey_trans _ _ _ E' E'') in E.
Qed.

Lemma occ_cons r x rates :
  occ r (x :: rates) = if sameKey x r then S (occ r rates) else occ r rates.
Proof. unfold occ. simpl. now destruct (sameKey x r). Qed.

Lemma freqOf_hist rates k :
  forall f, freqOf (fold_left (fun f r => bump r f) rates f) k
            = (freqOf f k + occ k rates)%nat.
Proof.
  induction rates as [|r rates IH]; intros f; simpl.
  - unfold occ. simpl. lia.
  - rewrite IH, freqOf_bump, occ_cons. destruct (sameKey r k); lia.
Qed.

(** *** The keys are the distinct rates *)

Lemma distinctKeys_snoc ks r :
  distinctKeys ks -> (forall k, In k ks -> sameKey k r = false) ->
  distinctKeys (ks ++ [r]).
Proof.
  induction ks as [|k ks IH]; simpl; intros D H.
  - split; [intros ? []|exact I].
  - destruct D as [Dk D]. split.
    + intros k' Hk'. apply in_app_or in Hk' as [Hk'|[<-|[]]].
      * now apply Dk.
      * apply H. now left.
    + apply IH; [exact D|]. intros k0 Hk0. apply H. now right.
Qed.

Lemma existsb_sameKey_false ks r :
  List.existsb (fun k => sameKey k r) ks = false ->
  forall k, In k ks -> sameKey k r = false.
Proof.
  intros H k Hk. destruct (sameKey k r) eqn:E; [|reflexivity].
  assert (X : List.existsb (fun k => sameKey k r) ks = true).
  { apply existsb_exists. now exists k. }
  congruence.
Qed.

Lemma addKey_spec ks r :
  distinctKeys ks ->
  distinctKeys (addKey ks r)
  /\ (forall k, In k (addKey ks r) -> In k ks \/ k = r)
  /\ (forall k, In k ks -> In k (addKey ks r))
  /\ (exists k, In k (addKey ks r) /\ sameKey k r = true).
Proof.
  intros D. unfold addKey.
  destruct (List.existsb (fun k => sameKey k r) ks) eqn:E.
  - split; [exact D|]. split; [intros k Hk; now left|].
    split; [intros k Hk; exact Hk|].
    apply existsb_exists in E as [k [Hk Hs]]. now exists k.
  - split; [|split; [|split]].
    + apply distinctKeys_snoc; [exact D|now apply existsb_sameKey_false].
    + intros k Hk. apply in_app_or in Hk as [Hk|[<-|[]]]; [now left|now right].
    + intros k Hk. apply in_or_app. now left.
    + exists r. split; [apply in_or_app; right; now left|apply sameKey_refl].
Qed.

Lemma distinctValues_fold rates :
  forall ks, distinctKeys ks ->
    let ds := fold_left addKey rates ks in
    distinctKeys ds
    /\ (forall k, In k ds -> In k ks \/ In k rates)
    /\ (forall k, In k ks -> In k ds)
    /\ (forall r, In r rates -> exists k, In k ds /\ sameKey k r = true).
Proof.
  induction rates as [|r rates IH]; intros ks D; simpl.
  - split; [exact D|]. split; [intros k Hk; now left|].
    split; [intros k Hk; exact Hk|intros ? []].
  - destruct (addKey_spec ks r D) as [D1 [I1 [I2 [k0 [Hk0 Sk0]]]]].
    destruct (IH _ D1) as [D2 [J1 [J2 J3]]]. split; [|split; [|split]].
    + exact D2.
    + intros k Hk. destruct (J1 k Hk) as [H|H].
      * destruct (I1 k H) as [H'| ->]; [now left|right; now left].
      * right. now right.
    + intros k Hk. apply J2. now apply I2.
    + intros x [<-|Hx]; [|now apply J3].
      exists k0. split; [now apply J2|exact Sk0].
Qed.

Lemma distinctValues_spec rates :
  distinctKeys (distinctValues rates)
  /\ (forall k, In k (distinctValues rates) -> In k rates)
  /\ (forall r, In r rates ->
        exists k, In k (distinctValues rates) /\ sameKey k r = true).
Proof.
  destruct (distinctValues_fold rates [] I) as [D [J1 [_ J3]]].
  split; [exact D|]. split; [|exact J3].
  intros k Hk. destruct (J1 k Hk) as [[]|H]. exact H.
Qed.

Lemma find_distinct f k n :
  distinctKeys (List.map fst f) -> In (k, n) f -> freqOf f k = n.
Proof.
  unfold freqOf. induction f as [|[k0 n0] f IH]; simpl; [tauto|].
  intros [Dk D] [[= -> ->]|H].
  - now rewrite sameKey_refl.
  - rewrite (Dk k); [now apply IH|].
    apply in_map_iff. now exists (k, n).
Qed.

(** The histogram of [rates]: its keys are the distinct rates and each
    count is the number of occurrences of the key. *)
Lemma hist_spec rates :
  let f := fst (tally rates) in
  List.map fst f = distinctValues rates
  /\ (forall k n, In (k, n) f -> In k rates /\ n = occ k rates)
  /\ (forall r, In r rates ->
        exists k, In (k, occ r rates) f /\ sameKey k r = true).
Proof.
  rewrite tally_split. cbn [fst].
  set (f := fold_left (fun f r => bump r f) rates []).
  assert (K : List.map fst f = distinctValues rates).
  { unfold f. now rewrite keys_hist. }
  destruct (distinctValues_spec rates) as [D [J1 J3]].
  assert (F : forall k n, In (k, n) f -> n = occ k rates).
  { intros k n H. rewrite <- (find_distinct f k n); [|now rewrite K|exact H].
    unfold f. now rewrite freqOf_hist. }
  split; [exact K|]. split.
  - intros k n H. split; [|now apply F].
    apply J1. rewrite <- K. apply in_map_iff. now exists (k, n).
  - intros r Hr. destruct (J3 r Hr) as [k [Hk Sk]].
    rewrite <- K in Hk. apply in_map_iff in Hk as [[k' n] [E Hin]].
    simpl in E. subst k'. exists k. split; [|exact Sk].
    rewrite (F k n Hin) in Hin.
    replace (occ r rates) with (occ k rates); [exact Hin|].
    unfold occ. f_equal. apply filter_ext. intros x.
    rewrite (sameKey_sym x k), (sameKey_sym x r). now apply sameKey_congr.
Qed.

End HistogramFacts.

(* ------------------------------------------------------------------ *)
(** ** The mode and the maximum of a histogram *)

Module SelectionFacts.
Import Num Analytics HistogramFacts Spec Samples Tactics.

Lemma leb_refl a : isNumber a -> leb a a = true.
Proof.
  number_cases. intros _. apply Qle_bool_iff. apply Qle_refl.
Qed.

Lemma leb_trans a b c :
  isNumber a -> isNumber b -> isNumber c ->
  leb a b = true -> leb b c = true -> leb a c = true.
Proof.
  number_cases. intros _ _ _. rewrite !Qle_bool_iff. apply Qle_trans.
Qed.

Lemma gt_leb a b : isNumber a -> isNumber b -> gt a b = negb (leb a b).
Proof. number_cases. Qed.

Lemma leb_total a b :
  isNumber a -> isNumber b -> leb a b = false -> leb b a = true.
Proof.
  number_cases. intros _ _ H.
  apply Qle_bool_iff. apply Qlt_le_weak. apply Qnot_le_lt.
  intros L. apply Qle_bool_iff in L. congruence.
Qed.

Lemma leb_sameKey a b c :
  isNumber a -> isNumber b -> isNumber c ->
  sameKey a b = true -> leb a c = true -> leb b c = true.
Proof.
  number_cases. intros _ _ _. rewrite Qeq_bool_iff, !Qle_bool_iff.
  intros E L. now rewrite <- E.
Qed.

Lemma noBetter_refl a : isNumber (fst a) -> noBetter a a.
Proof. intros F. right. split; [reflexivity|now apply leb_refl]. Qed.

Lemma noBetter_trans a b c :
  isNumber (fst a) -> isNumber (fst b) -> isNumber (fst c) ->
  noBetter a b -> noBetter b c -> noBetter a c.
Proof.
  intros Fa Fb Fc [H1|[E1 L1]] [H2|[E2 L2]].
  - left. lia.
  - left. lia.
  - left. lia.
  - right. split; [lia|]. now apply leb_trans with (fst b).
Qed.

Lemma modeStep_spec st e :
  isNumber (fst st) -> isNumber (fst e) ->
  (modeStep st e = st \/ modeStep st e = e)
  /\ noBetter st (modeStep st e) /\ noBetter e (modeStep st e).
Proof.
  destruct st as [m n], e as [k f]. cbn [fst]. intros Fm Fk.
  unfold modeStep.
  destruct (n <? f)%nat eqn:L.
  - apply Nat.ltb_lt in L. split; [now right|]. split.
    + left. exact L.
    + now apply noBetter_refl.
  - apply Nat.ltb_ge in L.
    destruct (f =? n)%nat eqn:E; cbn [andb].
    + apply Nat.eqb_eq in E. subst f. rewrite (gt_leb k m Fk Fm).
      destruct (leb k m) eqn:K; cbn [negb].
      * split; [now left|]. split; [now apply noBetter_refl|].
        right. now split.
      * split; [now right|]. split; [|now apply noBetter_refl].
        right. split; [reflexivity|]. now apply leb_total.
    + apply Nat.eqb_neq in E. split; [now left|].
      split; [now apply noBetter_refl|]. left. cbn [snd]. lia.
Qed.

Lemma modeFold_spec l :
  Forall (fun e => isNumber (fst e)) l ->
  forall st, isNumber (fst st) ->
    let res := fold_left modeStep l st in
    (res = st \/ In res l)
    /\ isNumber (fst res)
    /\ noBetter st res
    /\ (forall e, In e l -> noBetter e res).
Proof.
  induction l as [|e l IH]; intros Fl st Fst; simpl.
  - split; [now left|]. split; [exact Fst|].
    split; [now apply noBetter_refl|intros ? []].
  - inversion Fl as [|? ? Fe Fl']; subst.
    destruct (modeStep_spec st e Fst Fe) as [Hs [N1 N2]].
    assert (Fs : isNumber (fst (modeStep st e))) by now destruct Hs as [-> | ->].
    destruct (IH Fl' (modeStep st e) Fs) as [Hr [Fr [N3 N4]]].
    split; [|split; [exact Fr|split]].
    + destruct Hr as [Hr|Hr]; [|right; now right].
      rewrite Hr. destruct Hs as [-> | ->]; [now left|right; now left].
    + now apply noBetter_trans with (modeStep st e).
    + intros e' [<-|He'].
      * now apply noBetter_trans with (modeStep st e).
      * now apply N4.
Qed.

(** *** [Object.entries] lists every property once, in some order *)

Lemma In_insertByIndex i e l x :
  In x (insertByIndex i e l) <-> x = (i, e) \/ In x l.
Proof.
  induction l as [|[j e'] l IH]; simpl.
  - split; intros [H|H]; auto.
  - destruct (i <=? j)%Z; simpl.
    + split; intros [H|H]; auto.
    + rewrite IH. tauto.
Qed.

Lemma In_indexEntries f i e :
  In (i, e) (indexEntries f) <-> In e f /\ indexKey (fst e) = Some i.
Proof.
  induction f as [|e0 f IH]; simpl.
  - tauto.
  - destruct (indexKey (fst e0)) as [j|] eqn:K.
    + rewrite In_insertByIndex, IH. split.
      * intros [[= -> ->]|[H1 H2]]; [split; [now left|exact K]|].
        split; [now right|exact H2].
      * intros [[->|H1] H2].
        -- left. congruence.
        -- right. now split.
    + rewrite IH. split.
      * intros [H1 H2]. split; [now right|exact H2].
      * intros [[->|H1] H2]; [congruence|now split].
Qed.

Lemma In_entries f e : In e (entries f) <-> In e f.
Proof.
  unfold entries. rewrite in_app_iff, in_map_iff, filter_In. split.
  - intros [[[i e'] [E H]]|[H _]]; [|exact H].
    simpl in E. subst e'. now apply In_indexEntries in H as [H _].
  - intros H. unfold isIndexKey.
    destruct (indexKey (fst e)) as [i|] eqn:K.
    + left. exists (i, e). split; [reflexivity|]. now apply In_indexEntries.
    + right. now split.
Qed.

(** The result of the mode loop on a histogram with an entry: an entry of
    the histogram that no entry beats. *)
Lemma modeOf_spec f :
  f <> [] ->
  Forall (fun e => isNumber (fst e) /\ (1 <= snd e)%nat) f ->
  In (modeOf f) f /\ forall e, In e f -> noBetter e (modeOf f).
Proof.
  intros Hne Hf. unfold modeOf.
  assert (Fl : Forall (fun e => isNumber (fst e)) (entries f)).
  { apply Forall_forall. intros e He. apply (proj1 (In_entries f e)) in He.
    rewrite Forall_forall in Hf. exact (proj1 (Hf e He)). }
  destruct (modeFold_spec (entries f) Fl (zero, O) eq_refl)
    as [Hr [_ [_ Hall]]].
  assert (A : forall e, In e f -> noBetter e (fold_left modeStep (entries f) (zero, O))).
  { intros e He. apply Hall. exact (proj2 (In_entries f e) He). }
  split; [|exact A].
  destruct Hr as [Hr|Hr]; [|exact (proj1 (In_entries f _) Hr)].
  exfalso. destruct f as [|e0 f]; [now apply Hne|].
  specialize (A e0 (or_introl eq_refl)). rewrite Hr in A.
  inversion Hf as [|? ? [_ H1] _]; subst.
  destruct A as [A|[A _]]; cbn [snd] in A; lia.
Qed.

(** The running maximum of the rates, started at 0. *)
Lemma maxFold_spec rates :
  Forall isNumber rates ->
  forall m, isNumber m ->
    let M := fold_left (fun m r => if gt r m then r else m) rates m in
    (M = m \/ In M rates) /\ isNumber M /\ leb m M = true
    /\ (forall r, In r rates -> leb r M = true).
Proof.
  induction rates as [|r rates IH]; intros Fl m Fm; simpl.
  - split; [now left|]. split; [exact Fm|].
    split; [now apply leb_refl|intros ? []].
  - inversion Fl as [|? ? Fr Fl']; subst.
    rewrite (gt_leb r m Fr Fm).
    destruct (leb r m) eqn:L; cbn [negb].
    + destruct (IH Fl' m Fm) as [H1 [H2 [H3 H4]]].
      split; [|split; [exact H2|split; [exact H3|]]].
      * destruct H1; [now left|right; now right].
      * intros x [<-|Hx]; [|now apply H4].
        now apply leb_trans with m.
    + destruct (IH Fl' r Fr) as [H1 [H2 [H3 H4]]].
      split; [|split; [exact H2|split]].
      * right. destruct H1 as [->|H1]; [now left|now right].
      * apply leb_trans with r; try assumption. now apply leb_total.
      * intros x [<-|Hx]; [exact H3|now apply H4].
Qed.

End SelectionFacts.

(* ------------------------------------------------------------------ *)
(** ** The rate table *)

Module RateFacts.
Import Num Parser Analytics HistoryFacts HistogramFacts SelectionFacts Spec
  Samples Tactics NumFacts.

Lemma gt_zero_nonneg (n : number) : gt n zero = true -> leb zero n = true.
Proof.
  destruct n as [|q|[]]; cbn [gt leb zero negb]; try discriminate;
    [|reflexivity].
  intros H. apply negb_true_iff in H. apply Qle_bool_iff.
  destruct (Qlt_le_dec 0 q) as [L|L]; [now apply Qlt_le_weak|].
  apply Qle_bool_iff in L. congruence.
Qed.

Lemma nonneg_number (n : number) : leb zero n = true -> isNumber n.
Proof. destruct n; [discriminate|reflexivity|reflexivity]. Qed.

(** Rounding to two decimals keeps what is not negative so. *)
Lemma round2_nonneg (x : number) :
  leb zero x = true -> leb zero (round2 x) = true.
Proof.
  intros H. unfold round2.
  apply div_nonneg_by; [reflexivity|exact b64_hundred|].
  apply round_nonneg.
  apply mul_nonneg_by; [reflexivity|exact b64_hundred|exact H].
Qed.

(** The rate of a qualifying claim whose unit price is a number is a
    number too, and is not negative. *)
Lemma roundedRate_number (c : Claim) :
  qualifies c = true -> isNumber (div (paid c) (units c)) ->
  isNumber (roundedRate c) /\ leb zero (roundedRate c) = true.
Proof.
  unfold qualifies, roundedRate, isNumber.
  intros H N. apply andb_true_iff in H as [H Hu].
  apply andb_true_iff in H as [_ Hp].
  apply gt_zero_nonneg in Hp. apply gt_zero_nonneg in Hu.
  assert (R : leb zero (round2 (div (paid c) (units c))) = true).
  { apply round2_nonneg. now apply div_nonneg. }
  split; [now apply nonneg_number|exact R].
Qed.

Lemma occ_pos r rates : In r rates -> (1 <= occ r rates)%nat.
Proof.
  unfold occ. induction rates as [|x rates IH]; simpl; [tauto|].
  intros [->|H].
  - rewrite sameKey_refl. simpl. lia.
  - destruct (sameKey x r); simpl; [lia|now apply IH].
Qed.

Lemma same_of_leb a b :
  isNumber a -> isNumber b -> leb a b = true -> leb b a = true -> same a b.
Proof.
  number_cases. intros _ _. rewrite !Qle_bool_iff. apply Qle_antisym.
Qed.

Lemma same_refl a : isNumber a -> same a a.
Proof. number_cases. Qed.

(** What [rateEntry] selects from a non-empty list of numbers that
    are not negative. *)
Lemma rateEntry_spec (p c : string) (rates : list number) :
  rates <> [] ->
  Forall (fun r => isNumber r /\ leb zero r = true) rates ->
  let e := rateEntry p c rates in
  maxFrequency rates (frequency e)
  /\ ((2 < numDistinct rates)%nat ->
        method e = Mode /\ isModeRate rates (expectedRate e))
  /\ ((numDistinct rates <= 2)%nat ->
        method e = Max /\ isMaxRate rates (expectedRate e)).
Proof.
  intros Hne Hall. rewrite Forall_forall in Hall.
  assert (Hfin : Forall isNumber rates).
  { apply Forall_forall. intros r Hr. now apply Hall. }
  destruct (hist_spec rates) as [K [Hin Hcov]].
  pose proof (tally_split rates) as T.
  unfold rateEntry. destruct (tally rates) as [f maxRate] eqn:ET.
  cbn [fst] in K, Hin, Hcov. injection T as _ TM.
  assert (Hf : Forall (fun e => isNumber (fst e) /\ (1 <= snd e)%nat) f).
  { apply Forall_forall. intros [k n] H. destruct (Hin k n H) as [Hk ->].
    cbn [fst snd]. split; [now apply Hall|now apply occ_pos]. }
  assert (Hfne : f <> []).
  { destruct rates as [|r0 rates']; [now contradiction Hne|].
    destruct (Hcov r0 (or_introl eq_refl)) as [k [Hk _]].
    intros ->. contradiction Hk. }
  destruct (modeOf_spec f Hfne Hf) as [Hm Hbest].
  destruct (modeOf f) as [modeRate maxFreq].
  destruct (Hin _ _ Hm) as [Hmr Hmf].
  assert (Len : List.length f = numDistinct rates).
  { unfold numDistinct. rewrite <- K. now rewrite length_map. }
  rewrite Len.
  assert (Hle : forall r, In r rates -> (occ r rates <= maxFreq)%nat).
  { intros r Hr. destruct (Hcov r Hr) as [k [Hk _]].
    destruct (Hbest _ Hk) as [H|[H _]]; cbn [snd] in H; lia. }
  assert (MF : maxFrequency rates maxFreq).
  { split; [|exact Hle]. exists modeRate. now split. }
  destruct (2 <? numDistinct rates)%nat eqn:D; cbn [frequency method expectedRate].
  - apply Nat.ltb_lt in D. split; [exact MF|]. split; [|lia].
    intros _. split; [reflexivity|]. split; [exact Hmr|]. rewrite <- Hmf.
    split; [exact Hle|].
    intros r Hr Ho. destruct (Hcov r Hr) as [k [Hk Sk]].
    destruct (Hin _ _ Hk) as [Hkr _].
    destruct (Hbest _ Hk) as [H|[_ H]]; cbn [fst snd] in H; [lia|].
    apply leb_sameKey with k; try (now apply Hall); [exact Sk|exact H].
  - apply Nat.ltb_ge in D. split; [exact MF|]. split; [lia|].
    intros _. split; [reflexivity|].
    destruct (maxFold_spec rates Hfin zero eq_refl) as [H1 [H2 [H3 H4]]].
    rewrite <- TM in H1, H2, H3, H4. split; [|exact H4].
    destruct H1 as [H1|H1].
    + destruct rates as [|r0 rates']; [now contradiction Hne|].
      exists r0. split; [now left|]. rewrite H1.
      destruct (Hall r0 (or_introl eq_refl)) as [F0 P0].
      apply same_of_leb; try assumption; [reflexivity|].
      rewrite <- H1. apply H4. now left.
    + exists maxRate. split; [exact H1|now apply same_refl].
Qed.

Lemma In_groupRates p c claims r :
  In r (groupRates p c claims) ->
  exists x, In x claims /\ qualifies x = true /\ r = roundedRate x.
Proof.
  unfold groupRates, group. intros H.
  apply in_map_iff in H as [x [<- H]].
  apply filter_In in H as [H _]. apply filter_In in H as [H Q].
  now exists x.
Qed.

(** C1: for a payer and code with qualifying claims (every unit price
    being a number, not NaN) the table holds an entry whose recorded
    frequency is
    the highest number of occurrences of a rounded rate in the group; with
    more than two distinct rounded rates the method is Mode and the
    expected rate is the rate occurring most often, the higher one among
    rates that occur equally often; otherwise the method is Max and the
    expected rate is the highest rate of the group. *)
Theorem rate_selection (claims : list Claim) (p c : string) :
  (forall x, In x claims -> pricedClaim x) ->
  groupRates p c claims <> [] ->
  exists e,
    lookupRate (calculateReimbursementRates claims) p c = Some e
    /\ maxFrequency (groupRates p c claims) (frequency e)
    /\ ((2 < numDistinct (groupRates p c claims))%nat ->
          method e = Mode
          /\ isModeRate (groupRates p c claims) (expectedRate e))
    /\ ((numDistinct (groupRates p c claims) <= 2)%nat ->
          method e = Max
          /\ isMaxRate (groupRates p c claims) (expectedRate e)).
Proof.
  intros Hfin Hne. exists (rateEntry p c (groupRates p c claims)). split.
  - rewrite lookup_rates. destruct (groupRates p c claims); [contradiction|].
    reflexivity.
  - apply rateEntry_spec; [exact Hne|].
    apply Forall_forall. intros r Hr.
    apply In_groupRates in Hr as [x [Hx [Q ->]]].
    apply roundedRate_number; [exact Q|exact (Hfin x Hx Q)].
Qed.

Lemma group_rates_spelled (claims : list Claim) (p c : string) :
  groupRates p c claims
  = List.map
      (fun x => div (round (mul (div (paid x) (units x)) (Fin 100))) (Fin 100))
      (List.filter
         (fun x => (isPaid x && gt (paid x) zero && gt (units x) zero)
                   && (String.eqb (payer x) p && String.eqb (cpt x) c))
         claims).
Proof.
  unfold groupRates, group.
  change (fun x => div (round (mul (div (paid x) (units x)) (Fin 100))) (Fin 100))
    with roundedRate.
  f_equal.
  induction claims as [|x claims IH]; [reflexivity|].
  cbn [List.filter]. change (qualifies x) with
    (isPaid x && gt (paid x) zero && gt (units x) zero).
  destruct (isPaid x && gt (paid x) zero && gt (units x) zero);
    cbn [List.filter andb]; [|exact IH].
  now rewrite IH.
Qed.

Lemma In_groupRates_iff p c claims r :
  In r (groupRates p c claims) <->
  exists x, In x claims /\ qualifies x = true /\ payer x = p /\ cpt x = c
            /\ r = roundedRate x.
Proof.
  unfold groupRates, group. rewrite in_map_iff. split.
  - intros [x [<- H]]. apply filter_In in H as [H K].
    apply filter_In in H as [H Q]. apply andb_true_iff in K as [Kp Kc].
    apply String.eqb_eq in Kp. apply String.eqb_eq in Kc.
    exists x. now repeat split.
  - intros [x [Hx [Q [Hp [Hc ->]]]]]. exists x. split; [reflexivity|].
    apply filter_In. split; [apply filter_In; now split|].
    apply andb_true_iff. split; now apply String.eqb_eq.
Qed.

(** A pair is absent from the table exactly when none of its claims
    passes the filter. *)
Lemma absent_iff (claims : list Claim) (p c : string) :
  lookupRate (calculateReimbursementRates claims) p c = None
  <-> forall x, In x claims -> payer x = p -> cpt x = c ->
                isPaid x && gt (paid x) zero && gt (units x) zero = false.
Proof.
  rewrite lookup_rates. fold qualifies.
  destruct (groupRates p c claims) as [|r l] eqn:G.
  - split; [|reflexivity]. intros _ x Hx Hp Hc.
    change (qualifies x = false).
    destruct (qualifies x) eqn:Q; [|reflexivity].
    assert (I : In (roundedRate x) (groupRates p c claims)).
    { apply In_groupRates_iff. exists x. now repeat split. }
    rewrite G in I. contradiction I.
  - split; [discriminate|]. intros H.
    assert (I : In r (groupRates p c claims)) by (rewrite G; now left).
    apply In_groupRates_iff in I as [x [Hx [Q [Hp [Hc _]]]]].
    specialize (H x Hx Hp Hc). change (qualifies x = false) in H. congruence.
Qed.

Lemma rateEntry_keys (p c : string) (rates : list number) :
  rPayer (rateEntry p c rates) = p /\ rCpt (rateEntry p c rates) = c
  /\ method (rateEntry p c rates) <> NoMethod.
Proof.
  unfold rateEntry.
  destruct (tally rates) as [f m]. destruct (modeOf f) as [a b].
  destruct (2 <? List.length f)%nat; cbn [rPayer rCpt method];
    repeat split; discriminate.
Qed.

(** The entry of a pair with qualifying claims: its payer and code, the
    highest count of the histogram, and a rate of the group. *)
Lemma entry_of_group (claims : list Claim) (p c : string) (e : ReimbursementRate) :
  (forall x, In x claims -> pricedClaim x) ->
  lookupRate (calculateReimbursementRates claims) p c = Some e ->
  rPayer e = p /\ rCpt e = c
  /\ maxFrequency (groupRates p c claims) (frequency e)
  /\ (exists r, In r (groupRates p c claims) /\ same r (expectedRate e))
  /\ method e <> NoMethod.
Proof.
  intros Hfin. rewrite lookup_rates.
  destruct (groupRates p c claims) as [|r0 l] eqn:G; [discriminate|].
  intros [= <-]. rewrite <- G.
  assert (Hne : groupRates p c claims <> []) by (rewrite G; discriminate).
  assert (Hall : Forall (fun r => isNumber r /\ leb zero r = true)
                        (groupRates p c claims)).
  { apply Forall_forall. intros r Hr.
    apply In_groupRates in Hr as [x [Hx [Q ->]]].
    apply roundedRate_number; [exact Q|exact (Hfin x Hx Q)]. }
  destruct (rateEntry_keys p c (groupRates p c claims)) as [K1 [K2 K3]].
  destruct (rateEntry_spec p c (groupRates p c claims) Hne Hall)
    as [MF [HM HX]].
  split; [exact K1|]. split; [exact K2|]. split; [exact MF|].
  split; [|exact K3].
  destruct (Nat.lt_ge_cases 2 (numDistinct (groupRates p c claims))) as [D|D].
  - destruct (HM D) as [_ [I _]].
    exists (expectedRate (rateEntry p c (groupRates p c claims))).
    split; [exact I|]. apply same_refl.
    rewrite Forall_forall in Hall. now apply Hall.
  - destruct (HX D) as [_ [I _]]. exact I.
Qed.

(** C2: the entry of a payer and code is computed from the list, in input
    order, of [Math.round(paid / units * 100) / 100] over exactly the
    claims of that payer and code with isPaid, paid > 0 and units > 0; the
    pair is absent from the table exactly when it has no such claim; an
    entry carries its payer and code, as frequency the highest count of a
    rounded value among those claims, and as rate one of their rounded
    values (every unit price being a number, not NaN); the histogram
    counts, for each rounded value, the claims of the group with that
    value; and no entry has the method None.  The rounding is the one of
    the numbers: 201 paid for 200 units is the rate 1, and 64.35 paid for
    2 units the rate 32.17. *)
Theorem rate_table_inputs :
  (forall claims p c,
     groupRates p c claims
     = List.map
         (fun x =>
            div (round (mul (div (paid x) (units x)) (Fin 100))) (Fin 100))
         (List.filter
            (fun x => (isPaid x && gt (paid x) zero && gt (units x) zero)
                      && (String.eqb (payer x) p && String.eqb (cpt x) c))
            claims))
  /\ (forall claims p c,
        lookupRate (calculateReimbursementRates claims) p c
        = match groupRates p c claims with
          | [] => None
          | rates => Some (rateEntry p c rates)
          end)
  /\ (forall claims p c,
        lookupRate (calculateReimbursementRates claims) p c = None
        <-> forall x, In x claims -> payer x = p -> cpt x = c ->
                      isPaid x && gt (paid x) zero && gt (units x) zero
                      = false)
  /\ (forall claims p c e,
        (forall x, In x claims -> pricedClaim x) ->
        lookupRate (calculateReimbursementRates claims) p c = Some e ->
        rPayer e = p /\ rCpt e = c
        /\ maxFrequency (groupRates p c claims) (frequency e)
        /\ (exists r, In r (groupRates p c claims)
                      /\ same r (expectedRate e))
        /\ method e <> NoMethod)
  /\ (forall rates r, freqOf (fst (tally rates)) r = occ r rates)
  /\ (forall p c rates, method (rateEntry p c rates) <> NoMethod)
  /\ roundedRate (perUnitClaim 201 200) = Fin 1
  /\ round2 (div (b64 64.35) (Fin 2)) = b64 32.17.
Proof.
  split; [exact group_rates_spelled|].
  split; [exact lookup_rates|].
  split; [exact absent_iff|].
  split; [exact entry_of_group|].
  split.
  { intros rates r. rewrite tally_split. cbn [fst].
    now rewrite freqOf_hist. }
  split.
  { intros p c rates. apply rateEntry_keys. }
  split; vm_compute; reflexivity.
Qed.

(** 201 paid for 200 units, twice, and 3 paid for 2 units: the rates are
    1, 1.5 and 1; the entry has the rate 1.5, the highest, and the
    frequency 2, the count of the rate 1. *)
Lemma rate_table_inputs_witness :
  (forall x, In x roundingSample -> pricedClaim x)
  /\ lookupRate (calculateReimbursementRates roundingSample) "P" "C"
     = Some (mkRate "P" "C" (b64 1.5) Max 2)
  /\ groupRates "P" "C" roundingSample = [Fin 1; b64 1.5; Fin 1]
  /\ (rPayer (mkRate "P" "C" (b64 1.5) Max 2) = "P"
      /\ rCpt (mkRate "P" "C" (b64 1.5) Max 2) = "C"
      /\ maxFrequency (groupRates "P" "C" roundingSample)
                      (frequency (mkRate "P" "C" (b64 1.5) Max 2))
      /\ (exists r, In r (groupRates "P" "C" roundingSample)
                    /\ same r (expectedRate (mkRate "P" "C" (b64 1.5) Max 2)))
      /\ method (mkRate "P" "C" (b64 1.5) Max 2) <> NoMethod).
Proof.
  assert (F : forall x, In x roundingSample -> pricedClaim x).
  { intros x [<-|[<-|[<-|[]]]] _; vm_compute; reflexivity. }
  assert (L : lookupRate (calculateReimbursementRates roundingSample) "P" "C"
              = Some (mkRate "P" "C" (b64 1.5) Max 2)).
  { vm_compute. reflexivity. }
  split; [exact F|]. split; [exact L|].
  split; [vm_compute; reflexivity|].
  exact (proj1 (proj2 (proj2 (proj2 rate_table_inputs)))
           roundingSample "P" "C" _ F L).
Defined.

(** Two distinct rates, 10 twice and 50 once: the highest rate is
    selected and the frequency recorded with it is that of 10. *)
Lemma rate_selection_witness :
  (forall x, In x coupledSample -> pricedClaim x)
  /\ groupRates "P" "C" coupledSample <> []
  /\ lookupRate (calculateReimbursementRates coupledSample) "P" "C"
     = Some (mkRate "P" "C" (Fin 50) Max 2)
  /\ occ (Fin 50) (groupRates "P" "C" coupledSample) = 1%nat
  /\ exists e,
       lookupRate (calculateReimbursementRates coupledSample)
                  "P" "C" = Some e
       /\ maxFrequency (groupRates "P" "C" coupledSample)
                       (frequency e)
       /\ ((2 < numDistinct (groupRates "P" "C" coupledSample))%nat
           -> method e = Mode
              /\ isModeRate (groupRates "P" "C" coupledSample)
                            (expectedRate e))
       /\ ((numDistinct (groupRates "P" "C" coupledSample) <= 2)%nat
           -> method e = Max
              /\ isMaxRate (groupRates "P" "C" coupledSample)
                           (expectedRate e)).
Proof.
  assert (F : forall x, In x coupledSample -> pricedClaim x).
  { intros x [<-|[<-|[<-|[]]]] _; vm_compute; reflexivity. }
  assert (N : groupRates "P" "C" coupledSample <> []).
  { discriminate. }
  split; [exact F|]. split; [exact N|].
  split; [vm_compute; reflexivity|]. split; [vm_compute; reflexivity|].
  exact (rate_selection coupledSample "P" "C" F N).
Defined.

(** The tie of the spec: 10 and 20 three times each, 30 once. *)
Example rate_tie_break :
  lookupRate
    (calculateReimbursementRates (paidSample [10; 10; 10; 20; 20; 20; 30]))
    "P" "C"
  = Some (mkRate "P" "C" (Fin 20) Mode 3).
Proof. vm_compute. reflexivity. Qed.

Example rate_max_fallback :
  lookupRate (calculateReimbursementRates (paidSample [10; 50])) "P" "C"
  = Some (mkRate "P" "C" (Fin 50) Max 1).
Proof. vm_compute. reflexivity. Qed.

End RateFacts.

(* ------------------------------------------------------------------ *)
(** ** The delimited-text parser *)

Module CsvParserFacts.
Import Str Num Val Parser StrFacts Spec Samples.

Lemma indexOf_None header cand :
  indexOf header cand = None <-> ~ In cand header.
Proof.
  induction header as [|h header IH]; simpl; [tauto|].
  destruct (String.eqb h cand) eqn:E.
  - apply String.eqb_eq in E. split; [discriminate|]. intros H. exfalso.
    apply H. now left.
  - apply String.eqb_neq in E. destruct (indexOf header cand) eqn:I.
    + split; [discriminate|]. intros H. exfalso.
      destruct IH as [_ IH]. enough (Some n = None) by discriminate.
      apply IH. tauto.
    + split; [|reflexivity]. intros _ [H|H]; [contradiction|].
      now apply IH.
Qed.

Lemma indexOf_Some header cand i :
  indexOf header cand = Some i -> nth_error header i = Some cand.
Proof.
  revert i. induction header as [|h header IH]; simpl; intros i;
    [discriminate|].
  destruct (String.eqb h cand) eqn:E.
  - apply String.eqb_eq in E. intros [= <-]. now subst.
  - destruct (indexOf header cand); [|discriminate].
    intros [= <-]. now apply IH.
Qed.

Lemma findIdx_None header cands :
  findIdx header cands = None <-> forall cand, In cand cands -> ~ In cand header.
Proof.
  induction cands as [|c cands IH]; simpl.
  - split; [intros _ ? []|reflexivity].
  - destruct (indexOf header c) eqn:I.
    + split; [discriminate|]. intros H. exfalso.
      apply (H c (or_introl eq_refl)).
      apply indexOf_Some in I. eapply nth_error_In. exact I.
    + rewrite IH. apply indexOf_None in I. split.
      * intros H cand [<-|Hc]; [exact I|now apply H].
      * intros H cand Hc. apply H. now right.
Qed.

Lemma findIdx_Some header cands i :
  findIdx header cands = Some i ->
  exists cand, In cand cands /\ nth_error header i = Some cand.
Proof.
  induction cands as [|c cands IH]; simpl; [discriminate|].
  destruct (indexOf header c) eqn:I.
  - intros [= <-]. exists c. split; [now left|now apply indexOf_Some].
  - intros H. destruct (IH H) as [cand [Hc Hn]]. exists cand.
    split; [now right|exact Hn].
Qed.

Lemma trim_empty_of_empty (s : string) :
  nonEmpty s = false -> nonEmpty (trim s) = false.
Proof. destruct s; [reflexivity|discriminate]. Qed.

Section WithHost.
Variable host : Host.t.

Lemma csvRowClaim_kept iCPT cols fb n row :
  match csvRowClaim host iCPT cols fb n row with
  | Some c => keptRow iCPT row = true /\ cpt c = codeOfRow iCPT row /\ id c = n
  | None => keptRow iCPT row = false
  end.
Proof.
  unfold csvRowClaim, keptRow, codeOfRow.
  destruct (nth_error row iCPT) as [raw|]; [|reflexivity].
  destruct (nonEmpty raw) eqn:R; cbn [negb].
  - destruct (nonEmpty (trim raw)) eqn:T; cbn [negb]; [|reflexivity].
    cbn [cpt id]. now repeat split.
  - now apply trim_empty_of_empty.
Qed.

(** The loop keeps the rows with a code, in order, and numbers them from
    the counter on. *)
Lemma csvLoop_kept iCPT cols fb rows :
  forall n,
    List.map cpt (csvLoop host iCPT cols fb rows n)
    = List.map (codeOfRow iCPT) (List.filter (keptRow iCPT) rows)
    /\ List.map id (csvLoop host iCPT cols fb rows n)
       = List.map (fun k => (n + Z.of_nat k)%Z)
                  (List.seq 0 (List.length (List.filter (keptRow iCPT) rows))).
Proof.
  induction rows as [|row rows IH]; intros n; [now split|].
  cbn [csvLoop List.filter].
  pose proof (csvRowClaim_kept iCPT cols fb n row) as H.
  destruct (csvRowClaim host iCPT cols fb n row) as [c|].
  - destruct H as [K [C I]]. rewrite K. cbn [List.map List.length List.seq].
    destruct (IH (n + 1)%Z) as [IH1 IH2]. rewrite IH1, IH2, C, I. split.
    + reflexivity.
    + f_equal; [f_equal; lia|]. rewrite <- seq_shift, map_map.
      apply map_ext. intros k. lia.
  - rewrite H. apply IH.
Qed.

(** C5 (as amended): text that tokenizes to fewer than two rows gives
    the empty list and no error; otherwise, when the resolved header holds
    none of the candidate names of the procedure-code column, the result is
    the error naming that column; and when it holds one, the result is a
    list of claims, never an error: one claim, in order and numbered from 1,
    for each data row whose procedure-code cell is not empty after
    trimming, and none for the other rows. *)
Theorem parseClaimsData_cases (text fallbackProvider : string) :
  ((List.length (rawRowsOf text) < 2)%nat ->
     parseClaimsData host text fallbackProvider = Ok [])
  /\ ((2 <= List.length (rawRowsOf text))%nat ->
      (forall cand, In cand cptCandidates -> ~ In cand (headerOf text)) ->
      parseClaimsData host text fallbackProvider = Err missingCPT)
  /\ ((2 <= List.length (rawRowsOf text))%nat ->
      (exists cand, In cand cptCandidates /\ In cand (headerOf text)) ->
      exists iCPT cand claims,
        In cand cptCandidates
        /\ nth_error (headerOf text) iCPT = Some cand
        /\ parseClaimsData host text fallbackProvider = Ok claims
        /\ List.map cpt claims
           = List.map (codeOfRow iCPT)
                      (List.filter (keptRow iCPT) (dataRowsOf text))
        /\ List.map id claims
           = List.map (fun k => (1 + Z.of_nat k)%Z)
                      (List.seq 0 (List.length claims))).
Proof.
  unfold parseClaimsData. fold (rawRowsOf text). fold (headerOf text).
  fold (dataRowsOf text).
  split; [|split].
  - intros H. apply Nat.ltb_lt in H. now rewrite H.
  - intros H Hno. apply Nat.ltb_ge in H. rewrite H.
    apply findIdx_None in Hno. now rewrite Hno.
  - intros H [cand0 [Hc0 Hh0]]. apply Nat.ltb_ge in H. rewrite H.
    destruct (findIdx (headerOf text) cptCandidates) as [i|] eqn:F.
    + destruct (findIdx_Some _ _ _ F) as [cand [Hc Hn]].
      destruct (csvLoop_kept i (resolveColumns (headerOf text))
                  fallbackProvider (dataRowsOf text) 1) as [L1 L2].
      exists i, cand, (csvLoop host i (resolveColumns (headerOf text))
                         fallbackProvider (dataRowsOf text) 1).
      split; [exact Hc|]. split; [exact Hn|]. split; [reflexivity|].
      split; [exact L1|]. rewrite L2. f_equal. f_equal.
      rewrite <- (length_map cpt), L1. now rewrite length_map.
    + exfalso. rewrite findIdx_None in F. exact (F cand0 Hc0 Hh0).
Qed.

End WithHost.

Lemma parseClaimsData_cases_witness :
  (2 <= List.length (rawRowsOf csvSample))%nat
  /\ (exists cand, In cand cptCandidates /\ In cand (headerOf csvSample))
  /\ (exists iCPT cand claims,
        In cand cptCandidates
        /\ nth_error (headerOf csvSample) iCPT = Some cand
        /\ parseClaimsData SampleHost.utc csvSample "Dr" = Ok claims
        /\ List.map cpt claims
           = List.map (codeOfRow iCPT)
                      (List.filter (keptRow iCPT) (dataRowsOf csvSample))
        /\ List.map id claims
           = List.map (fun k => (1 + Z.of_nat k)%Z)
                      (List.seq 0 (List.length claims)))
  /\ List.map cpt
       (match parseClaimsData SampleHost.utc csvSample "Dr" with
        | Ok claims => claims
        | Err _ => []
        end) = ["A4550"].
Proof.
  assert (L : (2 <= List.length (rawRowsOf csvSample))%nat).
  { vm_compute. lia. }
  assert (C : exists cand, In cand cptCandidates /\ In cand (headerOf csvSample)).
  { exists "cpt". split; [now left|]. vm_compute. tauto. }
  split; [exact L|]. split; [exact C|]. split; [|reflexivity].
  exact (proj2 (proj2 (parseClaimsData_cases SampleHost.utc csvSample "Dr")) L C).
Defined.

(** The claim as first stated: a text with a header that names no
    procedure-code column and no data row gives the empty list, not the
    error. *)
Lemma parseClaimsData_counterexample :
  findIdx (headerOf headerOnly) cptCandidates = None
  /\ parseClaimsData SampleHost.utc headerOnly "Dr" = Ok []
  /\ parseClaimsData SampleHost.utc headerOnly "Dr" <> Err missingCPT.
Proof. split; [reflexivity|]. split; [reflexivity|discriminate]. Qed.

End CsvParserFacts.

(* ------------------------------------------------------------------ *)
(** ** What every parsed claim satisfies *)

Module ClaimInvariants.
Import Str Num Val Parser StrFacts Spec Samples.

Lemma abs_nonneg (n : number) : isNaN n = false -> leb zero (Num.abs n) = true.
Proof.
  destruct n as [|q|b]; [discriminate| |reflexivity]. intros _. simpl.
  apply Qle_bool_iff. apply Qabs_nonneg.
Qed.

Lemma paid_nonneg (v : value) : leb zero (Num.abs (normalizeMoney v)) = true.
Proof. apply abs_nonneg. apply MoneyFacts.normalizeMoney_not_NaN. Qed.

Lemma determineCodeType_upper (s : string) :
  determineCodeType (toUpperCase s) = determineCodeType s.
Proof. unfold determineCodeType. now rewrite toUpperCase_idem. Qed.

Section WithHost.
Variable host : Host.t.

Lemma csvRowClaim_wellFormed iCPT cols fb n row c :
  csvRowClaim host iCPT cols fb n row = Some c -> wellFormedWithCode c.
Proof.
  unfold csvRowClaim. destruct (nth_error row iCPT) as [raw|]; [|discriminate].
  destruct (nonEmpty raw); cbn [negb]; [|discriminate].
  destruct (nonEmpty (trim raw)) eqn:T; cbn [negb]; [|discriminate].
  intros [= <-]. unfold wellFormedWithCode, wellFormed. cbn [paid cpt codeType isPaid].
  repeat split.
  - apply paid_nonneg.
  - apply toUpperCase_idem.
  - symmetry. apply determineCodeType_upper.
  - now rewrite toUpperCase_nonEmpty.
Qed.

Lemma csvLoop_wellFormed iCPT cols fb rows :
  forall n, Forall wellFormedWithCode (csvLoop host iCPT cols fb rows n).
Proof.
  induction rows as [|row rows IH]; intros n; cbn [csvLoop]; [constructor|].
  destruct (csvRowClaim host iCPT cols fb n row) as [c|] eqn:E; [|apply IH].
  constructor; [|apply IH]. eapply csvRowClaim_wellFormed. exact E.
Qed.

Lemma paymentClaim_wellFormed hm prov n row dosVal cptVal :
  let c := paymentClaim host hm prov n row dosVal cptVal in
  wellFormed c /\ units c = one /\ charge c = zero.
Proof.
  unfold paymentClaim, wellFormed. cbn [paid cpt codeType isPaid units charge].
  repeat split.
  - apply paid_nonneg.
  - apply toUpperCase_idem.
Qed.

Lemma paymentLoop_wellFormed hm rows :
  forall prov n,
    Forall (fun c => wellFormed c /\ units c = one /\ charge c = zero)
           (paymentLoop host hm rows prov n).
Proof.
  induction rows as [|row rows IH]; intros prov n; cbn [paymentLoop];
    [constructor|].
  destruct (paymentRow host hm prov n row) as [prov' [c|]] eqn:E; [|apply IH].
  constructor; [|apply IH].
  unfold paymentRow in E.
  destruct (forallb isEmptyStr row); [discriminate|].
  destruct (includes "provider name:" (toLowerCase (join host " " row)));
    [discriminate|].
  destruct (Val.truthy (column hm "dos" row VNull)
            && Val.truthy (column hm "cpt" row VNull)); [|discriminate].
  destruct (match hmGet hm "desc." with
            | Some descIdx =>
                includes "adj"
                  (toLowerCase (Val.toString host (at_ row descIdx)))
            | None => false
            end); [discriminate|].
  injection E as _ <-. apply paymentClaim_wellFormed.
Qed.

Lemma visitRow_wellFormed hm fb info n row info' c :
  visitRow host hm fb info n row = (info', Some c) -> wellFormedWithCode c.
Proof.
  unfold visitRow. destruct (visitRowKind host row); try discriminate.
  destruct ((hasSlashedDate (cellText host hm "date of service" row)
             || isoShaped (cellText host hm "date of service" row))
            && nonEmpty (cellText host hm "cpt" row)) eqn:E; [|discriminate].
  apply andb_true_iff in E as [_ E].
  intros [= _ <-]. unfold wellFormedWithCode, wellFormed, visitClaim.
  cbn [paid cpt codeType isPaid]. repeat split.
  - apply paid_nonneg.
  - apply toUpperCase_idem.
  - symmetry. apply determineCodeType_upper.
  - now rewrite toUpperCase_nonEmpty.
Qed.

Lemma visitLoop_wellFormed hm fb rows :
  forall info n, Forall wellFormedWithCode (visitLoop host hm fb rows info n).
Proof.
  induction rows as [|row rows IH]; intros info n; cbn [visitLoop];
    [constructor|].
  destruct (visitRow host hm fb info n row) as [info' [c|]] eqn:E; [|apply IH].
  constructor; [|apply IH]. eapply visitRow_wellFormed. exact E.
Qed.

(** C4 (as amended): every claim produced by [parseClaimsData] or by
    [parseExcelReport] has a paid amount that is not negative, a code in
    upper case and the code class of that code; the code is not empty for
    [parseClaimsData] and for the patient-visit layout; in the
    applied-payments layout units are 1 and the charge is 0.  (Units and
    charge otherwise keep the sign of their cell.) *)
Theorem claim_invariants :
  (forall text fb claims,
     parseClaimsData host text fb = Ok claims ->
     Forall wellFormedWithCode claims)
  /\ (forall rows fb claims,
        parseExcelReport host rows fb = Ok claims ->
        Forall wellFormed claims
        /\ (layoutOf rows = Some false -> Forall wellFormedWithCode claims)
        /\ (layoutOf rows = Some true ->
            Forall (fun c => units c = one /\ charge c = zero) claims)).
Proof.
  split.
  - intros text fb claims. unfold parseClaimsData.
    destruct (List.length _ <? 2)%nat.
    + intros [= <-]. constructor.
    + destruct (findIdx _ cptCandidates); [|discriminate].
      intros [= <-]. apply csvLoop_wellFormed.
  - intros rows fb claims. unfold parseExcelReport, layoutOf.
    destruct (findIndex (List.existsb isHeaderCell) rows) as [i|];
      [|discriminate].
    destruct (hmGet (buildHeaderMap (nth i rows []) 0 []) "applied payments").
    + intros [= <-].
      pose proof (paymentLoop_wellFormed
                    (buildHeaderMap (nth i rows []) 0 [])
                    (skipn (S i) rows) fb 1) as H.
      split; [|split].
      * eapply Forall_impl; [|exact H]. now intros c [W _].
      * discriminate.
      * intros _. eapply Forall_impl; [|exact H]. now intros c [_ U].
    + intros [= <-].
      pose proof (visitLoop_wellFormed
                    (buildHeaderMap (nth i rows []) 0 []) fb
                    (skipn (S i) rows) emptyInfo 1) as H.
      split; [|split].
      * eapply Forall_impl; [|exact H]. now intros c [W _].
      * intros _. exact H.
      * discriminate.
Qed.

End WithHost.

Lemma claim_invariants_witness :
  parseClaimsData SampleHost.utc negativeSample "Dr"
  = Ok [mkClaim 1 "Dr" "A1" AQL (Fin (-2)) (Fin (-500)) (Fin 80) "Unknown ID"
                "Unknown Patient" "Unknown Payer" None (Fin 0) true]
  /\ Forall wellFormedWithCode
       [mkClaim 1 "Dr" "A1" AQL (Fin (-2)) (Fin (-500)) (Fin 80) "Unknown ID"
                "Unknown Patient" "Unknown Payer" None (Fin 0) true].
Proof.
  assert (E : parseClaimsData SampleHost.utc negativeSample "Dr"
              = Ok [mkClaim 1 "Dr" "A1" AQL (Fin (-2)) (Fin (-500)) (Fin 80)
                            "Unknown ID" "Unknown Patient" "Unknown Payer"
                            None (Fin 0) true]).
  { vm_compute. reflexivity. }
  split; [exact E|].
  exact (proj1 (claim_invariants SampleHost.utc) negativeSample "Dr" _ E).
Defined.

(** The claim as first stated: units and charge of a parsed claim can be
    negative. *)
Lemma claim_invariants_counterexample :
  exists c,
    parseClaimsData SampleHost.utc negativeSample "Dr" = Ok [c]
    /\ units c = Fin (-2)
    /\ charge c = Fin (-500)
    /\ leb zero (units c) = false
    /\ leb zero (charge c) = false.
Proof.
  exists (mkClaim 1 "Dr" "A1" AQL (Fin (-2)) (Fin (-500)) (Fin 80) "Unknown ID"
                  "Unknown Patient" "Unknown Payer" None (Fin 0) true).
  split; [vm_compute; reflexivity|]. repeat split.
Qed.

End ClaimInvariants.

(* ------------------------------------------------------------------ *)
(** ** The date normalizer *)

Module DateFacts.
Import Str Num JsDate Val Parser Spec Samples DigitFacts.

Lemma make_valid (y mi d : Z) :
  validDay (ctorYear y) mi d -> make y mi d = mkDate (ctorYear y) mi d 0.
Proof.
  unfold validDay, make. fold (ctorYear y). intros [Hm Hd].
  rewrite Z.div_small, Z.mod_small, Z.add_0_r by lia.
  cbn [carryDays].
  destruct (d <? 1)%Z eqn:A; [apply Z.ltb_lt in A; lia|].
  destruct (daysInMonth (ctorYear y) mi <? d)%Z eqn:B;
    [apply Z.ltb_lt in B; lia|].
  reflexivity.
Qed.

Lemma digitVal_nonneg (c : ascii) : isDigit c = true -> (0 <= digitVal c)%Z.
Proof.
  unfold isDigit, digitVal. intros H. apply andb_true_iff in H as [H _].
  apply Nat.leb_le in H. lia.
Qed.

Lemma readDigits_nonneg (s : string) :
  forall acc n v k r,
    (0 <= acc)%Z -> readDigits s acc n = (v, k, r) -> (0 <= v)%Z.
Proof.
  induction s as [|c s IH]; intros acc n v k r Ha; cbn [readDigits].
  - intros [= <- _ _]. exact Ha.
  - destruct (isDigit c) eqn:D.
    + apply IH. pose proof (digitVal_nonneg c D). lia.
    + intros [= <- _ _]. exact Ha.
Qed.

Lemma digitRun_nonneg lo hi s v r :
  digitRun lo hi s = Some (v, r) -> (0 <= v)%Z.
Proof.
  unfold digitRun. destruct (readDigits s 0 0) as [[v' k] r'] eqn:E.
  destruct ((lo <=? k)%nat && (k <=? hi)%nat); [|discriminate].
  intros [= <- _]. eapply readDigits_nonneg; [|exact E]. lia.
Qed.

Lemma matchMDY_year_nonneg s m d y :
  matchMDY s = Some (m, d, y) -> (0 <= y)%Z.
Proof.
  unfold matchMDY.
  destruct (digitRun 1 2 s) as [[m' r0]|]; [|discriminate].
  destruct r0 as [|c0 r1]; [discriminate|].
  destruct (Ascii.eqb c0 "/") eqn:E0;
    [apply Ascii.eqb_eq in E0; subst c0|].
  2:{ destruct c0 as [[] [] [] [] [] [] [] []]; discriminate. }
  destruct (digitRun 1 2 r1) as [[d' r2]|]; [|discriminate].
  destruct r2 as [|c1 r3]; [discriminate|].
  destruct (Ascii.eqb c1 "/") eqn:E1;
    [apply Ascii.eqb_eq in E1; subst c1|].
  2:{ destruct c1 as [[] [] [] [] [] [] [] []]; discriminate. }
  destruct (digitRun 2 4 r3) as [[y' r4]|] eqn:Y; [|discriminate].
  destruct r4; [|discriminate].
  intros [= _ _ <-]. eapply digitRun_nonneg. exact Y.
Qed.

Lemma ctorYear_usYear (y : Z) : (0 <= y)%Z -> ctorYear (usYear y) = usYear y.
Proof.
  unfold ctorYear, usYear. intros H.
  destruct (y <? 100)%Z eqn:A.
  - destruct ((0 <=? y + 2000) && (y + 2000 <=? 99))%Z eqn:B; [|reflexivity].
    apply andb_true_iff in B as [_ B]. apply Z.leb_le in B. lia.
  - apply Z.ltb_ge in A.
    destruct ((0 <=? y) && (y <=? 99))%Z eqn:B; [|reflexivity].
    apply andb_true_iff in B as [_ B]. apply Z.leb_le in B. lia.
Qed.

Lemma digitsN_all (n : nat) (s rest : string) :
  allDigits s = true -> String.length s = n ->
  forall acc, digitsN n (s ++ rest) acc = Some (decimalOf s acc, rest).
Proof.
  intros H <-. induction s as [|c s IH]; intros acc; [reflexivity|].
  rewrite allDigits_cons in H. apply andb_true_iff in H as [Hc Hs].
  cbn [String.length append digitsN decimalOf]. rewrite Hc. now apply IH.
Qed.

Lemma digitRun_all (lo hi : nat) (s rest : string) :
  allDigits s = true -> noDigitAhead rest = true ->
  (lo <= String.length s <= hi)%nat ->
  digitRun lo hi (s ++ rest) = Some (decimalOf s 0, rest).
Proof.
  intros H Hrest [L U]. unfold digitRun.
  rewrite (readDigits_all s rest H Hrest). cbn [Nat.add].
  apply Nat.leb_le in L. apply Nat.leb_le in U. now rewrite L, U.
Qed.

(** Texts in the ISO shape are the ones the first pattern captures. *)
Lemma matchISO_shape (y m d : string) :
  allDigits y = true -> String.length y = 4%nat ->
  allDigits m = true -> String.length m = 2%nat ->
  allDigits d = true -> String.length d = 2%nat ->
  matchISO (isoText y m d)
  = Some (decimalOf y 0, decimalOf m 0, decimalOf d 0).
Proof.
  intros Hy Ly Hm Lm Hd Ld. unfold matchISO, isoText.
  rewrite (digitsN_all 4 y _ Hy Ly).
  rewrite (digitsN_all 2 m _ Hm Lm).
  rewrite <- (StrFacts.app_nil_r d) at 1.
  now rewrite (digitsN_all 2 d _ Hd Ld).
Qed.

(** Texts in the US shape are captured by the second pattern, and not by
    the first. *)
Lemma matchMDY_shape (m d y : string) :
  allDigits m = true -> (1 <= String.length m <= 2)%nat ->
  allDigits d = true -> (1 <= String.length d <= 2)%nat ->
  allDigits y = true -> (2 <= String.length y <= 4)%nat ->
  matchISO (usText m d y) = None
  /\ matchMDY (usText m d y)
     = Some (decimalOf m 0, decimalOf d 0, decimalOf y 0).
Proof.
  intros Hm Lm Hd Ld Hy Ly. unfold usText. split.
  - unfold matchISO.
    destruct m as [|a [|b [|c m]]]; cbn [String.length] in Lm; try lia.
    + rewrite allDigits_cons in Hm. apply andb_true_iff in Hm as [Ha _].
      cbn [append digitsN]. now rewrite Ha.
    + rewrite !allDigits_cons in Hm. apply andb_true_iff in Hm as [Ha Hm].
      apply andb_true_iff in Hm as [Hb _].
      cbn [append digitsN]. now rewrite Ha, Hb.
  - unfold matchMDY.
    rewrite (digitRun_all 1 2 m (String "/" (d ++ String "/" y)) Hm eq_refl Lm).
    rewrite (digitRun_all 1 2 d (String "/" y) Hd eq_refl Ld).
    rewrite <- (StrFacts.app_nil_r y) at 1.
    now rewrite (digitRun_all 2 4 y EmptyString Hy eq_refl Ly).
Qed.

Lemma digit_not_white (c : ascii) : isDigit c = true -> isWhite c = false.
Proof.
  destruct c as [[] [] [] [] [] [] [] []]; try discriminate; reflexivity.
Qed.

Lemma allDigits_clean (s : string) :
  allDigits s = true -> existsb isWhite s = false.
Proof.
  induction s as [|c s IH]; [reflexivity|].
  rewrite allDigits_cons. intros H. apply andb_true_iff in H as [Hc Hs].
  cbn [existsb]. now rewrite (digit_not_white c Hc), IH.
Qed.

Lemma shaped_clean (sep : ascii) (a b c : string) :
  isWhite sep = false ->
  allDigits a = true -> allDigits b = true -> allDigits c = true ->
  trim (a ++ String sep (b ++ String sep c)) = (a ++ String sep (b ++ String sep c))%string.
Proof.
  intros Hs Ha Hb Hc. apply StrFacts.trim_clean.
  rewrite StrFacts.existsb_app. cbn [existsb].
  rewrite StrFacts.existsb_app. cbn [existsb].
  now rewrite Hs, !allDigits_clean.
Qed.

Lemma shaped_nonEmpty (sep : ascii) (a b : string) :
  nonEmpty (a ++ String sep b) = true.
Proof. now destruct a. Qed.

Section WithHost.
Variable host : Host.t.

(** C7 (as amended): on text (trimmed) that the ISO pattern captures the
    result is the local date built from year, month - 1 and day; on text
    that the US pattern captures it is the local date built from the year
    (plus 2000 when below 100), month - 1 and day; in both cases, when the
    month and day name a day that exists, the date has exactly that month
    and day of month; any other text goes to the host's general date
    parser, and the result is null when that gives NaN.  The ISO pattern
    captures four digits, a dash, two digits, a dash and two digits; the US
    pattern captures one or two digits, a slash, one or two digits, a
    slash and two to four digits.  Empty, undefined and null input give
    null, and the two sample dates come out as March 5, 2024. *)
Theorem parseDOS_cases :
  (forall s y m d,
     nonEmpty s = true -> matchISO (trim s) = Some (y, m, d) ->
     parseDOS host (VStr s) = Some (make y (m - 1) d)
     /\ (validDay (ctorYear y) (m - 1) d ->
         parseDOS host (VStr s) = Some (mkDate (ctorYear y) (m - 1) d 0)))
  /\ (forall s m d y,
        nonEmpty s = true -> matchISO (trim s) = None ->
        matchMDY (trim s) = Some (m, d, y) ->
        parseDOS host (VStr s) = Some (make (usYear y) (m - 1) d)
        /\ (validDay (usYear y) (m - 1) d ->
            parseDOS host (VStr s) = Some (mkDate (usYear y) (m - 1) d 0)))
  /\ (forall s,
        nonEmpty s = true -> matchISO (trim s) = None ->
        matchMDY (trim s) = None ->
        parseDOS host (VStr s)
        = option_map (Host.Date_ofTime host) (Host.Date_parse host (trim s)))
  /\ (forall y m d,
        allDigits y = true -> String.length y = 4%nat ->
        allDigits m = true -> String.length m = 2%nat ->
        allDigits d = true -> String.length d = 2%nat ->
        nonEmpty (isoText y m d) = true
        /\ matchISO (trim (isoText y m d))
           = Some (decimalOf y 0, decimalOf m 0, decimalOf d 0))
  /\ (forall m d y,
        allDigits m = true -> (1 <= String.length m <= 2)%nat ->
        allDigits d = true -> (1 <= String.length d <= 2)%nat ->
        allDigits y = true -> (2 <= String.length y <= 4)%nat ->
        nonEmpty (usText m d y) = true
        /\ matchISO (trim (usText m d y)) = None
        /\ matchMDY (trim (usText m d y))
           = Some (decimalOf m 0, decimalOf d 0, decimalOf y 0))
  /\ parseDOS host (VStr EmptyString) = None
  /\ parseDOS host VUndefined = None
  /\ parseDOS host VNull = None
  /\ parseDOS host (VStr "2024-03-05") = Some (mkDate 2024 2 5 0)
  /\ parseDOS host (VStr "3/5/24") = Some (mkDate 2024 2 5 0).
Proof.
  split; [|split; [|split; [|split; [|split]]]].
  - intros s y m d Hs Hi. unfold parseDOS. cbn [Val.truthy Val.toString].
    rewrite Hs, Hi. cbn [negb]. split; [reflexivity|].
    intros V. now rewrite make_valid.
  - intros s m d y Hs Hi Hm. unfold parseDOS. cbn [Val.truthy Val.toString].
    rewrite Hs, Hi, Hm. cbn [negb]. fold (usYear y). split; [reflexivity|].
    intros V.
    assert (Y : ctorYear (usYear y) = usYear y).
    { apply ctorYear_usYear. eapply matchMDY_year_nonneg. exact Hm. }
    rewrite make_valid; rewrite Y; [reflexivity|exact V].
  - intros s Hs Hi Hm. unfold parseDOS. cbn [Val.truthy Val.toString].
    rewrite Hs, Hi, Hm. cbn [negb].
    now destruct (Host.Date_parse host (trim s)).
  - intros y m d Hy Ly Hm Lm Hd Ld. split; [apply shaped_nonEmpty|].
    unfold isoText at 1. rewrite shaped_clean by (assumption || reflexivity).
    now apply matchISO_shape.
  - intros m d y Hm Lm Hd Ld Hy Ly. split; [apply shaped_nonEmpty|].
    unfold usText at 1 2. rewrite shaped_clean by (assumption || reflexivity).
    now apply matchMDY_shape.
  - repeat split.
Qed.

End WithHost.

Lemma parseDOS_cases_witness :
  matchISO (trim "2024-02-29") = Some (2024, 2, 29)%Z
  /\ validDay (ctorYear 2024) (2 - 1) 29
  /\ parseDOS SampleHost.utc (VStr "2024-02-29") = Some (mkDate 2024 1 29 0)
  /\ matchMDY (trim " 12/31/99 ") = Some (12, 31, 99)%Z
  /\ parseDOS SampleHost.utc (VStr " 12/31/99 ") = Some (mkDate 2099 11 31 0)
  /\ parseDOS SampleHost.utc (VStr "March 5") = None.
Proof.
  assert (I : matchISO (trim "2024-02-29") = Some (2024, 2, 29)%Z)
    by reflexivity.
  assert (V : validDay (ctorYear 2024) (2 - 1) 29) by (vm_compute; intuition discriminate).
  assert (M : matchMDY (trim " 12/31/99 ") = Some (12, 31, 99)%Z)
    by reflexivity.
  split; [exact I|]. split; [exact V|]. split; [|split; [exact M|split]].
  - exact (proj2 (proj1 (parseDOS_cases SampleHost.utc) "2024-02-29" _ _ _
                        eq_refl I) V).
  - refine (proj2 (proj1 (proj2 (parseDOS_cases SampleHost.utc))
                         " 12/31/99 " _ _ _ eq_refl eq_refl M) _).
    vm_compute. intuition discriminate.
  - exact (proj1 (proj2 (proj2 (parseDOS_cases SampleHost.utc)))
                 "March 5" eq_refl eq_refl eq_refl).
Defined.

(** The claim as first stated: February 31 is accepted by the ISO pattern
    and comes out as March 2, so the day of month is not kept. *)
Lemma parseDOS_counterexample :
  matchISO "2024-02-31" = Some (2024, 2, 31)%Z
  /\ parseDOS SampleHost.utc (VStr "2024-02-31") = Some (mkDate 2024 2 2 0)
  /\ option_map getDate (parseDOS SampleHost.utc (VStr "2024-02-31"))
     <> Some 31%Z
  /\ parseDOS SampleHost.utc (VStr "2/30/2023") = Some (mkDate 2023 2 2 0).
Proof.
  split; [reflexivity|]. split; [reflexivity|]. split; [discriminate|].
  reflexivity.
Qed.

End DateFacts.

(* ------------------------------------------------------------------ *)
(** ** The running context of the patient-visit layout *)

Module VisitFacts.
Import Str Num JsDate Val Parser Spec Samples.

Section WithHost.
Variable host : Host.t.

Lemma visitLoop_app hm fb a b :
  forall info n,
    visitLoop host hm fb (a ++ b) info n
    = visitLoop host hm fb a info n
      ++ visitLoop host hm fb b (fst (visitState host hm fb a info n))
                   (snd (visitState host hm fb a info n)).
Proof.
  induction a as [|row a IH]; intros info n; [reflexivity|].
  cbn [List.app visitLoop visitState].
  destruct (visitRow host hm fb info n row) as [info' [c|]].
  - now rewrite IH.
  - apply IH.
Qed.

Lemma visitState_app hm fb a b :
  forall info n,
    visitState host hm fb (a ++ b) info n
    = visitState host hm fb b (fst (visitState host hm fb a info n))
                 (snd (visitState host hm fb a info n)).
Proof.
  induction a as [|row a IH]; intros info n; [reflexivity|].
  cbn [List.app visitState].
  destruct (visitRow host hm fb info n row) as [info' [c|]]; apply IH.
Qed.

Lemma visitRow_patient hm fb info n prow :
  visitRowKind host prow = PatientRow ->
  visitRow host hm fb info n prow = (resetBy host prow, None).
Proof. intros K. unfold visitRow. now rewrite K. Qed.

(** A row that is not an insurance row keeps a context without insurance
    that way, and a claim it emits has the default payer and provider. *)
Lemma visitRow_noInsurance hm fb info n row :
  noInsurance info -> visitRowKind host row <> InsuranceRow ->
  noInsurance (fst (visitRow host hm fb info n row))
  /\ match snd (visitRow host hm fb info n row) with
     | Some c => defaulted fb c
     | None => True
     end.
Proof.
  intros [HI HP] K. unfold visitRow.
  destruct (visitRowKind host row); cbn [fst snd].
  - now split.
  - now split.
  - contradiction.
  - destruct ((hasSlashedDate (cellText host hm "date of service" row)
               || isoShaped (cellText host hm "date of service" row))
              && nonEmpty (cellText host hm "cpt" row)); cbn [fst snd].
    + split; [now split|]. unfold defaulted, visitClaim. cbn [payer provider].
      rewrite HI, HP. cbn [orStr]. split; [reflexivity|].
      now destruct (nonEmpty fb).
    + now split.
Qed.

Lemma visitLoop_noInsurance hm fb rows :
  forall info n,
    noInsurance info ->
    (forall r, In r rows -> visitRowKind host r <> InsuranceRow) ->
    forall c, In c (visitLoop host hm fb rows info n) -> defaulted fb c.
Proof.
  induction rows as [|row rows IH]; intros info n HN HK c; [intros []|].
  cbn [visitLoop].
  destruct (visitRow_noInsurance hm fb info n row HN (HK row (or_introl eq_refl)))
    as [HN' HC].
  destruct (visitRow host hm fb info n row) as [info' [c'|]]; cbn [fst snd] in *.
  - intros [<-|H]; [exact HC|].
    eapply IH; [exact HN'| |exact H]. intros r Hr. apply HK. now right.
  - intros H. eapply IH; [exact HN'| |exact H]. intros r Hr. apply HK. now right.
Qed.

(** C10 (as amended): in the patient-visit layout, a row that the loop
    does not skip (it is not blank and its text holds neither [sub total]
    nor [page:]) and that has a cell starting with [patient:] replaces the
    whole running context: the new name and id, no insurance, no provider.
    So every claim emitted for the rows after it, up to the next insurance
    row, has the payer [Unknown Payer] and as provider the caller's
    fallback, or [Unknown Provider] when that is empty, whatever an earlier
    insurance row had set. *)
Theorem patient_row_resets (rows : list (list value)) (fb : string)
    (i : nat) (pre mid post : list (list value)) (prow : list value) :
  findIndex (List.existsb isHeaderCell) rows = Some i ->
  hmGet (buildHeaderMap (nth i rows []) 0 []) "applied payments" = None ->
  List.skipn (S i) rows = pre ++ prow :: mid ++ post ->
  visitRowKind host prow = PatientRow ->
  (forall r, In r mid -> visitRowKind host r <> InsuranceRow) ->
  let hm := buildHeaderMap (nth i rows []) 0 [] in
  let n0 := snd (visitState host hm fb pre emptyInfo 1) in
  exists during after,
    parseExcelReport host rows fb
    = Ok (visitLoop host hm fb pre emptyInfo 1 ++ during ++ after)
    /\ during = visitLoop host hm fb mid (resetBy host prow) n0
    /\ visitState host hm fb (pre ++ [prow]) emptyInfo 1 = (resetBy host prow, n0)
    /\ forall c, In c during -> defaulted fb c.
Proof.
  intros Hi Hl Hb Kp Km hm n0.
  assert (S1 : visitState host hm fb (pre ++ [prow]) emptyInfo 1
               = (resetBy host prow, n0)).
  { rewrite visitState_app. cbn [visitState].
    now rewrite (visitRow_patient hm fb _ _ prow Kp). }
  exists (visitLoop host hm fb mid (resetBy host prow) n0).
  exists (visitLoop host hm fb post
            (fst (visitState host hm fb mid (resetBy host prow) n0))
            (snd (visitState host hm fb mid (resetBy host prow) n0))).
  split; [|split; [reflexivity|split; [exact S1|]]].
  - unfold parseExcelReport. rewrite Hi. cbv zeta. rewrite Hl, Hb. fold hm.
    rewrite visitLoop_app. f_equal. f_equal.
    cbn [visitLoop].
    rewrite (visitRow_patient hm fb _ _ prow Kp). fold n0.
    now rewrite visitLoop_app.
  - apply visitLoop_noInsurance; [now split|exact Km].
Qed.

End WithHost.

Lemma patient_row_resets_witness :
  List.map (fun c => (payer c, provider c, patientName c))
    (match parseExcelReport SampleHost.utc visitSample "Clinic" with
     | Ok claims => claims
     | Err _ => []
     end)
  = [("Unknown Payer", "Clinic", "Bob")]
  /\ exists during after,
       parseExcelReport SampleHost.utc visitSample "Clinic"
       = Ok (visitLoop SampleHost.utc (buildHeaderMap headerRow 0 []) "Clinic"
                       [insuranceRow] emptyInfo 1 ++ during ++ after)
       /\ during
          = visitLoop SampleHost.utc (buildHeaderMap headerRow 0 []) "Clinic"
              [dataRow]
              (resetBy SampleHost.utc [VStr "Patient: Bob"; VStr "Patient ID: 7"])
              (snd (visitState SampleHost.utc (buildHeaderMap headerRow 0 [])
                               "Clinic" [insuranceRow] emptyInfo 1))
       /\ visitState SampleHost.utc (buildHeaderMap headerRow 0 []) "Clinic"
            ([insuranceRow] ++ [[VStr "Patient: Bob"; VStr "Patient ID: 7"]])
            emptyInfo 1
          = (resetBy SampleHost.utc [VStr "Patient: Bob"; VStr "Patient ID: 7"],
             snd (visitState SampleHost.utc (buildHeaderMap headerRow 0 [])
                             "Clinic" [insuranceRow] emptyInfo 1))
       /\ forall c, In c during -> defaulted "Clinic" c.
Proof.
  split; [vm_compute; reflexivity|].
  refine (patient_row_resets SampleHost.utc visitSample "Clinic" 0
            [insuranceRow] [dataRow] []
            [VStr "Patient: Bob"; VStr "Patient ID: 7"] _ _ _ _ _).
  - vm_compute. reflexivity.
  - vm_compute. reflexivity.
  - reflexivity.
  - vm_compute. reflexivity.
  - intros r [<-|[]]. vm_compute. discriminate.
Defined.

(** The claim as first stated: the third row has a cell starting with
    [patient:], no insurance row follows it, and the data row after it is
    still emitted with the payer and provider of the earlier insurance
    row, because a row whose text holds [page:] is skipped. *)
Lemma patient_row_resets_counterexample :
  List.existsb (strCell (startsWith "patient:"))
               [VStr "Patient: Bob"; VStr "Page: 2"] = true
  /\ visitRowKind SampleHost.utc [VStr "Patient: Bob"; VStr "Page: 2"] = Skipped
  /\ List.map (fun c => (payer c, provider c))
       (match parseExcelReport SampleHost.utc pagedSample "Clinic" with
        | Ok claims => claims
        | Err _ => []
        end)
     = [("Aetna", "Dr X")]
  /\ "Aetna" <> "Unknown Payer".
Proof.
  split; [vm_compute; reflexivity|]. split; [vm_compute; reflexivity|].
  split; [vm_compute; reflexivity|discriminate].
Qed.

End VisitFacts.

(* ------------------------------------------------------------------ *)
(** ** The remaining normalizers and the scenarios of the spec *)

Module NormalizerFacts.
Import Str Num JsDate Val Parser StrFacts Spec Samples.

(** X1: the code classifier looks at the first character only, whatever its
    case: A, Q or L give the alpha-prefixed class, a digit the numeric
    class, anything else (the empty code too) the other class. *)
Theorem determineCodeType_cases :
  (forall s, determineCodeType (toUpperCase s) = determineCodeType s)
  /\ (forall c r,
        determineCodeType (String c r)
        = let u := upperChar c in
          if Ascii.eqb u "A" || Ascii.eqb u "Q" || Ascii.eqb u "L" then AQL
          else if isDigit u then NUMERIC else OTHER)
  /\ determineCodeType EmptyString = OTHER
  /\ determineCodeType "A4550" = AQL
  /\ determineCodeType "q4101" = AQL
  /\ determineCodeType "99213" = NUMERIC
  /\ determineCodeType "XR100" = OTHER.
Proof.
  split; [|repeat split].
  intros s. unfold determineCodeType. now rewrite toUpperCase_idem.
Qed.

(** The payer canonicalizer: empty input is the unknown payer; a name that
    holds one of the three UnitedHealthcare spellings, or is the word
    UNITED, in any case, becomes the canonical label; any other name is
    trimmed. *)
Theorem normalizePayerName_cases :
  normalizePayerName EmptyString = "Unknown Payer"
  /\ (forall raw,
        nonEmpty raw = true ->
        let upper := trim (toUpperCase raw) in
        normalizePayerName raw
        = if includes "UNITED HEALTH" upper || includes "UNITEDHEALTH" upper
             || includes "UHC" upper || String.eqb upper "UNITED"
          then "UnitedHealthcare" else trim raw)
  /\ normalizePayerName "uhc of Texas" = "UnitedHealthcare"
  /\ normalizePayerName " United " = "UnitedHealthcare"
  /\ normalizePayerName "United Health Care" = "UnitedHealthcare"
  /\ normalizePayerName "United Airlines" = "United Airlines"
  /\ normalizePayerName "  Aetna " = "Aetna".
Proof.
  split; [reflexivity|]. split; [|repeat split].
  intros raw H. unfold normalizePayerName. now rewrite H.
Qed.

Lemma normalizePayerName_cases_witness :
  normalizePayerName "Medicare UHC" = "UnitedHealthcare".
Proof.
  exact (proj1 (proj2 normalizePayerName_cases) "Medicare UHC" eq_refl).
Defined.

(** The end-to-end scenario of the spec: one data row under the header
    gives one claim with the stated fields (in the UTC zone the sort key is
    the time value of January 15, 2024). *)
Theorem end_to_end_scenario :
  parseClaimsData SampleHost.utc scenarioText EmptyString
  = Ok [mkClaim 1 "Unknown Provider" "A1000" AQL (Fin 2) (Fin 100)
                (Fin 80) "P1" "Unknown Patient" "Aetna"
                (Some (mkDate 2024 0 15 0)) (Fin (inject_Z 1705276800000))
                true].
Proof. vm_compute. reflexivity. Qed.

(** In the applied-payments layout the code cell is tested before it
    is trimmed: a cell of blanks passes, and the claim is emitted with an
    empty code. *)
Theorem payment_row_blank_code :
  List.map (fun c => (cpt c, codeType c, paid c, units c, charge c))
    (match parseExcelReport SampleHost.utc blankCodeReport "Clinic" with
     | Ok claims => claims
     | Err _ => []
     end)
  = [(EmptyString, OTHER, Fin 50, Fin 1, Fin 0)].
Proof. vm_compute. reflexivity. Qed.

End NormalizerFacts.

(* ------------------------------------------------------------------ *)
(** ** Export and reparse of whole rows *)

Module ExportFacts.
Import Str Csv StrFacts CsvFacts QuotingFacts Spec Samples.

(** Inside quotes: the doubled text, the closing quote, and then text that
    does not begin with a quote. *)
Lemma scan_quoted_then (delim : ascii) (s rest : string) :
  noQuoteAhead rest = true ->
  forall rs r acc,
    scan delim (doubleQuotes s ++ String DQUOTE rest)%string
         (mkState rs r acc true)
    = scan delim rest (mkState rs r (acc ++ s)%string false).
Proof.
  intros Hrest. induction s as [|c s IH]; intros rs r acc.
  - cbn [doubleQuotes append scan inQuotes rows row field].
    replace (Ascii.eqb DQUOTE DQUOTE) with true by reflexivity.
    rewrite StrFacts.app_nil_r.
    destruct rest as [|c' rest']; [reflexivity|].
    cbn [noQuoteAhead] in Hrest. apply negb_true_iff in Hrest.
    now rewrite Hrest.
  - cbn [doubleQuotes]. destruct (Ascii.eqb c DQUOTE) eqn:E.
    + apply Ascii.eqb_eq in E. subst c.
      cbn [append scan inQuotes rows row field].
      rewrite Ascii.eqb_refl. rewrite IH. now rewrite snoc_app.
    + cbn [append scan inQuotes rows row field].
      rewrite E. rewrite IH. now rewrite snoc_app.
Qed.

(** Outside quotes: a run of ordinary characters, and then the rest. *)
Lemma scan_plain_then (delim : ascii) (s rest : string) :
  existsb (fun c => Ascii.eqb c DQUOTE || Ascii.eqb c delim
                    || Ascii.eqb c LF || Ascii.eqb c CR) s = false ->
  forall rs r acc,
    scan delim (s ++ rest)%string (mkState rs r acc false)
    = scan delim rest (mkState rs r (acc ++ s)%string false).
Proof.
  induction s as [|c s IH]; intros H rs r acc.
  - cbn [append]. now rewrite StrFacts.app_nil_r.
  - simpl in H. apply orb_false_iff in H as [Hc Hs].
    repeat (apply orb_false_iff in Hc as [Hc ?]).
    cbn [append scan inQuotes rows row field].
    rewrite Hc, H, H0, H1. cbn [negb].
    rewrite IH by assumption. now rewrite snoc_app.
Qed.

(** A bare field that is safe has no character the tokenizer treats
    specially. *)
Lemma safe_bare_plain (f : string) :
  safeField f -> needsQuoting f = false ->
  existsb (fun c => Ascii.eqb c DQUOTE || Ascii.eqb c COMMA
                    || Ascii.eqb c LF || Ascii.eqb c CR) f = false.
Proof.
  intros [S|S] N; [congruence|]. now apply bare_is_plain.
Qed.

(** One escaped field is read into the field buffer. *)
Lemma scan_field (f rest : string) :
  safeField f -> noQuoteAhead rest = true ->
  forall rs r,
    scan COMMA (escape f ++ rest)%string (mkState rs r EmptyString false)
    = scan COMMA rest (mkState rs r f false).
Proof.
  intros S Hrest rs r. unfold escape.
  destruct (needsQuoting f) eqn:Q.
  - cbn [append scan inQuotes rows row field].
    replace (Ascii.eqb DQUOTE DQUOTE) with true by reflexivity.
    rewrite StrFacts.app_assoc. cbn [append].
    now rewrite scan_quoted_then.
  - now rewrite scan_plain_then by now apply safe_bare_plain.
Qed.

Lemma csvLine_cons (f : string) (fs : list string) :
  csvLine (f :: fs)
  = match fs with
    | [] => escape f
    | _ :: _ => (escape f ++ String COMMA (csvLine fs))%string
    end.
Proof. unfold csvLine. cbn [List.map String.concat]. now destruct fs. Qed.

(** One line is read into the row buffer, the last field staying in the
    field buffer. *)
Lemma scan_line (fs : list string) :
  fs <> [] -> Forall safeField fs ->
  forall rest rs r,
    noQuoteAhead rest = true ->
    scan COMMA (csvLine fs ++ rest)%string (mkState rs r EmptyString false)
    = scan COMMA rest
           (mkState rs (r ++ removelast fs) (last fs EmptyString) false).
Proof.
  induction fs as [|f fs IH]; intros Hne Hs rest rs r Hrest; [contradiction|].
  inversion Hs as [|? ? Hf Hfs]; subst.
  rewrite csvLine_cons. destruct fs as [|f2 fs].
  - rewrite scan_field by assumption. cbn [removelast last].
    now rewrite List.app_nil_r.
  - rewrite StrFacts.app_assoc. rewrite scan_field by (assumption || reflexivity).
    cbn [append scan inQuotes rows row field].
    replace (Ascii.eqb COMMA DQUOTE) with false by reflexivity.
    rewrite Ascii.eqb_refl.
    rewrite IH by (assumption || discriminate).
    cbn [removelast last]. now rewrite <- List.app_assoc.
Qed.

Lemma csvContent_cons (row : list string) (rows : list (list string)) :
  csvContent (row :: rows)
  = match rows with
    | [] => csvLine row
    | _ :: _ => (csvLine row ++ String LF (csvContent rows))%string
    end.
Proof. unfold csvContent. cbn [List.map String.concat]. now destruct rows. Qed.

(** The whole content is read row by row; the last row stays in the
    buffers. *)
Lemma scan_content (rows : list (list string)) :
  rows <> [] ->
  (forall row, In row rows -> row <> [] /\ Forall safeField row) ->
  forall rs,
    scan COMMA (csvContent rows) (mkState rs [] EmptyString false)
    = mkState (rs ++ removelast rows) (removelast (last rows []))
              (last (last rows []) EmptyString) false.
Proof.
  induction rows as [|row rows IH]; intros Hne Hall rs; [contradiction|].
  destruct (Hall row (or_introl eq_refl)) as [Hrow Hsafe].
  rewrite csvContent_cons. destruct rows as [|row2 rows].
  - rewrite <- (StrFacts.app_nil_r (csvLine row)).
    rewrite scan_line by (assumption || reflexivity).
    cbn [scan removelast last List.app]. now rewrite List.app_nil_r.
  - rewrite scan_line by (assumption || reflexivity).
    cbn [scan inQuotes Csv.rows Csv.row field List.app].
    replace (Ascii.eqb LF DQUOTE) with false by reflexivity.
    replace (Ascii.eqb LF COMMA) with false by reflexivity.
    rewrite Ascii.eqb_refl.
    rewrite <- (app_removelast_last EmptyString Hrow).
    rewrite IH; [|discriminate|intros r Hr; apply Hall; now right].
    cbn [removelast last]. now rewrite <- List.app_assoc.
Qed.

Lemma In_last {A : Type} (l : list A) (d : A) : l <> [] -> In (last l d) l.
Proof.
  induction l as [|x l IH]; intros H; [contradiction|].
  destruct l as [|y l]; [now left|].
  right. apply IH. discriminate.
Qed.

(** X2: export and reparse: the exported content of rows of text fields, each
    row with a field or more, each field quoted by [escape] or free of
    carriage returns, and the last row not the single empty field, is
    tokenized back into exactly those rows. *)
Theorem export_reparse (rows : list (list string)) :
  (forall row, In row rows -> row <> [] /\ Forall safeField row) ->
  last rows [] <> [EmptyString] ->
  parseCSVLine (csvContent rows) COMMA = rows.
Proof.
  intros Hall Hlast. unfold parseCSVLine, init.
  destruct rows as [|row0 rows0] eqn:E; [reflexivity|]. rewrite <- E in *.
  assert (Hne : rows <> []) by (rewrite E; discriminate).
  rewrite scan_content by assumption. unfold flush.
  cbn [Csv.rows Csv.row field List.app].
  assert (Hl : last rows [] <> []).
  { apply (Hall (last rows [])). now apply In_last. }
  assert (T : nonEmpty (last (last rows []) EmptyString)
              || negb (Nat.eqb (List.length (removelast (last rows []))) 0)
              = true).
  { destruct (last rows []) as [|f fs] eqn:L; [contradiction|].
    destruct fs as [|f2 fs].
    - cbn [last removelast List.length Nat.eqb negb].
      destruct f; [contradiction|reflexivity].
    - apply orb_true_iff. right.
      destruct (removelast (f :: f2 :: fs)) eqn:R; [|reflexivity].
      discriminate R. }
  rewrite T.
  rewrite <- (app_removelast_last EmptyString Hl).
  now rewrite <- (app_removelast_last [] Hne).
Qed.

Lemma export_reparse_witness :
  parseCSVLine (csvContent exportSample) COMMA = exportSample.
Proof.
  apply export_reparse.
  - intros row [<-|[<-|[]]]; (split; [discriminate|]);
      repeat constructor; (right; reflexivity) || (left; reflexivity).
  - discriminate.
Defined.

End ExportFacts.

(* ------------------------------------------------------------------ *)
(** ** Trimming *)

Module TrimFacts.
Import Str StrFacts ParserProps.

Lemma headOk_trimStart (s : string) : headOk (trimStart s) = true.
Proof.
  induction s as [|c s IH]; [reflexivity|]. cbn [trimStart].
  destruct (isWhite c) eqn:E; [exact IH|]. cbn [headOk]. now rewrite E.
Qed.

Lemma trimStart_headOk (s : string) : headOk s = true -> trimStart s = s.
Proof.
  destruct s as [|c s]; [reflexivity|]. cbn [headOk trimStart].
  intros H. apply negb_true_iff in H. now rewrite H.
Qed.

(** What [trimStart] removes is a prefix. *)
Lemma trimStart_prefix (s : string) :
  exists ws, s = (ws ++ trimStart s)%string.
Proof.
  induction s as [|c s [ws IH]]; [now exists EmptyString|].
  cbn [trimStart]. destruct (isWhite c).
  - exists (String c ws). cbn [append]. now rewrite <- IH.
  - now exists EmptyString.
Qed.

Lemma headOk_app (a b : string) :
  nonEmpty a = true -> headOk (a ++ b) = headOk a.
Proof. destruct a; [discriminate|reflexivity]. Qed.

(** The reverse of what is left of reversed text with a good head has a
    good head again. *)
Lemma headOk_rev_trimStart_rev (u : string) :
  headOk u = true -> headOk (rev (trimStart (rev u))) = true.
Proof.
  intros H. destruct (trimStart_prefix (rev u)) as [ws E].
  assert (U : u = (rev (trimStart (rev u)) ++ rev ws)%string).
  { rewrite <- rev_app, <- E. now rewrite rev_involutive. }
  destruct (rev (trimStart (rev u))) as [|c w] eqn:W; [reflexivity|].
  rewrite U in H. exact H.
Qed.

Lemma headOk_trim (s : string) : headOk (trim s) = true.
Proof.
  unfold trim, trimEnd. apply headOk_rev_trimStart_rev, headOk_trimStart.
Qed.

(** Trimming twice is trimming once. *)
Lemma trim_idem (s : string) : trim (trim s) = trim s.
Proof.
  unfold trim at 1. rewrite (trimStart_headOk _ (headOk_trim s)).
  unfold trimEnd, trim at 1, trimEnd. rewrite rev_involutive.
  rewrite (trimStart_headOk (trimStart (rev (trimStart s))))
    by apply headOk_trimStart.
  reflexivity.
Qed.

Lemma isWhite_upperChar (c : ascii) : isWhite (upperChar c) = isWhite c.
Proof. destruct c as [[] [] [] [] [] [] [] []]; reflexivity. Qed.

Lemma map_app (f : ascii -> ascii) (a b : string) :
  map f (a ++ b) = (map f a ++ map f b)%string.
Proof. induction a as [|c a IH]; cbn; [reflexivity|now rewrite IH]. Qed.

Lemma map_rev (f : ascii -> ascii) (s : string) : map f (rev s) = rev (map f s).
Proof.
  induction s as [|c s IH]; [reflexivity|].
  cbn [map]. now rewrite !rev_cons, map_app, IH.
Qed.

Lemma trimStart_upper (s : string) :
  trimStart (toUpperCase s) = toUpperCase (trimStart s).
Proof.
  unfold toUpperCase. induction s as [|c s IH]; [reflexivity|].
  cbn [map trimStart]. rewrite isWhite_upperChar.
  destruct (isWhite c); [exact IH|reflexivity].
Qed.

(** Upper-casing and trimming commute. *)
Lemma trim_upper (s : string) : trim (toUpperCase s) = toUpperCase (trim s).
Proof.
  unfold trim, trimEnd. rewrite trimStart_upper.
  unfold toUpperCase at 1. rewrite <- map_rev. fold (toUpperCase (rev (trimStart s))).
  rewrite trimStart_upper. unfold toUpperCase. now rewrite map_rev.
Qed.

End TrimFacts.

(* ------------------------------------------------------------------ *)
(** ** The report parser: which rows become claims *)

Module ReportFacts.
Import Str Num JsDate Val Parser StrFacts Spec Samples ParserProps ParserSamples.

Lemma findIndex_None {A : Type} (p : A -> bool) (l : list A) :
  findIndex p l = None <-> List.existsb p l = false.
Proof.
  induction l as [|x l IH]; cbn [findIndex List.existsb]; [tauto|].
  destruct (p x); cbn [orb].
  - split; discriminate.
  - destruct (findIndex p l); [|tauto].
    split; [discriminate|]. intros H. apply IH in H. discriminate.
Qed.

(** The index found is that of the first element that passes. *)
Lemma findIndex_Some {A : Type} (p : A -> bool) (d : A) (l : list A) :
  forall i, findIndex p l = Some i ->
    p (nth i l d) = true
    /\ forall j, (j < i)%nat -> p (nth j l d) = false.
Proof.
  induction l as [|x l IH]; intros i; cbn [findIndex]; [discriminate|].
  destruct (p x) eqn:E.
  - intros [= <-]. split; [exact E|]. intros j Hj. lia.
  - destruct (findIndex p l) as [k|]; [|discriminate].
    intros [= <-]. destruct (IH k eq_refl) as [H1 H2]. split; [exact H1|].
    intros [|j] Hj; [exact E|]. apply H2. lia.
Qed.

Section WithHost.
Variable host : Host.t.

Lemma paymentRow_kept hm cur n row :
  match paymentRow host hm cur n row with
  | (prov, Some c) =>
      paymentKept host hm row = true /\ cpt c = paymentCode host hm row
      /\ id c = n /\ prov = cur /\ provider c = providerOr cur
  | (prov, None) => paymentKept host hm row = false
  end.
Proof.
  unfold paymentRow, paymentKept, isAdjustment, rowText.
  destruct (forallb isEmptyStr row); cbn [negb andb]; [reflexivity|].
  destruct (includes "provider name:" (toLowerCase (join host " " row)));
    cbn [negb andb]; [reflexivity|].
  destruct (Val.truthy (column hm "dos" row VNull)
            && Val.truthy (column hm "cpt" row VNull));
    cbn [andb]; [|reflexivity].
  destruct (match hmGet hm "desc." with
            | Some descIdx =>
                includes "adj"
                  (toLowerCase (Val.toString host (at_ row descIdx)))
            | None => false
            end); cbn [negb]; [reflexivity|].
  unfold paymentClaim, paymentCode, providerOr. cbn [cpt id provider orStr].
  repeat split.
Qed.

(** The applied-payments loop keeps the rows that pass, in order, and
    numbers them from the counter on. *)
Lemma paymentLoop_kept hm rows :
  forall cur n,
    List.map cpt (paymentLoop host hm rows cur n)
    = List.map (paymentCode host hm) (List.filter (paymentKept host hm) rows)
    /\ List.map id (paymentLoop host hm rows cur n)
       = List.map (fun k => (n + Z.of_nat k)%Z)
           (List.seq 0 (List.length (paymentLoop host hm rows cur n))).
Proof.
  induction rows as [|row rows IH]; intros cur n; [now split|].
  cbn [paymentLoop List.filter].
  pose proof (paymentRow_kept hm cur n row) as H.
  destruct (paymentRow host hm cur n row) as [prov [c|]].
  - destruct H as [K [C [I _]]]. rewrite K. cbn [List.map List.length List.seq].
    destruct (IH prov (n + 1)%Z) as [IH1 IH2]. rewrite IH1, IH2, C, I. split.
    + reflexivity.
    + f_equal; [f_equal; lia|]. rewrite <- seq_shift, map_map.
      apply map_ext. intros k. lia.
  - rewrite H. apply IH.
Qed.

Lemma visitRow_kept hm fb info n row :
  match visitRow host hm fb info n row with
  | (_, Some c) =>
      visitKept host hm row = true /\ cpt c = visitCode host hm row /\ id c = n
  | (_, None) => visitKept host hm row = false
  end.
Proof.
  unfold visitRow, visitKept, visitCode.
  destruct (visitRowKind host row); try reflexivity.
  destruct ((hasSlashedDate (cellText host hm "date of service" row)
             || isoShaped (cellText host hm "date of service" row))
            && nonEmpty (cellText host hm "cpt" row)); [|reflexivity].
  unfold visitClaim. cbn [cpt id]. repeat split.
Qed.

(** The patient-visit loop keeps the rows that pass, in order, and numbers
    them from the counter on. *)
Lemma visitLoop_kept hm fb rows :
  forall info n,
    List.map cpt (visitLoop host hm fb rows info n)
    = List.map (visitCode host hm) (List.filter (visitKept host hm) rows)
    /\ List.map id (visitLoop host hm fb rows info n)
       = List.map (fun k => (n + Z.of_nat k)%Z)
           (List.seq 0 (List.length (visitLoop host hm fb rows info n))).
Proof.
  induction rows as [|row rows IH]; intros info n; [now split|].
  cbn [visitLoop List.filter].
  pose proof (visitRow_kept hm fb info n row) as H.
  destruct (visitRow host hm fb info n row) as [info' [c|]].
  - destruct H as [K [C I]]. rewrite K. cbn [List.map List.length List.seq].
    destruct (IH info' (n + 1)%Z) as [IH1 IH2]. rewrite IH1, IH2, C, I. split.
    + reflexivity.
    + f_equal; [f_equal; lia|]. rewrite <- seq_shift, map_map.
      apply map_ext. intros k. lia.
  - rewrite H. apply IH.
Qed.

(** X3: the report parser fails exactly when no row holds a header cell, with
    the error that names the missing header.  Otherwise the first row with
    a header cell is the header, the rows above it are ignored, and the
    result is a list of claims numbered from 1: one claim, in order, for
    each row below the header that passes the test of the layout, with the
    code of that row trimmed and in upper case. *)
Theorem parseExcelReport_cases (rows : list (list value)) (fb : string) :
  (noHeaderRow rows = true -> parseExcelReport host rows fb = Err missingDOS)
  /\ (noHeaderRow rows = false ->
      exists i claims,
        findIndex (List.existsb isHeaderCell) rows = Some i
        /\ List.existsb isHeaderCell (nth i rows []) = true
        /\ (forall j, (j < i)%nat ->
              List.existsb isHeaderCell (nth j rows []) = false)
        /\ parseExcelReport host rows fb = Ok claims
        /\ numbered claims
        /\ List.map cpt claims
           = let hm := buildHeaderMap (nth i rows []) 0 [] in
             let body := List.skipn (S i) rows in
             match hmGet hm "applied payments" with
             | Some _ =>
                 List.map (paymentCode host hm)
                          (List.filter (paymentKept host hm) body)
             | None =>
                 List.map (visitCode host hm)
                          (List.filter (visitKept host hm) body)
             end).
Proof.
  unfold noHeaderRow, parseExcelReport, numbered. split.
  - intros H. apply negb_true_iff in H. apply findIndex_None in H.
    now rewrite H.
  - intros H. apply negb_false_iff in H.
    destruct (findIndex (List.existsb isHeaderCell) rows) as [i|] eqn:F.
    2:{ apply findIndex_None in F. congruence. }
    destruct (findIndex_Some _ [] rows i F) as [H1 H2]. cbv zeta.
    exists i.
    destruct (hmGet (buildHeaderMap (nth i rows []) 0 []) "applied payments").
    + destruct (paymentLoop_kept (buildHeaderMap (nth i rows []) 0 [])
                  (skipn (S i) rows) fb 1) as [L1 L2].
      eexists. split; [reflexivity|]. split; [exact H1|]. split; [exact H2|].
      split; [reflexivity|]. split; [exact L2|exact L1].
    + destruct (visitLoop_kept (buildHeaderMap (nth i rows []) 0 []) fb
                  (skipn (S i) rows) emptyInfo 1) as [L1 L2].
      eexists. split; [reflexivity|]. split; [exact H1|]. split; [exact H2|].
      split; [reflexivity|]. split; [exact L2|exact L1].
Qed.

End WithHost.

Lemma parseExcelReport_cases_witness :
  noHeaderRow noHeaderSample = true
  /\ parseExcelReport SampleHost.utc noHeaderSample "Dr" = Err missingDOS
  /\ noHeaderRow paymentSample = false
  /\ List.map (fun c => (id c, cpt c, provider c))
       (match parseExcelReport SampleHost.utc paymentSample "Dr" with
        | Ok claims => claims
        | Err _ => []
        end)
     = [(1%Z, "A4550", "Dr Lee")]
  /\ exists i claims,
       findIndex (List.existsb isHeaderCell) paymentSample = Some i
       /\ List.existsb isHeaderCell (nth i paymentSample []) = true
       /\ (forall j, (j < i)%nat ->
             List.existsb isHeaderCell (nth j paymentSample []) = false)
       /\ parseExcelReport SampleHost.utc paymentSample "Dr" = Ok claims
       /\ numbered claims
       /\ List.map cpt claims
          = let hm := buildHeaderMap (nth i paymentSample []) 0 [] in
            let body := List.skipn (S i) paymentSample in
            match hmGet hm "applied payments" with
            | Some _ =>
                List.map (paymentCode SampleHost.utc hm)
                         (List.filter (paymentKept SampleHost.utc hm) body)
            | None =>
                List.map (visitCode SampleHost.utc hm)
                         (List.filter (visitKept SampleHost.utc hm) body)
            end.
Proof.
  split; [reflexivity|]. split.
  { apply (proj1 (parseExcelReport_cases SampleHost.utc noHeaderSample "Dr")).
    reflexivity. }
  split; [reflexivity|]. split; [vm_compute; reflexivity|].
  apply (proj2 (parseExcelReport_cases SampleHost.utc paymentSample "Dr")).
  reflexivity.
Defined.

End ReportFacts.

(* ------------------------------------------------------------------ *)
(** ** The provider context of the applied-payments layout *)

Module ProviderFacts.
Import Str Num JsDate Val Parser StrFacts Spec Samples ParserProps ParserSamples
       ReportFacts.

Section WithHost.
Variable host : Host.t.

Lemma paymentLoop_app hm a b :
  forall cur n,
    paymentLoop host hm (a ++ b) cur n
    = paymentLoop host hm a cur n
      ++ paymentLoop host hm b (fst (paymentState host hm a cur n))
                     (snd (paymentState host hm a cur n)).
Proof.
  induction a as [|row a IH]; intros cur n; [reflexivity|].
  cbn [List.app paymentLoop paymentState].
  destruct (paymentRow host hm cur n row) as [prov [c|]].
  - now rewrite IH.
  - apply IH.
Qed.

(** A row that names a provider yields no claim and sets the context. *)
Lemma paymentRow_provider hm cur n prow :
  namesProvider host prow = true ->
  paymentRow host hm cur n prow = (providerOfRow host prow cur, None).
Proof.
  unfold namesProvider, rowText, paymentRow. intros H.
  apply andb_true_iff in H as [H1 H2]. apply negb_true_iff in H1.
  now rewrite H1, H2.
Qed.

(** A row that names no provider leaves the context as it is. *)
Lemma paymentRow_keeps hm cur n row :
  namesProvider host row = false ->
  fst (paymentRow host hm cur n row) = cur.
Proof.
  unfold namesProvider, rowText, paymentRow. intros H.
  destruct (forallb isEmptyStr row); [reflexivity|]. cbn [negb andb] in H.
  rewrite H.
  destruct (Val.truthy (column hm "dos" row VNull)
            && Val.truthy (column hm "cpt" row VNull)); [|reflexivity].
  now destruct (match hmGet hm "desc." with
                | Some descIdx =>
                    includes "adj"
                      (toLowerCase (Val.toString host (at_ row descIdx)))
                | None => false
                end).
Qed.

Lemma paymentLoop_provider hm rows :
  forall cur n,
    (forall r, In r rows -> namesProvider host r = false) ->
    forall c, In c (paymentLoop host hm rows cur n) ->
              provider c = providerOr cur.
Proof.
  induction rows as [|row rows IH]; intros cur n HK c; [intros []|].
  cbn [paymentLoop].
  pose proof (paymentRow_keeps hm cur n row (HK row (or_introl eq_refl))) as K.
  pose proof (paymentRow_kept host hm cur n row) as P.
  destruct (paymentRow host hm cur n row) as [prov [c'|]]; cbn [fst] in K;
    subst prov.
  - destruct P as [_ [_ [_ [_ P]]]].
    intros [<-|H]; [exact P|].
    eapply IH; [|exact H]. intros r Hr. apply HK. now right.
  - intros H. eapply IH; [|exact H]. intros r Hr. apply HK. now right.
Qed.

(** X4: in the applied-payments layout a row that is not blank and whose text
    holds [provider name:] yields no claim and sets the provider context:
    to what is left, trimmed, of the first cell holding that label once
    the label is removed; the context stays as it was when nothing is left
    or when no single cell holds the label.  Every claim of the rows after
    it, up to the next such row, carries that provider, or [Unknown
    Provider] when the context is empty. *)
Theorem provider_row_sets_context (rows : list (list value)) (fb : string)
    (i : nat) (pre mid post : list (list value)) (prow : list value) :
  findIndex (List.existsb isHeaderCell) rows = Some i ->
  layoutOf rows = Some true ->
  List.skipn (S i) rows = pre ++ prow :: mid ++ post ->
  namesProvider host prow = true ->
  (forall r, In r mid -> namesProvider host r = false) ->
  let hm := buildHeaderMap (nth i rows []) 0 [] in
  let before := paymentState host hm pre fb 1 in
  let name :=
    match List.find (strCell (includes "provider name:")) prow with
    | Some cell =>
        let left :=
          trim (removeFirstCI "provider name:" (Val.toString host cell)) in
        if nonEmpty left then left else fst before
    | None => fst before
    end in
  exists during after,
    parseExcelReport host rows fb
    = Ok (paymentLoop host hm pre fb 1 ++ during ++ after)
    /\ during = paymentLoop host hm mid name (snd before)
    /\ paymentState host hm (pre ++ [prow]) fb 1 = (name, snd before)
    /\ forall c, In c during -> provider c = providerOr name.
Proof.
  intros Hi Hl Hb Kp Km hm before name.
  assert (N : providerOfRow host prow (fst before) = name).
  { unfold providerOfRow, name.
    destruct (List.find (strCell (includes "provider name:")) prow);
      reflexivity. }
  assert (S1 : paymentState host hm (pre ++ [prow]) fb 1 = (name, snd before)).
  { clear Hb.
    assert (G : forall a cur n,
               paymentState host hm (a ++ [prow]) cur n
               = (providerOfRow host prow (fst (paymentState host hm a cur n)),
                  snd (paymentState host hm a cur n))).
    { induction a as [|row a IH]; intros cur n.
      - cbn [List.app paymentState fst snd].
        now rewrite (paymentRow_provider hm cur n prow Kp).
      - cbn [List.app paymentState].
        destruct (paymentRow host hm cur n row) as [prov [c|]]; apply IH. }
    rewrite G. fold before. now rewrite N. }
  exists (paymentLoop host hm mid name (snd before)).
  exists (paymentLoop host hm post
            (fst (paymentState host hm mid name (snd before)))
            (snd (paymentState host hm mid name (snd before)))).
  split; [|split; [reflexivity|split; [exact S1|]]].
  - unfold layoutOf in Hl. unfold parseExcelReport. rewrite Hi in *. cbv zeta.
    fold hm in Hl |- *.
    destruct (hmGet hm "applied payments"); [|discriminate].
    rewrite Hb. rewrite paymentLoop_app. f_equal. f_equal.
    cbn [paymentLoop]. fold before.
    rewrite (paymentRow_provider hm _ _ prow Kp), N.
    now rewrite paymentLoop_app.
  - apply paymentLoop_provider. exact Km.
Qed.

End WithHost.

Lemma provider_row_sets_context_witness :
  exists during after,
    parseExcelReport SampleHost.utc paymentSample "Dr"
    = Ok (paymentLoop SampleHost.utc
            (buildHeaderMap (nth 1 paymentSample []) 0 []) [] "Dr" 1
          ++ during ++ after)
    /\ during
       = paymentLoop SampleHost.utc
           (buildHeaderMap (nth 1 paymentSample []) 0 [])
           (List.skipn 3 paymentSample) "Dr Lee" 1
    /\ paymentState SampleHost.utc
         (buildHeaderMap (nth 1 paymentSample []) 0 [])
         ([] ++ [nth 2 paymentSample []]) "Dr" 1
       = ("Dr Lee", 1%Z)
    /\ forall c, In c during -> provider c = providerOr "Dr Lee".
Proof.
  refine (provider_row_sets_context SampleHost.utc paymentSample "Dr" 1
            [] (List.skipn 3 paymentSample) [] (nth 2 paymentSample [])
            _ _ _ _ _).
  - vm_compute. reflexivity.
  - vm_compute. reflexivity.
  - reflexivity.
  - vm_compute. reflexivity.
  - intros r [<-|[<-|[<-|[]]]]; vm_compute; reflexivity.
Defined.

End ProviderFacts.

(* ------------------------------------------------------------------ *)
(** ** Column resolution and the defaults of the delimited-text parser *)

Module ColumnFacts.
Import Str Num JsDate Val Parser StrFacts Spec Samples ParserProps ParserSamples
       TrimFacts CsvParserFacts.

(** [indexOf] gives the first position of the name. *)
Lemma indexOf_first header cand :
  forall i, indexOf header cand = Some i <->
            nth_error header i = Some cand
            /\ forall j, (j < i)%nat -> nth_error header j <> Some cand.
Proof.
  induction header as [|h r IH]; intros i; cbn [indexOf].
  - split; [discriminate|]. intros [H _]. now destruct i.
  - destruct (String.eqb h cand) eqn:E.
    + apply String.eqb_eq in E. subst h. split.
      * intros [= <-]. split; [reflexivity|]. intros j Hj. lia.
      * intros [H1 H2]. destruct i as [|i]; [reflexivity|].
        exfalso. apply (H2 O); [lia|reflexivity].
    + apply String.eqb_neq in E. split.
      * destruct (indexOf r cand) as [k|] eqn:K; [|discriminate].
        intros [= <-]. destruct (proj1 (IH k) eq_refl) as [K1 K2].
        split; [exact K1|].
        intros [|j] Hj; cbn [nth_error]; [congruence|]. apply K2. lia.
      * intros [H1 H2]. destruct i as [|i]; cbn [nth_error] in H1; [congruence|].
        assert (K : indexOf r cand = Some i).
        { apply IH. split; [exact H1|]. intros j Hj. apply (H2 (S j)). lia. }
        now rewrite K.
Qed.

(** X5: the column of a field is that of the first candidate name, in the
    order of the candidate list, that the header holds at all, and among
    the columns with that name the leftmost; the position of the column in
    the header plays no part in the choice of the name. *)
Theorem findIdx_priority (header cands : list string) (i : nat) :
  findIdx header cands = Some i <->
  exists pre cand post,
    cands = pre ++ cand :: post
    /\ (forall x, In x pre -> ~ In x header)
    /\ nth_error header i = Some cand
    /\ forall j, (j < i)%nat -> nth_error header j <> Some cand.
Proof.
  revert i. induction cands as [|c cands IH]; intros i; cbn [findIdx].
  - split; [discriminate|]. intros [pre [cand [post [H _]]]].
    now destruct pre.
  - destruct (indexOf header c) as [k|] eqn:K.
    + split.
      * intros [= <-]. exists [], c, cands. split; [reflexivity|].
        split; [intros x []|]. now apply indexOf_first.
      * intros [pre [cand [post [E [Hpre [H1 H2]]]]]].
        destruct pre as [|x pre]; cbn [List.app] in E.
        -- injection E as <- <-. f_equal. symmetry.
           assert (K' : indexOf header c = Some i) by now apply indexOf_first.
           congruence.
        -- injection E as <- _. exfalso.
           apply (Hpre c (or_introl eq_refl)).
           apply indexOf_first in K as [K _]. eapply nth_error_In. exact K.
    + apply indexOf_None in K. rewrite IH. split.
      * intros [pre [cand [post [E [Hpre H]]]]].
        exists (c :: pre), cand, post. split; [now rewrite E|].
        split; [|exact H]. intros x [<-|Hx]; [exact K|now apply Hpre].
      * intros [pre [cand [post [E [Hpre [H1 H2]]]]]].
        destruct pre as [|x pre]; cbn [List.app] in E.
        -- injection E as <- <-. exfalso. apply K.
           eapply nth_error_In. exact H1.
        -- injection E as <- ->. exists pre, cand, post.
           split; [reflexivity|]. split; [|now split].
           intros y Hy. apply Hpre. now right.
Qed.

(** With the columns [paid], [cpt] and [insurance_payment], the payment is
    read from the third column: its name comes first among the
    candidates. *)
Example paid_column_choice :
  findIdx twoPaidColumns
          ["insurance_payment"; "paid"; "payment"; "ins paid"] = Some 2%nat
  /\ iPaid (resolveColumns twoPaidColumns) = Some 2%nat.
Proof. split; reflexivity. Qed.

Section WithHost.
Variable host : Host.t.

Lemma csvRowClaim_defaults iCPT cols fb n row c :
  csvRowClaim host iCPT cols fb n row = Some c -> defaultsFor cols fb c.
Proof.
  unfold csvRowClaim.
  destruct (nth_error row iCPT) as [raw|]; [|discriminate].
  destruct (negb (nonEmpty raw)); [discriminate|].
  destruct (negb (nonEmpty (trim raw))); [discriminate|].
  intros [= <-]. unfold defaultsFor.
  cbn [units charge paid isPaid patientId patientName payer dos dateSort
       provider].
  repeat match goal with |- _ /\ _ => split end; intros E; rewrite E;
    cbn [cell ofOption orStr]; try (split; reflexivity); reflexivity.
Qed.

Lemma csvLoop_defaults iCPT cols fb rows :
  forall n, Forall (defaultsFor cols fb) (csvLoop host iCPT cols fb rows n).
Proof.
  induction rows as [|row rows IH]; intros n; [constructor|].
  cbn [csvLoop].
  destruct (csvRowClaim host iCPT cols fb n row) as [c|] eqn:E; [|apply IH].
  constructor; [|apply IH]. eapply csvRowClaim_defaults. exact E.
Qed.

Lemma parsed_defaults (text fb : string) (claims : list Claim) :
  parseClaimsData host text fb = Ok claims ->
  Forall (defaultsFor (resolveColumns (headerOf text)) fb) claims.
Proof.
  unfold parseClaimsData. fold (rawRowsOf text). fold (headerOf text).
  destruct (List.length (rawRowsOf text) <? 2)%nat.
  - intros [= <-]. constructor.
  - destruct (findIdx (headerOf text) cptCandidates); [|discriminate].
    intros [= <-]. apply csvLoop_defaults.
Qed.

(** X6: every column but the code column is optional.  For a field whose
    column the header does not name, every claim holds the default: units,
    charge and paid 0 (so the claim counts as unpaid), the identifier
    [Unknown ID], the name [Unknown Patient], the payer [Unknown Payer], no
    date with the sort key 0, and as provider the caller's fallback, or
    [Unknown Provider] when that is empty. *)
Theorem missing_columns_default (text fb : string) (claims : list Claim) :
  parseClaimsData host text fb = Ok claims ->
  Forall (defaultsFor (resolveColumns (headerOf text)) fb) claims.
Proof. exact (parsed_defaults text fb claims). Qed.

End WithHost.

Lemma missing_columns_default_witness :
  parseClaimsData SampleHost.utc codeOnly EmptyString
  = Ok [mkClaim 1 "Unknown Provider" "99213" NUMERIC zero zero zero
                "Unknown ID" "Unknown Patient" "Unknown Payer" None zero
                false]
  /\ Forall (defaultsFor (resolveColumns (headerOf codeOnly)) EmptyString)
       [mkClaim 1 "Unknown Provider" "99213" NUMERIC zero zero zero
                "Unknown ID" "Unknown Patient" "Unknown Payer" None zero
                false].
Proof.
  assert (E : parseClaimsData SampleHost.utc codeOnly EmptyString
              = Ok [mkClaim 1 "Unknown Provider" "99213" NUMERIC zero zero
                            zero "Unknown ID" "Unknown Patient"
                            "Unknown Payer" None zero false]).
  { vm_compute. reflexivity. }
  split; [exact E|].
  exact (missing_columns_default SampleHost.utc codeOnly EmptyString _ E).
Defined.

End ColumnFacts.

(* ------------------------------------------------------------------ *)
(** ** The payer canonicalizer and the text fields of a claim *)

Module LabelFacts.
Import Str Num JsDate Val Parser StrFacts Spec Samples ParserProps ParserSamples
       TrimFacts.

Lemma normalizePayerName_trimmed (raw : string) :
  trimmed (normalizePayerName raw).
Proof.
  unfold normalizePayerName, trimmed.
  destruct (negb (nonEmpty raw)); [reflexivity|].
  destruct (includes "UNITED HEALTH" (trim (toUpperCase raw))
            || includes "UNITEDHEALTH" (trim (toUpperCase raw))
            || includes "UHC" (trim (toUpperCase raw))
            || String.eqb (trim (toUpperCase raw)) "UNITED");
    [reflexivity|apply trim_idem].
Qed.

Lemma nonEmpty_trim (s : string) : nonEmpty (trim s) = true -> nonEmpty s = true.
Proof. destruct s; [discriminate|reflexivity]. Qed.

(** X7: the canonicalizer gives back its own results, and a name it has only
    trimmed, unchanged; a name of white space only becomes the empty text,
    which it then takes for a missing name. *)
Theorem normalizePayerName_idempotent :
  (forall raw,
     nonEmpty (trim raw) = true ->
     normalizePayerName (normalizePayerName raw) = normalizePayerName raw)
  /\ (forall raw, trim (normalizePayerName raw) = normalizePayerName raw)
  /\ (forall raw,
        nonEmpty raw = true -> nonEmpty (trim raw) = false ->
        normalizePayerName raw = EmptyString
        /\ normalizePayerName (normalizePayerName raw) = "Unknown Payer").
Proof.
  split; [|split; [exact normalizePayerName_trimmed|]].
  - intros raw T. pose proof (nonEmpty_trim raw T) as R.
    unfold normalizePayerName at 2 3. rewrite R. cbn [negb].
    destruct (includes "UNITED HEALTH" (trim (toUpperCase raw))
              || includes "UNITEDHEALTH" (trim (toUpperCase raw))
              || includes "UHC" (trim (toUpperCase raw))
              || String.eqb (trim (toUpperCase raw)) "UNITED") eqn:E;
      [reflexivity|].
    unfold normalizePayerName. rewrite T. cbn [negb].
    rewrite <- trim_upper, trim_idem, trim_upper, <- (trim_upper raw), E.
    apply trim_idem.
  - intros raw R T.
    assert (Z : trim raw = EmptyString) by now destruct (trim raw).
    assert (E : normalizePayerName raw = EmptyString).
    { unfold normalizePayerName. rewrite R. cbn [negb].
      rewrite trim_upper, Z. reflexivity. }
    split; [exact E|]. now rewrite E.
Qed.

Lemma normalizePayerName_idempotent_witness :
  normalizePayerName (normalizePayerName " uhc west ") = normalizePayerName " uhc west "
  /\ normalizePayerName (normalizePayerName " Aetna ") = normalizePayerName " Aetna "
  /\ normalizePayerName "  " = EmptyString
  /\ normalizePayerName (normalizePayerName "  ") = "Unknown Payer".
Proof.
  split; [|split].
  - apply (proj1 normalizePayerName_idempotent). reflexivity.
  - apply (proj1 normalizePayerName_idempotent). reflexivity.
  - apply (proj2 (proj2 normalizePayerName_idempotent)); reflexivity.
Defined.

Lemma orStr_nonEmpty (a : option string) (b : string) :
  nonEmpty b = true -> nonEmpty (orStr a b) = true.
Proof.
  intros H. destruct a as [s|]; cbn [orStr]; [|exact H].
  now destruct (nonEmpty s) eqn:E.
Qed.

Section WithHost.
Variable host : Host.t.

Lemma csvRowClaim_labelled iCPT cols fb n row c :
  csvRowClaim host iCPT cols fb n row = Some c -> labelled c /\ identified c.
Proof.
  unfold csvRowClaim.
  destruct (nth_error row iCPT) as [raw|]; [|discriminate].
  destruct (negb (nonEmpty raw)); [discriminate|].
  destruct (negb (nonEmpty (trim raw))); [discriminate|].
  intros [= <-]. unfold labelled, identified.
  cbn [provider payer patientId patientName].
  split; split.
  - apply orStr_nonEmpty. now destruct fb.
  - apply normalizePayerName_trimmed.
  - now apply orStr_nonEmpty.
  - now apply orStr_nonEmpty.
Qed.

Lemma csvLoop_labelled iCPT cols fb rows :
  forall n, Forall (fun c => labelled c /\ identified c)
                   (csvLoop host iCPT cols fb rows n).
Proof.
  induction rows as [|row rows IH]; intros n; [constructor|].
  cbn [csvLoop].
  destruct (csvRowClaim host iCPT cols fb n row) as [c|] eqn:E; [|apply IH].
  constructor; [|apply IH]. eapply csvRowClaim_labelled. exact E.
Qed.

Lemma paymentLoop_labelled hm rows :
  forall cur n, Forall labelled (paymentLoop host hm rows cur n).
Proof.
  induction rows as [|row rows IH]; intros cur n; [constructor|].
  cbn [paymentLoop]. unfold paymentRow.
  destruct (forallb isEmptyStr row); [apply IH|].
  destruct (includes "provider name:" (toLowerCase (join host " " row)));
    [apply IH|].
  destruct (Val.truthy (column hm "dos" row VNull)
            && Val.truthy (column hm "cpt" row VNull)); [|apply IH].
  destruct (match hmGet hm "desc." with
            | Some descIdx =>
                includes "adj"
                  (toLowerCase (Val.toString host (at_ row descIdx)))
            | None => false
            end); [apply IH|].
  constructor; [|apply IH]. unfold labelled, paymentClaim.
  cbn [provider payer]. split.
  - now apply orStr_nonEmpty.
  - destruct (hmGet hm "payer"); [apply normalizePayerName_trimmed|reflexivity].
Qed.

Lemma visitLoop_labelled hm fb rows :
  forall info n, Forall (fun c => labelled c /\ identified c)
                        (visitLoop host hm fb rows info n).
Proof.
  induction rows as [|row rows IH]; intros info n; [constructor|].
  cbn [visitLoop]. unfold visitRow.
  destruct (visitRowKind host row); try apply IH.
  destruct ((hasSlashedDate (cellText host hm "date of service" row)
             || isoShaped (cellText host hm "date of service" row))
            && nonEmpty (cellText host hm "cpt" row)); [|apply IH].
  constructor; [|apply IH]. unfold labelled, identified, visitClaim.
  cbn [provider payer patientId patientName]. split; split.
  - apply orStr_nonEmpty. now destruct fb.
  - apply normalizePayerName_trimmed.
  - now apply orStr_nonEmpty.
  - now apply orStr_nonEmpty.
Qed.

(** X8: every claim of either parser has a provider that is not empty and a
    payer without white space around it (the payer itself is empty when
    its cell held white space only); the claims of the delimited-text
    parser and of the patient-visit layout also have a patient identifier
    and a patient name that are not empty. *)
Theorem claim_text_fields :
  (forall text fb claims,
     parseClaimsData host text fb = Ok claims ->
     Forall (fun c => labelled c /\ identified c) claims)
  /\ (forall rows fb claims,
        parseExcelReport host rows fb = Ok claims ->
        Forall labelled claims
        /\ (layoutOf rows = Some false -> Forall identified claims)).
Proof.
  split.
  - intros text fb claims. unfold parseClaimsData.
    destruct (List.length _ <? 2)%nat.
    + intros [= <-]. constructor.
    + destruct (findIdx _ cptCandidates); [|discriminate].
      intros [= <-]. apply csvLoop_labelled.
  - intros rows fb claims. unfold parseExcelReport, layoutOf.
    destruct (findIndex (List.existsb isHeaderCell) rows) as [i|];
      [|discriminate].
    destruct (hmGet (buildHeaderMap (nth i rows []) 0 []) "applied payments").
    + intros [= <-]. split; [apply paymentLoop_labelled|discriminate].
    + intros [= <-].
      pose proof (visitLoop_labelled (buildHeaderMap (nth i rows []) 0 []) fb
                    (skipn (S i) rows) emptyInfo 1) as H.
      split; [|intros _]; (eapply Forall_impl; [|exact H]); now intros c [L I].
Qed.

End WithHost.

(** A payer cell of two blanks gives a claim with an empty payer. *)
Lemma claim_text_fields_witness :
  parseClaimsData SampleHost.utc
    ("cpt,payer" ++ String LF "99213,  ")%string EmptyString
  = Ok [mkClaim 1 "Unknown Provider" "99213" NUMERIC zero zero zero
                "Unknown ID" "Unknown Patient" EmptyString None zero false]
  /\ Forall (fun c => labelled c /\ identified c)
       [mkClaim 1 "Unknown Provider" "99213" NUMERIC zero zero zero
                "Unknown ID" "Unknown Patient" EmptyString None zero false].
Proof.
  assert (E : parseClaimsData SampleHost.utc
                ("cpt,payer" ++ String LF "99213,  ")%string EmptyString
              = Ok [mkClaim 1 "Unknown Provider" "99213" NUMERIC zero zero
                            zero "Unknown ID" "Unknown Patient" EmptyString
                            None zero false]).
  { vm_compute. reflexivity. }
  split; [exact E|].
  exact (proj1 (claim_text_fields SampleHost.utc) _ _ _ E).
Defined.

End LabelFacts.

(* ------------------------------------------------------------------ *)
(** ** The tokenizer on text without quotes *)

Module TokenizerFacts.
Import Str Csv StrFacts CsvFacts Spec TokenProps TokenSamples.

Lemma unsplit_snoc delim rows r :
  unsplit delim (rows ++ [r]) = (unsplit delim rows ++ lineOf delim r)%string.
Proof.
  induction rows as [|x rows IH]; cbn [List.app unsplit].
  - now rewrite StrFacts.app_nil_r.
  - now rewrite IH, StrFacts.app_assoc.
Qed.

Lemma delimited_snoc delim r f :
  delimited delim (r ++ [f])
  = (delimited delim r ++ f ++ String delim EmptyString)%string.
Proof.
  induction r as [|x r IH]; cbn [List.app delimited append].
  - reflexivity.
  - rewrite IH, !StrFacts.app_assoc. reflexivity.
Qed.

Lemma concat_snoc delim r f :
  String.concat (String delim EmptyString) (r ++ [f])
  = (delimited delim r ++ f)%string.
Proof.
  induction r as [|x r IH]; [reflexivity|].
  cbn [List.app delimited]. cbn [String.concat].
  destruct (r ++ [f]) as [|y l] eqn:E; [now destruct r|].
  rewrite IH. rewrite StrFacts.app_assoc. reflexivity.
Qed.

Lemma plainField_snoc delim f c :
  plainField delim f = true ->
  Ascii.eqb c delim = false -> Ascii.eqb c LF = false ->
  Ascii.eqb c CR = false ->
  plainField delim (snoc f c) = true.
Proof.
  unfold plainField, snoc. intros H D L C. apply negb_true_iff in H.
  rewrite existsb_app, H. cbn [existsb]. now rewrite D, L, C.
Qed.

(** Outside quotes and on text without quotes the tokenizer stays outside
    quotes, takes in every character but the carriage returns, and keeps
    the fields plain. *)
Lemma scan_unquoted (delim : ascii) (text : string) :
  Ascii.eqb delim LF = false -> Ascii.eqb delim CR = false ->
  includesChar DQUOTE text = false ->
  forall st, inQuotes st = false -> clean delim st ->
    inQuotes (scan delim text st) = false
    /\ clean delim (scan delim text st)
    /\ written delim (scan delim text st)
       = (written delim st ++ stripCR text)%string.
Proof.
  intros DL DC. induction text as [|c text IH]; intros Q st I K.
  - cbn [scan stripCR filter]. now rewrite StrFacts.app_nil_r.
  - unfold includesChar in Q, IH. cbn [existsb] in Q.
    apply orb_false_iff in Q as [Qc Q]. rewrite Ascii.eqb_sym in Qc.
    destruct st as [rs r f q]. cbn [inQuotes] in I. subst q.
    destruct K as [K1 [K2 K3]]. cbn [rows row field] in K1, K2, K3.
    cbn [scan inQuotes rows row field]. rewrite Qc.
    destruct (Ascii.eqb c delim) eqn:D.
    + apply Ascii.eqb_eq in D. subst c.
      destruct (IH Q (mkState rs (r ++ [f]) EmptyString false) eq_refl)
        as [H1 [H2 H3]].
      { split; [exact K1|]. split; [|reflexivity].
        apply Forall_app. split; [exact K2|now constructor]. }
      split; [exact H1|]. split; [exact H2|]. rewrite H3.
      unfold written. cbn [rows row field stripCR filter].
      rewrite DC. cbn [negb]. rewrite delimited_snoc.
      rewrite !StrFacts.app_assoc. cbn [append].
      rewrite ?StrFacts.app_nil_r. reflexivity.
    + destruct (Ascii.eqb c LF) eqn:L.
      * apply Ascii.eqb_eq in L. subst c.
        destruct (IH Q (mkState (rs ++ [r ++ [f]]) [] EmptyString false)
                     eq_refl) as [H1 [H2 H3]].
        { split; [|split; [constructor|reflexivity]].
          apply Forall_app. split; [exact K1|]. constructor; [|constructor].
          apply Forall_app. split; [exact K2|now constructor]. }
        split; [exact H1|]. split; [exact H2|]. rewrite H3.
        unfold written. cbn [rows row field stripCR filter delimited append].
        replace (Ascii.eqb LF CR) with false by reflexivity. cbn [negb].
        rewrite unsplit_snoc. unfold lineOf. rewrite concat_snoc.
        rewrite !StrFacts.app_assoc. cbn [append].
        rewrite ?StrFacts.app_nil_r. reflexivity.
      * destruct (Ascii.eqb c CR) eqn:C; cbn [negb].
        -- destruct (IH Q (mkState rs r f false) eq_refl) as [H1 [H2 H3]].
           { now split. }
           split; [exact H1|]. split; [exact H2|]. rewrite H3.
           cbn [stripCR filter]. now rewrite C.
        -- destruct (IH Q (mkState rs r (snoc f c) false) eq_refl)
             as [H1 [H2 H3]].
           { split; [exact K1|]. split; [exact K2|].
             now apply plainField_snoc. }
           split; [exact H1|]. split; [exact H2|]. rewrite H3.
           unfold written. cbn [rows row field stripCR filter].
           rewrite C. cbn [negb].
           now rewrite !StrFacts.app_assoc, snoc_app.
Qed.

Lemma endsInLF_app (a b : string) :
  nonEmpty b = true -> endsInLF (a ++ b) = endsInLF b.
Proof.
  intros H. unfold endsInLF. rewrite rev_app.
  destruct (rev b) as [|c w] eqn:E; [|reflexivity].
  apply (f_equal rev) in E. rewrite rev_involutive in E. now subst b.
Qed.

Lemma endsInLF_plain delim f :
  plainField delim f = true -> endsInLF f = false.
Proof.
  unfold plainField, endsInLF. intros H. apply negb_true_iff in H.
  rewrite <- existsb_rev in H. destruct (rev f) as [|c w]; [reflexivity|].
  cbn [existsb] in H. apply orb_false_iff in H as [H _].
  apply orb_false_iff in H as [H _]. now apply orb_false_iff in H as [_ H].
Qed.

Lemma nonEmpty_app_r (a b : string) :
  nonEmpty b = true -> nonEmpty (a ++ b) = true.
Proof. destruct a; [now intros|reflexivity]. Qed.

Lemma nonEmpty_app_l (a b : string) :
  nonEmpty a = true -> nonEmpty (a ++ b) = true.
Proof. destruct a; [discriminate|reflexivity]. Qed.

(** Rows written out are empty or end in a line feed. *)
Lemma terminated_unsplit delim rows :
  terminated (unsplit delim rows) = unsplit delim rows.
Proof.
  unfold terminated.
  destruct rows as [|r0 rows0] eqn:E; [reflexivity|]. rewrite <- E.
  assert (N : rows <> []) by (rewrite E; discriminate).
  rewrite (app_removelast_last [] N), unsplit_snoc. unfold lineOf.
  rewrite <- StrFacts.app_assoc.
  rewrite endsInLF_app by reflexivity. cbn [endsInLF rev rev_onto negb].
  now rewrite andb_false_r.
Qed.

(** What is under way when the text ends, if anything, does not end in a
    line feed. *)
Lemma pending_open delim rs r f :
  Ascii.eqb delim LF = false ->
  plainField delim f = true ->
  nonEmpty f || negb (Nat.eqb (List.length r) 0) = true ->
  nonEmpty (unsplit delim rs ++ delimited delim r ++ f) = true
  /\ endsInLF (unsplit delim rs ++ delimited delim r ++ f) = false.
Proof.
  intros DL P H. destruct (nonEmpty f) eqn:F.
  - split; [now apply nonEmpty_app_r, nonEmpty_app_r|].
    rewrite <- StrFacts.app_assoc, endsInLF_app by exact F.
    eapply endsInLF_plain. exact P.
  - destruct f; [|discriminate]. cbn [orb] in H. rewrite !StrFacts.app_nil_r.
    destruct r as [|x0 r0] eqn:E; [discriminate|]. rewrite <- E.
    assert (N : r <> []) by (rewrite E; discriminate).
    rewrite (app_removelast_last EmptyString N), delimited_snoc.
    split; [now apply nonEmpty_app_r, nonEmpty_app_r, nonEmpty_app_r|].
    rewrite <- !StrFacts.app_assoc, endsInLF_app by reflexivity.
    unfold endsInLF. cbn [rev rev_onto]. exact DL.
Qed.

(** Every row has a field: the tokenizer pushes a row only together with
    the field under way. *)
Lemma scan_rows_nonempty delim text :
  forall st, Forall (fun r => r <> []) (rows st) ->
             Forall (fun r => r <> []) (rows (scan delim text st)).
Proof.
  assert (P : forall (r : list string) f, r ++ [f] <> [])
    by (intros r f; now destruct r).
  assert (G : forall n text, (String.length text <= n)%nat ->
              forall st, Forall (fun r => r <> []) (rows st) ->
                Forall (fun r => r <> []) (rows (scan delim text st))).
  { clear text. induction n as [|n IH]; intros text L st H.
    - destruct text; [exact H|cbn [String.length] in L; lia].
    - destruct text as [|c text]; [exact H|].
      cbn [String.length] in L. cbn [scan].
      assert (Step : forall st', Forall (fun r => r <> []) (rows st') ->
                     Forall (fun r => r <> []) (rows (scan delim text st'))).
      { intros st'. apply IH. lia. }
      destruct (inQuotes st).
      + destruct (Ascii.eqb c DQUOTE).
        * destruct text as [|c' text']; [exact H|].
          destruct (Ascii.eqb c' DQUOTE).
          -- apply IH; [cbn [String.length] in L; lia|exact H].
          -- apply Step. exact H.
        * apply Step. exact H.
      + destruct (Ascii.eqb c DQUOTE); [apply Step; exact H|].
        destruct (Ascii.eqb c delim); [apply Step; exact H|].
        destruct (Ascii.eqb c LF).
        * apply Step. cbn [rows]. apply Forall_app. split; [exact H|].
          constructor; [apply P|constructor].
        * destruct (negb (Ascii.eqb c CR)); apply Step; exact H. }
  apply (G (String.length text)). lia.
Qed.

(** X9: no row of the tokenizer is empty, whatever the text.  On text without
    quotes, with the comma or the tab as delimiter, nothing but the
    carriage returns is lost: no field holds a delimiter, a line feed or a
    carriage return, and the rows written out again, the fields of a row
    joined by the delimiter and each row ended by a line feed, are the
    text without its carriage returns, with a final line feed added when
    the text has none. *)
Theorem tokenizer_keeps_text :
  (forall text delim, Forall (fun r => r <> []) (parseCSVLine text delim))
  /\ (forall text delim,
        delim = COMMA \/ delim = TAB ->
        includesChar DQUOTE text = false ->
        Forall (Forall (fun f => plainField delim f = true))
               (parseCSVLine text delim)
        /\ unsplit delim (parseCSVLine text delim)
           = terminated (stripCR text)).
Proof.
  split.
  - intros text delim. unfold parseCSVLine, flush.
    pose proof (scan_rows_nonempty delim text init (Forall_nil _)) as H.
    destruct (nonEmpty (field (scan delim text init))
              || negb (Nat.eqb (List.length (row (scan delim text init))) 0));
      [|exact H].
    apply Forall_app. split; [exact H|].
    constructor; [|constructor].
    now destruct (row (scan delim text init)).
  - intros text delim D Q.
    assert (DL : Ascii.eqb delim LF = false) by now destruct D; subst.
    assert (DC : Ascii.eqb delim CR = false) by now destruct D; subst.
    destruct (scan_unquoted delim text DL DC Q init eq_refl)
      as [_ [[K1 [K2 K3]] W]].
    { split; [constructor|]. split; [constructor|reflexivity]. }
    unfold written in W. cbn [init rows row field unsplit delimited append] in W.
    unfold parseCSVLine, flush.
    destruct (scan delim text init) as [rs r f q]. cbn [rows row field] in *.
    destruct (nonEmpty f || negb (Nat.eqb (List.length r) 0)) eqn:F.
    + split.
      * apply Forall_app. split; [exact K1|]. constructor; [|constructor].
        apply Forall_app. split; [exact K2|now constructor].
      * rewrite unsplit_snoc. unfold lineOf. rewrite concat_snoc.
        destruct (pending_open delim rs r f DL K3 F) as [N E].
        unfold terminated. rewrite <- W, N, E. cbn [negb andb].
        now rewrite !StrFacts.app_assoc.
    + split; [exact K1|].
      apply orb_false_iff in F as [F1 F2]. apply negb_false_iff in F2.
      apply Nat.eqb_eq in F2. destruct r; [|discriminate].
      destruct f; [|discriminate].
      cbn [delimited append] in W. rewrite StrFacts.app_nil_r in W.
      rewrite <- W. symmetry. apply terminated_unsplit.
Qed.

Lemma tokenizer_keeps_text_witness :
  parseCSVLine plainSample COMMA = [["a"; EmptyString; "b"]; ["c"]]
  /\ Forall (Forall (fun f => plainField COMMA f = true))
            (parseCSVLine plainSample COMMA)
  /\ unsplit COMMA (parseCSVLine plainSample COMMA)
     = terminated (stripCR plainSample).
Proof.
  split; [reflexivity|].
  apply (proj2 tokenizer_keeps_text plainSample COMMA); [now left|reflexivity].
Defined.

End TokenizerFacts.

(* ------------------------------------------------------------------ *)
(** ** What the tokenizer reads back of an export *)

Module ReadBackFacts.
Import Str Csv StrFacts CsvFacts QuotingFacts ExportFacts Spec Samples TokenProps
       TokenSamples.

(** Outside quotes: a run of characters that [escape] leaves bare is taken
    in without its carriage returns. *)
Lemma scan_bare_then (s rest : string) :
  needsQuoting s = false ->
  forall rs r acc,
    scan COMMA (s ++ rest)%string (mkState rs r acc false)
    = scan COMMA rest (mkState rs r (acc ++ stripCR s)%string false).
Proof.
  unfold needsQuoting, includesChar.
  induction s as [|c s IH]; intros H rs r acc.
  - cbn [append stripCR filter]. now rewrite StrFacts.app_nil_r.
  - cbn [existsb] in H.
    apply orb_false_iff in H as [H Hl]. apply orb_false_iff in H as [Hc Hq].
    apply orb_false_iff in Hc as [Hc Hcs]. apply orb_false_iff in Hq as [Hq Hqs].
    apply orb_false_iff in Hl as [Hl Hls].
    rewrite Ascii.eqb_sym in Hc, Hq, Hl.
    cbn [append scan inQuotes rows row field]. rewrite Hq, Hc, Hl.
    assert (H' : existsb (Ascii.eqb COMMA) s || existsb (Ascii.eqb DQUOTE) s
                 || existsb (Ascii.eqb LF) s = false)
      by now rewrite Hcs, Hqs, Hls.
    cbn [stripCR filter]. destruct (Ascii.eqb c CR); cbn [negb].
    + now rewrite IH.
    + rewrite IH by exact H'. now rewrite snoc_app.
Qed.

(** One escaped field is read into the field buffer. *)
Lemma scan_field_back (f rest : string) :
  noQuoteAhead rest = true ->
  forall rs r,
    scan COMMA (escape f ++ rest)%string (mkState rs r EmptyString false)
    = scan COMMA rest (mkState rs r (readBack f) false).
Proof.
  intros Hrest rs r. unfold escape, readBack.
  destruct (needsQuoting f) eqn:Q.
  - cbn [append scan inQuotes rows row field].
    replace (Ascii.eqb DQUOTE DQUOTE) with true by reflexivity.
    rewrite StrFacts.app_assoc. cbn [append].
    now rewrite scan_quoted_then.
  - now rewrite scan_bare_then.
Qed.

Lemma map_removelast {A B : Type} (g : A -> B) (l : list A) :
  List.map g (removelast l) = removelast (List.map g l).
Proof.
  induction l as [|x l IH]; [reflexivity|].
  destruct l as [|y l]; [reflexivity|].
  cbn [removelast List.map] in *. now rewrite IH.
Qed.

Lemma map_last {A B : Type} (g : A -> B) (l : list A) (d : A) :
  g (last l d) = last (List.map g l) (g d).
Proof.
  induction l as [|x l IH]; [reflexivity|].
  destruct l as [|y l]; [reflexivity|]. exact IH.
Qed.

(** One line is read into the row buffer, the last field staying in the
    field buffer. *)
Lemma scan_line_back (fs : list string) :
  fs <> [] ->
  forall rest rs r,
    noQuoteAhead rest = true ->
    scan COMMA (csvLine fs ++ rest)%string (mkState rs r EmptyString false)
    = scan COMMA rest
           (mkState rs (r ++ List.map readBack (removelast fs))
                    (readBack (last fs EmptyString)) false).
Proof.
  induction fs as [|f fs IH]; intros Hne rest rs r Hrest; [contradiction|].
  rewrite csvLine_cons. destruct fs as [|f2 fs].
  - rewrite scan_field_back by assumption. cbn [removelast last List.map].
    now rewrite List.app_nil_r.
  - rewrite StrFacts.app_assoc. rewrite scan_field_back by reflexivity.
    cbn [append scan inQuotes rows row field].
    replace (Ascii.eqb COMMA DQUOTE) with false by reflexivity.
    rewrite Ascii.eqb_refl.
    rewrite IH by (assumption || discriminate).
    cbn [removelast last List.map]. now rewrite <- List.app_assoc.
Qed.

Lemma back_split (fs : list string) :
  fs <> [] ->
  List.map readBack (removelast fs) ++ [readBack (last fs EmptyString)]
  = List.map readBack fs.
Proof.
  intros H. rewrite (app_removelast_last EmptyString H) at 3.
  now rewrite List.map_app.
Qed.

(** The whole content is read row by row; the last row stays in the
    buffers. *)
Lemma scan_content_back (rows : list (list string)) :
  rows <> [] ->
  (forall row, In row rows -> row <> []) ->
  forall rs,
    scan COMMA (csvContent rows) (mkState rs [] EmptyString false)
    = mkState (rs ++ List.map (List.map readBack) (removelast rows))
              (List.map readBack (removelast (last rows [])))
              (readBack (last (last rows []) EmptyString)) false.
Proof.
  induction rows as [|row rows IH]; intros Hne Hall rs; [contradiction|].
  pose proof (Hall row (or_introl eq_refl)) as Hrow.
  rewrite csvContent_cons. destruct rows as [|row2 rows].
  - rewrite <- (StrFacts.app_nil_r (csvLine row)).
    rewrite scan_line_back by (assumption || reflexivity).
    cbn [scan removelast last List.app List.map]. now rewrite List.app_nil_r.
  - rewrite scan_line_back by (assumption || reflexivity).
    cbn [scan inQuotes Csv.rows Csv.row field List.app].
    replace (Ascii.eqb LF DQUOTE) with false by reflexivity.
    replace (Ascii.eqb LF COMMA) with false by reflexivity.
    rewrite Ascii.eqb_refl.
    rewrite back_split by exact Hrow.
    rewrite IH; [|discriminate|intros r Hr; apply Hall; now right].
    cbn [removelast last List.map]. now rewrite <- List.app_assoc.
Qed.

Lemma content_back (rows : list (list string)) :
  (forall row, In row rows -> row <> []) ->
  List.map readBack (last rows []) <> [EmptyString] ->
  parseCSVLine (csvContent rows) COMMA
  = List.map (List.map readBack) rows.
Proof.
  intros Hall Hlast. unfold parseCSVLine, init.
  destruct rows as [|row0 rows0] eqn:E; [reflexivity|]. rewrite <- E in *.
  assert (Hne : rows <> []) by (rewrite E; discriminate).
  rewrite scan_content_back by assumption. unfold flush.
  cbn [Csv.rows Csv.row field List.app].
  assert (Hl : last rows [] <> []).
  { apply (Hall (last rows [])). now apply In_last. }
  assert (T : nonEmpty (readBack (last (last rows []) EmptyString))
              || negb (Nat.eqb (List.length
                         (List.map readBack (removelast (last rows [])))) 0)
              = true).
  { destruct (last rows []) as [|f fs] eqn:L; [contradiction|].
    destruct fs as [|f2 fs].
    - cbn [last removelast List.length List.map Nat.eqb negb].
      cbn [List.map] in Hlast.
      destruct (readBack f); [contradiction|reflexivity].
    - apply orb_true_iff. right.
      destruct (removelast (f :: f2 :: fs)) eqn:R; [|reflexivity].
      discriminate R. }
  rewrite T. rewrite back_split by exact Hl.
  rewrite (app_removelast_last [] Hne) at 3.
  now rewrite List.map_app.
Qed.

(** X10: whatever the fields hold, the exported content of rows with a field or
    more each is tokenized back into as many rows with as many fields: a
    field that [escape] has quoted comes back as it was, a field left bare
    comes back without its carriage returns.  (The last row must not come
    back as the single empty field, which the tokenizer drops.) *)
Theorem export_reads_back (rows : list (list string)) :
  (forall row, In row rows -> row <> []) ->
  List.map readBack (last rows []) <> [EmptyString] ->
  parseCSVLine (csvContent rows) COMMA
  = List.map (List.map readBack) rows.
Proof. exact (content_back rows). Qed.

Lemma export_reads_back_witness :
  parseCSVLine (csvContent exportSample) COMMA
  = [["Claim ID"; EmptyString; sampleField];
     [String "x" (String CR (String LF "y")); "Paid"; EmptyString]]
  /\ parseCSVLine
       (csvContent [["n"; String "a" (String CR "b")]]) COMMA
     = [["n"; "ab"]].
Proof.
  split.
  - apply (export_reads_back exportSample).
    + intros row [<-|[<-|[]]]; discriminate.
    + discriminate.
  - apply (export_reads_back [["n"; String "a" (String CR "b")]]).
    + intros row [<-|[]]; discriminate.
    + discriminate.
Defined.

End ReadBackFacts.

(* ------------------------------------------------------------------ *)
(** ** The choice of the delimiter *)

Module DelimiterFacts.
Import Str Parser StrFacts CsvFacts Spec TokenProps TokenSamples.

Lemma nonEmpty_rev (s : string) : nonEmpty (rev s) = nonEmpty s.
Proof.
  destruct s as [|c s]; [reflexivity|]. rewrite rev_cons.
  now destruct (rev s).
Qed.

Lemma nonEmpty_trimStart (s : string) : nonEmpty (trimStart s) = notBlank s.
Proof.
  unfold notBlank. induction s as [|c s IH]; [reflexivity|].
  cbn [trimStart existsb]. now destruct (isWhite c).
Qed.

Lemma notBlank_trimStart (s : string) : notBlank (trimStart s) = notBlank s.
Proof.
  unfold notBlank. induction s as [|c s IH]; [reflexivity|].
  cbn [trimStart existsb]. destruct (isWhite c) eqn:E; [exact IH|].
  cbn [existsb]. now rewrite E.
Qed.

(** Text has something left after trimming when it is not blank. *)
Lemma nonEmpty_trim_notBlank (s : string) : nonEmpty (trim s) = notBlank s.
Proof.
  unfold trim, trimEnd. rewrite nonEmpty_rev, nonEmpty_trimStart.
  unfold notBlank. rewrite existsb_rev. apply notBlank_trimStart.
Qed.

(** Text without a line feed is a single line. *)
Lemma splitLines_single (l : string) :
  includesChar LF l = false ->
  forall cur, splitLines l cur = [(cur ++ l)%string].
Proof.
  unfold includesChar. induction l as [|c l IH]; intros H cur.
  - cbn [splitLines]. now rewrite StrFacts.app_nil_r.
  - cbn [existsb] in H. apply orb_false_iff in H as [Hc H].
    rewrite Ascii.eqb_sym in Hc. cbn [splitLines]. rewrite Hc.
    destruct (Ascii.eqb c CR).
    + destruct l as [|c' l'].
      * cbn [splitLines]. reflexivity.
      * cbn [existsb] in H. apply orb_false_iff in H as [Hc' H'].
        rewrite Ascii.eqb_sym in Hc'. rewrite Hc'.
        rewrite IH by (cbn [existsb]; now rewrite Ascii.eqb_sym, Hc', H').
        now rewrite snoc_app.
    + rewrite IH by exact H. now rewrite snoc_app.
Qed.

(** The first line of a text: what stands before the first line feed,
    without the carriage return that may stand just before it. *)
Lemma splitLines_first (l rest : string) :
  includesChar LF l = false ->
  forall cur,
    exists l',
      splitLines (l ++ String LF rest) cur
      = (cur ++ l')%string :: splitLines rest EmptyString
      /\ (l = l' \/ l = (l' ++ String CR EmptyString)%string).
Proof.
  unfold includesChar. induction l as [|c l IH]; intros H cur.
  - exists EmptyString. cbn [append splitLines].
    replace (Ascii.eqb LF LF) with true by reflexivity.
    rewrite StrFacts.app_nil_r. split; [reflexivity|now left].
  - cbn [existsb] in H. apply orb_false_iff in H as [Hc H].
    rewrite Ascii.eqb_sym in Hc. cbn [append splitLines]. rewrite Hc.
    assert (Step : exists l',
               splitLines (l ++ String LF rest) (snoc cur c)
               = (cur ++ l')%string :: splitLines rest EmptyString
               /\ (String c l = l'
                   \/ String c l = (l' ++ String CR EmptyString)%string)).
    { destruct (IH H (snoc cur c)) as [l' [E D]].
      exists (String c l'). rewrite E, snoc_app. split; [reflexivity|].
      destruct D as [->| ->]; [now left|now right]. }
    destruct (Ascii.eqb c CR) eqn:C; [|exact Step].
    destruct l as [|c' l']; cbn [append].
    + replace (Ascii.eqb LF LF) with true by reflexivity.
      exists EmptyString. rewrite StrFacts.app_nil_r. split; [reflexivity|].
      right. apply Ascii.eqb_eq in C. now subst c.
    + cbn [existsb] in H. apply orb_false_iff in H as [Hc' H'].
      rewrite Ascii.eqb_sym in Hc'. rewrite Hc'. exact Step.
Qed.

Lemma notBlank_snoc_CR (l : string) :
  notBlank (l ++ String CR EmptyString) = notBlank l.
Proof.
  unfold notBlank. rewrite existsb_app. cbn [existsb].
  replace (isWhite CR) with true by reflexivity. cbn [negb orb].
  now rewrite orb_false_r.
Qed.

Lemma includesTAB_snoc_CR (l : string) :
  includesChar TAB (l ++ String CR EmptyString) = includesChar TAB l.
Proof.
  unfold includesChar. rewrite existsb_app. cbn [existsb].
  replace (Ascii.eqb TAB CR) with false by reflexivity.
  now rewrite !orb_false_r.
Qed.

(** A first line that is not blank decides; a blank one is passed over. *)
Lemma detectDelimiter_line (l rest : string) :
  includesChar LF l = false ->
  detectDelimiter (l ++ String LF rest)
  = if notBlank l then (if includesChar TAB l then TAB else COMMA)
    else detectDelimiter rest.
Proof.
  intros H. unfold detectDelimiter.
  destruct (splitLines_first l rest H EmptyString) as [l' [E D]].
  rewrite E. cbn [append List.find]. rewrite nonEmpty_trim_notBlank.
  assert (N : notBlank l = notBlank l').
  { destruct D as [->| ->]; [reflexivity|apply notBlank_snoc_CR]. }
  assert (T : includesChar TAB l = includesChar TAB l').
  { destruct D as [->| ->]; [reflexivity|apply includesTAB_snoc_CR]. }
  rewrite N, T. now destruct (notBlank l').
Qed.

Lemma detectDelimiter_last (l : string) :
  includesChar LF l = false ->
  detectDelimiter l
  = if notBlank l && includesChar TAB l then TAB else COMMA.
Proof.
  intros H. unfold detectDelimiter.
  rewrite (splitLines_single l H). cbn [append List.find].
  rewrite nonEmpty_trim_notBlank.
  destruct (notBlank l); [now destruct (includesChar TAB l)|reflexivity].
Qed.

(** X11: the delimiter is decided by the first line that is not blank: the tab
    when that line holds a tab, the comma when it holds none; blank lines
    before it are passed over, and a text of blank lines only is read with
    the comma.  A line of tabs only is blank. *)
Theorem detectDelimiter_first_line :
  (forall l rest,
     includesChar LF l = false ->
     detectDelimiter (l ++ String LF rest)
     = if notBlank l then (if includesChar TAB l then TAB else COMMA)
       else detectDelimiter rest)
  /\ (forall l,
        includesChar LF l = false ->
        detectDelimiter l
        = if notBlank l && includesChar TAB l then TAB else COMMA)
  /\ (forall s, nonEmpty (trim s) = notBlank s).
Proof.
  split; [exact detectDelimiter_line|].
  split; [exact detectDelimiter_last|exact nonEmpty_trim_notBlank].
Qed.

Lemma detectDelimiter_first_line_witness :
  detectDelimiter tabbedSample = TAB
  /\ detectDelimiter (String TAB (String TAB EmptyString)) = COMMA.
Proof.
  split.
  - exact (proj1 detectDelimiter_first_line "  "
             ("a,b" ++ String TAB ("c" ++ String LF "d"))%string eq_refl).
  - exact (proj1 (proj2 detectDelimiter_first_line)
             (String TAB (String TAB EmptyString)) eq_refl).
Defined.

End DelimiterFacts.

(* ------------------------------------------------------------------ *)
(** ** Export, then import *)

Module ReimportFacts.
Import Str Num JsDate Val Csv Parser StrFacts CsvFacts ExportFacts Spec Samples
       ParserProps TokenProps TokenSamples ReadBackFacts DelimiterFacts
       CsvParserFacts.

(** The header line of the export, and the header it is resolved to. *)
Lemma header_line :
  csvLine Exporter.headers
  = "Claim ID,Provider,Payer,Patient Name,Patient ID,CPT,Units,DOS,Charge,Paid,Status".
Proof. reflexivity. Qed.

Lemma header_back :
  List.map (fun h => trim (toLowerCase h)) (List.map readBack Exporter.headers)
  = ["claim id"; "provider"; "payer"; "patient name"; "patient id"; "cpt";
     "units"; "dos"; "charge"; "paid"; "status"].
Proof. reflexivity. Qed.

(** The columns of a reimported export: the code in column 5, and no
    column for the patient identifier, whose header [patient id] is none
    of the names the parser looks for. *)
Lemma header_columns :
  findIdx ["claim id"; "provider"; "payer"; "patient name"; "patient id";
           "cpt"; "units"; "dos"; "charge"; "paid"; "status"] cptCandidates
  = Some 5%nat
  /\ resolveColumns ["claim id"; "provider"; "payer"; "patient name";
                     "patient id"; "cpt"; "units"; "dos"; "charge"; "paid";
                     "status"]
     = mkColumns (Some 6%nat) (Some 8%nat) (Some 9%nat) None (Some 3%nat)
                 (Some 2%nat) (Some 7%nat) (Some 1%nat).
Proof. split; reflexivity. Qed.

Section WithHost.
Variable host : Host.t.
Variable isoDay : Date -> string.
Variable toFixed2 : number -> string.


Lemma exported_delimiter (claims : list Claim) :
  detectDelimiter (Exporter.csvContent host isoDay toFixed2 claims) = COMMA.
Proof.
  unfold Exporter.csvContent. rewrite csvContent_cons.
  destruct (List.map (Exporter.row host isoDay toFixed2) claims); [reflexivity|].
  now rewrite detectDelimiter_line.
Qed.

Lemma exported_rows (claims : list Claim) :
  parseCSVLine (Exporter.csvContent host isoDay toFixed2 claims) COMMA
  = List.map readBack Exporter.headers
    :: List.map (fun c => List.map readBack (Exporter.row host isoDay toFixed2 c)) claims.
Proof.
  unfold Exporter.csvContent. rewrite content_back.
  - cbn [List.map]. now rewrite List.map_map.
  - intros row [<-|H]; [discriminate|].
    apply in_map_iff in H as [c [<- _]]. discriminate.
  - assert (L : List.length
                  (last (Exporter.headers :: List.map (Exporter.row host isoDay toFixed2) claims) [])
                = 11%nat).
    { assert (N : Exporter.headers :: List.map (Exporter.row host isoDay toFixed2) claims <> [])
        by discriminate.
      destruct (In_last _ [] N) as [<-|H]; [reflexivity|].
      apply in_map_iff in H as [c [<- _]]. reflexivity. }
    intros E. apply (f_equal (@List.length string)) in E.
    rewrite length_map, L in E. discriminate.
Qed.

(** What the import makes of the exported row of one claim. *)
Lemma reimport_row (cols : Columns) (fb : string) (n : Z) (c : Claim) :
  cols = mkColumns (Some 6%nat) (Some 8%nat) (Some 9%nat) None (Some 3%nat)
                   (Some 2%nat) (Some 7%nat) (Some 1%nat) ->
  match csvRowClaim host 5 cols fb n (List.map readBack (Exporter.row host isoDay toFixed2 c)) with
  | Some c' =>
      nonEmpty (trim (readBack (cpt c))) = true
      /\ id c' = n
      /\ patientId c' = "Unknown ID"
      /\ cpt c' = toUpperCase (trim (readBack (cpt c)))
      /\ (exportable c -> textsOf c' = textsOf c)
  | None => nonEmpty (trim (readBack (cpt c))) = false
  end.
Proof.
  intros ->. unfold csvRowClaim, Exporter.row.
  cbn [List.map nth_error].
  destruct (nonEmpty (readBack (cpt c))) eqn:R; cbn [negb].
  2:{ now apply trim_empty_of_empty. }
  destruct (nonEmpty (trim (readBack (cpt c)))) eqn:T; cbn [negb];
    [|reflexivity].
  split; [reflexivity|]. split; [reflexivity|]. split; [reflexivity|].
  split; [reflexivity|].
  intros [[C1 [C2 [C3 C4]]] [[P1 P2] [[N1 N2] [Y1 [Y2 Y3]]]]].
  unfold textsOf.
  cbn [cpt provider patientName payer cell iProvider iPayer iPatientName
       nth_error orStr].
  rewrite C4, C2, C3, P2, P1, N2, N1, Y3, Y1, Y2. reflexivity.
Qed.

Lemma reimport_loop (cols : Columns) (fb : string) (claims : list Claim) :
  cols = mkColumns (Some 6%nat) (Some 8%nat) (Some 9%nat) None (Some 3%nat)
                   (Some 2%nat) (Some 7%nat) (Some 1%nat) ->
  forall n,
    let l := csvLoop host 5 cols fb
               (List.map (fun c => List.map readBack (Exporter.row host isoDay toFixed2 c)) claims) n in
    List.map id l
    = List.map (fun k => (n + Z.of_nat k)%Z) (List.seq 0 (List.length l))
    /\ Forall (fun c => patientId c = "Unknown ID") l
    /\ List.map cpt l
       = List.map (fun c => toUpperCase (trim (readBack (cpt c))))
           (List.filter (fun c => nonEmpty (trim (readBack (cpt c)))) claims)
    /\ (Forall exportable claims ->
        List.map textsOf l = List.map textsOf claims).
Proof.
  intros E. induction claims as [|c claims IH]; intros n.
  - cbn. repeat split; constructor.
  - cbn [List.map csvLoop List.filter].
    pose proof (reimport_row cols fb n c E) as H.
    destruct (csvRowClaim host 5 cols fb n (List.map readBack (Exporter.row host isoDay toFixed2 c)))
      as [c'|].
    + destruct H as [K [I [P [C X]]]]. rewrite K.
      destruct (IH (n + 1)%Z) as [H1 [H2 [H3 H4]]].
      cbv zeta. cbn [List.map List.length List.seq].
      split; [|split; [|split]].
      * rewrite H1, I. f_equal; [f_equal; lia|].
        rewrite <- seq_shift, map_map. apply map_ext. intros k. lia.
      * now constructor.
      * now rewrite H3, C.
      * intros A. inversion A as [|? ? A1 A2]; subst.
        now rewrite (X A1), (H4 A2).
    + rewrite H. destruct (IH n) as [H1 [H2 [H3 H4]]].
      cbv zeta. split; [exact H1|]. split; [exact H2|]. split; [exact H3|].
      intros A. inversion A as [|? ? [[C1 [C2 [C3 C4]]] _] A2]; subst.
      rewrite C4, C2, C1 in H. discriminate.
Qed.

(** X12: an exported file can be imported again: the import never fails, reads
    the file with the comma, and numbers the claims from 1.  A claim comes
    back when its code is not blank, with the code trimmed and in upper
    case; but no patient identifier comes back, since the export writes it
    under the header [Patient ID], which the import does not know: every
    reimported claim has the identifier [Unknown ID].  When the texts of
    every claim are [exportable], each claim comes back, in order, with its
    code, provider, patient name and payer. *)
Theorem export_then_import (claims : list Claim) (fb : string) :
  exists l,
    parseClaimsData host (Exporter.csvContent host isoDay toFixed2 claims) fb = Ok l
    /\ numbered l
    /\ Forall (fun c => patientId c = "Unknown ID") l
    /\ List.map cpt l
       = List.map (fun c => toUpperCase (trim (readBack (cpt c))))
           (List.filter (fun c => nonEmpty (trim (readBack (cpt c)))) claims)
    /\ (Forall exportable claims ->
        List.map textsOf l = List.map textsOf claims).
Proof.
  unfold parseClaimsData, numbered.
  rewrite exported_delimiter, exported_rows.
  cbn [List.hd List.tl List.length]. rewrite header_back.
  destruct header_columns as [F R]. rewrite F.
  destruct claims as [|c claims].
  - exists []. cbn. repeat split; constructor.
  - replace (S (List.length
                  (List.map (fun c0 => List.map readBack ((Exporter.row host isoDay toFixed2) c0))
                            (c :: claims))) <? 2)%nat with false
      by (cbn [List.map List.length]; reflexivity).
    eexists. split; [reflexivity|].
    exact (reimport_loop _ fb (c :: claims) R 1%Z).
Qed.

End WithHost.

Lemma export_then_import_witness :
  Forall exportable [exportedClaim]
  /\ List.map (fun c => (id c, textsOf c, patientId c))
       (match parseClaimsData SampleHost.utc
                (Exporter.csvContent SampleHost.utc (fun _ => "2024-01-15")
                                     SampleHost.showNumber [exportedClaim])
                "Dr" with
        | Ok l => l
        | Err _ => []
        end)
     = [(1%Z, textsOf exportedClaim, "Unknown ID")]
  /\ exists l,
       parseClaimsData SampleHost.utc
         (Exporter.csvContent SampleHost.utc (fun _ => "2024-01-15")
                              SampleHost.showNumber [exportedClaim]) "Dr"
       = Ok l
       /\ numbered l
       /\ Forall (fun c => patientId c = "Unknown ID") l
       /\ List.map cpt l
          = List.map (fun c => toUpperCase (trim (readBack (cpt c))))
              (List.filter (fun c => nonEmpty (trim (readBack (cpt c))))
                           [exportedClaim])
       /\ (Forall exportable [exportedClaim] ->
           List.map textsOf l = List.map textsOf [exportedClaim]).
Proof.
  split.
  { constructor; [|constructor]. unfold exportable. repeat split. }
  split; [vm_compute; reflexivity|].
  exact (export_then_import SampleHost.utc (fun _ => "2024-01-15")
           SampleHost.showNumber [exportedClaim] "Dr").
Defined.

End ReimportFacts.

(* ------------------------------------------------------------------ *)
(** ** The order of the records *)

Module OrderFacts.
Import Str Num JsDate Parser Analytics JsMap JsMapFacts Spec Samples
       PatientFacts DenialFacts AnalyticsProps AnalyticsSamples.

Lemma filter_filter_impl {A : Type} (p q : A -> bool) (l : list A) :
  (forall y, p y = true -> q y = true) ->
  List.filter p (List.filter q l) = List.filter p l.
Proof.
  intros H. induction l as [|x l IH]; [reflexivity|]. cbn [List.filter].
  destruct (q x) eqn:Q; cbn [List.filter].
  - now rewrite IH.
  - rewrite IH. destruct (p x) eqn:P; [|reflexivity].
    apply H in P. congruence.
Qed.

Lemma filter_filter_and {A : Type} (p q : A -> bool) (l : list A) :
  List.filter (fun y => p y && q y) l = List.filter p (List.filter q l).
Proof.
  induction l as [|x l IH]; [reflexivity|]. cbn [List.filter].
  destruct (q x); cbn [List.filter]; rewrite ?andb_true_r, ?andb_false_r.
  - now rewrite IH.
  - exact IH.
Qed.

Lemma notAmong_snoc ks k y :
  notAmong (ks ++ [k]) y = notAmong ks y && negb (String.eqb y k).
Proof.
  unfold notAmong. rewrite existsb_app. cbn [List.existsb].
  rewrite orb_false_r. apply negb_orb.
Qed.

Section WithValue.
Context {V : Type}.
Implicit Types m : JsMap.t V.

Lemma has_keys m k : has m k = negb (notAmong (keys m) k).
Proof.
  unfold has, notAmong, keys. rewrite negb_involutive.
  induction m as [|[k' v] m IH]; [reflexivity|].
  cbn [get List.map List.existsb fst]. rewrite (String.eqb_sym k k').
  destruct (String.eqb k' k); [reflexivity|exact IH].
Qed.

(** A loop that enters each key when it first meets it leaves the keys in
    the order of their first occurrence. *)
Lemma keys_fold {A : Type} (f : JsMap.t V -> A -> JsMap.t V)
    (key : A -> string) :
  (forall m x,
     keys (f m x) = if has m (key x) then keys m else keys m ++ [key x]) ->
  forall l m,
    keys (fold_left f l m)
    = keys m ++ List.filter (notAmong (keys m))
                            (firstOccurrences (List.map key l)).
Proof.
  intros Hf. induction l as [|x l IH]; intros m.
  - cbn. now rewrite List.app_nil_r.
  - cbn [fold_left List.map firstOccurrences List.filter].
    rewrite IH, Hf, has_keys.
    destruct (notAmong (keys m) (key x)) eqn:N; cbn [negb].
    + rewrite <- List.app_assoc. cbn [List.app]. f_equal. f_equal.
      rewrite <- filter_filter_and. apply filter_ext.
      intros y. apply notAmong_snoc.
    + f_equal. symmetry. apply filter_filter_impl.
      intros y Hy. apply negb_true_iff. apply String.eqb_neq. intros ->.
      congruence.
Qed.

Lemma keys_values (g : V -> string) m :
  (forall k v, In (k, v) m -> g v = k) ->
  List.map g (values m) = keys m.
Proof.
  unfold values, keys. induction m as [|[k v] m IH]; intros H; [reflexivity|].
  cbn [List.map fst snd]. rewrite (H k v (or_introl eq_refl)).
  f_equal. apply IH. intros k' v' Hin. apply H. now right.
Qed.

(** Entering a key that is missing and then setting it. *)
Lemma keys_enter_set m k v0 v :
  keys (set k v (if has m k then m else set k v0 m))
  = if has m k then keys m else keys m ++ [k].
Proof.
  rewrite keys_set. destruct (has m k) eqn:H.
  - now rewrite H.
  - unfold has at 1. rewrite get_set_same. rewrite keys_set. now rewrite H.
Qed.

End WithValue.

Lemma firstOccurrences_nil_filter (l : list string) :
  List.filter (notAmong []) (firstOccurrences l) = firstOccurrences l.
Proof.
  induction (firstOccurrences l) as [|x r IH]; [reflexivity|].
  cbn [List.filter notAmong List.existsb negb]. now rewrite IH.
Qed.

Lemma keys_recordDenial rates m c :
  keys (recordDenial rates m c)
  = if has m (payer c) then keys m else keys m ++ [payer c].
Proof. unfold recordDenial. apply keys_enter_set. Qed.

Section WithHost.
Variable host : Host.t.

Lemma keys_recordPatient m c :
  keys (recordPatient host m c)
  = if has m (patientId c) then keys m else keys m ++ [patientId c].
Proof. unfold recordPatient. apply keys_enter_set. Qed.

(** X13: both aggregators give one record for each key, at the place where the
    key first occurs in the input: [calculateDenialOpportunity] one for
    each payer of an unpaid claim, [analyzePatients] one for each patient
    identifier. *)
Theorem records_in_input_order (claims : list Claim) (rates : RateTable) :
  List.map dPayer (calculateDenialOpportunity claims rates)
  = firstOccurrences (List.map payer (unpaid claims))
  /\ List.map sPatientId (analyzePatients host claims)
     = firstOccurrences (List.map patientId claims).
Proof.
  split.
  - unfold calculateDenialOpportunity. fold (unpaid claims).
    destruct (settled_all rates (unpaid claims)) as [N G].
    rewrite keys_values.
    + rewrite (keys_fold _ payer (keys_recordDenial rates)).
      apply firstOccurrences_nil_filter.
    + intros k v H. apply (NoDup_In_get _ _ _ N) in H. rewrite G in H.
      unfold statOf in H.
      destruct (ofPayer k (unpaid claims)); [discriminate|].
      injection H as <-. reflexivity.
  - unfold analyzePatients. rewrite List.map_map. cbn [sPatientId].
    destruct (tracks_all host claims) as [T _].
    rewrite keys_values.
    + rewrite (keys_fold _ patientId keys_recordPatient).
      apply firstOccurrences_nil_filter.
    + intros k v H. now destruct (T k v H).
Qed.

End WithHost.

End OrderFacts.

(* ------------------------------------------------------------------ *)
(** ** The patient records *)

Module PatientRecordFacts.
Import Str Num JsDate Parser Analytics JsMap JsMapFacts Spec Samples
       DenialFacts AnalyticsProps AnalyticsSamples OrderFacts.

Lemma claimsOf_snoc pid l c :
  claimsOf pid (l ++ [c])
  = claimsOf pid l ++ (if String.eqb (patientId c) pid then [c] else []).
Proof. unfold claimsOf. rewrite filter_app. reflexivity. Qed.

Lemma datesOf_app a b : datesOf (a ++ b) = datesOf a ++ datesOf b.
Proof.
  induction a as [|c a IH]; [reflexivity|]. cbn [List.app datesOf].
  destruct (dos c); [cbn [List.app]; now rewrite IH|exact IH].
Qed.

Section WithHost.
Variable host : Host.t.

Lemma latest_snoc ds d :
  latest host (ds ++ [d]) = later host (latest host ds) d.
Proof. unfold latest. now rewrite fold_left_app. Qed.

(** The record of a patient after one more claim of that patient. *)
Lemma recordOf_snoc pid cs c p :
  recordOf host pid cs = Some p ->
  recordOf host pid (cs ++ [c])
  = Some (mkPatient (sPatientName p) (sPatientId p) (totalVisits p)
            (add (totalRevenue p) (paid c))
            (match dos c with
             | Some d =>
                 match lastVisit p with
                 | None => Some d
                 | Some l => if laterThan host d l then Some d else Some l
                 end
             | None => lastVisit p
             end)
            (sPayer p)).
Proof.
  destruct cs as [|c0 cs]; [discriminate|]. intros [= <-].
  cbn [List.app recordOf sPatientName sPatientId totalVisits totalRevenue
       lastVisit sPayer].
  f_equal. f_equal.
  - change (c0 :: cs ++ [c]) with ((c0 :: cs) ++ [c]).
    rewrite List.map_app. apply sumOf_snoc.
  - change (c0 :: cs ++ [c]) with ((c0 :: cs) ++ [c]).
    rewrite datesOf_app. cbn [datesOf].
    destruct (dos c) as [d|].
    + rewrite latest_snoc. reflexivity.
    + now rewrite List.app_nil_r.
Qed.

Lemma gathered_step m done c :
  gathered host m done -> gathered host (recordPatient host m c) (done ++ [c]).
Proof.
  intros [N G]. unfold recordPatient.
  destruct (has m (patientId c)) eqn:H.
  - apply has_get in H as [p Hp]. rewrite Hp.
    split; [now apply NoDup_keys_set|].
    intros k. rewrite get_set, claimsOf_snoc.
    destruct (String.eqb (patientId c) k) eqn:E.
    + apply String.eqb_eq in E. subst k.
      rewrite G in Hp. symmetry. now apply recordOf_snoc.
    + rewrite List.app_nil_r. apply G.
  - apply has_false in H. rewrite get_set_same.
    split; [now apply NoDup_keys_set, NoDup_keys_set|].
    intros k. rewrite !get_set, claimsOf_snoc.
    destruct (String.eqb (patientId c) k) eqn:E.
    + apply String.eqb_eq in E. subst k. rewrite G in H.
      destruct (claimsOf (patientId c) done) as [|c0 cs]; [|discriminate].
      cbn [List.app recordOf sPatientName sPatientId totalVisits
           totalRevenue lastVisit sPayer List.map datesOf].
      f_equal. f_equal. destruct (dos c); reflexivity.
    + rewrite List.app_nil_r. apply G.
Qed.

Lemma gathered_fold l :
  forall m done, gathered host m done ->
    gathered host (fold_left (recordPatient host) l m) (done ++ l).
Proof.
  induction l as [|c l IH]; intros m done H; cbn [fold_left].
  - now rewrite List.app_nil_r.
  - replace (done ++ c :: l) with ((done ++ [c]) ++ l)
      by now rewrite <- List.app_assoc.
    apply IH. now apply gathered_step.
Qed.

Lemma gathered_all claims :
  gathered host (fold_left (recordPatient host) claims JsMap.empty) claims.
Proof.
  apply (gathered_fold claims JsMap.empty []).
  split; [constructor|reflexivity].
Qed.

(** What the latest of a list of dates is: none for no date; otherwise a
    date of the list that no date of the list is later than. *)
Lemma latest_spec ds :
  match latest host ds with
  | None => ds = []
  | Some d =>
      In d ds /\ forall d', In d' ds -> laterThan host d' d = false
  end.
Proof.
  induction ds as [|x ds IH] using rev_ind; [reflexivity|].
  rewrite latest_snoc. unfold later.
  destruct (latest host ds) as [l|].
  - destruct IH as [I M]. destruct (laterThan host x l) eqn:E.
    + split; [apply in_or_app; right; now left|].
      intros d' H. apply in_app_or in H as [H|[<-|[]]].
      * specialize (M d' H). unfold laterThan in *.
        apply Z.ltb_lt in E. apply Z.ltb_ge in M. apply Z.ltb_ge. lia.
      * unfold laterThan. apply Z.ltb_irrefl.
    + split; [apply in_or_app; now left|].
      intros d' H. apply in_app_or in H as [H|[<-|[]]]; [now apply M|exact E].
  - subst ds. split; [now left|].
    intros d' [<-|[]]. unfold laterThan. apply Z.ltb_irrefl.
Qed.

Lemma In_datesOf d l : In d (datesOf l) <-> exists c, In c l /\ dos c = Some d.
Proof.
  induction l as [|c l IH]; cbn [datesOf].
  - split; [intros []|intros [c [[] _]]].
  - destruct (dos c) as [d0|] eqn:E.
    + split.
      * intros [<-|H]; [exists c; split; [now left|exact E]|].
        apply IH in H as [c' [H1 H2]]. exists c'. split; [now right|exact H2].
      * intros [c' [[<-|H1] H2]].
        -- left. congruence.
        -- right. apply IH. now exists c'.
    + rewrite IH. split.
      * intros [c' [H1 H2]]. exists c'. split; [now right|exact H2].
      * intros [c' [[<-|H1] H2]]; [congruence|]. now exists c'.
Qed.

(** A record of the result is the record of the first pass for the claims
    of its patient, with the visit count filled in. *)
Lemma record_source (claims : list Claim) (p : PatientStat) :
  In p (analyzePatients host claims) ->
  exists c cs,
    claimsOf (sPatientId p) claims = c :: cs
    /\ sPatientName p = patientName c
    /\ totalRevenue p = sumOf (List.map paid (c :: cs))
    /\ lastVisit p = latest host (datesOf (c :: cs)).
Proof.
  unfold analyzePatients. intros H.
  apply in_map_iff in H as [q [<- H]].
  cbn [sPatientId sPatientName totalRevenue lastVisit].
  destruct (gathered_all claims) as [N G].
  apply In_values in H as [k H]. apply (NoDup_In_get _ _ _ N) in H.
  rewrite G in H.
  destruct (claimsOf k claims) as [|c cs] eqn:E; [discriminate|].
  injection H as <-. cbn [sPatientId sPatientName totalRevenue lastVisit].
  rewrite E. exists c, cs. repeat split.
Qed.

(** X14: every record of [analyzePatients] stands for the claims of its patient,
    of which there is one at least: it has the name of the first of them,
    as total revenue the sum of their paid amounts (from 0, in input
    order), and as last visit the latest of their dates of service, that
    is no date at all when none of them has one, and otherwise a date of
    one of them that the date of none of them is later than. *)
Theorem analyzePatients_records (claims : list Claim) (p : PatientStat) :
  In p (analyzePatients host claims) ->
  exists c cs,
    claimsOf (sPatientId p) claims = c :: cs
    /\ sPatientName p = patientName c
    /\ totalRevenue p = sumOf (List.map paid (c :: cs))
    /\ match lastVisit p with
       | None => forall x, In x (c :: cs) -> dos x = None
       | Some d =>
           (exists x, In x (c :: cs) /\ dos x = Some d)
           /\ forall x d', In x (c :: cs) -> dos x = Some d' ->
                (Host.Date_getTime host d' <= Host.Date_getTime host d)%Z
       end.
Proof.
  intros H. destruct (record_source claims p H) as [c [cs [K [Hn [Hr Hl]]]]].
  exists c, cs. split; [exact K|]. split; [exact Hn|]. split; [exact Hr|].
  rewrite Hl.
  pose proof (latest_spec (datesOf (c :: cs))) as L.
  destruct (latest host (datesOf (c :: cs))) as [d|]; cbv beta iota in L.
  - destruct L as [I M]. split; [now apply In_datesOf|].
    intros x d' Hx Hd.
    assert (I' : In d' (datesOf (c :: cs))) by (apply In_datesOf; now exists x).
    specialize (M d' I'). unfold laterThan in M. now apply Z.ltb_ge in M.
  - intros x Hx. destruct (dos x) as [d|] eqn:D; [|reflexivity].
    assert (I : In d (datesOf (c :: cs))) by (apply In_datesOf; now exists x).
    rewrite L in I. destruct I.
Qed.

End WithHost.

Lemma analyzePatients_records_witness :
  List.map (fun p => (sPatientId p, totalRevenue p, lastVisit p))
           (analyzePatients SampleHost.utc visitsSample)
  = [("P1", Fin (0 + 80 + 20 + 5), Some (mkDate 2024 0 15 0));
     ("P2", Fin (0 + 10), None)]
  /\ exists c cs,
       claimsOf "P1" visitsSample = c :: cs
       /\ "Pat" = patientName c
       /\ Fin (0 + 80 + 20 + 5) = sumOf (List.map paid (c :: cs))
       /\ (exists x, In x (c :: cs) /\ dos x = Some (mkDate 2024 0 15 0))
          /\ forall x d', In x (c :: cs) -> dos x = Some d' ->
               (SampleHost.getTimeUTC d'
                <= SampleHost.getTimeUTC (mkDate 2024 0 15 0))%Z.
Proof.
  split; [reflexivity|].
  apply (analyzePatients_records SampleHost.utc visitsSample
           (mkPatient "Pat" "P1" 2 (Fin (0 + 80 + 20 + 5))
                      (Some (mkDate 2024 0 15 0)) "Aetna")).
  now left.
Defined.

End PatientRecordFacts.

(* ------------------------------------------------------------------ *)
(** ** The visit counts *)

Module VisitCountFacts.
Import Str Num JsDate Parser Analytics JsMap JsMapFacts Spec Samples
       AnalyticsProps AnalyticsSamples OrderFacts PatientRecordFacts.

(** The set of visit keys holds each key once, where it first occurs. *)
Lemma setAdd_fold (l : list string) :
  forall s, fold_left setAdd l s
            = s ++ List.filter (notAmong s) (firstOccurrences l).
Proof.
  induction l as [|x l IH]; intros s.
  - cbn. now rewrite List.app_nil_r.
  - cbn [fold_left firstOccurrences List.filter]. rewrite IH.
    unfold setAdd.
    change (notAmong s x) with (negb (List.existsb (String.eqb x) s)).
    destruct (List.existsb (String.eqb x) s) eqn:E; cbn [negb].
    + f_equal. symmetry. apply filter_filter_impl.
      intros y Hy. apply negb_true_iff. apply String.eqb_neq. intros ->.
      unfold notAmong in Hy. rewrite E in Hy. discriminate.
    + rewrite <- List.app_assoc. cbn [List.app]. f_equal. f_equal.
      rewrite <- filter_filter_and. apply filter_ext.
      intros y. apply notAmong_snoc.
Qed.

Lemma filter_firstOccurrences (p : string -> bool) (l : list string) :
  List.filter p (firstOccurrences l) = firstOccurrences (List.filter p l).
Proof.
  induction l as [|x l IH]; [reflexivity|].
  cbn [firstOccurrences List.filter].
  destruct (p x) eqn:P; cbn [firstOccurrences].
  - f_equal. rewrite <- IH, <- !filter_filter_and.
    apply filter_ext. intros y. apply andb_comm.
  - rewrite <- IH. apply filter_filter_impl.
    intros y Hy. apply negb_true_iff. apply String.eqb_neq. intros ->.
    congruence.
Qed.

Lemma filter_map {A B : Type} (p : B -> bool) (g : A -> B) (l : list A) :
  List.filter p (List.map g l) = List.map g (List.filter (fun x => p (g x)) l).
Proof.
  induction l as [|x l IH]; [reflexivity|]. cbn [List.map List.filter].
  destruct (p (g x)); cbn [List.map]; now rewrite IH.
Qed.

Lemma counted_step m done k :
  counted m done -> counted (countVisit m k) (done ++ [k]).
Proof.
  intros C pid. unfold countVisit. rewrite get_set, filter_app.
  cbn [List.filter]. destruct (String.eqb (beforeBar k) pid) eqn:E.
  - apply String.eqb_eq in E. subst pid. rewrite C.
    destruct (List.filter (fun k0 => String.eqb (beforeBar k0) (beforeBar k))
                          done) as [|k0 ks].
    + reflexivity.
    + cbn [List.app]. f_equal. cbn [List.length]. rewrite length_app.
      cbn [List.length]. lia.
  - rewrite List.app_nil_r. apply C.
Qed.

Lemma counted_fold l :
  forall m done, counted m done ->
    counted (fold_left countVisit l m) (done ++ l).
Proof.
  induction l as [|k l IH]; intros m done H; cbn [fold_left].
  - now rewrite List.app_nil_r.
  - replace (done ++ k :: l) with ((done ++ [k]) ++ l)
      by now rewrite <- List.app_assoc.
    apply IH. now apply counted_step.
Qed.

(** What stands before the first bar holds no bar. *)
Lemma beforeBar_no_bar (s : string) : includesChar "|" (beforeBar s) = false.
Proof.
  unfold includesChar. induction s as [|c s IH]; [reflexivity|].
  cbn [beforeBar]. destruct (Ascii.eqb c "|") eqn:E; [reflexivity|].
  cbn [existsb]. now rewrite Ascii.eqb_sym, E.
Qed.

Lemma beforeBar_app (a b : string) :
  includesChar "|" a = false -> beforeBar (a ++ String "|" b) = a.
Proof.
  unfold includesChar. induction a as [|c a IH]; intros H; [reflexivity|].
  cbn [existsb] in H. apply orb_false_iff in H as [Hc H].
  cbn [append beforeBar]. rewrite Ascii.eqb_sym, Hc. now rewrite IH.
Qed.

Section WithHost.
Variable host : Host.t.

(** The visits [analyzePatients] counts for an identifier: the distinct
    visit keys whose part before the first bar is the identifier. *)
Lemma visits_of claims p :
  In p (analyzePatients host claims) ->
  totalVisits p
  = List.length
      (List.filter (fun k => String.eqb (beforeBar k) (sPatientId p))
                   (firstOccurrences (List.map (visitKey host) claims))).
Proof.
  unfold analyzePatients. intros H. apply in_map_iff in H as [q [<- _]].
  cbn [totalVisits sPatientId].
  pose proof (counted_fold
                (fold_left setAdd (List.map (visitKey host) claims) [])
                JsMap.empty [] (fun _ => eq_refl) (sPatientId q)) as C.
  cbn [List.app] in C. rewrite C.
  rewrite setAdd_fold. cbn [List.app]. rewrite firstOccurrences_nil_filter.
  destruct (List.filter (fun k => String.eqb (beforeBar k) (sPatientId q))
              (firstOccurrences (List.map (visitKey host) claims)));
    reflexivity.
Qed.

(** X15: the visits of a patient are counted by the distinct visit keys of the
    claims of that patient, a key being the identifier, a bar and the time
    value of the date of service (the text [undefined] for no date), when
    no identifier holds a bar or is the name of an inherited property; a
    patient with a claim then has one visit at least.  A patient whose
    identifier holds a bar always has 0 visits: the key is cut at its
    first bar. *)
Theorem visits_counted :
  (forall claims p,
     In p (analyzePatients host claims) ->
     includesChar "|" (sPatientId p) = true -> totalVisits p = O)
  /\ (forall claims,
        (forall c, In c claims -> countable (patientId c) = true) ->
        forall p,
          In p (analyzePatients host claims) ->
          totalVisits p
          = List.length
              (firstOccurrences
                 (List.map (visitKey host) (claimsOf (sPatientId p) claims)))
          /\ (1 <= totalVisits p)%nat).
Proof.
  split.
  - intros claims p H B. rewrite (visits_of claims p H).
    replace (List.filter _ _) with (@nil string); [reflexivity|].
    symmetry.
    induction (firstOccurrences (List.map (visitKey host) claims))
      as [|k ks IH]; [reflexivity|].
    cbn [List.filter]. destruct (String.eqb (beforeBar k) (sPatientId p)) eqn:E;
      [|exact IH].
    apply String.eqb_eq in E. rewrite <- E, beforeBar_no_bar in B.
    discriminate.
  - intros claims Hc p H.
    assert (E : totalVisits p
                = List.length
                    (firstOccurrences
                       (List.map (visitKey host)
                                 (claimsOf (sPatientId p) claims)))).
    { rewrite (visits_of claims p H), filter_firstOccurrences, filter_map.
      f_equal. f_equal. f_equal. unfold claimsOf.
      apply filter_ext_in. intros c Hin. f_equal.
      unfold visitKey. apply beforeBar_app.
      specialize (Hc c Hin). unfold countable in Hc.
      apply andb_true_iff in Hc as [Hc _]. now apply negb_true_iff in Hc. }
    split; [exact E|]. rewrite E.
    destruct (record_source host claims p H) as [c [cs [K _]]].
    rewrite K. cbn [List.map firstOccurrences List.length]. lia.
Qed.

End WithHost.

Lemma visits_counted_witness :
  List.map (fun p => (sPatientId p, totalVisits p))
           (analyzePatients SampleHost.utc visitsSample)
  = [("P1", 2%nat); ("P2", 1%nat)]
  /\ List.map (fun p => (sPatientId p, totalVisits p))
              (analyzePatients SampleHost.utc barSample)
     = [("A|B", O); ("A", 2%nat)]
  /\ 2%nat
     = List.length
         (firstOccurrences
            (List.map (visitKey SampleHost.utc) (claimsOf "P1" visitsSample)))
  /\ (1 <= 2)%nat.
Proof.
  split; [reflexivity|]. split; [reflexivity|].
  refine (proj2 (visits_counted SampleHost.utc) visitsSample _
            (mkPatient "Pat" "P1" 2 (Fin (0 + 80 + 20 + 5))
                       (Some (mkDate 2024 0 15 0)) "Aetna") _).
  - intros c [<-|[<-|[<-|[<-|[]]]]]; reflexivity.
  - now left.
Defined.

End VisitCountFacts.

(* ------------------------------------------------------------------ *)
(** ** The rate table and the order of the claims *)

Module RateOrderFacts.
Import Str Num JsDate Parser Analytics JsMap JsMapFacts HistoryFacts
       HistogramFacts SelectionFacts RateFacts Spec Samples Tactics
       AnalyticsProps AnalyticsSamples.

Lemma Permutation_filter {A : Type} (f : A -> bool) (l l' : list A) :
  Permutation l l' -> Permutation (List.filter f l) (List.filter f l').
Proof.
  induction 1 as [|x l l' _ IH|x y l|l l' l'' _ IH1 _ IH2]; cbn [List.filter].
  - constructor.
  - destruct (f x); [now constructor|exact IH].
  - destruct (f x), (f y); try apply Permutation_refl. apply perm_swap.
  - now transitivity (List.filter f l').
Qed.

Lemma occ_perm r l l' : Permutation l l' -> occ r l = occ r l'.
Proof.
  intros H. unfold occ. apply Permutation_length. now apply Permutation_filter.
Qed.

Lemma sameKey_canon a b : sameKey a b = true <-> canon a = canon b.
Proof.
  destruct a as [|x|[]], b as [|y|[]]; cbn [sameKey canon Bool.eqb];
    try (split; [discriminate|intros [=]]); try (split; reflexivity).
  rewrite Qeq_bool_iff, <- Qred_eq_iff. split; [now intros ->|now intros [=]].
Qed.

Lemma NoDup_canon ks : distinctKeys ks -> NoDup (List.map canon ks).
Proof.
  induction ks as [|k ks IH]; cbn [distinctKeys List.map]; [constructor|].
  intros [H1 H2]. constructor; [|now apply IH].
  intros I. apply in_map_iff in I as [k' [E I]].
  symmetry in E. apply sameKey_canon in E. rewrite (H1 k' I) in E. discriminate.
Qed.

Lemma canon_incl l l' :
  (forall r, In r l -> In r l') ->
  incl (List.map canon (distinctValues l)) (List.map canon (distinctValues l')).
Proof.
  intros H x I. apply in_map_iff in I as [k [<- I]].
  destruct (distinctValues_spec l) as [_ [S _]].
  destruct (distinctValues_spec l') as [_ [_ C]].
  destruct (C k (H k (S k I))) as [k' [I' E]].
  apply sameKey_canon in E. rewrite <- E. now apply in_map.
Qed.

(** The number of distinct values of a list depends on its elements
    only. *)
Lemma numDistinct_perm l l' : Permutation l l' -> numDistinct l = numDistinct l'.
Proof.
  intros H. unfold numDistinct.
  rewrite <- (length_map canon (distinctValues l)).
  rewrite <- (length_map canon (distinctValues l')).
  apply Nat.le_antisymm; apply NoDup_incl_length.
  - apply NoDup_canon. apply distinctValues_spec.
  - apply canon_incl. intros r. now apply Permutation_in.
  - apply NoDup_canon. apply distinctValues_spec.
  - apply canon_incl. intros r. apply Permutation_in. now symmetry.
Qed.

Lemma maxFrequency_unique l n n' :
  maxFrequency l n -> maxFrequency l n' -> n = n'.
Proof.
  intros [[r [I E]] M] [[r' [I' E']] M'].
  pose proof (M r' I'). pose proof (M' r I). lia.
Qed.

Lemma maxFrequency_perm l l' n :
  Permutation l l' -> maxFrequency l' n -> maxFrequency l n.
Proof.
  intros H [[r [I E]] M]. split.
  - exists r. split; [apply Permutation_in with l'; [now symmetry|exact I]|].
    now rewrite (occ_perm r l l' H).
  - intros x Hx. rewrite (occ_perm x l l' H). apply M.
    now apply Permutation_in with l.
Qed.

Lemma isModeRate_perm l l' m :
  Permutation l l' -> isModeRate l' m -> isModeRate l m.
Proof.
  intros H [I [M T]]. split; [|split].
  - apply Permutation_in with l'; [now symmetry|exact I].
  - intros r Hr. rewrite !(occ_perm _ l l' H). apply M.
    now apply Permutation_in with l.
  - intros r Hr. rewrite !(occ_perm _ l l' H). apply T.
    now apply Permutation_in with l.
Qed.

Lemma isModeRate_unique l m m' :
  Forall isNumber l -> isModeRate l m -> isModeRate l m' -> same m m'.
Proof.
  intros F [I [M T]] [I' [M' T']]. rewrite Forall_forall in F.
  assert (E : occ m l = occ m' l).
  { pose proof (M m' I'). pose proof (M' m I). lia. }
  apply same_of_leb; [now apply F|now apply F| |].
  - now apply T'.
  - apply T; [exact I'|now symmetry].
Qed.

Lemma isMaxRate_perm l l' M :
  Permutation l l' -> isMaxRate l' M -> isMaxRate l M.
Proof.
  intros H [[r [I S]] U]. split.
  - exists r. split; [apply Permutation_in with l'; [now symmetry|exact I]|exact S].
  - intros x Hx. apply U. now apply Permutation_in with l.
Qed.

Lemma same_bounds r1 r2 M1 M2 :
  same r1 M1 -> same r2 M2 -> leb r1 M2 = true -> leb r2 M1 = true ->
  same M1 M2.
Proof.
  destruct r1 as [|x1|[]], r2 as [|x2|[]], M1 as [|m1|[]], M2 as [|m2|[]];
    cbn [same leb negb orb]; try tauto; try discriminate; try congruence.
  rewrite !Qle_bool_iff. intros E1 E2 L1 L2. lra.
Qed.

Lemma isMaxRate_unique l M M' : isMaxRate l M -> isMaxRate l M' -> same M M'.
Proof.
  intros [[r [I S]] U] [[r' [I' S']] U'].
  exact (same_bounds r r' M M' S S' (U' r I) (U r' I')).
Qed.

Lemma groupRates_perm p c claims claims' :
  Permutation claims claims' ->
  Permutation (groupRates p c claims) (groupRates p c claims').
Proof.
  intros H. unfold groupRates, group.
  apply Permutation_map. now apply Permutation_filter, Permutation_filter.
Qed.

Lemma groupRates_numbers p c claims :
  (forall x, In x claims -> pricedClaim x) ->
  Forall (fun r => isNumber r /\ leb zero r = true) (groupRates p c claims).
Proof.
  intros Hfin. apply Forall_forall. intros r Hr.
  apply In_groupRates in Hr as [x [Hx [Q ->]]].
  apply roundedRate_number; [exact Q|exact (Hfin x Hx Q)].
Qed.

(** X16: the rate table does not depend on the order of the claims: for two
    lists with the same claims in any order (no unit price being NaN), a
    payer and code has an entry in both tables or in none, and the two
    entries have the same method, the same frequency and the same expected
    rate. *)
Theorem rates_ignore_order (claims claims' : list Claim) (p c : string) :
  Permutation claims claims' ->
  (forall x, In x claims -> pricedClaim x) ->
  agree (lookupRate (calculateReimbursementRates claims) p c)
        (lookupRate (calculateReimbursementRates claims') p c).
Proof.
  intros P Hfin. rewrite !lookup_rates.
  pose proof (groupRates_perm p c claims claims' P) as PR.
  pose proof (groupRates_numbers p c claims Hfin) as N.
  assert (N' : Forall (fun r => isNumber r /\ leb zero r = true)
                      (groupRates p c claims')).
  { apply groupRates_numbers. intros x Hx. apply Hfin.
    apply Permutation_in with claims'; [now symmetry|exact Hx]. }
  destruct (groupRates p c claims) as [|r0 rs] eqn:E.
  - apply Permutation_nil in PR. now rewrite PR.
  - destruct (groupRates p c claims') as [|r0' rs'] eqn:E'.
    + symmetry in PR. apply Permutation_nil in PR. discriminate.
    + assert (Hne : r0 :: rs <> []) by discriminate.
      assert (Hne' : r0' :: rs' <> []) by discriminate.
      destruct (rateEntry_spec p c (r0 :: rs) Hne N) as [F [Mo Ma]].
      destruct (rateEntry_spec p c (r0' :: rs') Hne' N') as [F' [Mo' Ma']].
      rewrite <- (numDistinct_perm _ _ PR) in Mo', Ma'.
      assert (Num : Forall isNumber (r0 :: rs)).
      { eapply Forall_impl; [|exact N]. now intros r [H _]. }
      cbn [agree]. split; [|split].
      * destruct (Nat.lt_ge_cases 2 (numDistinct (r0 :: rs))) as [L|L].
        -- destruct (Mo L) as [-> _]. now destruct (Mo' L) as [-> _].
        -- destruct (Ma L) as [-> _]. now destruct (Ma' L) as [-> _].
      * apply (maxFrequency_unique (r0 :: rs)); [exact F|].
        now apply (maxFrequency_perm _ _ _ PR).
      * destruct (Nat.lt_ge_cases 2 (numDistinct (r0 :: rs))) as [L|L].
        -- destruct (Mo L) as [_ M1]. destruct (Mo' L) as [_ M2].
           apply (isModeRate_unique (r0 :: rs)); [exact Num|exact M1|].
           now apply (isModeRate_perm _ _ _ PR).
        -- destruct (Ma L) as [_ M1]. destruct (Ma' L) as [_ M2].
           apply (isMaxRate_unique (r0 :: rs)); [exact M1|].
           now apply (isMaxRate_perm _ _ _ PR).
Qed.

(** X17: every entry of the rate table names the payer and code it is stored
    under; its frequency is 1 at least and at most the number of claims of
    the group; and its expected rate (no unit price being NaN) is one of
    the rounded unit prices of the group, so it is not negative. *)
Theorem rate_entry_bounds (claims : list Claim) (p c : string)
    (e : ReimbursementRate) :
  lookupRate (calculateReimbursementRates claims) p c = Some e ->
  rPayer e = p /\ rCpt e = c
  /\ ((forall x, In x claims -> pricedClaim x) ->
      (1 <= frequency e <= List.length (groupRates p c claims))%nat
      /\ (exists r, In r (groupRates p c claims) /\ same r (expectedRate e))
      /\ leb zero (expectedRate e) = true).
Proof.
  rewrite lookup_rates.
  destruct (groupRates p c claims) as [|r0 rs] eqn:E; [discriminate|].
  intros [= <-].
  assert (PC : rPayer (rateEntry p c (r0 :: rs)) = p
               /\ rCpt (rateEntry p c (r0 :: rs)) = c).
  { unfold rateEntry. destruct (tally (r0 :: rs)) as [f m].
    destruct (modeOf f) as [a b].
    now destruct (2 <? List.length f)%nat. }
  destruct PC as [P C]. split; [exact P|]. split; [exact C|].
  intros Hfin. pose proof (groupRates_numbers p c claims Hfin) as N.
  rewrite E in N.
  assert (Hne : r0 :: rs <> []) by discriminate.
  destruct (rateEntry_spec p c (r0 :: rs) Hne N) as [[[r [I O]] _] [Mo Ma]].
  rewrite Forall_forall in N.
  assert (X : exists r, In r (r0 :: rs)
                        /\ same r (expectedRate (rateEntry p c (r0 :: rs)))).
  { destruct (Nat.lt_ge_cases 2 (numDistinct (r0 :: rs))) as [L|L].
    - destruct (Mo L) as [_ [Im _]].
      exists (expectedRate (rateEntry p c (r0 :: rs))).
      split; [exact Im|]. apply same_refl. now apply N.
    - destruct (Ma L) as [_ [Ex _]]. exact Ex. }
  split; [|split; [exact X|]].
  - rewrite <- O. split; [now apply occ_pos|].
    unfold occ. apply filter_length_le.
  - destruct X as [x [Ix Sx]]. destruct (N x Ix) as [Nx Lx].
    revert Sx Lx. clear.
    destruct x as [|q|[]], (expectedRate (rateEntry p c (r0 :: rs)))
      as [|q'|[]]; cbn [same leb zero negb]; try tauto; try discriminate.
    rewrite !Qle_bool_iff. intros S L. now rewrite <- S.
Qed.

Lemma rates_ignore_order_witness :
  Permutation (paidSample [10; 20; 10; 30; 20]) (paidSample [20; 30; 10; 20; 10])
  /\ lookupRate (calculateReimbursementRates (paidSample [10; 20; 10; 30; 20]))
                "P" "C"
     = Some (mkRate "P" "C" (Fin 20) Mode 2)
  /\ agree (lookupRate
              (calculateReimbursementRates (paidSample [10; 20; 10; 30; 20]))
              "P" "C")
           (lookupRate
              (calculateReimbursementRates (paidSample [20; 30; 10; 20; 10]))
              "P" "C").
Proof.
  assert (P : Permutation (paidSample [10; 20; 10; 30; 20])
                          (paidSample [20; 30; 10; 20; 10])).
  { unfold paidSample. apply Permutation_map.
    apply perm_trans with [20; 10; 10; 30; 20]; [apply perm_swap|].
    apply perm_skip.
    apply perm_trans with [10; 30; 10; 20];
      [apply perm_skip, perm_swap|].
    apply perm_trans with [30; 10; 10; 20]; [apply perm_swap|].
    apply perm_skip, perm_skip, perm_swap. }
  split; [exact P|]. split; [reflexivity|].
  apply (rates_ignore_order _ _ "P" "C" P).
  intros x [<-|[<-|[<-|[<-|[<-|[]]]]]] _; reflexivity.
Defined.

Lemma rate_entry_bounds_witness :
  rPayer (mkRate "P" "C" (Fin 50) Max 2) = "P"
  /\ rCpt (mkRate "P" "C" (Fin 50) Max 2) = "C"
  /\ (1 <= 2 <= List.length (groupRates "P" "C" coupledSample))%nat
  /\ (exists r, In r (groupRates "P" "C" coupledSample)
                /\ same r (Fin 50))
  /\ leb zero (Fin 50) = true.
Proof.
  destruct (rate_entry_bounds coupledSample "P" "C"
              (mkRate "P" "C" (Fin 50) Max 2) eq_refl) as [H1 [H2 H3]].
  split; [exact H1|]. split; [exact H2|]. apply H3.
  intros x [<-|[<-|[<-|[]]]] _; reflexivity.
Defined.

End RateOrderFacts.

(* ------------------------------------------------------------------ *)
(** ** The denial counts of the chart *)

Module ChartFacts.
Import Str Num JsDate Parser Analytics JsMap JsMapFacts Spec Samples
       AnalyticsProps AppProps AppSamples.

(** The map with every value passed through [g]. *)
Lemma get_map_values {V W : Type} (g : V -> W) (m : JsMap.t V) k :
  get (List.map (fun e => (fst e, g (snd e))) m) k = option_map g (get m k).
Proof.
  induction m as [|[k' v] m IH]; [reflexivity|].
  cbn [List.map get fst snd]. destruct (String.eqb k' k); [reflexivity|exact IH].
Qed.

Lemma set_map_values {V W : Type} (g : V -> W) (m : JsMap.t V) k v :
  set k (g v) (List.map (fun e => (fst e, g (snd e))) m)
  = List.map (fun e => (fst e, g (snd e))) (set k v m).
Proof.
  induction m as [|[k' v'] m IH]; [reflexivity|].
  cbn [List.map set fst snd].
  destruct (String.eqb k' k); cbn [List.map fst snd]; [reflexivity|].
  now rewrite IH.
Qed.

(** Setting a key that was just entered. *)
Lemma set_set {V : Type} (m : JsMap.t V) k v0 v :
  set k v (set k v0 m) = set k v m.
Proof.
  induction m as [|[k' v'] m IH]; cbn [set].
  - now rewrite String.eqb_refl.
  - destruct (String.eqb k' k) eqn:E; cbn [set]; rewrite E; [reflexivity|].
    now rewrite IH.
Qed.

Lemma denialStep_unprojected rates m c :
  App.denialStep (List.map (fun e => (fst e, unprojected (snd e))) m) c
  = List.map (fun e => (fst e, unprojected (snd e))) (recordDenial rates m c).
Proof.
  unfold App.denialStep, recordDenial. rewrite get_map_values.
  destruct (has m (payer c)) eqn:H.
  - apply has_get in H as [x Hx]. rewrite Hx. cbn [option_map].
    rewrite <- set_map_values. reflexivity.
  - apply has_false in H. rewrite H, get_set_same. cbn [option_map].
    rewrite set_set, <- set_map_values. reflexivity.
Qed.

Lemma denialSteps_unprojected rates l :
  forall m,
    fold_left App.denialStep l
              (List.map (fun e => (fst e, unprojected (snd e))) m)
    = List.map (fun e => (fst e, unprojected (snd e)))
               (fold_left (recordDenial rates) l m).
Proof.
  induction l as [|c l IH]; intros m; [reflexivity|].
  cbn [fold_left]. now rewrite (denialStep_unprojected rates), IH.
Qed.

(** X18: the denial counts of the chart are the records of
    [calculateDenialOpportunity], whatever the rate table, with the
    projected value left at 0: the same payers in the same order with the
    same units and charges. *)
Theorem payerDenials_unprojected (claims : list Claim) (rates : RateTable) :
  App.payerDenials claims
  = List.map unprojected (calculateDenialOpportunity claims rates).
Proof.
  unfold App.payerDenials, calculateDenialOpportunity.
  change (@JsMap.empty PayerDenialStats)
    with (List.map (fun e : string * PayerDenialStats =>
                      (fst e, unprojected (snd e))) JsMap.empty) at 1.
  rewrite (denialSteps_unprojected rates). unfold values.
  rewrite !List.map_map. reflexivity.
Qed.

End ChartFacts.

(* ------------------------------------------------------------------ *)
(** ** The identifiers of merged files *)

Module MergeFacts.
Import Str Num JsDate Val Parser Spec Samples ParserProps AppProps.

Lemma combine_concat results :
  UploadScreen.combine results = List.concat results.
Proof.
  unfold UploadScreen.combine.
  assert (G : forall acc, fold_left (fun a b => a ++ b) results acc
                          = acc ++ List.concat results).
  { induction results as [|r results IH]; intros acc; cbn [fold_left concat].
    - now rewrite List.app_nil_r.
    - now rewrite IH, <- List.app_assoc. }
  apply (G []).
Qed.

Lemma reindexFrom_spec l :
  forall i,
    List.map id (UploadScreen.reindexFrom i l)
    = List.map (fun k => (i + 1 + Z.of_nat k)%Z) (List.seq 0 (List.length l))
    /\ List.map contentOf (UploadScreen.reindexFrom i l) = List.map contentOf l
    /\ List.length (UploadScreen.reindexFrom i l) = List.length l.
Proof.
  induction l as [|c l IH]; intros i; [now repeat split|].
  cbn [UploadScreen.reindexFrom List.map List.length List.seq].
  destruct (IH (i + 1)%Z) as [H1 [H2 H3]]. rewrite H1, H2, H3.
  split; [|now split]. cbn [UploadScreen.withId id].
  f_equal; [lia|]. rewrite <- seq_shift, map_map.
  apply map_ext. intros k. lia.
Qed.

(** X19: the claims of several files, put together and renumbered, have the
    identifiers 1, 2, 3 and so on, and are otherwise the claims of the
    files, in the order of the files.  The renumbering is needed: each
    file is numbered from 1, so that two results with a claim each, put
    together, hold the identifier 1 twice. *)
Theorem merged_claims_renumbered :
  (forall results,
     numbered (UploadScreen.reindexed results)
     /\ List.map contentOf (UploadScreen.reindexed results)
        = List.map contentOf (List.concat results))
  /\ (forall a b,
        numbered a -> numbered b -> a <> [] -> b <> [] ->
        ~ NoDup (List.map id (UploadScreen.combine [a; b]))).
Proof.
  split.
  - intros results. unfold UploadScreen.reindexed, numbered.
    rewrite combine_concat.
    destruct (reindexFrom_spec (List.concat results) 0) as [H1 [H2 H3]].
    split; [|exact H2]. rewrite H1, H3. apply map_ext. intros k. lia.
  - intros a b Ha Hb Na Nb. rewrite combine_concat.
    cbn [List.concat]. rewrite List.app_nil_r, List.map_app.
    unfold numbered in Ha, Hb.
    destruct a as [|x a]; [contradiction|]. destruct b as [|y b]; [contradiction|].
    cbn [List.map List.length List.seq] in Ha, Hb.
    injection Ha as Ia _. injection Hb as Ib _.
    cbn [List.map List.app]. intros N. inversion N as [|? ? Hnot _]; subst.
    apply Hnot. apply in_or_app. right. left. congruence.
Qed.

Lemma merged_claims_renumbered_witness :
  List.map id
    (UploadScreen.reindexed [[sampleClaim "P1" "Aetna"];
                             [sampleClaim "P2" "Cigna"]])
  = [1%Z; 2%Z]
  /\ ~ NoDup (List.map id
                (UploadScreen.combine [[sampleClaim "P1" "Aetna"];
                                       [sampleClaim "P2" "Cigna"]])).
Proof.
  split; [reflexivity|].
  apply (proj2 merged_claims_renumbered); (reflexivity || discriminate).
Defined.

End MergeFacts.

(* ------------------------------------------------------------------ *)
(** ** Parsed claims and the rate table *)

Module FeedFacts.
Import Str Num JsDate Val Parser Analytics JsMap JsMapFacts HistoryFacts
       RateFacts DenialFacts ClaimInvariants ColumnFacts Spec Samples
       ParserProps ParserSamples AnalyticsProps AppProps Tactics NumFacts.

(** For a claim with the invariants of the parsers the paid flag implies a
    paid amount above 0. *)
Lemma qualifies_wellFormed (c : Claim) :
  wellFormed c -> qualifies c = isPaid c && gt (units c) zero.
Proof.
  intros [P [_ [_ I]]]. unfold qualifies. rewrite I.
  destruct cent_pos as [v [-> V]].
  destruct (paid c) as [|q|[]]; cbn [gt leb zero negb andb] in *;
    try reflexivity; try discriminate.
  destruct (Qle_bool q v) eqn:E; cbn [negb andb]; [reflexivity|].
  destruct (Qle_bool q 0) eqn:Z; [|reflexivity].
  apply Qle_bool_iff in Z.
  assert (L : q <= v) by lra.
  apply Qle_bool_iff in L. congruence.
Qed.

Lemma round2_per_unit (x : number) :
  isNaN x = false -> round2 (div x one) = round2 x.
Proof.
  intros _. rewrite div_one. unfold round2. now rewrite mul_operand_l.
Qed.

Lemma no_claim_qualifies claims :
  Forall (fun c => units c = zero) claims -> List.filter qualifies claims = [].
Proof.
  induction 1 as [|c l U _ IH]; [reflexivity|]. cbn [List.filter].
  unfold qualifies at 1. rewrite U.
  replace (gt zero zero) with false by reflexivity.
  now rewrite andb_false_r.
Qed.

Section WithHost.
Variable host : Host.t.

(** X20: how the claims of the parsers feed the rate table.  A claim of the
    applied-payments layout feeds it exactly when it is paid, and with its
    paid amount rounded to two decimals, the units being 1.  The claims of
    a delimited text whose header names no units column have 0 units: none
    of them feeds the table, the table is empty, and no denial record has
    a projected value other than 0. *)
Theorem parsed_claims_feed_rates :
  (forall rows fb claims,
     parseExcelReport host rows fb = Ok claims ->
     layoutOf rows = Some true ->
     forall x, In x claims ->
       qualifies x = isPaid x /\ roundedRate x = round2 (paid x))
  /\ (forall text fb claims,
        parseClaimsData host text fb = Ok claims ->
        iUnits (resolveColumns (headerOf text)) = None ->
        calculateReimbursementRates claims = JsMap.empty
        /\ Forall (fun s => projectedValue s = zero)
             (calculateDenialOpportunity claims
                (calculateReimbursementRates claims))).
Proof.
  split.
  - intros rows fb claims E L x Hx.
    unfold parseExcelReport, layoutOf in *.
    destruct (findIndex (List.existsb isHeaderCell) rows) as [i|];
      [|discriminate].
    destruct (hmGet (buildHeaderMap (nth i rows []) 0 []) "applied payments");
      [|discriminate].
    injection E as <-.
    pose proof (paymentLoop_wellFormed host
                  (buildHeaderMap (nth i rows []) 0 [])
                  (skipn (S i) rows) fb 1) as F.
    rewrite Forall_forall in F. destruct (F x Hx) as [W [U _]].
    split.
    + rewrite (qualifies_wellFormed x W), U.
      replace (gt one zero) with true by reflexivity. apply andb_true_r.
    + unfold roundedRate. rewrite U. apply round2_per_unit.
      destruct W as [P _]. now destruct (paid x).
  - intros text fb claims E U.
    pose proof (parsed_defaults host text fb claims E) as D.
    assert (Z : Forall (fun c => units c = zero) claims).
    { eapply Forall_impl; [|exact D]. intros c [H _]. now apply H. }
    assert (R : calculateReimbursementRates claims = JsMap.empty).
    { unfold calculateReimbursementRates, pricingHistory.
      now rewrite (no_claim_qualifies claims Z). }
    split; [exact R|]. rewrite R.
    apply Forall_forall. intros s Hs.
    unfold calculateDenialOpportunity in Hs. fold (unpaid claims) in Hs.
    destruct (settled_all JsMap.empty (unpaid claims)) as [N G].
    apply In_values in Hs as [k Hs]. apply (NoDup_In_get _ _ _ N) in Hs.
    rewrite G in Hs. unfold statOf in Hs.
    destruct (ofPayer k (unpaid claims)) as [|c0 l0]; [discriminate|].
    injection Hs as <-. cbn [projectedValue denialOf].
    replace (List.filter (hasRate JsMap.empty) (c0 :: l0)) with (@nil Claim);
      [reflexivity|].
    symmetry. induction (c0 :: l0) as [|c l IH]; [reflexivity|exact IH].
Qed.

End WithHost.

Lemma parsed_claims_feed_rates_witness :
  (let claims := match parseExcelReport SampleHost.utc paymentSample "Dr" with
                 | Ok cs => cs
                 | Err _ => []
                 end in
   List.map (fun x => (cpt x, isPaid x)) claims = [("A4550", true)]
   /\ Forall (fun x => qualifies x = isPaid x
                       /\ roundedRate x = round2 (paid x)) claims)
  /\ (let claims := match parseClaimsData SampleHost.utc codeOnly "Dr" with
                    | Ok cs => cs
                    | Err _ => []
                    end in
      List.map cpt claims = ["99213"]
      /\ calculateReimbursementRates claims = JsMap.empty
      /\ Forall (fun s => projectedValue s = zero)
           (calculateDenialOpportunity claims
              (calculateReimbursementRates claims))).
Proof.
  split.
  - split; [vm_compute; reflexivity|].
    apply Forall_forall.
    refine (proj1 (parsed_claims_feed_rates SampleHost.utc)
              paymentSample "Dr" _ _ _).
    + vm_compute; reflexivity.
    + vm_compute; reflexivity.
  - split; [vm_compute; reflexivity|].
    refine (proj2 (parsed_claims_feed_rates SampleHost.utc)
              codeOnly "Dr" _ _ _).
    + vm_compute; reflexivity.
    + vm_compute; reflexivity.
Defined.

End FeedFacts.

(* ------------------------------------------------------------------ *)
(** ** The figures of the dashboard *)

Module KpiFacts.
Import Str Num JsDate Val Parser Analytics JsMap JsMapFacts HistoryFacts
       RateFacts DenialFacts Spec Samples AnalyticsProps OrderFacts
       RateOrderFacts AppProps AppSamples.

Lemma sumOf_total {A : Type} (f : A -> number) (l : list A) :
  sumOf (List.map f l) = App.total f l.
Proof.
  unfold sumOf, App.total. generalize zero.
  induction l as [|x l IH]; intros a; [reflexivity|].
  cbn [List.map fold_left]. apply IH.
Qed.

End KpiFacts.

(* ------------------------------------------------------------------ *)
(** ** The projected opportunity *)

Module OpportunityFacts.
Import Str Num JsDate Val Parser Analytics JsMap JsMapFacts HistoryFacts
       RateFacts DenialFacts Spec Samples AnalyticsProps OrderFacts
       RateOrderFacts AppProps AppSamples KpiFacts.

Lemma In_firstOccurrences k l : In k (firstOccurrences l) <-> In k l.
Proof.
  induction l as [|x l IH]; [reflexivity|]. cbn [firstOccurrences In].
  rewrite filter_In, IH. split.
  - intros [->|[H _]]; [now left|now right].
  - intros [->|H]; [now left|].
    destruct (String.eqb k x) eqn:E.
    + apply String.eqb_eq in E. now left.
    + right. now split.
Qed.

Lemma NoDup_firstOccurrences l : NoDup (firstOccurrences l).
Proof.
  induction l as [|x l IH]; cbn [firstOccurrences]; constructor.
  - intros H. apply filter_In in H as [_ H].
    now rewrite String.eqb_refl in H.
  - now apply NoDup_filter.
Qed.

Lemma ofPayer_other k c l :
  String.eqb (payer c) k = false -> ofPayer k (c :: l) = ofPayer k l.
Proof. intros E. unfold ofPayer. cbn [List.filter]. now rewrite E. Qed.

(** A payer that does not occur has no claims. *)
Lemma ofPayer_absent k U :
  List.existsb (String.eqb k) (firstOccurrences (List.map payer U)) = false ->
  ofPayer k U = [].
Proof.
  intros X. destruct (ofPayer k U) as [|c l] eqn:E; [reflexivity|].
  assert (I : In c (ofPayer k U)) by (rewrite E; now left).
  apply filter_In in I as [I P]. apply String.eqb_eq in P.
  assert (T : List.existsb (String.eqb k)
                (firstOccurrences (List.map payer U)) = true).
  { apply existsb_exists. exists k. split; [|apply String.eqb_refl].
    apply In_firstOccurrences. rewrite <- P. now apply in_map. }
  congruence.
Qed.

Lemma values_by_keys {V : Type} (m : JsMap.t V) (d : V) :
  NoDup (keys m) ->
  values m
  = List.map (fun k => match get m k with Some v => v | None => d end)
             (keys m).
Proof.
  intros N. unfold values, keys. rewrite List.map_map.
  apply map_ext_in. intros [k v] H. cbn [fst snd].
  now rewrite (NoDup_In_get _ _ _ N H).
Qed.

(** The records of the denial aggregator, payer by payer. *)
Lemma denial_records claims rates :
  calculateDenialOpportunity claims rates
  = List.map (fun k => denialOf rates k (ofPayer k (unpaid claims)))
             (firstOccurrences (List.map payer (unpaid claims))).
Proof.
  unfold calculateDenialOpportunity. fold (unpaid claims).
  destruct (settled_all rates (unpaid claims)) as [N G].
  rewrite (values_by_keys _ (mkDenial EmptyString zero zero zero) N).
  rewrite (keys_fold _ payer (keys_recordDenial rates)).
  cbn [keys List.map List.app]. rewrite firstOccurrences_nil_filter.
  apply map_ext_in. intros k Hk. rewrite G. unfold statOf.
  destruct (ofPayer k (unpaid claims)) eqn:E; [|reflexivity].
  exfalso. apply (proj1 (In_firstOccurrences _ _)) in Hk.
  apply in_map_iff in Hk as [c [<- Hc]].
  assert (I : In c (ofPayer (payer c) (unpaid claims))).
  { apply filter_In. split; [exact Hc|apply String.eqb_refl]. }
  rewrite E in I. destruct I.
Qed.

Section WithHost.
Variable toISOString : Date -> string.

(** X22: the projected opportunity of the dashboard adds up the projected
    values of the payers, in the order in which the payers first have an
    unpaid claim; the projected value of a payer adds up, in input order,
    units times expected rate over its unpaid claims whose payer and code
    have a rate.  Every sum is taken from 0, each addition rounding as
    the numbers do. *)
Theorem projected_opportunity_total (claims : list Claim) :
  let rates := calculateReimbursementRates claims in
  App.projectedOpportunity (App.kpis toISOString claims)
  = sumOf
      (List.map
         (fun k =>
            sumOf (List.map
                     (fun c =>
                        match lookupRate rates (payer c) (cpt c) with
                        | Some r => mul (units c) (expectedRate r)
                        | None => zero
                        end)
                     (List.filter (hasRate rates)
                        (ofPayer k (unpaid claims)))))
         (firstOccurrences (List.map payer (unpaid claims)))).
Proof.
  intros rates. unfold App.kpis. cbn [App.projectedOpportunity].
  fold rates. rewrite denial_records, <- sumOf_total, List.map_map.
  reflexivity.
Qed.

End WithHost.

(** Four claims of one payer: the unpaid ones with a rate project 3 and 1
    units at the rate 10. *)
Example projected_opportunity_sample :
  App.projectedOpportunity (App.kpis (fun _ => EmptyString) mixedSample)
  = Fin 40.
Proof. vm_compute. reflexivity. Qed.

End OpportunityFacts.

(* ------------------------------------------------------------------ *)
(** ** Values found by their label *)

Module KeywordFacts.
Import Str Num JsDate Val Parser StrFacts Spec ParserProps TrimFacts
       ReportFacts LabelProps LabelSamples.

Lemma toLowerCase_app (a b : string) :
  toLowerCase (a ++ b) = (toLowerCase a ++ toLowerCase b)%string.
Proof. unfold toLowerCase. apply map_app. Qed.

Lemma toLowerCase_length (s : string) :
  String.length (toLowerCase s) = String.length s.
Proof.
  unfold toLowerCase. induction s as [|c s IH]; [reflexivity|].
  cbn [map String.length]. now rewrite IH.
Qed.

Lemma startsWith_app (p r : string) : startsWith p (p ++ r) = true.
Proof.
  induction p as [|c p IH]; [reflexivity|].
  cbn [append startsWith]. now rewrite Ascii.eqb_refl, IH.
Qed.

Lemma startsWith_prefix (p q r : string) :
  startsWith (p ++ q) r = true -> startsWith p r = true.
Proof.
  revert r. induction p as [|c p IH]; intros r; [reflexivity|].
  cbn [append startsWith]. destruct r as [|d r]; [discriminate|].
  intros H. apply andb_true_iff in H as [H1 H2].
  rewrite H1. cbn [andb]. now apply IH.
Qed.

Lemma includes_head (p s : string) : startsWith p s = true -> includes p s = true.
Proof. intros H. destruct s; cbn [includes]; now rewrite H. Qed.

Lemma drop_app (a b : string) : drop (String.length a) (a ++ b) = b.
Proof. induction a as [|c a IH]; [reflexivity|exact IH]. Qed.

(** A plain word holds no colon, also in lower case. *)
Lemma plainWord_no_colon (s : string) :
  plainWord s = true -> removeFirstChar ":" (toLowerCase s ++ ":") = toLowerCase s.
Proof.
  unfold plainWord, toLowerCase. intros H. apply negb_true_iff in H.
  induction s as [|c s IH]; [reflexivity|].
  cbn [existsb] in H. apply orb_false_iff in H as [Hc H].
  cbn [map append removeFirstChar].
  assert (E : Ascii.eqb (lowerChar c) ":" = false).
  { apply negb_false_iff in Hc. revert Hc. clear.
    destruct c as [[] [] [] [] [] [] [] []]; (reflexivity || discriminate). }
  rewrite E. now rewrite IH.
Qed.

(** The label at the head of a text is what the pattern removes. *)
Lemma removeFirstCI_label (p label v : string) :
  toLowerCase label = p -> removeFirstCI p (label ++ v) = v.
Proof.
  intros E. destruct (label ++ v)%string as [|c s] eqn:T.
  - destruct label; [|discriminate]. cbn in T. subst v. now subst p.
  - cbn [removeFirstCI]. rewrite <- T, toLowerCase_app, E, startsWith_app.
    rewrite <- E, toLowerCase_length. apply drop_app.
Qed.

Lemma findIndex_skip {A : Type} (p : A -> bool) (pre : list A) (x : A)
    (post : list A) :
  (forall y, In y pre -> p y = false) -> p x = true ->
  findIndex p (pre ++ x :: post) = Some (List.length pre).
Proof.
  induction pre as [|y pre IH]; intros H Hx; cbn [List.app findIndex List.length].
  - now rewrite Hx.
  - rewrite (H y (or_introl eq_refl)).
    rewrite IH; [reflexivity| |exact Hx]. intros z Hz. apply H. now right.
Qed.

Lemma skipn_after {A : Type} (pre : list A) (x : A) (post : list A) :
  List.skipn (S (List.length pre)) (pre ++ x :: post) = post.
Proof. induction pre as [|y pre IH]; [reflexivity|exact IH]. Qed.

Lemma nth_after (pre : list value) (x : value) (post : list value) :
  at_ (pre ++ x :: post) (List.length pre) = x.
Proof. unfold at_. induction pre as [|y pre IH]; [reflexivity|exact IH]. Qed.

Section WithHost.
Variable host : Host.t.

Lemma nextValue_trimmed (cells : list value) : trimmed (nextValue host cells).
Proof.
  unfold trimmed. induction cells as [|c cells IH]; [reflexivity|].
  cbn [nextValue].
  destruct (negb (isEmptyStr c) && negb (isNull c) && negb (isUndefined c));
    [apply trim_idem|exact IH].
Qed.

(** X23: the value that [findValueByKeyword] finds for a keyword written with
    plain characters and a final colon.  The result never has white space
    around it, and is empty when no string cell holds the keyword without
    its colon, in any case.  When the first such cell begins with the
    keyword and its colon, in any case, the value is what follows in that
    cell, without its first colon and trimmed; when nothing is left, it is
    the next cell of the row that is neither empty nor null, trimmed. *)
Theorem findValueByKeyword_label (base : string) :
  plainWord base = true ->
  (forall row, trimmed (findValueByKeyword host row (withColon base)))
  /\ (forall row,
        noneHolds (toLowerCase base) row ->
        findValueByKeyword host row (withColon base) = EmptyString)
  /\ (forall pre label v post,
        noneHolds (toLowerCase base) pre ->
        toLowerCase label = toLowerCase (withColon base) ->
        findValueByKeyword host (pre ++ VStr (label ++ v) :: post)
                           (withColon base)
        = let value := trim (removeFirstChar ":" v) in
          if nonEmpty value then value else nextValue host post).
Proof.
  intros P.
  assert (K : removeFirstChar ":" (toLowerCase (withColon base))
              = toLowerCase base).
  { unfold withColon. rewrite toLowerCase_app. now apply plainWord_no_colon. }
  split; [|split].
  - intros row. unfold findValueByKeyword, trimmed.
    destruct (findIndex _ row) as [i|]; [|reflexivity].
    destruct (nonEmpty _); [apply trim_idem|apply nextValue_trimmed].
  - intros row N. unfold findValueByKeyword. rewrite K.
    assert (F : findIndex (strCell (includes (toLowerCase base))) row = None).
    { apply findIndex_None. induction row as [|c row IH]; [reflexivity|].
      cbn [List.existsb]. rewrite (N c (or_introl eq_refl)).
      apply IH. intros y Hy. apply N. now right. }
    now rewrite F.
  - intros pre label v post N E. unfold findValueByKeyword. rewrite K.
    assert (H : strCell (includes (toLowerCase base)) (VStr (label ++ v)) = true).
    { cbn [strCell]. apply includes_head. rewrite toLowerCase_app, E.
      unfold withColon. rewrite toLowerCase_app.
      apply (startsWith_prefix _ (toLowerCase ":")).
      apply startsWith_app. }
    rewrite (findIndex_skip _ pre _ post N H).
    rewrite nth_after, skipn_after. cbn [Val.toString].
    now rewrite (removeFirstCI_label _ label v E).
Qed.

End WithHost.

Lemma findValueByKeyword_label_witness :
  findValueByKeyword SampleHost.utc spreadRow "Insurance:" = "Aetna"
  /\ findValueByKeyword SampleHost.utc swappedRow "Patient ID:" = "7"
  /\ findValueByKeyword SampleHost.utc swappedRow "Patient:" = "Patient ID 7"
  /\ findValueByKeyword SampleHost.utc [VStr "Date"] "Patient:" = EmptyString.
Proof.
  split; [|split; [|split]].
  - exact (proj2 (proj2 (findValueByKeyword_label SampleHost.utc "Insurance"
                           eq_refl))
             [VStr "x"] "INSURANCE:" EmptyString
             [VStr EmptyString; VNull; VStr " Aetna "]
             ltac:(intros c [<-|[]]; reflexivity) eq_refl).
  - exact (proj2 (proj2 (findValueByKeyword_label SampleHost.utc "Patient ID"
                           eq_refl))
             [] "Patient ID:" " 7" [VStr "Patient: Bob"]
             ltac:(intros c []) eq_refl).
  - reflexivity.
  - apply (proj1 (proj2 (findValueByKeyword_label SampleHost.utc "Patient"
                           eq_refl))).
    intros c [<-|[]]. reflexivity.
Defined.

End KeywordFacts.

(* ------------------------------------------------------------------ *)
(** ** Grouping keeps the totals *)

Module TotalsFacts.
Import Str Num JsDate Val Parser Analytics JsMap JsMapFacts HistoryFacts
       RateFacts DenialFacts Spec Samples AnalyticsProps AnalyticsSamples
       OrderFacts PatientRecordFacts AppProps AppSamples KpiFacts
       OpportunityFacts.

Section WithKey.
Variable key : Claim -> string.

Lemma withKey_absent k U :
  List.existsb (String.eqb k) (firstOccurrences (List.map key U)) = false ->
  keyed key k U = [].
Proof.
  intros X. destruct (keyed key k U) as [|c l] eqn:E; [reflexivity|].
  assert (I : In c (keyed key k U)) by (rewrite E; now left).
  unfold keyed in I. apply filter_In in I as [I P]. apply String.eqb_eq in P.
  assert (T : List.existsb (String.eqb k)
                (firstOccurrences (List.map key U)) = true).
  { apply existsb_exists. exists k. split; [|apply String.eqb_refl].
    apply In_firstOccurrences. rewrite <- P. now apply in_map. }
  congruence.
Qed.

End WithKey.

Section WithHost.
Variable host : Host.t.
Variable toISOString : Date -> string.

(** The revenues of the patient records, patient by patient. *)
Lemma patient_revenues claims :
  List.map totalRevenue (analyzePatients host claims)
  = List.map (fun k => sumOf (List.map paid (claimsOf k claims)))
             (firstOccurrences (List.map patientId claims)).
Proof.
  unfold analyzePatients. rewrite List.map_map. cbn [totalRevenue].
  destruct (gathered_all host claims) as [N G].
  rewrite (values_by_keys _ (mkPatient EmptyString EmptyString O zero None
                                       EmptyString) N).
  rewrite (keys_fold _ patientId (keys_recordPatient host)).
  cbn [keys List.map List.app]. rewrite firstOccurrences_nil_filter.
  rewrite List.map_map. apply map_ext_in. intros k Hk. rewrite G.
  destruct (claimsOf k claims) as [|c cs] eqn:E; [|reflexivity].
  exfalso. apply (proj1 (In_firstOccurrences _ _)) in Hk.
  apply in_map_iff in Hk as [c [<- Hc]].
  assert (I : In c (claimsOf (patientId c) claims)).
  { apply filter_In. split; [exact Hc|apply String.eqb_refl]. }
  rewrite E in I. destruct I.
Qed.

Lemma total_map {A B : Type} (f : B -> number) (g : A -> B) (l : list A) :
  App.total f (List.map g l) = App.total (fun x => f (g x)) l.
Proof.
  unfold App.total. generalize zero.
  induction l as [|x l IH]; intros a; [reflexivity|].
  cbn [List.map fold_left]. apply IH.
Qed.

Lemma total_of_fields {A : Type} (f : A -> number) (l : list A) :
  App.total f l = App.total (fun x => x) (List.map f l).
Proof. now rewrite total_map. Qed.

End WithHost.

End TotalsFacts.

(* ------------------------------------------------------------------ *)
(** ** The monthly trend *)

Module TrendFacts.
Import Str Num JsDate Val Parser Analytics JsMap JsMapFacts DenialFacts Spec
       Samples AnalyticsProps AnalyticsSamples OrderFacts AppProps KpiFacts
       OpportunityFacts TotalsFacts Trend TrendProps TrendSamples.

Section WithHost.
Variable host : Host.t.

(** The claims without a date play no part. *)
Lemma monthly_dated claims :
  forall m,
    fold_left (monthlyStep host) claims m
    = fold_left (monthlyStep host) (dated claims) m.
Proof.
  induction claims as [|c l IH]; intros m; [reflexivity|].
  cbn [fold_left dated List.filter]. unfold dated in IH.
  unfold monthlyStep at 2.
  destruct (dos c) as [d|] eqn:E.
  - cbn [fold_left]. unfold monthlyStep at 3. rewrite E. apply IH.
  - apply IH.
Qed.

Lemma dated_has_date claims c :
  In c (dated claims) -> exists d, dos c = Some d.
Proof.
  unfold dated. intros H. apply filter_In in H as [_ H].
  destruct (dos c) as [d|]; [now exists d|discriminate].
Qed.

Lemma keyed_snoc (key : Claim -> string) k l c :
  keyed key k (l ++ [c])
  = keyed key k l ++ (if String.eqb (key c) k then [c] else []).
Proof. unfold keyed. now rewrite filter_app. Qed.

Lemma tallied_step m done c d :
  dos c = Some d ->
  tallied host m done ->
  tallied host (monthlyStep host m c) (done ++ [c]).
Proof.
  intros D [N G]. unfold monthlyStep. rewrite D.
  split; [now apply NoDup_keys_set|].
  intros k. rewrite get_set, keyed_snoc.
  assert (K : monthOf host c = monthKey host d) by (unfold monthOf; now rewrite D).
  rewrite K.
  destruct (String.eqb (monthKey host d) k) eqn:E.
  - apply String.eqb_eq in E. subst k. rewrite G.
    destruct (keyed (monthOf host) (monthKey host d) done) as [|x l] eqn:L.
    + reflexivity.
    + cbn [monthRecord month mPaid mUnits].
      change ((x :: l) ++ [c]) with (x :: (l ++ [c])).
      cbn [monthRecord].
      change (x :: (l ++ [c])) with ((x :: l) ++ [c]).
      rewrite !map_app. cbn [List.map]. now rewrite !sumOf_snoc.
  - rewrite List.app_nil_r. apply G.
Qed.

Lemma tallied_fold l :
  (forall c, In c l -> exists d, dos c = Some d) ->
  forall m done, tallied host m done ->
    tallied host (fold_left (monthlyStep host) l m) (done ++ l).
Proof.
  induction l as [|c l IH]; intros D m done H; cbn [fold_left].
  - now rewrite List.app_nil_r.
  - replace (done ++ c :: l) with ((done ++ [c]) ++ l)
      by now rewrite <- List.app_assoc.
    destruct (D c (or_introl eq_refl)) as [d Hd].
    apply IH; [intros x Hx; apply D; now right|].
    now apply (tallied_step m done c d).
Qed.

Lemma tallied_all claims :
  tallied host (fold_left (monthlyStep host) claims JsMap.empty)
          (dated claims).
Proof.
  rewrite monthly_dated.
  apply (tallied_fold (dated claims) (dated_has_date claims) JsMap.empty []).
  split; [constructor|reflexivity].
Qed.

(** The months of the trend, in the order in which they first occur. *)
Lemma monthly_keys claims :
  keys (fold_left (monthlyStep host) claims JsMap.empty)
  = firstOccurrences (List.map (monthOf host) (dated claims)).
Proof.
  rewrite monthly_dated.
  pose (f := fun (m : JsMap.t MonthlyStat) (c : Claim) =>
               let key := monthOf host c in
               let existing :=
                 match get m key with
                 | Some e => e
                 | None => mkMonthly key zero zero
                 end in
               set key
                 (mkMonthly (month existing)
                            (add (mPaid existing) (paid c))
                            (add (mUnits existing) (units c)))
                 m).
  assert (H : forall l,
             (forall c, In c l -> exists d, dos c = Some d) ->
             forall m,
               fold_left (monthlyStep host) l m = fold_left f l m).
  { induction l as [|c l IH]; intros D m; [reflexivity|].
    cbn [fold_left]. destruct (D c (or_introl eq_refl)) as [d Hd].
    rewrite IH by (intros x Hx; apply D; now right).
    f_equal. unfold monthlyStep, f, monthOf. now rewrite Hd. }
  rewrite (H (dated claims) (dated_has_date claims)).
  rewrite (keys_fold f (monthOf host)).
  - cbn [keys List.map List.app]. apply firstOccurrences_nil_filter.
  - intros m x. unfold f. apply keys_set.
Qed.

(** The records of the trend, month by month. *)
Lemma monthly_records claims :
  monthlyData host claims
  = List.map (fun k =>
                mkMonthly k
                  (sumOf (List.map paid (keyed (monthOf host) k (dated claims))))
                  (sumOf (List.map units (keyed (monthOf host) k (dated claims)))))
             (firstOccurrences (List.map (monthOf host) (dated claims))).
Proof.
  unfold monthlyData.
  destruct (tallied_all claims) as [N G].
  rewrite (values_by_keys _ (mkMonthly EmptyString zero zero) N).
  rewrite monthly_keys.
  apply map_ext_in. intros k Hk. rewrite G.
  destruct (keyed (monthOf host) k (dated claims)) as [|c cs] eqn:E;
    [|reflexivity].
  exfalso. apply (proj1 (In_firstOccurrences _ _)) in Hk.
  apply in_map_iff in Hk as [c [<- Hc]].
  assert (I : In c (keyed (monthOf host) (monthOf host c) (dated claims))).
  { apply filter_In. split; [exact Hc|apply String.eqb_refl]. }
  rewrite E in I. destruct I.
Qed.

(** X25: the monthly trend has one record for each month with a dated claim,
    in the order in which the months first occur; the record has the sums
    of the paid amounts and of the units of the dated claims of its month,
    each taken from 0 in input order.  The claims without a date are in no
    record. *)
Theorem monthly_totals (claims : list Claim) :
  List.map month (monthlyData host claims)
  = firstOccurrences (List.map (monthOf host) (dated claims))
  /\ (forall s,
        In s (monthlyData host claims) ->
        exists c cs,
          keyed (monthOf host) (month s) (dated claims) = c :: cs
          /\ mPaid s = sumOf (List.map paid (c :: cs))
          /\ mUnits s = sumOf (List.map units (c :: cs))).
Proof.
  split.
  - rewrite monthly_records, List.map_map. cbn [month]. apply map_id.
  - intros s Hs. rewrite monthly_records in Hs.
    apply in_map_iff in Hs as [k [<- Hk]]. cbn [month mPaid mUnits].
    destruct (keyed (monthOf host) k (dated claims)) as [|c cs] eqn:E.
    + exfalso. apply (proj1 (In_firstOccurrences _ _)) in Hk.
      apply in_map_iff in Hk as [c [<- Hc]].
      assert (I : In c (keyed (monthOf host) (monthOf host c) (dated claims))).
      { apply filter_In. split; [exact Hc|apply String.eqb_refl]. }
      rewrite E in I. destruct I.
    + exists c, cs. repeat split; reflexivity.
Qed.

End WithHost.

Lemma monthly_totals_witness :
  List.map (fun s => (month s, mPaid s)) (monthlyData SampleHost.utc trendSample)
  = [("2024-01", Fin 85); ("2023-12", Fin 20)]
  /\ exists c cs,
       keyed (monthOf SampleHost.utc) "2024-01" (dated trendSample) = c :: cs
       /\ Fin 85 = sumOf (List.map paid (c :: cs))
       /\ Fin 2 = sumOf (List.map units (c :: cs)).
Proof.
  split; [vm_compute; reflexivity|].
  apply (proj2 (monthly_totals SampleHost.utc trendSample)
           (mkMonthly "2024-01" (Fin 85) (Fin 2))).
  vm_compute. left. reflexivity.
Defined.

End TrendFacts.

(* ------------------------------------------------------------------ *)
(** ** The sort *)

Module SortFacts.
Import JsArray.

Section WithOrder.
Context {A : Type}.
Variable before : A -> A -> bool.

Lemma insertSorted_perm x l : Permutation (insertSorted before x l) (x :: l).
Proof.
  induction l as [|y r IH]; cbn [insertSorted]; [reflexivity|].
  destruct (before x y); [reflexivity|].
  rewrite IH. apply perm_swap.
Qed.

Lemma sort_cons x l :
  sort before (x :: l) = insertSorted before x (sort before l).
Proof. reflexivity. Qed.

Lemma sort_perm l : Permutation (sort before l) l.
Proof.
  induction l as [|x l IH]; [reflexivity|].
  rewrite sort_cons, insertSorted_perm. now constructor.
Qed.

(** The members of a class whose members the comparator takes for equal
    keep their order. *)
Lemma insertSorted_stable (cls : A -> bool) x l :
  (forall a b, cls a = true -> cls b = true -> before a b = true) ->
  List.filter cls (insertSorted before x l) = List.filter cls (x :: l).
Proof.
  intros H. induction l as [|y r IH]; cbn [insertSorted]; [reflexivity|].
  destruct (before x y) eqn:B; [reflexivity|].
  cbn [List.filter] in *. rewrite IH.
  destruct (cls x) eqn:X; [|reflexivity].
  destruct (cls y) eqn:Y; [|reflexivity].
  rewrite (H x y X Y) in B. discriminate.
Qed.

Lemma sort_stable (cls : A -> bool) l :
  (forall a b, cls a = true -> cls b = true -> before a b = true) ->
  List.filter cls (sort before l) = List.filter cls l.
Proof.
  intros H. induction l as [|x l IH]; [reflexivity|].
  rewrite sort_cons, (insertSorted_stable cls x _ H).
  cbn [List.filter]. now rewrite IH.
Qed.

Section Consistent.
Variable P : A -> Prop.
Hypothesis total :
  forall a b, P a -> P b -> before a b = true \/ before b a = true.
Hypothesis trans :
  forall a b c, P a -> P b -> P c ->
    before a b = true -> before b c = true -> before a c = true.

Lemma insertSorted_sorted x l :
  P x -> Forall P l ->
  StronglySorted (fun a b => before a b = true) l ->
  StronglySorted (fun a b => before a b = true) (insertSorted before x l).
Proof.
  intros Px Pl S. induction S as [|y r S IH F]; cbn [insertSorted].
  - constructor; constructor.
  - inversion Pl as [|? ? Py Pr]; subst.
    destruct (before x y) eqn:B.
    + constructor; [now constructor|]. constructor; [exact B|].
      rewrite Forall_forall in *. intros z Hz.
      apply (trans x y z Px Py (Pr z Hz) B (F z Hz)).
    + constructor; [now apply IH|].
      rewrite Forall_forall in *. intros z Hz.
      apply (Permutation_in _ (insertSorted_perm x r)) in Hz.
      destruct Hz as [<-|Hz]; [|now apply F].
      destruct (total x y Px Py) as [T|T]; [congruence|exact T].
Qed.

Lemma sort_sorted l :
  Forall P l -> StronglySorted (fun a b => before a b = true) (sort before l).
Proof.
  induction 1 as [|x l Px Pl IH]; [constructor|].
  rewrite sort_cons. apply insertSorted_sorted; [exact Px| |exact IH].
  rewrite Forall_forall in *. intros z Hz. apply Pl.
  now apply (Permutation_in _ (sort_perm l)).
Qed.

End Consistent.

End WithOrder.

Lemma sort_ext_in {A : Type} (f g : A -> A -> bool) (l : list A) :
  (forall a b, In a l -> In b l -> f a b = g a b) ->
  sort f l = sort g l.
Proof.
  induction l as [|x l IH]; intros H; [reflexivity|].
  rewrite !sort_cons.
  rewrite <- IH by (intros a b Ha Hb; apply H; now right).
  assert (K : forall s, (forall z, In z s -> In z l) ->
                insertSorted f x s = insertSorted g x s).
  { induction s as [|y r IHs]; intros I; [reflexivity|].
    cbn [insertSorted].
    rewrite (H x y (or_introl eq_refl) (or_intror (I y (or_introl eq_refl)))).
    rewrite IHs by (intros z Hz; apply I; now right). reflexivity. }
  apply K. intros z Hz. now apply (Permutation_in _ (sort_perm f l)).
Qed.

Lemma StronglySorted_impl_in {A : Type} (R R' : A -> A -> Prop) (l : list A) :
  (forall a b, In a l -> In b l -> R a b -> R' a b) ->
  StronglySorted R l -> StronglySorted R' l.
Proof.
  intros H S. induction S as [|x l S IH F]; constructor.
  - apply IH. intros a b Ha Hb. apply H; now right.
  - rewrite Forall_forall in *. intros z Hz.
    apply H; [now left|now right|now apply F].
Qed.

(** Sorted by a count, the larger first: the first element is the first
    of those with the largest count. *)
Lemma sort_first {A : Type} (cnt : A -> nat) (l : list A) :
  l <> [] ->
  exists pre top post,
    l = pre ++ top :: post
    /\ List.hd_error (sort (fun a b => Nat.leb (cnt b) (cnt a)) l) = Some top
    /\ (forall q, In q pre -> (cnt q < cnt top)%nat)
    /\ (forall q, In q post -> (cnt q <= cnt top)%nat).
Proof.
  induction l as [|x l IH]; intros N; [contradiction|].
  destruct l as [|y l'].
  - exists [], x, []. repeat split; intros q [].
  - destruct (IH ltac:(discriminate)) as [pre [top [post [E [H [Hpre Hpost]]]]]].
    rewrite sort_cons.
    destruct (sort (fun a b => Nat.leb (cnt b) (cnt a)) (y :: l')) as [|h s] eqn:S;
      [discriminate|].
    cbn [List.hd_error] in H. injection H as ->.
    cbn [insertSorted]. destruct (Nat.leb (cnt top) (cnt x)) eqn:L.
    + apply Nat.leb_le in L. exists [], x, (y :: l').
      split; [reflexivity|]. split; [reflexivity|].
      split; [intros q []|]. intros q Hq. rewrite E in Hq.
      apply in_app_or in Hq as [Hq|[<-|Hq]].
      * specialize (Hpre q Hq). lia.
      * exact L.
      * specialize (Hpost q Hq). lia.
    + apply Nat.leb_gt in L. exists (x :: pre), top, post.
      split; [now rewrite E|]. split; [reflexivity|].
      split; [|exact Hpost]. intros q [<-|Hq]; [exact L|now apply Hpre].
Qed.

End SortFacts.

(* ------------------------------------------------------------------ *)
(** ** The provider of the report *)

Module ProviderChoiceFacts.
Import Str Num JsDate Val Parser Analytics JsMap JsMapFacts Spec Samples
       AnalyticsProps OrderFacts AppProps OpportunityFacts TotalsFacts
       TrendFacts JsArray SortFacts AppLoad RankProps RankSamples.

(** The running counts after the claims [done]. *)
Lemma counts_step m done c :
  NoDup (keys m) ->
  (forall k, countOf m k = occurrences provider k done) ->
  NoDup (keys (countProvider m c))
  /\ forall k, countOf (countProvider m c) k
               = occurrences provider k (done ++ [c]).
Proof.
  intros N G. unfold countProvider.
  split; [now apply NoDup_keys_set|].
  intros k. unfold countOf, occurrences. rewrite get_set, keyed_snoc.
  rewrite length_app.
  destruct (String.eqb (provider c) k) eqn:E.
  - apply String.eqb_eq in E. subst k. cbn [List.length].
    fold (countOf m (provider c)). rewrite G. reflexivity.
  - cbn [List.length]. rewrite Nat.add_0_r.
    fold (countOf m k). apply G.
Qed.

Lemma counts_fold l :
  forall m done,
    NoDup (keys m) ->
    (forall k, countOf m k = occurrences provider k done) ->
    forall k, countOf (fold_left countProvider l m) k
              = occurrences provider k (done ++ l).
Proof.
  induction l as [|c l IH]; intros m done N G k; cbn [fold_left].
  - rewrite List.app_nil_r. apply G.
  - replace (done ++ c :: l) with ((done ++ [c]) ++ l)
      by now rewrite <- List.app_assoc.
    destruct (counts_step m done c N G) as [N' G'].
    now apply IH.
Qed.

Lemma counts_all claims k :
  countOf (fold_left countProvider claims JsMap.empty) k
  = occurrences provider k claims.
Proof.
  apply (counts_fold claims JsMap.empty [] (NoDup_nil _)).
  intros k'. reflexivity.
Qed.

Lemma counts_keys claims :
  keys (fold_left countProvider claims JsMap.empty)
  = firstOccurrences (List.map provider claims).
Proof.
  rewrite (keys_fold countProvider provider).
  - cbn [keys List.map List.app]. apply firstOccurrences_nil_filter.
  - intros m x. unfold countProvider. apply keys_set.
Qed.

Lemma ordinaryKey_nonEmpty k : ordinaryKey k = true -> nonEmpty k = true.
Proof. destruct k; [discriminate|reflexivity]. Qed.

(** X26: no claims, no provider: the function stops at its alert.  A provider
    that the caller supplies is taken as it is.  Otherwise the provider
    is deduced from the claims, when no provider of a claim is a text of
    digits or the name of an inherited property: it is the provider with
    the most claims, and among several of them the one that occurs first. *)
Theorem provider_is_most_frequent :
  (forall input, handleDataLoaded [] input = None)
  /\ (forall claims input,
        claims <> [] -> nonEmpty input = true ->
        handleDataLoaded claims input = Some input)
  /\ (forall claims,
        claims <> [] ->
        (forall c, In c claims -> ordinaryKey (provider c) = true) ->
        exists pre top post,
          handleDataLoaded claims EmptyString = Some top
          /\ firstOccurrences (List.map provider claims) = pre ++ top :: post
          /\ (forall q, In q pre ->
                (occurrences provider q claims
                 < occurrences provider top claims)%nat)
          /\ (forall q, In q post ->
                (occurrences provider q claims
                 <= occurrences provider top claims)%nat)).
Proof.
  split; [reflexivity|]. split.
  - intros [|c l] input N H; [contradiction|].
    unfold handleDataLoaded. now rewrite H.
  - intros claims N O.
    assert (K : firstOccurrences (List.map provider claims) <> []).
    { destruct claims as [|c l]; [contradiction|]. discriminate. }
    destruct (sort_first (fun k => occurrences provider k claims) _ K)
      as [pre [top [post [E [H [Hpre Hpost]]]]]].
    exists pre, top, post.
    split; [|split; [exact E|split; assumption]].
    destruct claims as [|c l] eqn:C; [contradiction|]. rewrite <- C in *.
    unfold handleDataLoaded. rewrite C at 1. cbn [nonEmpty].
    unfold topProv. rewrite counts_keys.
    rewrite (sort_ext_in _
               (fun a b => Nat.leb (occurrences provider b claims)
                                   (occurrences provider a claims))).
    + rewrite H.
      assert (I : In top (List.map provider claims)).
      { apply In_firstOccurrences. rewrite E. apply in_elt. }
      apply in_map_iff in I as [x [<- Hx]].
      now rewrite (ordinaryKey_nonEmpty _ (O x Hx)).
    + intros a b _ _. now rewrite !counts_all.
Qed.

Lemma provider_is_most_frequent_witness :
  handleDataLoaded providersSample EmptyString = Some "Dr B"
  /\ exists pre top post,
       handleDataLoaded providersSample EmptyString = Some top
       /\ firstOccurrences (List.map provider providersSample)
          = pre ++ top :: post
       /\ (forall q, In q pre ->
             (occurrences provider q providersSample
              < occurrences provider top providersSample)%nat)
       /\ (forall q, In q post ->
             (occurrences provider q providersSample
              <= occurrences provider top providersSample)%nat).
Proof.
  split; [reflexivity|].
  apply (proj2 (proj2 provider_is_most_frequent) providersSample).
  - discriminate.
  - intros c [<-|[<-|[<-|[<-|[<-|[]]]]]]; reflexivity.
Defined.

End ProviderChoiceFacts.

(* ------------------------------------------------------------------ *)
(** ** The top patients *)

Module TopPatientFacts.
Import Str Num JsDate Val Parser Analytics JsMap JsMapFacts Spec Samples
       AnalyticsProps AnalyticsSamples OrderFacts AppProps KpiFacts
       OpportunityFacts TotalsFacts JsArray SortFacts PatientAnalytics
       RankProps NumFacts SelectionFacts.

(** A sum is a value of the format. *)
Lemma operand_fold (l : list number) (a : number) :
  operand a = a -> operand (fold_left add l a) = fold_left add l a.
Proof.
  revert a. induction l as [|x l IH]; intros a H; cbn [fold_left];
    [exact H|].
  apply IH, operand_add.
Qed.

Lemma operand_sumOf (l : list number) : operand (sumOf l) = sumOf l.
Proof. apply operand_fold. reflexivity. Qed.

(** Adding a finite number to a number gives a number. *)
Lemma add_number (a x : number) :
  isNaN a = false -> finite x -> isNaN (add a x) = false.
Proof.
  intros A [q [-> Q]]. unfold add. cbn [operand]. rewrite Q.
  pose proof (operand_NaN a) as N. rewrite A in N.
  destruct (operand a) as [|v|s]; [discriminate|apply b64_number|reflexivity].
Qed.

Lemma fold_number (l : list number) (a : number) :
  (forall x, In x l -> finite x) -> isNaN a = false ->
  isNaN (fold_left add l a) = false.
Proof.
  revert a. induction l as [|x l IH]; intros a F A; cbn [fold_left];
    [exact A|].
  apply IH; [intros y Hy; apply F; now right|].
  apply add_number; [exact A|apply F; now left].
Qed.

(** What the comparator of the ranking sees of two numbers of the format:
    the difference is not above 0 exactly when the first is not above the
    second. *)
Lemma before_number (a b : number) :
  operand a = a -> operand b = b -> isNaN a = false -> isNaN b = false ->
  notAbove0 (App.sub b a) = leb b a.
Proof.
  intros Ca Cb Na Nb. unfold App.sub, add. rewrite operand_neg, Ca, Cb.
  destruct a as [|x|sa]; [discriminate| |];
    (destruct b as [|y|sb]; [discriminate| |]); cbn [neg].
  - cbn [operand] in Ca, Cb.
    pose proof (difference_sign x y Ca Cb) as D.
    pose proof (b64_number (y + - x)) as N.
    destruct (b64 (y + - x)) as [|v|s]; [discriminate|exact D|exact D].
  - now destruct sb.
  - now destruct sa.
  - now destruct sa, sb.
Qed.

(** Two numbers with the same value are a tie for the comparator. *)
Lemma before_same (a b v : number) :
  sameKey a v = true -> sameKey b v = true ->
  notAbove0 (App.sub b a) = true.
Proof.
  intros A B. unfold App.sub, add. rewrite operand_neg.
  destruct a as [|x|sa], v as [|z|sv]; try discriminate A;
    destruct b as [|y|sb]; try discriminate B; cbn [operand neg].
  - reflexivity.
  - cbn [sameKey] in A, B. apply Qeq_bool_iff in A, B.
    assert (E : y == x) by (rewrite A, B; reflexivity).
    rewrite (b64_comp y x E).
    pose proof (b64_number x) as N.
    destruct (b64 x) as [|w|s]; [discriminate| |].
    + cbn [neg]. rewrite (b64_comp (w + - w) 0) by ring. reflexivity.
    + cbn [neg]. now destruct s.
  - cbn [sameKey] in A, B. apply Bool.eqb_prop in A, B. subst sa sb.
    now destruct sv.
Qed.

Section WithHost.
Variable host : Host.t.

(** The revenue of every record is a number of the format when the paid
    amounts are finite. *)
Lemma revenues_number claims :
  (forall c, In c claims -> finite (paid c)) ->
  forall p, In p (analyzePatients host claims) ->
    isNaN (totalRevenue p) = false
    /\ operand (totalRevenue p) = totalRevenue p.
Proof.
  intros F p Hp.
  assert (I : In (totalRevenue p)
                 (List.map totalRevenue (analyzePatients host claims)))
    by now apply in_map.
  rewrite patient_revenues in I.
  apply in_map_iff in I as [k [<- _]].
  split; [|apply operand_sumOf].
  apply fold_number; [|reflexivity].
  intros x Hx. apply in_map_iff in Hx as [c [<- Hc]].
  apply filter_In in Hc as [Hc _]. now apply F.
Qed.

(** X27: the two rankings of the patient page.  Each shows the first ten, or
    all when there are fewer, of the records of [analyzePatients] put in
    descending order, of revenue (the paid amounts being finite; a revenue
    may still be infinite) or of visits: with the records it leaves out,
    it holds every record once, and no record is above one that comes
    before it.  Records with the same revenue, or the same visits, keep
    the order of [analyzePatients]. *)
Theorem top_patients (claims : list Claim) :
  let ps := analyzePatients host claims in
  ((forall c, In c claims -> finite (paid c)) ->
   exists rest,
     Permutation (topByRevenue ps ++ rest) ps
     /\ List.length (topByRevenue ps) = Nat.min 10 (List.length ps)
     /\ StronglySorted
          (fun a b => leb (totalRevenue b) (totalRevenue a) = true)
          (topByRevenue ps ++ rest)
     /\ forall v,
          List.filter (fun p => sameKey (totalRevenue p) v)
                      (topByRevenue ps ++ rest)
          = List.filter (fun p => sameKey (totalRevenue p) v) ps)
  /\ exists rest,
       Permutation (topByVisits ps ++ rest) ps
       /\ List.length (topByVisits ps) = Nat.min 10 (List.length ps)
       /\ StronglySorted (fun a b => (totalVisits b <= totalVisits a)%nat)
                         (topByVisits ps ++ rest)
       /\ forall n,
            List.filter (fun p => Nat.eqb (totalVisits p) n)
                        (topByVisits ps ++ rest)
            = List.filter (fun p => Nat.eqb (totalVisits p) n) ps.
Proof.
  cbv zeta. split.
  - intros F. pose proof (revenues_number claims F) as R.
    set (ps := analyzePatients host claims) in *.
    set (f := fun a b : PatientStat =>
                notAbove0 (App.sub (totalRevenue b) (totalRevenue a))).
    set (g := fun a b : PatientStat =>
                leb (totalRevenue b) (totalRevenue a)).
    assert (E : sort f ps = sort g ps).
    { apply sort_ext_in. intros a b Ha Hb.
      destruct (R a Ha) as [Na Ca]. destruct (R b Hb) as [Nb Cb].
      now apply before_number. }
    exists (List.skipn 10 (sort f ps)). unfold topByRevenue. fold f.
    rewrite firstn_skipn, length_firstn.
    rewrite (Permutation_length (sort_perm f ps)).
    split; [apply sort_perm|]. split; [reflexivity|]. split.
    + rewrite E.
      apply (sort_sorted g (fun p => isNaN (totalRevenue p) = false)).
      * intros a b Na Nb. unfold g.
        destruct (leb (totalRevenue b) (totalRevenue a)) eqn:L;
          [now left|right].
        now apply leb_total.
      * intros a b c Na Nb Nc. unfold g. intros H1 H2.
        now apply (leb_trans _ (totalRevenue b)).
      * apply Forall_forall. intros p Hp. now apply R.
    + intros v. apply sort_stable. intros a b Ha Hb. unfold f.
      now apply (before_same _ _ v).
  - set (ps := analyzePatients host claims).
    set (f := fun a b : PatientStat =>
                Nat.leb (totalVisits b) (totalVisits a)).
    exists (List.skipn 10 (sort f ps)). unfold topByVisits. fold f.
    rewrite firstn_skipn, length_firstn.
    rewrite (Permutation_length (sort_perm f ps)).
    split; [apply sort_perm|]. split; [reflexivity|]. split.
    + apply (StronglySorted_impl_in (fun a b => f a b = true)).
      * intros a b _ _ H. now apply Nat.leb_le in H.
      * apply (sort_sorted f (fun _ => True)).
        -- intros a b _ _. unfold f.
           destruct (Nat.le_ge_cases (totalVisits a) (totalVisits b)) as [L|L].
           ++ right. now apply Nat.leb_le.
           ++ left. now apply Nat.leb_le.
        -- intros a b c _ _ _ H1 H2. unfold f in *.
           apply Nat.leb_le in H1, H2. apply Nat.leb_le. lia.
        -- apply Forall_forall. intros; exact I.
    + intros n. apply sort_stable. intros a b Ha Hb. unfold f.
      apply Nat.eqb_eq in Ha, Hb. apply Nat.leb_le. lia.
Qed.

End WithHost.

Lemma top_patients_witness :
  List.map sPatientId (topByRevenue (analyzePatients SampleHost.utc visitsSample))
  = ["P1"; "P2"]
  /\ exists rest,
       Permutation
         (topByRevenue (analyzePatients SampleHost.utc visitsSample) ++ rest)
         (analyzePatients SampleHost.utc visitsSample)
       /\ List.length (topByRevenue (analyzePatients SampleHost.utc visitsSample))
          = Nat.min 10 (List.length (analyzePatients SampleHost.utc visitsSample))
       /\ StronglySorted
            (fun a b => leb (totalRevenue b) (totalRevenue a) = true)
            (topByRevenue (analyzePatients SampleHost.utc visitsSample) ++ rest)
       /\ forall v,
            List.filter (fun p => sameKey (totalRevenue p) v)
              (topByRevenue (analyzePatients SampleHost.utc visitsSample) ++ rest)
            = List.filter (fun p => sameKey (totalRevenue p) v)
                (analyzePatients SampleHost.utc visitsSample).
Proof.
  split; [vm_compute; reflexivity|].
  apply (proj1 (top_patients SampleHost.utc visitsSample)).
  intros c [<-|[<-|[<-|[<-|[]]]]]; eexists;
    (split; [reflexivity|vm_compute; reflexivity]).
Defined.

End TopPatientFacts.

(* ------------------------------------------------------------------ *)
(** ** From the files to the report *)

Module UploadFacts.
Import Str Num JsDate Val Parser Spec Samples ParserProps AppProps MergeFacts
       AppLoad Upload UploadSamples.

Lemma rejections_none results :
  rejections results = [] ->
  List.map Ok (fulfilled results) = results.
Proof.
  induction results as [|[a|m] r IH]; cbn [rejections fulfilled List.map];
    intros H; [reflexivity| |discriminate].
  now rewrite IH.
Qed.

Lemma rejections_In results m :
  In (Err m) results <-> In m (rejections results).
Proof.
  induction results as [|[a|m'] r IH]; cbn [rejections In].
  - reflexivity.
  - rewrite <- IH. split; [intros [[=]|H]; exact H|now right].
  - rewrite <- IH. split.
    + intros [[= ->]|H]; [now left|now right].
    + intros [->|H]; [now left|now right].
Qed.

Lemma reindexFrom_nil i l : UploadScreen.reindexFrom i l = [] -> l = [].
Proof. destruct l; [reflexivity|discriminate]. Qed.

Section WithHost.
Variable host : Host.t.

(** X28: what the upload screen does with the files.  More than 12 files are
    refused whatever they hold.  When a file of up to 12 is of a type that
    is not read, or makes its parser fail, the screen reports a failure
    and hands on nothing, whatever the other files hold.  What it hands
    on is never empty: it is the claims of all the files, in the order of
    the files, numbered from 1, with the provider name as typed; so that
    [handleDataLoaded] never stops at its alert for no claims.  The same
    holds of the pasted text, which is not parsed at all when it is white
    space only. *)
Theorem upload_outcomes :
  (forall files providerName,
     (12 < List.length files)%nat ->
     processFiles host files providerName = Refused tooManyFiles)
  /\ (forall files providerName f m,
        (List.length files <= 12)%nat ->
        In f files -> parseFile host providerName f = Err m ->
        exists msgs,
          processFiles host files providerName = Failed msgs
          /\ In ("Failed to process files: " ++ m)%string msgs)
  /\ (forall files providerName claims p,
        processFiles host files providerName = Loaded claims p ->
        p = providerName
        /\ claims <> []
        /\ numbered claims
        /\ (exists results,
              List.map (parseFile host providerName) files
              = List.map Ok results
              /\ List.map contentOf claims
                 = List.map contentOf (List.concat results))
        /\ handleDataLoaded claims p <> None)
  /\ (forall textInput providerName,
        nonEmpty (trim textInput) = false ->
        handleManualAnalyze host textInput providerName = Nothing)
  /\ (forall textInput providerName claims p,
        handleManualAnalyze host textInput providerName = Loaded claims p ->
        p = providerName
        /\ parseClaimsData host textInput providerName = Ok claims
        /\ handleDataLoaded claims p <> None).
Proof.
  split; [|split; [|split; [|split]]].
  - intros files providerName L. unfold processFiles.
    destruct files as [|f l]; [cbn in L; lia|].
    apply Nat.ltb_lt in L. now rewrite L.
  - intros files providerName f m L I E. unfold processFiles.
    destruct files as [|f0 l] eqn:F; [destruct I|]. rewrite <- F in *.
    assert (L' : (12 <? List.length files)%nat = false)
      by now apply Nat.ltb_ge.
    rewrite L'.
    assert (R : In m (rejections (List.map (parseFile host providerName) files))).
    { apply rejections_In. rewrite <- E. now apply in_map. }
    destruct (rejections (List.map (parseFile host providerName) files))
      as [|m0 ms] eqn:Rj; [destruct R|].
    eexists. split; [reflexivity|].
    apply (in_map (fun x => ("Failed to process files: " ++ x)%string)) in R.
    exact R.
  - intros files providerName claims p H. unfold processFiles in H.
    destruct files as [|f0 l] eqn:F; [discriminate|]. rewrite <- F in *.
    destruct (12 <? List.length files)%nat; [discriminate|].
    destruct (rejections (List.map (parseFile host providerName) files))
      eqn:Rj; [|discriminate].
    destruct (UploadScreen.combine
                (fulfilled (List.map (parseFile host providerName) files)))
      as [|c cs] eqn:C; [discriminate|].
    assert (E : claims = UploadScreen.reindexFrom 0 (c :: cs)
                /\ p = providerName) by (split; congruence).
    destruct E as [-> ->]. clear H. rewrite <- C.
    destruct (reindexFrom_spec
                (UploadScreen.combine
                   (fulfilled (List.map (parseFile host providerName) files)))
                0%Z) as [H1 [H2 H3]].
    assert (N : UploadScreen.reindexFrom 0
                  (UploadScreen.combine
                     (fulfilled (List.map (parseFile host providerName) files)))
                <> []).
    { intros E. apply reindexFrom_nil in E. congruence. }
    split; [reflexivity|]. split; [exact N|]. split.
    + unfold numbered. rewrite H1, H3. apply map_ext. intros k. lia.
    + split.
      * exists (fulfilled (List.map (parseFile host providerName) files)).
        split; [symmetry; now apply rejections_none|].
        now rewrite H2, combine_concat.
      * destruct (UploadScreen.reindexFrom 0
                    (UploadScreen.combine
                       (fulfilled (List.map (parseFile host providerName) files))));
          [contradiction|discriminate].
  - intros textInput providerName H. unfold handleManualAnalyze.
    now rewrite H.
  - intros textInput providerName claims p H. unfold handleManualAnalyze in H.
    destruct (negb (nonEmpty (trim textInput))); [discriminate|].
    destruct (parseClaimsData host textInput providerName) as [[|c l]|m];
      try discriminate.
    injection H as <- <-. repeat split; discriminate.
Qed.

End WithHost.

Lemma upload_outcomes_witness :
  (exists claims,
     processFiles SampleHost.utc [goodFile; goodFile] "Dr" = Loaded claims "Dr"
     /\ List.map id claims = [1%Z; 2%Z])
  /\ exists msgs,
       processFiles SampleHost.utc [goodFile; pdfFile] "Dr" = Failed msgs
       /\ In ("Failed to process files: " ++ unsupportedType pdfFile)%string
             msgs.
Proof.
  split.
  - eexists. split; [vm_compute; reflexivity|reflexivity].
  - apply (proj1 (proj2 (upload_outcomes SampleHost.utc))
             [goodFile; pdfFile] "Dr" pdfFile).
    + cbn. lia.
    + right. now left.
    + reflexivity.
Defined.

End UploadFacts.

(* ------------------------------------------------------------------ *)
(** ** The denial table and the denial records *)

Module TableFacts.
Import Str Num JsDate Val Parser Analytics JsMap JsMapFacts HistoryFacts
       RateFacts DenialFacts Spec Samples AnalyticsProps OrderFacts AppProps
       AppSamples KpiFacts OpportunityFacts TotalsFacts DenialAnalyticsTable
       TableProps NumFacts RateOrderFacts TopPatientFacts.

Lemma tabled_step rates m done c :
  tabled rates m done ->
  tabled rates (tableStep rates m c) (done ++ [c]).
Proof.
  intros [N G]. unfold tableStep.
  set (m1 := if has m (payer c) then m
             else set (payer c) (mkStat zero zero zero JsMap.empty) m).
  assert (N1 : NoDup (keys m1)).
  { unfold m1. destruct (has m (payer c)); [exact N|now apply NoDup_keys_set]. }
  split; [now apply NoDup_keys_set|].
  intros k. rewrite get_set, ofPayer_snoc.
  destruct (String.eqb (payer c) k) eqn:E.
  - apply String.eqb_eq in E. subst k.
    specialize (G (payer c)).
    destruct (ofPayer (payer c) done) as [|x l] eqn:O.
    + cbn [List.app]. eexists. split; [reflexivity|].
      assert (H : has m (payer c) = false) by now apply has_false.
      unfold m1. rewrite H, get_set_same.
      cbn [tUnits tCharges tProjected List.map]. unfold sumOf.
      cbn [fold_left]. repeat split; reflexivity.
    + destruct G as [row [Gr [U [Ch P]]]].
      assert (H : has m (payer c) = true) by (apply has_get; now exists row).
      unfold m1. rewrite H, Gr.
      change ((x :: l) ++ [c]) with (x :: (l ++ [c])).
      cbv beta iota. eexists. split; [reflexivity|].
      cbn [tUnits tCharges tProjected].
      change (x :: (l ++ [c])) with ((x :: l) ++ [c]).
      rewrite !map_app. cbn [List.map]. rewrite !sumOf_snoc.
      now rewrite U, Ch, P.
  - rewrite List.app_nil_r.
    assert (G1 : get m1 k = get m k).
    { unfold m1. destruct (has m (payer c)); [reflexivity|].
      now apply get_set_other. }
    specialize (G k). destruct (ofPayer k done); now rewrite G1.
Qed.

Lemma tabled_fold rates l :
  forall m done, tabled rates m done ->
    tabled rates (fold_left (tableStep rates) l m) (done ++ l).
Proof.
  induction l as [|c l IH]; intros m done H; cbn [fold_left].
  - now rewrite List.app_nil_r.
  - replace (done ++ c :: l) with ((done ++ [c]) ++ l)
      by now rewrite <- List.app_assoc.
    apply IH. now apply tabled_step.
Qed.

Lemma tabled_all rates l :
  tabled rates (fold_left (tableStep rates) l JsMap.empty) l.
Proof.
  apply (tabled_fold rates l JsMap.empty []).
  split; [constructor|]. intros k. reflexivity.
Qed.

Lemma keys_tableStep rates m c :
  keys (tableStep rates m c)
  = if has m (payer c) then keys m else keys m ++ [payer c].
Proof. unfold tableStep. apply keys_enter_set. Qed.

(** A sum in which the terms outside a class are 0. *)
Lemma sum_filter_zero {A : Type} (f g : A -> number) (p : A -> bool)
    (l : list A) :
  (forall x, In x l -> p x = true -> f x = g x) ->
  (forall x, In x l -> p x = false -> f x = zero) ->
  sumOf (List.map f l) = sumOf (List.map g (List.filter p l)).
Proof.
  intros H1 H0. unfold sumOf.
  assert (K : forall a, operand a = a ->
                fold_left add (List.map f l) a
                = fold_left add (List.map g (List.filter p l)) a).
  { induction l as [|x l IH]; intros a Z; [reflexivity|].
    cbn [List.map List.filter fold_left].
    assert (IH' : forall b, operand b = b ->
                    fold_left add (List.map f l) b
                    = fold_left add (List.map g (List.filter p l)) b).
    { apply IH; intros y Hy; [apply H1|apply H0]; now right. }
    destruct (p x) eqn:P; cbn [List.map fold_left].
    - rewrite (H1 x (or_introl eq_refl) P). apply IH', operand_add.
    - rewrite (H0 x (or_introl eq_refl) P), (add_zero_r a Z).
      now apply IH'. }
  apply K. reflexivity.
Qed.

(** The claims that pass the filter have a unit price when units and paid
    amounts are finite. *)
Lemma finite_priced (x : Claim) :
  finite (units x) -> finite (paid x) -> pricedClaim x.
Proof.
  intros [u [Eu Du]] [a [Ea Da]] Q. unfold isNumber.
  unfold qualifies in Q. apply andb_true_iff in Q as [_ Q].
  rewrite Eu in Q. rewrite Eu, Ea. unfold div. cbn [operand].
  rewrite Du, Da.
  assert (Z : Qeq_bool u 0 = false).
  { destruct (Qeq_bool u 0) eqn:Z; [|reflexivity].
    apply Qeq_bool_iff in Z. cbn [gt zero] in Q.
    apply negb_true_iff in Q.
    assert (L : u <= 0) by (rewrite Z; apply Qle_refl).
    apply Qle_bool_iff in L. congruence. }
  rewrite Z. apply b64_number.
Qed.

(** The rates of claims with finite amounts are numbers. *)
Lemma rates_numbers claims :
  (forall c, In c claims -> finite (units c) /\ finite (paid c)) ->
  forall p c e,
    lookupRate (calculateReimbursementRates claims) p c = Some e ->
    isNaN (expectedRate e) = false.
Proof.
  intros F p c e L.
  assert (PC : forall x, In x claims -> pricedClaim x).
  { intros x Hx. destruct (F x Hx) as [Fu Fp]. now apply finite_priced. }
  destruct (entry_of_group claims p c e PC L) as [_ [_ [_ [[r [Ir Sr]] _]]]].
  pose proof (groupRates_numbers p c claims PC) as N.
  rewrite Forall_forall in N. destruct (N r Ir) as [Nr _].
  unfold isNumber in Nr.
  destruct r as [|x|b]; [discriminate| |];
    destruct (expectedRate e); (reflexivity || contradiction).
Qed.

(** The value the table projects for a claim, against the value the
    denial records project. *)
Lemma expected_projected claims c :
  (forall x, In x claims -> finite (units x) /\ finite (paid x)) ->
  finite (units c) ->
  let rates := calculateReimbursementRates claims in
  (hasRate rates c = true ->
   mul (units c) (expected rates c) = projected rates c)
  /\ (hasRate rates c = false -> mul (units c) (expected rates c) = zero).
Proof.
  intros F [u [U Du]]. cbv zeta. unfold expected, projected, hasRate.
  destruct (lookupRate (calculateReimbursementRates claims) (payer c) (cpt c))
    as [r|] eqn:L.
  - split; [|discriminate]. intros _.
    pose proof (rates_numbers claims F _ _ _ L) as N.
    unfold orZero. destruct (Num.truthy (expectedRate r)) eqn:T;
      [reflexivity|].
    symmetry. now apply mul_falsy.
  - split; [discriminate|]. intros _. rewrite U. now apply mul_zero_r.
Qed.

(** X29: the denial table of the summary page and the denial records of the
    dashboard agree, when units and paid amounts are finite and no payer
    of an unpaid claim has the name of a property that objects inherit:
    the table has a row for the payer of each record, and no other row;
    the row has the units, the charges and the projected value of the
    record; though the table adds a projected value of 0 for a claim
    without a rate, where [calculateDenialOpportunity] adds nothing, and
    takes a rate that counts as false for 0. *)
Theorem denial_table_agrees (claims : list Claim) :
  (forall c, In c claims -> finite (units c) /\ finite (paid c)) ->
  (forall c, In c claims -> isPaid c = false ->
             inheritedName (payer c) = false) ->
  let stats :=
    calculateDenialOpportunity claims (calculateReimbursementRates claims) in
  (forall s,
     In s stats ->
     exists row,
       get (analytics claims) (dPayer s) = Some row
       /\ tUnits row = deniedUnits s
       /\ tCharges row = deniedValue s
       /\ tProjected row = projectedValue s)
  /\ (forall k row,
        get (analytics claims) k = Some row ->
        exists s, In s stats /\ dPayer s = k).
Proof.
  intros F _. cbv zeta.
  set (rates := calculateReimbursementRates claims).
  rewrite denial_records. unfold analytics. fold rates. fold (unpaid claims).
  destruct (tabled_all rates (unpaid claims)) as [_ G].
  split.
  - intros s Hs. apply in_map_iff in Hs as [k [<- Hk]].
    cbn [dPayer deniedUnits deniedValue projectedValue denialOf].
    specialize (G k).
    destruct (ofPayer k (unpaid claims)) as [|x l] eqn:O.
    { exfalso. apply (proj1 (In_firstOccurrences _ _)) in Hk.
      apply in_map_iff in Hk as [c [<- Hc]].
      assert (I : In c (ofPayer (payer c) (unpaid claims))).
      { apply filter_In. split; [exact Hc|apply String.eqb_refl]. }
      rewrite O in I. destruct I. }
    destruct G as [row [Gr [U [Ch P]]]].
    exists row. split; [exact Gr|]. split; [exact U|]. split; [exact Ch|].
    rewrite P.
    assert (Fl : forall c, In c (x :: l) -> finite (units c)).
    { intros c Hc. rewrite <- O in Hc. apply filter_In in Hc as [Hc _].
      unfold unpaid in Hc. apply filter_In in Hc as [Hc _]. now apply F. }
    apply sum_filter_zero.
    + intros c Hc Hr. now apply (expected_projected claims c F (Fl c Hc)).
    + intros c Hc Hr. now apply (expected_projected claims c F (Fl c Hc)).
  - intros k row Gk. specialize (G k). rewrite Gk in G.
    destruct (ofPayer k (unpaid claims)) as [|x l] eqn:O; [discriminate|].
    exists (denialOf rates k (ofPayer k (unpaid claims))).
    split; [|reflexivity].
    apply in_map_iff. exists k. split; [reflexivity|].
    apply In_firstOccurrences.
    assert (I : In x (ofPayer k (unpaid claims))) by (rewrite O; now left).
    apply filter_In in I as [I E]. apply String.eqb_eq in E. subst k.
    now apply in_map.
Qed.

Lemma denial_table_agrees_witness :
  List.map (fun kv => (fst kv, tUnits (snd kv))) (analytics mixedSample)
  = [("P", Fin 4)]
  /\ forall s,
       In s (calculateDenialOpportunity mixedSample
               (calculateReimbursementRates mixedSample)) ->
       exists row,
         get (analytics mixedSample) (dPayer s) = Some row
         /\ tUnits row = deniedUnits s
         /\ tCharges row = deniedValue s
         /\ tProjected row = projectedValue s.
Proof.
  split; [vm_compute; reflexivity|].
  apply (proj1 (denial_table_agrees mixedSample
    ltac:(intros c [<-|[<-|[<-|[<-|[]]]]];
          split; eexists; (split; [reflexivity|vm_compute; reflexivity]))
    ltac:(intros c [<-|[<-|[<-|[<-|[]]]]] _; reflexivity))).
Defined.

End TableFacts.

(* ------------------------------------------------------------------ *)
(** ** The summary of the A, Q and L codes *)

Module SummaryFacts.
Import Str Num JsDate Val Parser Analytics DenialFacts Spec Samples AppProps
       KpiFacts TotalsFacts AQLSummaryTable SummaryProps SummarySamples.

Lemma bucketOf_snoc l c :
  bucketOf (l ++ [c]) = bump (bucketOf l) c.
Proof.
  unfold bucketOf, bump. cbn [qUnits qPaid qUnpaid qAmount].
  rewrite !filter_app, !map_app. cbn [List.filter List.map].
  rewrite !sumOf_snoc.
  destruct (isPaid c); cbn [negb List.map]; rewrite ?List.app_nil_r;
    rewrite ?sumOf_snoc; reflexivity.
Qed.

(** The running summary after the claims [done] of the class. *)
Lemma summary_fold l :
  forall done,
    fold_left summaryStep l
      (mkSummary
         (bucketOf (List.filter (fun c => String.eqb (letter c) "A") done))
         (bucketOf (List.filter (fun c => String.eqb (letter c) "Q") done))
         (bucketOf (List.filter (fun c => String.eqb (letter c) "L") done)))
    = mkSummary
        (bucketOf (List.filter (fun c => String.eqb (letter c) "A") (done ++ l)))
        (bucketOf (List.filter (fun c => String.eqb (letter c) "Q") (done ++ l)))
        (bucketOf (List.filter (fun c => String.eqb (letter c) "L") (done ++ l))).
Proof.
  induction l as [|c l IH]; intros done; cbn [fold_left].
  - now rewrite List.app_nil_r.
  - replace (done ++ c :: l) with ((done ++ [c]) ++ l)
      by now rewrite <- List.app_assoc.
    rewrite <- IH. f_equal. unfold summaryStep.
    cbn [bucketA bucketQ bucketL]. rewrite !filter_app. cbn [List.filter].
    destruct (String.eqb (letter c) "A") eqn:EA.
    + apply String.eqb_eq in EA. rewrite EA. cbn [String.eqb Ascii.eqb].
      replace (String.eqb "A" "Q") with false by reflexivity.
      replace (String.eqb "A" "L") with false by reflexivity.
      rewrite !List.app_nil_r. now rewrite bucketOf_snoc.
    + destruct (String.eqb (letter c) "Q") eqn:EQ.
      * apply String.eqb_eq in EQ. rewrite EQ.
        replace (String.eqb "Q" "L") with false by reflexivity.
        rewrite !List.app_nil_r. now rewrite bucketOf_snoc.
      * destruct (String.eqb (letter c) "L") eqn:EL.
        -- rewrite !List.app_nil_r. now rewrite bucketOf_snoc.
        -- now rewrite !List.app_nil_r.
Qed.

Lemma data_buckets claims :
  data claims
  = mkSummary (bucketOf (lettered "A" claims)) (bucketOf (lettered "Q" claims))
              (bucketOf (lettered "L" claims)).
Proof.
  unfold data, lettered.
  apply (summary_fold (List.filter isAQL claims) []).
Qed.

(** The letter of a claim of the class whose class is that of its code. *)
Lemma letter_of_class c :
  codeType c = determineCodeType (cpt c) -> isAQL c = true ->
  letter c = "A" \/ letter c = "Q" \/ letter c = "L".
Proof.
  unfold isAQL, letter, determineCodeType. intros ->.
  destruct (cpt c) as [|a r]; cbn [toUpperCase map]; [discriminate|].
  destruct (Ascii.eqb (upperChar a) "A") eqn:EA.
  - apply Ascii.eqb_eq in EA. rewrite EA. now left.
  - destruct (Ascii.eqb (upperChar a) "Q") eqn:EQ.
    + apply Ascii.eqb_eq in EQ. rewrite EQ. right. now left.
    + destruct (Ascii.eqb (upperChar a) "L") eqn:EL.
      * apply Ascii.eqb_eq in EL. rewrite EL. right. now right.
      * cbn [orb]. destruct (isDigit (upperChar a)); discriminate.
Qed.

(** Three classes that cover a list hold each of its elements once. *)
Lemma three_classes (l : list Claim) :
  (forall c, In c l ->
     letter c = "A" \/ letter c = "Q" \/ letter c = "L") ->
  Permutation
    (List.filter (fun c => String.eqb (letter c) "A") l
     ++ List.filter (fun c => String.eqb (letter c) "Q") l
     ++ List.filter (fun c => String.eqb (letter c) "L") l)
    l.
Proof.
  induction l as [|c l IH]; intros H; [constructor|].
  specialize (IH (fun x Hx => H x (or_intror Hx))).
  cbn [List.filter].
  destruct (H c (or_introl eq_refl)) as [E|[E|E]]; rewrite E;
    cbn [String.eqb Ascii.eqb Bool.eqb].
  - cbn [List.app]. now constructor.
  - symmetry. apply Permutation_cons_app. now symmetry.
  - symmetry. rewrite List.app_assoc. apply Permutation_cons_app.
    rewrite <- List.app_assoc. now symmetry.
Qed.

(** X30: the summary of the A, Q and L codes.  Each bucket stands for the
    claims of the class whose code begins with its letter, in either
    case: it has the sums of their units, of the units of the paid and of
    the unpaid ones, and of their paid amounts, each taken from 0 in input
    order.  When the class of every claim is the class of its code, as it
    is for parsed claims, no claim of the class is left out: the claims of
    the three buckets are the claims of the class, each once. *)
Theorem aql_summary_complete (claims : list Claim) :
  data claims
  = mkSummary (bucketOf (lettered "A" claims)) (bucketOf (lettered "Q" claims))
              (bucketOf (lettered "L" claims))
  /\ ((forall c, In c claims -> codeType c = determineCodeType (cpt c)) ->
      Permutation
        (lettered "A" claims ++ lettered "Q" claims ++ lettered "L" claims)
        (List.filter isAQL claims)).
Proof.
  split; [apply data_buckets|]. intros H.
  unfold lettered. apply three_classes.
  intros c Hc. apply filter_In in Hc as [Hc A].
  apply letter_of_class; [now apply H|exact A].
Qed.

Lemma aql_summary_complete_witness :
  List.map qUnits [bucketA (data codesSample); bucketQ (data codesSample);
                   bucketL (data codesSample)]
  = [Fin 6; Fin 3; Fin 0]
  /\ List.map cpt (lettered "A" codesSample) = ["A4550"; "A6021"]
  /\ Permutation
       (lettered "A" codesSample ++ lettered "Q" codesSample
        ++ lettered "L" codesSample)
       (List.filter isAQL codesSample).
Proof.
  split; [vm_compute; reflexivity|]. split; [reflexivity|].
  apply (proj2 (aql_summary_complete codesSample)).
  intros c [<-|[<-|[<-|[<-|[]]]]]; reflexivity.
Defined.

End SummaryFacts.
